(* ===== verification/_CoqProject ===== *)
-Q . S2P
Prelude.v
Float64.v
FloatInt.v
FloatBound.v
FloatOrder.v
BaseTypes.v
Wire.v
TDigest.v
Counter.v
Telemetry.v
ControlStats.v
Memory.v
Slab.v
FreeList.v
SlabHeap.v
Io.v
Threads.v
Rpc.v
CoreLocalCache.v
Sharding.v
DiskModels.v
DiskMonitor.v
RwIsolation.v
ProfileGuidedPolicy.v
Configuration.v
Messages.v
CalibratedTime.v
StorageServer.v
ControlScheduler.v
Controller.v
ControllerConnHandler.v
Congestion.v
DataPlane.v
DataPlaneLaws.v
DataPlaneScheduler.v
BlockResolver.v
VirtualDiskRemote.v
VirtualDiskRemoteLaws.v
ReadYourWrites.v
Deployment.v
BlkDev.v
