(* ===== verification/Prelude.v ===== *)
(** * Sandook: a verification development

    Sandook is a disaggregated block store (the C++ sources under
    [src/sandook]). Virtual disks store their sectors in blocks of remote disk
    servers; a controller registers both, hands out blocks, and decides which
    servers serve reads and which serve writes, and with what weight; every
    virtual disk schedules its own requests over the servers by those decisions
    and by the congestion the servers report. All of them talk by remote
    procedure calls, run on user-level threads and share a slab allocator. A
    virtual disk can also be exported as a block device.

    The functions of the program are functions here. State is passed
    explicitly; an operation that can throw, fail an assertion or run into
    undefined behaviour returns an [outcome], whose faults say which; an error
    the program returns is a value of [Status]. Machine integers are integers of
    [Z] with their wrap-around written out, [double] is IEEE binary64, memory is a
    map from addresses to bytes. Threads are modelled where they share state: the
    atomic sections of the code are the steps of a machine, or the events of a
    run, and theorems quantify over all their orders.

    ** The files

    Foundations. [Prelude] has outcomes, structure updates, machine integers,
    arrays and the lemmas and tactics all files share. [Float64], [FloatInt],
    [FloatBound] and [FloatOrder] are binary64 arithmetic and what the program
    relies on of it. [Memory] is byte memory and [Wire] the layout of structures
    in it. [BaseTypes] has the types and constants of [base/].

    The runtime. [Slab] is [mem/slab.cc] and [mem_hook.cc]; [FreeList] shows that
    a list of free pointers, kept in the free blocks themselves, is a stack, and
    [SlabHeap] that the allocator implements a heap. [Threads] is
    [bindings/thread.cc], [Rpc] is [rpc/rpc.cc], [Io] is [base/io.cc] and
    [CalibratedTime] is [base/time.h] and [utils/calibrated_time.cc]. [Counter],
    [CoreLocalCache] and [Telemetry] are the per-core counter, the per-core cache
    and the telemetry streams.

    Messages and configuration. [Messages] is [base/msg.h], [Configuration] is
    [config/].

    The controller. [ControlStats] is its statistics table; [DiskModels] is
    [disk_model/]; [RwIsolation] and [ProfileGuidedPolicy] are the policies of
    [scheduler/control_plane] and [ControlScheduler] the scheduler over them;
    [Controller] is the agent and the block allocator, [ControllerConnHandler]
    the handlers of messages.

    The disk servers. [TDigest] is [lib/tdigest], [DiskMonitor] is
    [disk_server/disk_monitor.h], [StorageServer] the server, its three back ends
    and its handlers.

    The virtual disks. [Congestion], [DataPlane], [DataPlaneLaws] and
    [DataPlaneScheduler] are [scheduler/data_plane]. [Sharding] is
    [virtual_disk_base.cc], [BlockResolver] is [block_resolver.h],
    [VirtualDiskRemote] is [virtual_disk_remote.cc], with its invariant in
    [VirtualDiskRemoteLaws] and its main theorem in [ReadYourWrites].
    [Deployment] puts the remote disk on the controller. [BlkDev] is the local
    disk and the block device.

    ** Interfaces

    Where components meet, a class says what one promises the other.
    [BaseScheduler] with [BaseSchedulerLaws] is a control-plane policy;
    [BaseReadScheduler] and [BaseWriteScheduler] with their laws are data-plane
    policies; a back end of a disk server has the operations of the virtual
    class and, as a second class, what they promise; the remote disk asks of its
    controller a contract that [Deployment] proves of the controller modelled
    here. What is not in the sources - flash devices, files, connections, the
    random engines, sine and arcsine, the C library's allocator - is a class or a
    parameter with its documented behaviour as laws.

    ** What is shown

    - Data. A read of a remote disk that starts after a write has completed and
      completes itself has returned what was written, if nothing else writes the
      sector meanwhile, under every interleaving, retry, rejection and loss; the
      controller hands out no block of a registered server twice; a disk server
      returns what was written to it; a request processes each sector once.
    - Scheduling. Modes and weights keep reads and writes apart as the policies
      intend; the scheduler applies exactly what its policy computes; reads go to
      a holder of the block and writes to distinct servers; rate limits stay in
      their bounds and recover.
    - Runtime. The allocator refines a heap; calls return, once, with their own
      replies, and within the credits; joining a thread loses no wake-up;
      calibrated clocks agree up to half a round trip; nothing in a cache, a
      work queue, a telemetry stream or a completion queue is lost or doubled.
    - Messages are read back as they were built.
    - Termination. The loops and selections whose end is not obvious return.
    - Defects. Theorems whose conclusion is a fault or a wrong result show where
      the code does not do what it means to: a flow that is closed drops what it
      gathered, a handler outlives its server, [Detach] races with the thread, the
      block device hides errors, a sector that is being written again reads as
      whatever its new block held.

    ** Bounds and fuel

    Recursion that is not structural has fuel. The loops of the allocator are
    given the length of the list they empty, those of [Io] one unit per byte, the
    allocation of a disk one per sector and the splitting of a string one per
    character; in each case a theorem shows that this is enough, and running out
    is the fault [NoProgress], which the theorems exclude. The search over
    stability bounds is shown to end within twenty rounds. The fuel of the remote
    disk bounds the calls for blocks in one [reserve] and is universally
    quantified.
    Counts that the program keeps in 64 bits are assumed not to reach 2^64 where a
    theorem says so.

    ** Builds

    [src/CMakeLists.txt] builds in Release mode unless told otherwise, with
    [-DNDEBUG] and [-ffast-math]. Two choices made here depend on that.

    Floating point. [double] is IEEE binary64, evaluated as written. With
    [-ffast-math] the compiler may reassociate, flush denormal numbers and assume
    that there are no NaNs or infinities, so the theorems that compute with
    doubles (modes, weights, disk models, loads, rate limits, digests) are about
    the sources under IEEE arithmetic, as in a Debug build; they do not bind the
    Release build.

    Assertions. [BUG_ON] is a check everywhere. An [assert] is a check, with the
    fault [BugOn], in [BlockResolver], [DiskMonitor], [Io], [Messages],
    [StorageServer], [Threads] and [VirtualDiskRemote]: where a theorem there
    assumes that an operation ended, it says nothing about a Release build that
    went past a failed one. An [assert] is left out, as in a Release build, in the
    controller ([Controller], [ControlStats]), the data plane ([DataPlane]) and
    [DiskModels]: what holds of every run there also holds of the runs of a build
    with assertions, but that an operation returns is shown for the build without
    them.

    ** Not modelled

    The ublk, SPDK, jsoncpp and runtime libraries, which are not part of the
    sources, and the bindings that only forward to them ([bindings/net.h],
    [rcu.h], [timer.h], [runtime.h], most of [sync.h]); establishing connections;
    creating and configuring the block device; log output and the text of
    telemetry and of error messages; main programs, load generators, tests,
    measurement programs and scripts; [rw_isolation.h], [block_cache.h],
    [lib/stmpct] and [lib/ewma], which nothing uses. Memory is sequentially
    consistent throughout. An operation that runs with preemption disabled, or
    under a lock, is one step, except in [Threads], where the lock itself is at
    issue. *)

From stdpp Require Export base tactics option list list_numbers numbers gmap sets fin_maps.
From Stdlib Require Export ZArith Lia Sorted.

Local Open Scope Z_scope.

(** ** Structures

    [s <| f := v |>] is the structure [s] with field [f] replaced, and
    [s <| f ::= g |>] with [g] applied to it. A structure type is [Settable]
    once its eta expansion is declared; updates then simplify to the
    constructor applied to the untouched fields. *)

Class Settable (R : Type) := eta_of : R -> R.
Class FieldSetter {R E : Type} (getter : R -> E) := update_field : (E -> E) -> R -> R.
#[global] Arguments update_field {R E} getter {_} _ _ /.

Ltac head_of t := lazymatch t with ?f _ => head_of f | _ => t end.

Ltac settable_setter R E getter :=
  let i := lazymatch constr:(@eta_of R _) with @eta_of _ ?i => i end in
  let h := head_of i in
  exact (fun (upd : E -> E) (r : R) => ltac:(
    let b := eval cbv beta delta [eta_of h] in (@eta_of R i r) in
    match b with
    | context C [getter r] => let b' := context C [upd (getter r)] in exact b'
    end)).

#[export] Hint Extern 0 (@FieldSetter ?R ?E ?getter) =>
  settable_setter R E getter : typeclass_instances.

Notation "r <| f ::= g |>" := (update_field f g r)
  (at level 12, f at next level, left associativity).
Notation "r <| f := v |>" := (update_field f (fun _ => v) r)
  (at level 12, f at next level, left associativity).

Notation "'settable!' mk < f1 ; .. ; fn >" :=
  (fun x => .. (mk (f1 x)) .. (fn x)) (at level 0, mk at level 10, f1, fn at level 9, only parsing).

(** ** Machine integers

    A [w]-bit unsigned integer is a [Z] in [0, 2^w); arithmetic on it is
    arithmetic of [Z] followed by the wrap of its type. *)

Definition wrap (w z : Z) : Z := z mod 2 ^ w.
Definition swrap (w z : Z) : Z := (z + 2 ^ (w - 1)) mod 2 ^ w - 2 ^ (w - 1).

Abbreviation u8 := (wrap 8).
Abbreviation u16 := (wrap 16).
Abbreviation u32 := (wrap 32).
Abbreviation u64 := (wrap 64).
Abbreviation i32 := (swrap 32).
Abbreviation i64 := (swrap 64).

#[global] Arguments wrap : simpl never.
#[global] Arguments swrap : simpl never.

Definition in_u (w z : Z) : Prop := 0 <= z < 2 ^ w.

(** ** Outcomes of a call

    A C++ call either returns or stops its thread: [std::array::at] and
    [std::vector::at] raise [std::out_of_range], [BUG_ON] aborts the process,
    [throw] raises [std::runtime_error], and an operation the language leaves
    undefined has no value at all. *)

Inductive fault :=
| OutOfRange
| RuntimeError
| SystemError
| BugOn
| Undefined
| NoProgress.

Inductive outcome (A : Type) :=
| Ok (a : A)
| Fault (f : fault).
Arguments Ok {A} a.
Arguments Fault {A} f.

#[global] Instance fault_eq_dec : EqDecision fault.
Proof. solve_decision. Defined.

#[global] Instance outcome_ret : MRet outcome := fun A a => Ok a.
#[global] Instance outcome_bind : MBind outcome :=
  fun A B f m => match m with Ok a => f a | Fault e => Fault e end.
#[global] Instance outcome_fmap : FMap outcome :=
  fun A B f m => match m with Ok a => Ok (f a) | Fault e => Fault e end.

(** A signed result is undefined outside its type's range. *)
Definition signed_result (w z : Z) : outcome Z :=
  if decide (- 2 ^ (w - 1) <= z < 2 ^ (w - 1)) then Ok z else Fault Undefined.

(** [if (c) abort]: the thread goes on only when [c] holds. *)
Definition require (c : bool) (f : fault) : outcome unit :=
  if c then Ok tt else Fault f.

(** The member function [at] of arrays and vectors, reading and writing. *)
Definition at_ {A} (l : list A) (i : Z) : outcome A :=
  if decide (i < 0) then Fault OutOfRange
  else match l !! Z.to_nat i with Some a => Ok a | None => Fault OutOfRange end.

Definition at_put {A} (l : list A) (i : Z) (a : A) : outcome (list A) :=
  if decide (0 <= i < Z.of_nat (length l)) then Ok (<[Z.to_nat i := a]> l)
  else Fault OutOfRange.

(** A loop over the elements of a container whose body may stop the thread. *)
Fixpoint ofold {A S} (f : S -> A -> outcome S) (s : S) (l : list A) : outcome S :=
  match l with
  | [] => Ok s
  | a :: l' => s' ← f s a; ofold f s' l'
  end.

(** The indices of a counting loop [for (i = lo; i < lo + n; i++)]. *)
Definition zrange (lo : Z) (n : nat) : list Z := seqZ lo (Z.of_nat n).

(** [std::set<T>::insert] on the set's elements in increasing order. *)
Fixpoint set_insert (x : Z) (l : list Z) : list Z :=
  match l with
  | [] => [x]
  | y :: l' => if x <? y then x :: l else if x =? y then l else y :: set_insert x l'
  end.

(** Dereferencing a pointer that may be null. *)
Definition deref {A} (p : option A) : outcome A :=
  match p with Some a => Ok a | None => Fault Undefined end.

Fixpoint zsum (l : list Z) : Z :=
  match l with [] => 0 | x :: l' => x + zsum l' end.

(** ** Automation

    [sandook] holds the lemmas that close side conditions on widths, indices
    and lengths; [simplify_outcome] inverts a run that returned. *)

Create HintDb sandook.

Lemma bind_Ok {A B} (f : A -> outcome B) (m : outcome A) (b : B) :
  (m ≫= f) = Ok b <-> exists a, m = Ok a /\ f a = Ok b.
Proof. destruct m; simpl; naive_solver. Qed.

Lemma bind_Fault {A B} (f : A -> outcome B) (m : outcome A) (e : fault) :
  (m ≫= f) = Fault e <-> m = Fault e \/ exists a, m = Ok a /\ f a = Fault e.
Proof. destruct m; simpl; naive_solver. Qed.

Lemma fmap_Ok {A B} (f : A -> B) (m : outcome A) (b : B) :
  (f <$> m) = Ok b <-> exists a, m = Ok a /\ b = f a.
Proof. destruct m; simpl; naive_solver. Qed.

Lemma require_Ok c f u : require c f = Ok u <-> c = true.
Proof. destruct c, u; simpl; naive_solver. Qed.

Lemma mret_Ok {A} (a b : A) : (mret a : outcome A) = Ok b <-> a = b.
Proof. unfold mret, outcome_ret. naive_solver. Qed.

Ltac destruct_pairs := repeat match goal with p : (_ * _)%type |- _ => destruct p end.

Ltac simplify_outcome :=
  repeat match goal with
  | H : (Ok _ ≫= _) = Ok _ |- _ => simpl in H
  | H : (Fault _ ≫= _) = Ok _ |- _ => discriminate H
  | H : (_ ≫= _) = Ok _ |- _ =>
      let a := fresh "v" in let H1 := fresh "Hrun" in
      apply bind_Ok in H as (a & H1 & H)
  | H : (_ <$> _) = Ok _ |- _ =>
      let a := fresh "v" in let H1 := fresh "Hrun" in
      apply fmap_Ok in H as (a & H1 & H)
  | H : require _ _ = Ok _ |- _ => apply require_Ok in H
  | H : mret _ = Ok _ |- _ => apply mret_Ok in H
  | H : Ok _ = Ok _ |- _ => injection H as H
  | H : Fault _ = Ok _ |- _ => discriminate H
  | H : Ok _ = Fault _ |- _ => discriminate H
  end; simplify_eq/=.

(** ** Lists *)

Lemma omap_length_le {A B} (f : A -> option B) l : (length (omap f l) <= length l)%nat.
Proof. induction l as [|x l IH]; csimpl; [done|]. destruct (f x); csimpl; lia. Qed.

(** ** Widths *)

Lemma wrap_range w z : 0 <= w -> 0 <= wrap w z < 2 ^ w.
Proof. intros. apply Z.mod_pos_bound. lia. Qed.

Lemma wrap_small w z : 0 <= z < 2 ^ w -> wrap w z = z.
Proof. intros. apply Z.mod_small. lia. Qed.

Lemma wrap_idemp w z : wrap w (wrap w z) = wrap w z.
Proof. apply Zmod_mod. Qed.

Lemma wrap_add_l w a b : wrap w (wrap w a + b) = wrap w (a + b).
Proof. apply Zplus_mod_idemp_l. Qed.

Lemma wrap_add_r w a b : wrap w (a + wrap w b) = wrap w (a + b).
Proof. apply Zplus_mod_idemp_r. Qed.

Lemma swrap_small w z : 0 < w -> - 2 ^ (w - 1) <= z < 2 ^ (w - 1) -> swrap w z = z.
Proof.
  intros Hw Hz. unfold swrap.
  assert (2 ^ w = 2 * 2 ^ (w - 1)) by (rewrite <- Z.pow_succ_r; [f_equal|]; lia).
  rewrite Z.mod_small; lia.
Qed.

#[export] Hint Resolve wrap_range : sandook.

Lemma signed_result_Ok w z z' :
  signed_result w z = Ok z' <-> z' = z /\ - 2 ^ (w - 1) <= z < 2 ^ (w - 1).
Proof. unfold signed_result. destruct (decide _); naive_solver. Qed.

(** ** Indexing *)

Lemma at_Ok {A} (l : list A) i a : at_ l i = Ok a <-> 0 <= i /\ l !! Z.to_nat i = Some a.
Proof.
  unfold at_. destruct (decide (i < 0)); [naive_solver lia|].
  destruct (l !! Z.to_nat i); naive_solver lia.
Qed.

Lemma at_Fault {A} (l : list A) i e :
  at_ l i = Fault e <-> e = OutOfRange /\ ~ (0 <= i < Z.of_nat (length l)).
Proof.
  unfold at_. destruct (decide (i < 0)); [naive_solver lia|].
  destruct (l !! Z.to_nat i) eqn:E.
  - apply lookup_lt_Some in E. naive_solver lia.
  - apply lookup_ge_None in E. naive_solver lia.
Qed.

Lemma at_in_range {A} (l : list A) i :
  0 <= i < Z.of_nat (length l) -> exists a, at_ l i = Ok a.
Proof.
  intros. destruct (lookup_lt_is_Some_2 l (Z.to_nat i)) as [a Ha]; [lia|].
  exists a. apply at_Ok. split; [lia|done].
Qed.

Lemma at_put_Ok {A} (l l' : list A) i a :
  at_put l i a = Ok l' <-> 0 <= i < Z.of_nat (length l) /\ l' = <[Z.to_nat i := a]> l.
Proof. unfold at_put. destruct (decide _); naive_solver. Qed.

Lemma at_put_in_range {A} (l : list A) i a :
  0 <= i < Z.of_nat (length l) -> at_put l i a = Ok (<[Z.to_nat i := a]> l).
Proof. intros. by apply at_put_Ok. Qed.

Lemma at_put_length {A} (l l' : list A) i a : at_put l i a = Ok l' -> length l' = length l.
Proof. intros (? & ->)%at_put_Ok. by rewrite length_insert. Qed.

Lemma at_put_eq {A} (l l' : list A) i a : at_put l i a = Ok l' -> at_ l' i = Ok a.
Proof.
  intros (? & ->)%at_put_Ok. apply at_Ok. split; [lia|].
  rewrite list_lookup_insert_eq; [done|lia].
Qed.

Lemma at_put_ne {A} (l l' : list A) i j a :
  at_put l i a = Ok l' -> i <> j -> at_ l' j = at_ l j.
Proof.
  intros (? & ->)%at_put_Ok ?. unfold at_. destruct (decide (j < 0)); [done|].
  rewrite list_lookup_insert_ne; [done|lia].
Qed.

(** ** Loops *)

Lemma ofold_app {A S} (f : S -> A -> outcome S) s l1 l2 :
  ofold f s (l1 ++ l2) = (s' ← ofold f s l1; ofold f s' l2).
Proof.
  revert s. induction l1 as [|a l1 IH]; intros s; [done|]. simpl.
  destruct (f s a); simpl; [apply IH|done].
Qed.

(** An invariant indexed by the elements already visited. *)
Lemma ofold_ind {A S} (P : list A -> S -> Prop) (f : S -> A -> outcome S) l :
  forall s0 s1, P [] s0 ->
  (forall done a rest s s', l = done ++ a :: rest -> P done s -> f s a = Ok s' -> P (done ++ [a]) s') ->
  ofold f s0 l = Ok s1 -> P l s1.
Proof.
  induction l as [|a l IH] using rev_ind; intros s0 s1 H0 Hstep Hrun.
  - simpl in Hrun. by simplify_eq.
  - rewrite ofold_app in Hrun. simplify_outcome.
    match goal with H : ofold f s0 l = Ok ?s |- _ =>
      assert (P l s) as Hl; [apply (IH s0 s); auto|] end.
    + intros d b r s s' -> Hd Hf. apply (Hstep d b (r ++ [a]) s s'); auto.
      by rewrite <- app_assoc.
    + simpl in Hrun. simplify_outcome. by eapply (Hstep l a []).
Qed.

(** A loop all of whose bodies return under the invariant returns. *)
Lemma ofold_total {A S} (P : list A -> S -> Prop) (f : S -> A -> outcome S) l :
  forall s0, P [] s0 ->
  (forall done a rest s, l = done ++ a :: rest -> P done s ->
     exists s', f s a = Ok s' /\ P (done ++ [a]) s') ->
  exists s1, ofold f s0 l = Ok s1 /\ P l s1.
Proof.
  induction l as [|a l IH] using rev_ind; intros s0 H0 Hstep.
  - by exists s0.
  - destruct (IH s0 H0) as (s & Hs & Hl).
    { intros d b r s -> Hd. apply (Hstep d b (r ++ [a]) s); [|done].
      by rewrite <- app_assoc. }
    destruct (Hstep l a [] s) as (s' & Hf & Hp); [done..|].
    exists s'. rewrite ofold_app, Hs. simpl. rewrite Hf. by split.
Qed.

Lemma elem_of_set_insert x y l : y ∈ set_insert x l <-> y = x \/ y ∈ l.
Proof.
  induction l as [|z l IH]; simpl; [set_solver|].
  destruct (x <? z); [set_solver|]. destruct (x =? z) eqn:E; [|set_solver].
  apply Z.eqb_eq in E. set_solver.
Qed.

(** The elements of a [std::set] are strictly increasing. *)
Lemma set_insert_sorted x l : StronglySorted Z.lt l -> StronglySorted Z.lt (set_insert x l).
Proof.
  induction 1 as [|y l Hl IH Hy]; simpl; [by repeat constructor|].
  destruct (Z.ltb_spec x y).
  - constructor; [by constructor|]. constructor; [done|]. eapply Forall_impl; [exact Hy|]. intros; lia.
  - destruct (Z.eqb_spec x y) as [->|]; [by constructor|]. constructor; [done|].
    rewrite Forall_forall in *. intros z [->|Hz]%elem_of_set_insert; [lia|auto].
Qed.

Lemma sorted_NoDup l : StronglySorted Z.lt l -> NoDup l.
Proof.
  induction 1 as [|y l Hl IH Hy]; [constructor|]. constructor; [|done].
  intros Hin. rewrite Forall_forall in Hy. specialize (Hy y Hin). lia.
Qed.

Lemma set_insert_snoc x l : Forall (fun y => y < x) l -> set_insert x l = l ++ [x].
Proof.
  induction 1 as [|y l Hy _ IH]; [done|]. simpl. rewrite IH.
  rewrite (proj2 (Z.ltb_ge x y)), (proj2 (Z.eqb_neq x y)) by lia. done.
Qed.

Lemma deref_Ok {A} (p : option A) a : deref p = Ok a <-> p = Some a.
Proof. destruct p; naive_solver. Qed.

Lemma zsum_app l1 l2 : zsum (l1 ++ l2) = zsum l1 + zsum l2.
Proof. induction l1; simpl; lia. Qed.

Lemma zsum_nonneg {A} (f : A -> Z) l : (forall x, 0 <= f x) -> 0 <= zsum (f <$> l).
Proof. intros Hf. induction l as [|x l IH]; [done|]. rewrite fmap_cons. cbn. specialize (Hf x). lia. Qed.

Lemma zsum_insert l i x y :
  l !! i = Some x -> zsum (<[i := y]> l) = zsum l - x + y.
Proof.
  revert i. induction l as [|z l IH]; intros [|i] H; simplify_eq/=; [lia|].
  rewrite (IH i H). lia.
Qed.

Lemma zsum_replicate n x : zsum (replicate n x) = Z.of_nat n * x.
Proof. induction n; simpl; lia. Qed.

Lemma zsum_take_S l i x : l !! i = Some x -> zsum (take (S i) l) = zsum (take i l) + x.
Proof. intros. erewrite take_S_r by done. rewrite zsum_app. simpl. lia. Qed.

Lemma zrange_lookup lo n i : (i < n)%nat -> zrange lo n !! i = Some (lo + Z.of_nat i).
Proof. intros. unfold zrange. rewrite lookup_seqZ. lia. Qed.

Lemma zrange_length lo n : length (zrange lo n) = n.
Proof. unfold zrange. rewrite length_seqZ. lia. Qed.

Lemma elem_of_zrange lo n x : x ∈ zrange lo n <-> lo <= x < lo + Z.of_nat n.
Proof. unfold zrange. rewrite elem_of_seqZ. lia. Qed.

Lemma zrange_S lo n : zrange lo (S n) = zrange lo n ++ [lo + Z.of_nat n].
Proof. apply seqZ_S. Qed.

Lemma zrange_cons lo n : zrange lo (S n) = lo :: zrange (lo + 1) n.
Proof. unfold zrange. rewrite seqZ_cons by lia. f_equal. f_equal; lia. Qed.

Lemma zrange_shift a n : map (fun i => a + i) (zrange 0 n) = zrange a n.
Proof. induction n as [|n IH]; [done|]. rewrite !zrange_S, map_app, IH. done. Qed.

Lemma zrange_app lo a b : zrange lo (a + b) = zrange lo a ++ zrange (lo + Z.of_nat a) b.
Proof. unfold zrange. rewrite Nat2Z.inj_add, seqZ_app by lia. done. Qed.

Lemma zrange_NoDup lo n : NoDup (zrange lo n).
Proof. apply NoDup_seqZ. Qed.

#[export] Hint Resolve zrange_NoDup at_put_length : sandook.
#[export] Hint Rewrite @length_insert @zrange_length @length_replicate : sandook.

(** ** Lists of lists *)

Lemma concat_insert_perm {A B} (f : A -> list B) (ls : list A) i x y :
  ls !! i = Some x -> concat (map f (<[i := y]> ls)) ++ f x ≡ₚ concat (map f ls) ++ f y.
Proof.
  revert i. induction ls as [|z ls IH]; intros [|i] Hl; simplify_eq/=.
  - solve_Permutation.
  - rewrite <- !app_assoc. by rewrite (IH i Hl).
Qed.

Lemma NoDup_concat_once {A B} (f : A -> list B) (l : list A) i j x y b :
  NoDup (concat (map f l)) -> l !! i = Some x -> l !! j = Some y -> b ∈ f x -> b ∈ f y -> i = j.
Proof.
  revert i j. induction l as [|z l IH]; intros i j Hn Hi Hj Hx Hy; [done|]. simpl in Hn. apply NoDup_app in Hn as (_ & Hd & Hn).
  assert (forall k u, l !! k = Some u -> b ∈ f u -> b ∈ concat (map f l)) as Hin.
  { intros k u Hk Hu. apply list_elem_of_In, in_concat. exists (f u). split; [|by apply list_elem_of_In].
    apply in_map, list_elem_of_In. by eapply list_elem_of_lookup_2. }
  destruct i as [|i], j as [|j]; simplify_eq/=; [done| | |f_equal; eauto]; exfalso; eapply Hd; eauto.
Qed.

Lemma elem_of_concat_map {A B} (f : A -> list B) (ls : list A) b :
  b ∈ concat (map f ls) <-> exists x, x ∈ ls /\ b ∈ f x.
Proof.
  rewrite list_elem_of_In, in_concat. setoid_rewrite in_map_iff. setoid_rewrite list_elem_of_In. naive_solver.
Qed.
