(* ===== verification/Float64.v ===== *)
(** * IEEE binary64 arithmetic

    The program's [double]s, as the Standard Library's executable
    specification of IEEE 754 (round to nearest, ties to even) at precision 53
    and exponent bound 1024, with the conversions of C++ and the comparisons
    its [std::min], [std::max] and [std::clamp] are written with. The order
    lemmas hold of every double, NaN and infinities included where stated. The
    Release build, with [-ffast-math], need not follow it. *)

From Stdlib Require Export Floats.SpecFloat.
From S2P Require Import Prelude.

Local Open Scope Z_scope.

Declare Scope double_scope.
Delimit Scope double_scope with double.
Bind Scope double_scope with spec_float.

Abbreviation double := spec_float.

Definition dadd : double -> double -> double := SFadd 53 1024.
Definition dsub : double -> double -> double := SFsub 53 1024.
Definition dmul : double -> double -> double := SFmul 53 1024.
Definition ddiv : double -> double -> double := SFdiv 53 1024.
Definition dlt : double -> double -> bool := SFltb.
Definition dle : double -> double -> bool := SFleb.
Definition deq : double -> double -> bool := SFeqb.

Infix "+" := dadd : double_scope.
Infix "-" := dsub : double_scope.
Infix "*" := dmul : double_scope.
Infix "/" := ddiv : double_scope.
Infix "<?" := dlt : double_scope.
Infix "<=?" := dle : double_scope.
Infix "=?" := deq : double_scope.
Notation "x >? y" := (dlt y x) (only parsing) : double_scope.
Notation "x >=? y" := (dle y x) (only parsing) : double_scope.

(** An integer converted to [double]: rounded to nearest even. *)
Definition of_int (z : Z) : double := binary_normalize 53 1024 z 0 false.

(** The decimal literal [n / d], [n] and [d] exact: correctly rounded. *)
Definition dlit (n d : Z) : double := ddiv (of_int n) (of_int d).

Definition is_nan (x : double) : bool :=
  match x with S754_nan => true | _ => false end.

(** The integer a finite double truncates to. *)
Definition dtrunc (x : double) : option Z :=
  match x with
  | S754_zero _ => Some 0
  | S754_finite s m e =>
      let a := if decide (0 <= e) then Z.pos m * 2 ^ e else Z.pos m / 2 ^ (- e) in
      Some (if s then - a else a)
  | S754_infinity _ | S754_nan => None
  end.

(** [static_cast<uint64_t>]: undefined when the truncated value does not fit. *)
Definition to_uint (w : Z) (x : double) : outcome Z :=
  match dtrunc x with
  | Some z => if decide (0 <= z < 2 ^ w) then Ok z else Fault Undefined
  | None => Fault Undefined
  end.

(** [std::min] and [std::max] return their first argument unless the
    comparison picks the second. *)
Definition dmin (a b : double) : double := if dlt b a then b else a.
Definition dmax (a b : double) : double := if dlt a b then b else a.

(** [std::numeric_limits<double>::min()] and [max()]. *)
Definition double_min : double := S754_finite false (2 ^ 52) (-1074).
Definition double_max : double := S754_finite false (2 ^ 53 - 1) 971.

#[global] Arguments dadd : simpl never.
#[global] Arguments dsub : simpl never.
#[global] Arguments dmul : simpl never.
#[global] Arguments ddiv : simpl never.
#[global] Arguments dlt : simpl never.
#[global] Arguments dle : simpl never.
#[global] Arguments deq : simpl never.
#[global] Arguments of_int : simpl never.
#[global] Arguments dlit : simpl never.
#[global] Arguments dtrunc : simpl never.
#[global] Arguments to_uint : simpl never.

#[global] Instance double_eq_dec : EqDecision double.
Proof. solve_decision. Defined.

(** ** Order *)

Lemma dcompare_refl x : is_nan x = false -> SFcompare x x = Some Eq.
Proof.
  destruct x as [[]|[]| |[] m e]; try done; intros _; simpl;
    rewrite Z.compare_refl, Pos.compare_cont_refl; done.
Qed.

Lemma dcompare_swap x y c : SFcompare x y = Some c -> SFcompare y x = Some (CompOpp c).
Proof.
  destruct x as [[]|[]| |[] m e], y as [[]|[]| |[] m' e']; simpl; intros H;
    simplify_eq/=; try done; rewrite (Z.compare_antisym e e');
    destruct (e ?= e'); simpl; try done; pose proof (Pos.compare_antisym m m') as Hm;
    unfold Pos.compare in Hm; rewrite Hm; by destruct (Pos.compare_cont Eq m m').
Qed.

Lemma dcompare_total x y :
  is_nan x = false -> is_nan y = false -> exists c, SFcompare x y = Some c.
Proof.
  destruct x as [[]|[]| |[] m e], y as [[]|[]| |[] m' e']; simpl; try done; eauto.
Qed.

Lemma dle_refl x : is_nan x = false -> dle x x = true.
Proof. intros. unfold dle, SFleb. by rewrite dcompare_refl. Qed.

Lemma dlt_dle x y : dlt x y = true -> dle x y = true.
Proof. unfold dlt, dle, SFltb, SFleb. by destruct (SFcompare x y) as [[]|]. Qed.

(** Without NaN, not less means greater or equal. *)
Lemma dlt_false x y :
  is_nan x = false -> is_nan y = false -> dlt x y = false -> dle y x = true.
Proof.
  intros Hx Hy. destruct (dcompare_total x y Hx Hy) as [c Hc].
  unfold dlt, dle, SFltb, SFleb. rewrite Hc, (dcompare_swap _ _ _ Hc). by destruct c.
Qed.

Lemma dle_dlt_false x y : dle x y = true -> dlt y x = false.
Proof.
  unfold dlt, dle, SFltb, SFleb. destruct (SFcompare x y) as [c|] eqn:Hc; [|done].
  rewrite (dcompare_swap _ _ _ Hc). by destruct c.
Qed.

Lemma dle_not_nan x y : dle x y = true -> is_nan x = false /\ is_nan y = false.
Proof. unfold dle, SFleb. destruct x, y; simpl; try done; by destruct s, s0. Qed.

Lemma dlt_not_nan x y : dlt x y = true -> is_nan x = false /\ is_nan y = false.
Proof. intros. by apply dle_not_nan, dlt_dle. Qed.

Lemma dmax_ge_r a b : is_nan a = false -> is_nan b = false -> dle b (dmax a b) = true.
Proof.
  intros Ha Hb. unfold dmax. destruct (dlt a b) eqn:E; [by apply dle_refl|].
  by apply dlt_false.
Qed.

Lemma dmin_le_r a b : is_nan a = false -> is_nan b = false -> dle (dmin a b) b = true.
Proof.
  intros Ha Hb. unfold dmin. destruct (dlt b a) eqn:E; [by apply dle_refl|].
  by apply dlt_false.
Qed.

Lemma dmax_cases a b : dmax a b = a \/ dmax a b = b.
Proof. unfold dmax. destruct (dlt a b); auto. Qed.

Lemma dmin_cases a b : dmin a b = a \/ dmin a b = b.
Proof. unfold dmin. destruct (dlt b a); auto. Qed.

Lemma dtrunc_not_nan x z : dtrunc x = Some z -> is_nan x = false.
Proof. by destruct x. Qed.

#[export] Hint Resolve dle_refl dlt_dle dmax_ge_r dmin_le_r : sandook.
