(* ===== verification/FloatInt.v ===== *)
(** * Exact integers in binary64

    Integers below [2^53] convert to [double] and back without loss, and sums,
    products and comparisons of their images are the images of the integer
    ones. This is what makes the operation counts the program keeps in
    [double]s exact. *)

From S2P Require Import Prelude Float64.

Local Open Scope Z_scope.

Lemma digits2_log2 p : Z.pos (digits2_pos p) = Z.log2 (Z.pos p) + 1.
Proof.
  induction p as [p IH|p IH|]; [..|done]; simpl digits2_pos; rewrite Pos2Z.inj_succ, IH.
  - rewrite (Pos2Z.inj_xI p), Z.log2_succ_double; lia.
  - rewrite (Pos2Z.inj_xO p), Z.log2_double; lia.
Qed.

Lemma Zdigits2_pow k n d : 2 ^ (d - 1) <= k < 2 ^ d -> 0 < d -> 0 <= n ->
  Zdigits2 (k * 2 ^ n) = d + n.
Proof.
  intros Hk Hd Hn. assert (0 < k) by (pose proof (Z.pow_pos_nonneg 2 (d - 1)); lia).
  assert (Z.log2 (k * 2 ^ n) = d - 1 + n) as Hl.
  { rewrite Z.log2_mul_pow2 by lia. enough (Z.log2 k = d - 1) by lia.
    apply Z.log2_unique; [lia|]. by replace (Z.succ (d - 1)) with d by lia. }
  assert (0 < k * 2 ^ n) by (apply Z.mul_pos_pos; [done|apply Z.pow_pos_nonneg; lia]).
  destruct (k * 2 ^ n) as [|p|p] eqn:E; [lia| |lia]. simpl. rewrite digits2_log2. lia.
Qed.

Lemma iter_pos_nat {A} (f : A -> A) p x : iter_pos f p x = Nat.iter (Pos.to_nat p) f x.
Proof.
  revert x. induction p as [p IH|p IH|]; intros x; cbn [iter_pos]; [..|done].
  - rewrite Pos2Nat.inj_xI, !IH. replace (S (2 * Pos.to_nat p)) with (Pos.to_nat p + (Pos.to_nat p + 1))%nat by lia.
    by rewrite !Nat.iter_add.
  - rewrite Pos2Nat.inj_xO, !IH. replace (2 * Pos.to_nat p)%nat with (Pos.to_nat p + Pos.to_nat p)%nat by lia.
    by rewrite Nat.iter_add.
Qed.

Lemma shr_1_even m : 0 < m ->
  shr_1 (Build_shr_record (2 * m) false false) = Build_shr_record m false false.
Proof. by destruct m. Qed.

Lemma shr_iter_exact n m : 0 < m ->
  Nat.iter n shr_1 (Build_shr_record (m * 2 ^ Z.of_nat n) false false)
  = Build_shr_record m false false.
Proof.
  intros Hm. induction n as [|n IH]; [simpl; f_equal; lia|].
  rewrite Nat.iter_succ_r, Nat2Z.inj_succ, Z.pow_succ_r by lia.
  replace (m * (2 * 2 ^ Z.of_nat n)) with (2 * (m * 2 ^ Z.of_nat n)) by lia.
  rewrite shr_1_even; [done|]. apply Z.mul_pos_pos; [done|apply Z.pow_pos_nonneg; lia].
Qed.

Lemma shr_exact m n e : 0 < m -> 0 <= n ->
  shr (Build_shr_record (m * 2 ^ n) false false) e n = (Build_shr_record m false false, e + n).
Proof.
  intros Hm Hn. destruct n as [|p|p]; simpl; [by rewrite Z.mul_1_r, Z.add_0_r| |lia].
  rewrite iter_pos_nat. change (Z.pow_pos 2 p) with (2 ^ Z.pos p).
  rewrite <- (positive_nat_Z p). by rewrite shr_iter_exact.
Qed.

(** A value with a 53-bit significand rounds to itself. *)
Lemma round_aux_exact sx k n e :
  2 ^ 52 <= k < 2 ^ 53 -> 0 <= n -> -1074 <= e + n <= 971 ->
  binary_round_aux 53 1024 sx (k * 2 ^ n) e loc_Exact = S754_finite sx (Z.to_pos k) (e + n).
Proof.
  intros Hk Hn He. unfold binary_round_aux, shr_fexp at 1, fexp, emin.
  rewrite (Zdigits2_pow k n 53) by lia. simpl shr_record_of_loc.
  replace (Z.max (53 + n + e - 53) (3 - 1024 - 53) - e) with n by lia.
  rewrite shr_exact by lia. simpl. unfold shr_fexp, fexp, emin.
  pose proof (Zdigits2_pow k 0 53) as Hd. rewrite Z.mul_1_r in Hd. rewrite Hd by lia.
  replace (Z.max (53 + 0 + (e + n) - 53) (3 - 1024 - 53) - (e + n)) with 0 by lia. simpl.
  destruct k as [|p|p]; [lia| |lia]. by rewrite (proj2 (Z.leb_le _ _)) by lia.
Qed.

Lemma iter_xO p d : Z.pos (Pos.iter xO p d) = Z.pos p * 2 ^ Z.pos d.
Proof.
  induction d as [|d IH] using Pos.peano_ind; [rewrite Z.pow_1_r; simpl; lia|].
  rewrite Pos.iter_succ, Pos2Z.inj_succ, Z.pow_succ_r by lia.
  change (Z.pos (Pos.iter xO p d)~0) with (2 * Z.pos (Pos.iter xO p d)). rewrite IH. lia.
Qed.

Lemma shl_align_pos mx ex ex' :
  Z.pos (fst (shl_align mx ex ex')) = Z.pos mx * 2 ^ (Z.max 0 (ex - ex')) /\
  snd (shl_align mx ex ex') = Z.min ex ex'.
Proof.
  unfold shl_align. destruct (ex' - ex) as [|d|d] eqn:E; simpl fst; simpl snd.
  - replace (Z.max 0 (ex - ex')) with 0 by lia. lia.
  - replace (Z.max 0 (ex - ex')) with 0 by lia. lia.
  - rewrite iter_xO. replace (Z.max 0 (ex - ex')) with (Z.pos d) by lia. lia.
Qed.

(** The number of bits of a positive integer. *)
Definition nbits (c : Z) : Z := Z.log2 c + 1.

Lemma nbits_spec c : 0 < c -> 2 ^ (nbits c - 1) <= c < 2 ^ nbits c.
Proof.
  intros. unfold nbits. pose proof (Z.log2_spec c). rewrite <- Z.add_1_r in *.
  by replace (Z.log2 c + 1 - 1) with (Z.log2 c) by lia; auto.
Qed.

Lemma nbits_range c : 0 < c < 2 ^ 53 -> 1 <= nbits c <= 53.
Proof.
  intros [H1 H2]. unfold nbits. pose proof (Z.log2_nonneg c).
  assert (Z.log2 c < 53) by (apply Z.log2_lt_pow2; lia). lia.
Qed.

Lemma significand_range c : 0 < c < 2 ^ 53 -> 2 ^ 52 <= c * 2 ^ (53 - nbits c) < 2 ^ 53.
Proof.
  intros Hc. pose proof (nbits_range c Hc). pose proof (nbits_spec c) as [H1 H2]; [lia|].
  replace (2 ^ 52) with (2 ^ (nbits c - 1) * 2 ^ (53 - nbits c)) by (rewrite <- Z.pow_add_r; [f_equal|..]; lia).
  replace (2 ^ 53) with (2 ^ nbits c * 2 ^ (53 - nbits c)) by (rewrite <- Z.pow_add_r; [f_equal|..]; lia).
  assert (0 < 2 ^ (53 - nbits c)) by (apply Z.pow_pos_nonneg; lia).
  split; [apply Z.mul_le_mono_nonneg_r; lia|apply Z.mul_lt_mono_pos_r; lia].
Qed.

(** The double of a positive integer below [2^53]. *)
Definition int_float (c : Z) : double :=
  S754_finite false (Z.to_pos (c * 2 ^ (53 - nbits c))) (nbits c - 53).

(** Rounding [c * 2^j] at exponent [-j]. *)
Lemma round_aux_int c j :
  0 < c < 2 ^ 53 -> 53 - nbits c <= j ->
  binary_round_aux 53 1024 false (c * 2 ^ j) (- j) loc_Exact = int_float c.
Proof.
  intros Hc Hj. pose proof (nbits_range c Hc).
  replace (c * 2 ^ j) with (c * 2 ^ (53 - nbits c) * 2 ^ (j - (53 - nbits c))).
  2:{ rewrite <- Z.mul_assoc, <- Z.pow_add_r by lia. do 2 f_equal. lia. }
  rewrite round_aux_exact by (try apply significand_range; lia).
  unfold int_float. f_equal. lia.
Qed.

Lemma of_int_pos c : 0 < c < 2 ^ 53 -> of_int c = int_float c.
Proof.
  intros Hc. pose proof (nbits_range c Hc) as Hn.
  destruct c as [|p|p]; [lia| |lia].
  unfold of_int, binary_normalize, binary_round. rewrite digits2_log2.
  fold (nbits (Z.pos p)). unfold fexp, emin.
  replace (Z.max (nbits (Z.pos p) + 0 - 53) (3 - 1024 - 53)) with (- (53 - nbits (Z.pos p))) by lia.
  destruct (shl_align p 0 (- (53 - nbits (Z.pos p)))) as [mz ez] eqn:E.
  destruct (shl_align_pos p 0 (- (53 - nbits (Z.pos p)))) as [H1 H2].
  rewrite E in H1, H2. simpl in H1, H2. rewrite H1, H2.
  replace (Z.max 0 (0 - - (53 - nbits (Z.pos p)))) with (53 - nbits (Z.pos p)) by lia.
  replace (Z.min 0 (- (53 - nbits (Z.pos p)))) with (- (53 - nbits (Z.pos p))) by lia.
  by rewrite round_aux_int by lia.
Qed.

Lemma int_float_significand c :
  0 < c < 2 ^ 53 -> Z.pos (Z.to_pos (c * 2 ^ (53 - nbits c))) = c * 2 ^ (53 - nbits c).
Proof. intros Hc. pose proof (significand_range c Hc). apply Z2Pos.id. lia. Qed.

Lemma int_cases c : 0 <= c -> c = 0 \/ 0 < c.
Proof. lia. Qed.

Lemma of_int_zero : of_int 0 = S754_zero false.
Proof. done. Qed.

Lemma nbits_mul a b : 0 < a -> 0 < b -> nbits (a * b) + 1 >= nbits a + nbits b.
Proof. intros. unfold nbits. pose proof (Z.log2_mul_below a b). lia. Qed.

(** Products of integers are exact below [2^53]. *)
Lemma dmul_int a b :
  0 <= a < 2 ^ 53 -> 0 <= b < 2 ^ 53 -> a * b < 2 ^ 53 ->
  (of_int a * of_int b)%double = of_int (a * b).
Proof.
  intros Ha Hb Hab.
  destruct (int_cases a) as [->|Ha0]; [lia| |].
  { rewrite of_int_zero. destruct (int_cases b) as [->|Hb0]; [lia|done|].
    by rewrite (of_int_pos b) by lia. }
  destruct (int_cases b) as [->|Hb0]; [lia| |].
  { rewrite of_int_zero, Z.mul_0_r. by rewrite (of_int_pos a) by lia. }
  assert (0 < a * b) by (apply Z.mul_pos_pos; lia).
  rewrite !of_int_pos by lia. unfold int_float at 1 2.
  cbv beta iota delta [dmul SFmul xorb].
  rewrite Pos2Z.inj_mul, !int_float_significand by lia.
  pose proof (nbits_range a). pose proof (nbits_range b). pose proof (nbits_range (a * b)).
  pose proof (nbits_mul a b).
  replace (a * 2 ^ (53 - nbits a) * (b * 2 ^ (53 - nbits b)))
    with (a * b * 2 ^ (106 - nbits a - nbits b)).
  2:{ replace (106 - nbits a - nbits b) with (53 - nbits a + (53 - nbits b)) by lia.
      rewrite Z.pow_add_r by lia. lia. }
  replace (nbits a - 53 + (nbits b - 53)) with (- (106 - nbits a - nbits b)) by lia.
  apply round_aux_int; lia.
Qed.

(** Normalising [c * 2^j] at exponent [-j]. *)
Lemma normalize_int c j :
  0 < c < 2 ^ 53 -> 0 <= j ->
  binary_normalize 53 1024 (c * 2 ^ j) (- j) false = int_float c.
Proof.
  intros Hc Hj. pose proof (nbits_range c Hc) as Hn. pose proof (nbits_spec c) as Hs.
  assert (0 < c * 2 ^ j) by (apply Z.mul_pos_pos; [lia|apply Z.pow_pos_nonneg; lia]).
  pose proof (Zdigits2_pow c j (nbits c)) as Hd.
  unfold binary_normalize. destruct (c * 2 ^ j) as [|p|p] eqn:Ep; [lia| |lia].
  simpl in Hd. unfold binary_round. rewrite Hd by lia. unfold fexp, emin.
  replace (Z.max (nbits c + j + - j - 53) (3 - 1024 - 53)) with (nbits c - 53) by lia.
  destruct (shl_align_pos p (- j) (nbits c - 53)) as [H1 H2].
  destruct (shl_align p (- j) (nbits c - 53)) as [mz ez]. simpl in H1, H2.
  rewrite H1, H2, <- Ep, <- Z.mul_assoc, <- Z.pow_add_r by lia.
  replace (Z.min (- j) (nbits c - 53)) with (- (j + Z.max 0 (- j - (nbits c - 53)))) by lia.
  apply round_aux_int; lia.
Qed.

(** Sums of integers are exact below [2^53]. *)
Lemma dadd_int a b :
  0 <= a -> 0 <= b -> a + b < 2 ^ 53 -> (of_int a + of_int b)%double = of_int (a + b).
Proof.
  intros Ha Hb Hab.
  destruct (int_cases a) as [->|Ha0]; [lia| |].
  { rewrite of_int_zero. destruct (int_cases b) as [->|Hb0]; [lia|done|].
    by rewrite Z.add_0_l, (of_int_pos b) by lia. }
  destruct (int_cases b) as [->|Hb0]; [lia| |].
  { rewrite of_int_zero, Z.add_0_r. by rewrite (of_int_pos a) by lia. }
  rewrite !of_int_pos by lia. unfold int_float at 1 2.
  cbv beta iota zeta delta [dadd SFadd cond_Zopp].
  pose proof (nbits_range a). pose proof (nbits_range b).
  set (ez := Z.min (nbits a - 53) (nbits b - 53)).
  rewrite !(proj1 (shl_align_pos _ _ _)), !int_float_significand by lia.
  rewrite <- !Z.mul_assoc, <- !Z.pow_add_r by lia.
  replace (53 - nbits a + Z.max 0 (nbits a - 53 - ez)) with (- ez) by lia.
  replace (53 - nbits b + Z.max 0 (nbits b - 53 - ez)) with (- ez) by lia.
  rewrite <- Z.mul_add_distr_r. replace ez with (- (- ez)) at 2 by lia.
  apply normalize_int; lia.
Qed.

Lemma dtrunc_int c : 0 <= c < 2 ^ 53 -> dtrunc (of_int c) = Some c.
Proof.
  intros Hc. destruct (int_cases c) as [->|Hc0]; [lia|done|].
  rewrite of_int_pos by lia. unfold dtrunc, int_float.
  pose proof (nbits_range c). f_equal. rewrite int_float_significand by lia.
  destruct (decide (0 <= nbits c - 53)).
  - replace (nbits c) with 53 by lia. rewrite Z.sub_diag. lia.
  - replace (- (nbits c - 53)) with (53 - nbits c) by lia. apply Z.div_mul.
    apply Z.pow_nonzero; lia.
Qed.

Lemma to_uint_int w c : 0 <= c < 2 ^ 53 -> c < 2 ^ w -> to_uint w (of_int c) = Ok c.
Proof. intros. unfold to_uint. rewrite dtrunc_int by lia. by rewrite decide_True by lia. Qed.

Lemma nbits_lt a b : 0 < a -> nbits a < nbits b -> a < b.
Proof. intros. apply Z.log2_lt_cancel. unfold nbits in *. lia. Qed.

Lemma dcompare_int a b :
  0 <= a < 2 ^ 53 -> 0 <= b < 2 ^ 53 -> SFcompare (of_int a) (of_int b) = Some (a ?= b).
Proof.
  intros Ha Hb.
  destruct (int_cases a) as [->|Ha0], (int_cases b) as [->|Hb0]; try lia; [done|..].
  - rewrite of_int_zero, (of_int_pos b) by lia. by destruct b.
  - rewrite of_int_zero, (of_int_pos a) by lia. by destruct a.
  - rewrite !of_int_pos by lia. unfold int_float. cbv beta iota delta [SFcompare]. f_equal.
    destruct (Z.compare_spec (nbits a - 53) (nbits b - 53)) as [E|E|E].
    + change (Pos.compare_cont Eq ?x ?y) with (Z.pos x ?= Z.pos y).
      rewrite !int_float_significand by lia. replace (nbits b) with (nbits a) by lia.
      pose proof (nbits_range a). assert (0 < 2 ^ (53 - nbits a)) by (apply Z.pow_pos_nonneg; lia).
      symmetry. by apply Zmult_compare_compat_r, Z.lt_gt.
    + symmetry. apply Z.compare_lt_iff, nbits_lt; lia.
    + symmetry. apply Z.compare_gt_iff, nbits_lt; lia.
Qed.

Lemma dlt_int a b :
  0 <= a < 2 ^ 53 -> 0 <= b < 2 ^ 53 -> (of_int a <? of_int b)%double = (a <? b).
Proof.
  intros. unfold dlt, SFltb, Z.ltb. rewrite dcompare_int by done. by destruct (a ?= b).
Qed.

Lemma dle_int a b :
  0 <= a < 2 ^ 53 -> 0 <= b < 2 ^ 53 -> (of_int a <=? of_int b)%double = (a <=? b).
Proof.
  intros. unfold dle, SFleb, Z.leb. rewrite dcompare_int by done. by destruct (a ?= b).
Qed.

#[export] Hint Rewrite dmul_int dadd_int dlt_int dle_int using lia : float_int.
