(* ===== verification/FloatBound.v ===== *)
(** * Rounding does not cross a double

    The result of a rounded multiplication or division of positive doubles is
    at most any double that bounds the exact result. This gives the bounds the
    program relies on when it scales a count by a factor below one or
    interpolates between two counts. Values are compared as integers, scaled
    to a common exponent [b]. *)

From S2P Require Import Prelude Float64 FloatInt.

Local Open Scope Z_scope.

Abbreviation fexp64 := (fexp 53 1024).

(** [k * 2^e] is the value of a finite positive double. *)
Definition canonical (k e : Z) : Prop := 0 < k /\ fexp64 (nbits k + e) = e /\ e <= 971.

Lemma Zdigits2_nbits m : 0 < m -> Zdigits2 m = nbits m.
Proof. intros. destruct m as [|p|p]; [lia| |lia]. apply digits2_log2. Qed.

Lemma fexp64_mono a b : a <= b -> fexp64 a <= fexp64 b.
Proof. unfold fexp, emin. lia. Qed.

Lemma nbits_le a b : 0 < a <= b -> nbits a <= nbits b.
Proof. intros. unfold nbits. pose proof (Z.log2_le_mono a b). lia. Qed.

Lemma nbits_mul_pow a n : 0 < a -> 0 <= n -> nbits (a * 2 ^ n) = nbits a + n.
Proof. intros. unfold nbits. rewrite Z.log2_mul_pow2 by lia. lia. Qed.

(** The leading bit of a bound is at least that of what it bounds. *)
Lemma scaled_nbits m ex k e b :
  0 < m -> 0 < k -> b <= ex -> b <= e ->
  m * 2 ^ (ex - b) <= k * 2 ^ (e - b) -> nbits m + ex <= nbits k + e.
Proof.
  intros Hm Hk Hex He H.
  assert (0 < m * 2 ^ (ex - b)) by (apply Z.mul_pos_pos; [lia|apply Z.pow_pos_nonneg; lia]).
  pose proof (nbits_le (m * 2 ^ (ex - b)) (k * 2 ^ (e - b))) as Hn.
  rewrite !nbits_mul_pow in Hn by lia. lia.
Qed.

(** ** Shifting right *)

Definition sticky (r : shr_record) : bool := shr_r r || shr_s r.

Lemma shr_1_spec m r s :
  0 <= m ->
  shr_m (shr_1 (Build_shr_record m r s)) = m / 2 /\
  sticky (shr_1 (Build_shr_record m r s)) = sticky (Build_shr_record m r s) || negb (m mod 2 =? 0).
Proof.
  intros Hm. unfold sticky. destruct m as [|[p|p|]|p]; try lia.
  - by destruct r, s.
  - replace (Z.pos p~1 / 2) with (Z.pos p) by (rewrite Pos2Z.inj_xI; Z.div_mod_to_equations; lia).
    replace (Z.pos p~1 mod 2) with 1 by (rewrite Pos2Z.inj_xI; Z.div_mod_to_equations; lia).
    by destruct r, s.
  - replace (Z.pos p~0 / 2) with (Z.pos p) by (rewrite Pos2Z.inj_xO; Z.div_mod_to_equations; lia).
    replace (Z.pos p~0 mod 2) with 0 by (rewrite Pos2Z.inj_xO; Z.div_mod_to_equations; lia).
    by destruct r, s.
  - by destruct r, s.
Qed.

Lemma shr_iter_spec n m r s :
  0 <= m ->
  shr_m (Nat.iter n shr_1 (Build_shr_record m r s)) = m / 2 ^ Z.of_nat n /\
  (sticky (Nat.iter n shr_1 (Build_shr_record m r s)) = false <->
   r || s = false /\ m mod 2 ^ Z.of_nat n = 0).
Proof.
  intros Hm. induction n as [|n IH].
  { simpl Nat.iter. rewrite Z.pow_0_r, Z.div_1_r, Z.mod_1_r. simpl. unfold sticky. naive_solver. }
  rewrite Nat.iter_succ. destruct IH as [IHm IHs].
  destruct (Nat.iter n shr_1 (Build_shr_record m r s)) as [m1 r1 s1] eqn:E. simpl in IHm.
  assert (0 < 2 ^ Z.of_nat n) as Hp by (apply Z.pow_pos_nonneg; lia).
  assert (0 <= m1) by (subst m1; apply Z.div_pos; lia).
  destruct (shr_1_spec m1 r1 s1) as [-> ->]; [done|].
  rewrite Nat2Z.inj_succ, Z.pow_succ_r by lia. rewrite (Z.mul_comm 2).
  split; [by rewrite <- Z.div_div, <- IHm by lia|].
  rewrite orb_false_iff, IHs, negb_false_iff, Z.eqb_eq.
  rewrite Z.rem_mul_r, <- IHm by lia. pose proof (Z.mod_pos_bound m (2 ^ Z.of_nat n) Hp).
  pose proof (Z.mod_pos_bound m1 2) as Hc. specialize (Hc ltac:(lia)).
  assert (m1 mod 2 = 0 \/ m1 mod 2 = 1) as [-> | ->] by lia; rewrite ?Z.mul_0_r, ?Z.mul_1_r;
    naive_solver lia.
Qed.

Lemma sticky_loc m l : sticky (shr_record_of_loc m l) = false <-> l = loc_Exact.
Proof. destruct l as [|[]]; simpl; naive_solver. Qed.

Lemma loc_sticky r : loc_of_shr_record r = loc_Exact <-> sticky r = false.
Proof. destruct r as [m [] []]; unfold sticky; simpl; naive_solver. Qed.

Lemma shr_spec m l ex n :
  0 <= m -> 0 <= n ->
  exists r, shr (shr_record_of_loc m l) ex n = (r, ex + n) /\ shr_m r = m / 2 ^ n /\
    (loc_of_shr_record r = loc_Exact <-> l = loc_Exact /\ m mod 2 ^ n = 0).
Proof.
  intros Hm Hn. destruct (shr_record_of_loc m l) as [m0 r0 s0] eqn:E.
  assert (m0 = m /\ (r0 || s0 = false <-> l = loc_Exact)) as [-> Hl].
  { split; [by destruct l as [|[]]; simplify_eq/=|].
    rewrite <- (sticky_loc m l), E. done. }
  destruct n as [|p|p]; [| |lia].
  - eexists. split; [simpl; by rewrite Z.add_0_r|]. rewrite Z.pow_0_r, Z.div_1_r, Z.mod_1_r.
    split; [done|]. rewrite loc_sticky. unfold sticky. simpl. naive_solver.
  - eexists. split; [reflexivity|]. rewrite iter_pos_nat.
    destruct (shr_iter_spec (Pos.to_nat p) m r0 s0 Hm) as [H1 H2].
    rewrite positive_nat_Z in H1, H2. split; [done|]. rewrite loc_sticky, H2. naive_solver.
Qed.

Lemma round_cases m l :
  round_nearest_even m l = m \/ (round_nearest_even m l = m + 1 /\ l <> loc_Exact).
Proof. destruct l as [|[]]; simpl; auto. destruct (Z.even m); auto. Qed.

(** ** Rounding *)

Lemma fexp64_ge x : -1074 <= fexp64 x.
Proof. unfold fexp, emin. lia. Qed.

(** A canonical bound is a multiple of the rounding unit of what it bounds. *)
Lemma bound_multiple m ex k e b :
  0 < m -> canonical k e -> b <= ex -> b <= e -> ex <= fexp64 (nbits m + ex) ->
  m * 2 ^ (ex - b) <= k * 2 ^ (e - b) ->
  exists F, k * 2 ^ (e - b) = F * 2 ^ (fexp64 (nbits m + ex) - b).
Proof.
  intros Hm (Hk & Hc & _) Hb He Hex H. set (e1 := fexp64 (nbits m + ex)) in *.
  assert (e1 <= e).
  { rewrite <- Hc. apply fexp64_mono. by apply (scaled_nbits m ex k e b). }
  exists (k * 2 ^ (e - e1)). rewrite <- Z.mul_assoc, <- Z.pow_add_r by lia. do 2 f_equal. lia.
Qed.

Lemma pow2_split a b : 0 <= a -> 0 <= b -> 2 ^ (a + b) = 2 ^ a * 2 ^ b.
Proof. apply Z.pow_add_r. Qed.

Lemma quotient_nbits m n : 0 < m -> 0 <= n -> n < nbits m -> 0 < m / 2 ^ n /\ nbits (m / 2 ^ n) = nbits m - n.
Proof.
  intros Hm Hn Hlt. pose proof (nbits_spec m Hm) as [H1 H2].
  assert (0 < 2 ^ n) by (apply Z.pow_pos_nonneg; lia).
  assert (2 ^ (nbits m - 1 - n) <= m / 2 ^ n < 2 ^ (nbits m - n)) as [H3 H4].
  { split; [apply Z.div_le_lower_bound; [lia|]|apply Z.div_lt_upper_bound; [lia|]];
      rewrite <- Z.pow_add_r by lia.
    - by replace (n + (nbits m - 1 - n)) with (nbits m - 1) by lia.
    - by replace (n + (nbits m - n)) with (nbits m) by lia. }
  assert (0 < 2 ^ (nbits m - 1 - n)) by (apply Z.pow_pos_nonneg; lia).
  split; [lia|]. unfold nbits at 1. rewrite (Z.log2_unique _ (nbits m - 1 - n)); [lia|lia|].
  split; [done|]. by replace (Z.succ (nbits m - 1 - n)) with (nbits m - n) by lia.
Qed.

(** The first shift and the rounding of its result. *)
Lemma rounded_bound m ex l k e b r :
  0 < m -> canonical k e -> b <= ex -> b <= e ->
  let e1 := fexp64 (nbits m + ex) in ex <= e1 ->
  (l = loc_Exact -> m * 2 ^ (ex - b) <= k * 2 ^ (e - b)) ->
  (l <> loc_Exact -> m * 2 ^ (ex - b) < k * 2 ^ (e - b)) ->
  shr_m r = m / 2 ^ (e1 - ex) ->
  (loc_of_shr_record r = loc_Exact <-> l = loc_Exact /\ m mod 2 ^ (e1 - ex) = 0) ->
  let m2 := round_nearest_even (shr_m r) (loc_of_shr_record r) in
  0 <= m2 <= 2 ^ 53 /\ m2 * 2 ^ (e1 - b) <= k * 2 ^ (e - b) /\ (e1 = -1074 \/ 2 ^ 52 <= m2).
Proof.
  intros Hm Hc Hb He e1 Hex Hle Hlt Hr Hl m2.
  assert (m * 2 ^ (ex - b) <= k * 2 ^ (e - b)) as Hx by (destruct l; [auto|apply Z.lt_le_incl; auto]).
  destruct (bound_multiple m ex k e b Hm Hc Hb He Hex Hx) as [F HF]. fold e1 in HF.
  assert (0 < 2 ^ (e1 - ex)) as Hp by (apply Z.pow_pos_nonneg; lia).
  assert (0 < 2 ^ (ex - b)) as Hp' by (apply Z.pow_pos_nonneg; lia).
  assert (2 ^ (e1 - b) = 2 ^ (e1 - ex) * 2 ^ (ex - b)) as Hpow.
  { rewrite <- Z.pow_add_r by lia. f_equal. lia. }
  pose proof (Z.div_mod m (2 ^ (e1 - ex))) as Hdm. pose proof (Z.mod_pos_bound m (2 ^ (e1 - ex)) Hp).
  assert (0 <= m / 2 ^ (e1 - ex)) by (apply Z.div_pos; lia).
  assert (m / 2 ^ (e1 - ex) < 2 ^ 53).
  { apply Z.div_lt_upper_bound; [lia|]. rewrite <- Z.pow_add_r by lia.
    apply Z.lt_le_trans with (2 ^ nbits m); [apply nbits_spec; lia|].
    apply Z.pow_le_mono_r; [lia|]. unfold e1, fexp, emin. lia. }
  assert (e1 = -1074 \/ 2 ^ 52 <= m / 2 ^ (e1 - ex)) as Hnorm.
  { unfold e1 at 1, fexp, emin. destruct (decide (nbits m + ex - 53 <= -1074)); [lia|right].
    assert (e1 - ex = nbits m - 53) as -> by (unfold e1, fexp, emin; lia).
    assert (53 <= nbits m) by (unfold e1, fexp, emin in Hex; lia).
    apply Z.div_le_lower_bound; [lia|]. rewrite <- Z.pow_add_r by lia.
    replace (nbits m - 53 + 52) with (nbits m - 1) by lia. apply nbits_spec. lia. }
  assert (m / 2 ^ (e1 - ex) * 2 ^ (e1 - b) <= k * 2 ^ (e - b)) as Hdown by (rewrite Hpow; nia).
  unfold m2. rewrite Hr.
  destruct (round_cases (m / 2 ^ (e1 - ex)) (loc_of_shr_record r)) as [-> |[-> Hne]]; [lia|].
  split_and!; [lia|lia| |lia].
  rewrite HF. apply Z.mul_le_mono_nonneg_r; [apply Z.pow_nonneg; lia|].
  destruct (decide (m / 2 ^ (e1 - ex) + 1 <= F)); [done|]. exfalso. apply Hne, Hl.
  assert (k * 2 ^ (e - b) <= m / 2 ^ (e1 - ex) * 2 ^ (e1 - b)) by (rewrite HF; apply Z.mul_le_mono_nonneg_r; [apply Z.pow_nonneg; lia|lia]).
  split; [destruct l; [done|]; exfalso; specialize (Hlt ltac:(done)); rewrite Hpow in *; nia|].
  rewrite Hpow in *. nia.
Qed.

(** The second shift renormalises a carry and loses nothing. *)
Lemma renormalize m2 e1 :
  0 < m2 <= 2 ^ 53 -> -1074 <= e1 -> (e1 = -1074 \/ 2 ^ 52 <= m2) ->
  exists r e2, shr_fexp 53 1024 m2 e1 loc_Exact = (r, e2) /\ 0 < shr_m r /\ e1 <= e2 /\
    shr_m r * 2 ^ (e2 - e1) = m2 /\ fexp64 (nbits (shr_m r) + e2) = e2.
Proof.
  intros Hm He Hn. unfold shr_fexp. rewrite Zdigits2_nbits by lia.
  destruct (decide (m2 = 2 ^ 53)) as [->|Hne].
  - replace (nbits (2 ^ 53)) with 54 by done.
    replace (fexp64 (54 + e1) - e1) with 1 by (unfold fexp, emin; lia).
    eexists _, _. split; [reflexivity|]. change (shr_m _) with (2 ^ 52).
    replace (e1 + 1 - e1) with 1 by lia. replace (nbits (2 ^ 52)) with 53 by done.
    split_and!; [done|lia|done|]. unfold fexp, emin. lia.
  - pose proof (nbits_range m2) as Hr. specialize (Hr ltac:(lia)).
    assert (e1 = -1074 \/ nbits m2 = 53) as Hn'.
    { destruct Hn as [->|Hn]; [by left|right]. pose proof (nbits_le (2 ^ 52) m2).
      replace (nbits (2 ^ 52)) with 53 in * by done. lia. }
    assert (fexp64 (nbits m2 + e1) = e1) as Hf by (unfold fexp, emin; lia).
    replace (fexp64 (nbits m2 + e1) - e1) with 0 by lia. simpl shr.
    eexists _, _. split; [reflexivity|]. simpl shr_m. rewrite Z.sub_diag. split_and!; [lia..|done].
Qed.

(** Rounding stays below every double that bounds the exact value. *)
Lemma round_aux_le sx m ex l k e b :
  0 < m -> canonical k e -> b <= ex -> b <= e -> ex <= fexp64 (nbits m + ex) ->
  (l = loc_Exact -> m * 2 ^ (ex - b) <= k * 2 ^ (e - b)) ->
  (l <> loc_Exact -> m * 2 ^ (ex - b) < k * 2 ^ (e - b)) ->
  (binary_round_aux 53 1024 sx m ex l = S754_zero sx /\ fexp64 (nbits m + ex) = -1074) \/
  exists m' e', binary_round_aux 53 1024 sx m ex l = S754_finite sx m' e' /\
    canonical (Z.pos m') e' /\ b <= e' /\ Z.pos m' * 2 ^ (e' - b) <= k * 2 ^ (e - b).
Proof.
  intros Hm Hc Hb He Hex Hle Hlt. remember (binary_round_aux 53 1024 sx m ex l) as v eqn:Hv.
  unfold binary_round_aux, shr_fexp at 1 in Hv. rewrite Zdigits2_nbits in Hv by lia.
  destruct (shr_spec m l ex (fexp64 (nbits m + ex) - ex)) as (r & Hshr & Hr & Hl); [lia..|].
  rewrite Hshr in Hv.
  destruct (rounded_bound m ex l k e b r) as (Hm2 & Hbound & Hn); [done..|].
  set (m2 := round_nearest_even _ _) in *. set (e1 := fexp64 (nbits m + ex)) in *.
  replace (ex + (e1 - ex)) with e1 in Hv by lia. pose proof (fexp64_ge (nbits m + ex)).
  destruct (decide (m2 = 0)) as [Hz|Hne].
  { left. subst v. rewrite Hz. assert (e1 = -1074) as -> by lia. split; reflexivity. }
  right. destruct (renormalize m2 e1) as (r2 & e2 & Hshr2 & Hpos & He2 & Hval & Hcan); [lia..|].
  rewrite Hshr2 in Hv.
  assert (shr_m r2 * 2 ^ (e2 - b) <= k * 2 ^ (e - b)) as Hres.
  { rewrite <- Hval, <- Z.mul_assoc, <- Z.pow_add_r in Hbound by lia.
    by replace (e2 - e1 + (e1 - b)) with (e2 - b) in Hbound by lia. }
  assert (e2 <= e) as Hee.
  { destruct Hc as (Hk & Hc & _). rewrite <- Hc, <- Hcan. apply fexp64_mono.
    apply (scaled_nbits _ _ _ _ b); [done..|lia|lia|done]. }
  destruct Hc as (_ & _ & Hmax). destruct (shr_m r2) as [|p|p]; [lia| |lia].
  rewrite (proj2 (Z.leb_le _ _)) in Hv by lia. exists p, e2.
  split; [done|]. split; [split; [lia|by split; [|lia]]|]. by split; [lia|].
Qed.

(** ** Fractions of integers

    A double between zero and one. *)
Definition fraction (q : double) : Prop :=
  q = S754_zero false \/
  exists m e b, q = S754_finite false m e /\ canonical (Z.pos m) e /\
    b <= e /\ b <= 0 /\ Z.pos m * 2 ^ (e - b) <= 2 ^ (- b).

Lemma canonical_one : canonical (2 ^ 52) (-52).
Proof. by vm_compute. Qed.

Lemma new_location_exact d r : new_location d r = loc_Exact <-> r = 0.
Proof.
  unfold new_location, new_location_even, new_location_odd.
  destruct (Z.even d), (Z.eqb_spec r 0); naive_solver.
Qed.

Lemma sig_nbits c : 0 < c < 2 ^ 53 -> nbits (c * 2 ^ (53 - nbits c)) = 53.
Proof. intros Hc. pose proof (nbits_range c Hc). rewrite nbits_mul_pow by lia. lia. Qed.

Lemma nbits_53 m : 2 ^ 52 <= m < 2 ^ 53 -> nbits m = 53.
Proof.
  intros Hm. pose proof (nbits_range m ltac:(lia)). pose proof (nbits_le (2 ^ 52) m ltac:(lia)).
  replace (nbits (2 ^ 52)) with 53 in * by done. lia.
Qed.

Lemma div_core m1 e1 m2 e2 :
  2 ^ 52 <= m1 < 2 ^ 53 -> 2 ^ 52 <= m2 < 2 ^ 53 -> -100 <= e1 - e2 <= 100 ->
  SFdiv_core_binary 53 1024 m1 e1 m2 e2 =
    (m1 * 2 ^ 53 / m2, e1 - e2 - 53, new_location m2 ((m1 * 2 ^ 53) mod m2)).
Proof.
  intros H1 H2 He. unfold SFdiv_core_binary. rewrite !Zdigits2_nbits, !nbits_53 by lia.
  assert (Z.min (fexp64 (53 + e1 - (53 + e2))) (e1 - e2) = e1 - e2 - 53) as ->
    by (unfold fexp, emin; lia).
  replace (e1 - e2 - (e1 - e2 - 53)) with 53 by lia. cbv iota zeta.
  rewrite Z.shiftl_mul_pow2 by lia. unfold Z.div, Z.modulo.
  by destruct (Z.div_eucl (m1 * 2 ^ 53) m2).
Qed.

(** The rounded quotient of two integers, the first not above the second. *)
Lemma ddiv_int_fraction a c :
  0 <= a <= c -> 0 < c < 2 ^ 53 -> fraction (of_int a / of_int c)%double.
Proof.
  intros Ha Hc. destruct (int_cases a) as [->|Ha0]; [lia| |].
  { left. rewrite of_int_zero, (of_int_pos c) by lia. done. }
  rewrite !of_int_pos by lia. unfold int_float.
  cbv beta iota delta [ddiv SFdiv xorb]. rewrite !int_float_significand by lia.
  set (m1 := a * 2 ^ (53 - nbits a)). set (m2 := c * 2 ^ (53 - nbits c)).
  pose proof (significand_range a ltac:(lia)) as H1. pose proof (significand_range c Hc) as H2.
  fold m1 in H1. fold m2 in H2. set (d := nbits c - nbits a).
  pose proof (nbits_range a ltac:(lia)). pose proof (nbits_range c Hc).
  assert (0 <= d) by (pose proof (nbits_le a c); lia).
  assert (m1 <= m2 * 2 ^ d) as Hle.
  { unfold m1, m2, d. rewrite <- Z.mul_assoc, <- Z.pow_add_r by lia.
    replace (53 - nbits c + (nbits c - nbits a)) with (53 - nbits a) by lia.
    apply Z.mul_le_mono_nonneg_r; [apply Z.pow_nonneg|]; lia. }
  rewrite div_core by lia. replace (nbits a - 53 - (nbits c - 53) - 53) with (- d - 53) by lia.
  pose proof (Z.div_mod (m1 * 2 ^ 53) m2 ltac:(lia)) as Hdm.
  pose proof (Z.mod_pos_bound (m1 * 2 ^ 53) m2 ltac:(lia)) as Hr.
  set (q := m1 * 2 ^ 53 / m2) in *. set (r := (m1 * 2 ^ 53) mod m2) in *.
  assert (2 ^ 52 <= q) by nia.
  assert (2 ^ (d + 53) = 2 ^ d * 2 ^ 53) as Hpow by (apply Z.pow_add_r; lia).
  assert (0 < 2 ^ d) by (apply Z.pow_pos_nonneg; lia).
  destruct (round_aux_le false q (- d - 53) (new_location m2 r) (2 ^ 52) (-52) (- d - 53))
    as [[Hz _]|(m' & e' & Hf & Hcan & Hb & Hv)]; try lia.
  - apply canonical_one.
  - pose proof (nbits_le (2 ^ 52) q). replace (nbits (2 ^ 52)) with 53 in * by done.
    unfold fexp, emin. lia.
  - intros _. rewrite Z.sub_diag, <- Z.pow_add_r by lia.
    replace (52 + (-52 - (- d - 53))) with (d + 53) by lia. rewrite Hpow. nia.
  - rewrite new_location_exact. intros Hne. rewrite Z.sub_diag, <- Z.pow_add_r by lia.
    replace (52 + (-52 - (- d - 53))) with (d + 53) by lia. rewrite Hpow. nia.
  - left. exact Hz.
  - right. exists m', e', (- d - 53). split_and!; [exact Hf|apply Hcan..|done|lia|].
    rewrite <- Z.pow_add_r in Hv by lia. by replace (52 + (-52 - (- d - 53))) with (- (- d - 53)) in Hv by lia.
Qed.

Lemma int_float_canonical c :
  0 < c < 2 ^ 53 -> canonical (c * 2 ^ (53 - nbits c)) (nbits c - 53).
Proof.
  intros Hc. pose proof (nbits_range c Hc). pose proof (significand_range c Hc).
  split; [lia|]. rewrite nbits_53 by done. unfold fexp, emin. lia.
Qed.

(** Truncating a value bounded by an integer. *)
Lemma dtrunc_le m e b a :
  0 <= a -> b <= e -> b <= 0 -> Z.pos m * 2 ^ (e - b) <= a * 2 ^ (- b) ->
  exists z, dtrunc (S754_finite false m e) = Some z /\ 0 <= z <= a.
Proof.
  intros Ha He Hb H. eexists. split; [reflexivity|]. simpl.
  destruct (decide (0 <= e)) as [Hpos|Hneg].
  - split; [apply Z.mul_nonneg_nonneg; [lia|apply Z.pow_nonneg; lia]|].
    apply Z.mul_le_mono_pos_r with (2 ^ (- b)); [apply Z.pow_pos_nonneg; lia|].
    by rewrite <- Z.mul_assoc, <- Z.pow_add_r by lia.
  - assert (0 < 2 ^ (- e)) by (apply Z.pow_pos_nonneg; lia).
    split; [apply Z.div_pos; lia|]. apply Z.div_le_upper_bound; [done|].
    apply Z.mul_le_mono_pos_r with (2 ^ (e - b)); [apply Z.pow_pos_nonneg; lia|].
    rewrite (Z.mul_comm _ a), <- Z.mul_assoc, <- Z.pow_add_r by lia.
    by replace (- e + (e - b)) with (- b) by lia.
Qed.

(** Scaling an integer by a fraction, rounding and truncating does not exceed
    the integer. *)
Lemma dmul_fraction a q :
  0 <= a < 2 ^ 53 -> fraction q ->
  exists z, dtrunc (of_int a * q)%double = Some z /\ 0 <= z <= a.
Proof.
  intros Ha Hq. destruct (int_cases a) as [->|Ha0]; [lia| |].
  { rewrite of_int_zero. exists 0. destruct Hq as [->|(m & e & b & -> & _)]; done. }
  pose proof (nbits_range a ltac:(lia)) as Hn. pose proof (significand_range a ltac:(lia)) as Hs.
  pose proof (int_float_canonical a ltac:(lia)) as Hc. rewrite of_int_pos by lia.
  destruct Hq as [->|(m & e & b & -> & _ & Hbe & Hb0 & Hle)]; [exists 0; by split; [|lia]|].
  unfold int_float. cbv beta iota delta [dmul SFmul xorb].
  rewrite Pos2Z.inj_mul, int_float_significand by lia.
  set (m1 := a * 2 ^ (53 - nbits a)) in *. set (e1 := nbits a - 53) in *.
  assert (m1 * 2 ^ (e1 - (e1 + b)) = a * 2 ^ (- (e1 + b))) as Ha1.
  { unfold m1. rewrite <- Z.mul_assoc, <- Z.pow_add_r by lia. do 2 f_equal. lia. }
  destruct (round_aux_le false (m1 * Z.pos m) (e1 + e) loc_Exact m1 e1 (e1 + b))
    as [[Hz _]|(m' & e' & Hf & _ & Hb' & Hv)]; try lia; try done.
  - pose proof (nbits_le m1 (m1 * Z.pos m) ltac:(nia)). rewrite (nbits_53 m1) in * by lia.
    unfold fexp, emin. lia.
  - intros _. replace (e1 + e - (e1 + b)) with (e - b) by lia.
    replace (e1 - (e1 + b)) with (- b) by lia. nia.
  - rewrite Hz. exists 0. by split; [|lia].
  - rewrite Hf. apply (dtrunc_le m' e' (e1 + b) a); [lia|lia|lia|]. by rewrite <- Ha1.
Qed.

(** The truncated product as an unsigned 64-bit integer. *)
Lemma to_uint_dmul_fraction a q :
  0 <= a < 2 ^ 53 -> fraction q ->
  exists z, to_uint 64 (of_int a * q)%double = Ok z /\ 0 <= z <= a.
Proof.
  intros Ha Hq. destruct (dmul_fraction a q Ha Hq) as (z & Hz & Hb). exists z.
  unfold to_uint. rewrite Hz. by rewrite decide_True by lia.
Qed.

(** A literal is a fraction when its significand and exponent say so. *)
Definition is_fraction (q : double) : bool :=
  match q with
  | S754_zero false => true
  | S754_finite false m e =>
      (fexp64 (nbits (Z.pos m) + e) =? e) && (e <=? 0) && (Z.pos m <=? 2 ^ (- e))
  | _ => false
  end.

Lemma is_fraction_sound q : is_fraction q = true -> fraction q.
Proof.
  destruct q as [[]| | |[] m e]; try done; [by left|]. simpl.
  rewrite !andb_true_iff, Z.eqb_eq, !Z.leb_le. intros [[Hf He] Hm]. right. exists m, e, e.
  split; [done|]. rewrite Z.sub_diag, Z.pow_0_r, Z.mul_1_r.
  split; [split; [lia|split; [exact Hf|lia]]|lia].
Qed.

(** ** Signs

    Not negative and not NaN. *)
Definition nonneg (x : double) : Prop :=
  match x with
  | S754_zero _ => True
  | S754_infinity s => s = false
  | S754_finite s _ _ => s = false
  | S754_nan => False
  end.

Lemma nonneg_dle x : nonneg x <-> dle (of_int 0) x = true.
Proof. destruct x as [[]|[]| |[] m e]; simpl; naive_solver. Qed.

Lemma shr_nonneg m l ex n r ex' :
  0 <= m -> shr (shr_record_of_loc m l) ex n = (r, ex') -> 0 <= shr_m r.
Proof.
  intros Hm H. destruct (decide (0 <= n)) as [Hn|Hn].
  - destruct (shr_spec m l ex n Hm Hn) as (r' & Hr & Hv & _). rewrite Hr in H. simplify_eq.
    rewrite Hv. apply Z.div_pos; [lia|]. apply Z.pow_pos_nonneg; lia.
  - destruct n; [lia|lia|]. simpl in H. simplify_eq. by destruct l as [|[]].
Qed.

Lemma round_nonneg m l : 0 <= m -> 0 <= round_nearest_even m l.
Proof. intros. destruct (round_cases m l) as [->|[-> _]]; lia. Qed.

(** Rounding a magnitude gives a zero, a finite number or an infinity of the
    given sign. *)
Lemma round_aux_sign sx m ex l :
  0 <= m -> is_nan (binary_round_aux 53 1024 sx m ex l) = false /\
    (sx = false -> nonneg (binary_round_aux 53 1024 sx m ex l)).
Proof.
  intros Hm. unfold binary_round_aux, shr_fexp.
  destruct (shr (shr_record_of_loc m l) ex _) as [r e1] eqn:E1. apply shr_nonneg in E1; [|done].
  pose proof (round_nonneg _ (loc_of_shr_record r) E1) as H2.
  set (m2 := round_nearest_even _ _) in *.
  destruct (shr (shr_record_of_loc m2 loc_Exact) e1 _) as [r2 e2] eqn:E2. apply shr_nonneg in E2; [|done].
  destruct (shr_m r2); [done| |lia]. by destruct (e2 <=? _).
Qed.

Lemma binary_round_sign sx m ex :
  is_nan (binary_round 53 1024 sx m ex) = false /\
  (sx = false -> nonneg (binary_round 53 1024 sx m ex)).
Proof. unfold binary_round. destruct (shl_align _ _ _) as [mz ez]. by apply round_aux_sign. Qed.

Lemma normalize_not_nan m ex : is_nan (binary_normalize 53 1024 m ex false) = false.
Proof. destruct m; simpl; [done|apply binary_round_sign..]. Qed.

Lemma normalize_nonneg m ex : 0 <= m -> nonneg (binary_normalize 53 1024 m ex false).
Proof. intros. destruct m; simpl; [done| |lia]. by apply binary_round_sign. Qed.

Lemma of_int_nonneg z : 0 <= z -> nonneg (of_int z).
Proof. apply normalize_nonneg. Qed.

Lemma nonneg_not_nan x : nonneg x -> is_nan x = false.
Proof. by destruct x. Qed.

Lemma dadd_nonneg x y : nonneg x -> nonneg y -> nonneg (x + y)%double.
Proof.
  destruct x as [[]|[]| |[] m e], y as [[]|[]| |[] m' e']; simpl; try done; intros _ _.
  apply normalize_nonneg. simpl. lia.
Qed.

Definition is_finite (x : double) : bool :=
  match x with S754_zero _ | S754_finite _ _ _ => true | _ => false end.

Lemma dadd_not_nan x y : is_nan x = false -> is_finite y = true -> is_nan (x + y)%double = false.
Proof.
  destruct x as [[]|[]| |sx m e], y as [[]|[]| |sy m' e']; simpl; try done; intros _ _.
  apply normalize_not_nan.
Qed.

Lemma dsub_not_nan x y : is_nan x = false -> is_finite y = true -> is_nan (x - y)%double = false.
Proof.
  destruct x as [[]|[]| |sx m e], y as [[]|[]| |sy m' e']; simpl; try done; intros _ _.
  apply normalize_not_nan.
Qed.

(** A positive double: what [x <= 0] being false leaves of a nonnegative one. *)
Definition positive_double (x : double) : Prop :=
  match x with S754_infinity s => s = false | S754_finite s _ _ => s = false | _ => False end.

Lemma nonneg_positive x : nonneg x -> (x <=? of_int 0)%double = false -> positive_double x.
Proof. destruct x as [[]|[]| |[] m e]; done. Qed.

Lemma ddiv_nonneg x y :
  nonneg x -> is_finite x = true -> positive_double y -> nonneg (x / y)%double.
Proof.
  destruct x as [[]|[]| |[] m e], y as [[]|[]| |[] m' e']; simpl; try done; intros _ _ _.
  unfold ddiv, SFdiv, SFdiv_core_binary. set (s := e - e' - _).
  set (n := match s with 0 => Z.pos m | Z.pos _ => Z.shiftl (Z.pos m) s | Z.neg _ => 0 end).
  assert (0 <= n) as Hn by (subst n; destruct s; [lia|apply Z.shiftl_nonneg; lia|lia]).
  pose proof (Z_div_mod n (Z.pos m') ltac:(lia)) as Hdm.
  destruct (Z.div_eucl n (Z.pos m')) as [q r]. destruct Hdm as [Hdm Hr].
  apply round_aux_sign; [nia|done].
Qed.

(** The double of a 64-bit integer is finite, and positive when it is. *)
Lemma of_int_finite z :
  0 < z < 2 ^ 64 -> exists m e, of_int z = S754_finite false m e.
Proof.
  intros Hz. destruct (decide (z < 2 ^ 53)) as [Hlt|Hge].
  { rewrite of_int_pos by lia. unfold int_float. eauto. }
  assert (53 < nbits z <= 64) as Hn.
  { pose proof (nbits_le (2 ^ 53) z ltac:(lia)). replace (nbits (2 ^ 53)) with 54 in * by done.
    unfold nbits. assert (Z.log2 z < 64) by (apply Z.log2_lt_pow2; lia). unfold nbits in *. lia. }
  destruct z as [|p|p]; [lia| |lia]. unfold of_int, binary_normalize, binary_round.
  rewrite digits2_log2. fold (nbits (Z.pos p)).
  destruct (shl_align_pos p 0 (fexp64 (nbits (Z.pos p) + 0))) as [H1 H2].
  destruct (shl_align p 0 (fexp64 (nbits (Z.pos p) + 0))) as [mz ez]. simpl in H1, H2.
  rewrite Z.max_l in H1 by (unfold fexp, emin; lia). rewrite Z.min_l in H2 by (unfold fexp, emin; lia).
  rewrite Z.mul_1_r in H1. rewrite H1, H2.
  destruct (round_aux_le false (Z.pos p) 0 loc_Exact (2 ^ 52) 12 0) as [[_ Hf]|(m' & e' & Hf & _)];
    try lia; try done.
  - unfold fexp, emin. lia.
  - unfold fexp, emin in Hf. lia.
  - eauto.
Qed.

Lemma of_int_is_finite z : 0 <= z < 2 ^ 64 -> is_finite (of_int z) = true.
Proof.
  intros Hz. destruct (int_cases z) as [->|Hp]; [lia|done|].
  destruct (of_int_finite z) as (m & e & ->); [lia|done].
Qed.

(** Quotients of 64-bit integers are numbers. *)
Lemma ddiv_int_not_nan a c :
  0 <= a < 2 ^ 64 -> 0 < c < 2 ^ 64 -> is_nan (of_int a / of_int c)%double = false.
Proof.
  intros Ha Hc. destruct (of_int_finite c Hc) as (m & e & Hce).
  apply nonneg_not_nan, ddiv_nonneg; [apply of_int_nonneg; lia|by apply of_int_is_finite|by rewrite Hce].
Qed.
