(* ===== verification/FloatOrder.v ===== *)
(** * Comparing and rounding positive doubles

    The order of canonical doubles is the order of their values, a sum of
    positive doubles is not below either of them and a product with a double
    below one is not above the other factor: rounding to nearest is monotone
    across every double, from both sides. *)

From S2P Require Import Prelude Float64 FloatInt FloatBound.

Local Open Scope Z_scope.

Lemma canonical_small k e : canonical k e -> k < 2 ^ 53 /\ -1074 <= e.
Proof.
  intros (Hk & Hc & _). pose proof (fexp64_ge (nbits k + e)). split; [|lia].
  apply Z.lt_le_trans with (2 ^ nbits k); [apply nbits_spec; lia|].
  apply Z.pow_le_mono_r; [lia|]. unfold fexp, emin in Hc. lia.
Qed.

Lemma canonical_normal k e : canonical k e -> -1074 < e -> 2 ^ 52 <= k.
Proof.
  intros (Hk & Hc & _) He. assert (nbits k = 53) as Hn by (unfold fexp, emin in Hc; lia).
  pose proof (nbits_spec k Hk). rewrite Hn in *. lia.
Qed.

(** Scaled to a common exponent, a smaller exponent is a smaller value. *)
Lemma canonical_exponent k1 e1 k2 e2 b :
  canonical k1 e1 -> canonical k2 e2 -> b <= e1 -> e1 < e2 ->
  k1 * 2 ^ (e1 - b) < k2 * 2 ^ (e2 - b).
Proof.
  intros H1 H2 Hb He. destruct (canonical_small _ _ H1) as [Hk1 Hmin].
  pose proof (canonical_normal _ _ H2 ltac:(lia)) as Hk2.
  assert (2 ^ (e2 - b) = 2 ^ (e2 - e1) * 2 ^ (e1 - b)) as Hpow.
  { rewrite <- Z.pow_add_r by lia. f_equal. lia. }
  rewrite Hpow. assert (2 ^ 1 <= 2 ^ (e2 - e1)) by (apply Z.pow_le_mono_r; lia).
  assert (0 < 2 ^ (e1 - b)) by (apply Z.pow_pos_nonneg; lia). nia.
Qed.

(** The order of canonical positive doubles. *)
Lemma dle_canonical m1 e1 m2 e2 b :
  canonical (Z.pos m1) e1 -> canonical (Z.pos m2) e2 -> b <= e1 -> b <= e2 ->
  dle (S754_finite false m1 e1) (S754_finite false m2 e2) = true <->
  Z.pos m1 * 2 ^ (e1 - b) <= Z.pos m2 * 2 ^ (e2 - b).
Proof.
  intros H1 H2 Hb1 Hb2. unfold dle, SFleb, SFcompare. destruct (Z.compare_spec e1 e2) as [->|Hlt|Hgt].
  - assert (0 < 2 ^ (e2 - b)) by (apply Z.pow_pos_nonneg; lia).
    rewrite <- Z.mul_le_mono_pos_r by done. change (Pos.compare_cont Eq m1 m2) with (Pos.compare m1 m2).
    destruct (Pos.compare_spec m1 m2); split; intros; try done; lia.
  - pose proof (canonical_exponent _ _ _ _ b H1 H2 Hb1 Hlt). split; [lia|done].
  - pose proof (canonical_exponent _ _ _ _ b H2 H1 Hb2 Hgt). split; [done|lia].
Qed.

(** ** Rounding from below *)

Lemma rounded_bound_ge m ex k e b r :
  0 < m -> canonical k e -> b <= ex -> b <= e ->
  let e1 := fexp64 (nbits m + ex) in ex <= e1 ->
  k * 2 ^ (e - b) <= m * 2 ^ (ex - b) ->
  shr_m r = m / 2 ^ (e1 - ex) ->
  let m2 := round_nearest_even (shr_m r) (loc_of_shr_record r) in
  0 < m2 <= 2 ^ 53 /\ k * 2 ^ (e - b) <= m2 * 2 ^ (e1 - b) /\ (e1 = -1074 \/ 2 ^ 52 <= m2).
Proof.
  intros Hm Hc Hb He e1 Hex Hge Hr m2. destruct (canonical_small _ _ Hc) as [Hk Hmin].
  pose proof Hc as (Hk0 & Hfe & _).
  assert (e <= e1) as Hee.
  { rewrite <- Hfe. apply fexp64_mono. by apply (scaled_nbits k e m ex b). }
  assert (0 < 2 ^ (e1 - ex)) as Hp by (apply Z.pow_pos_nonneg; lia).
  assert (0 < 2 ^ (ex - b)) by (apply Z.pow_pos_nonneg; lia).
  assert (0 < 2 ^ (e - b)) by (apply Z.pow_pos_nonneg; lia).
  assert (2 ^ (e1 - b) = 2 ^ (e1 - ex) * 2 ^ (ex - b)) as Hpow.
  { rewrite <- Z.pow_add_r by lia. f_equal. lia. }
  pose proof (Z.div_mod m (2 ^ (e1 - ex))). pose proof (Z.mod_pos_bound m (2 ^ (e1 - ex)) Hp).
  assert (m / 2 ^ (e1 - ex) < 2 ^ 53).
  { apply Z.div_lt_upper_bound; [lia|]. rewrite <- Z.pow_add_r by lia.
    apply Z.lt_le_trans with (2 ^ nbits m); [apply nbits_spec; lia|].
    apply Z.pow_le_mono_r; [lia|]. unfold e1, fexp, emin. lia. }
  assert (e1 = -1074 \/ 2 ^ 52 <= m / 2 ^ (e1 - ex)) as Hnorm.
  { unfold e1 at 1, fexp, emin. destruct (decide (nbits m + ex - 53 <= -1074)); [lia|right].
    assert (e1 - ex = nbits m - 53) as -> by (unfold e1, fexp, emin; lia).
    assert (53 <= nbits m) by (unfold e1, fexp, emin in Hex; lia).
    apply Z.div_le_lower_bound; [lia|]. rewrite <- Z.pow_add_r by lia.
    replace (nbits m - 53 + 52) with (nbits m - 1) by lia. apply nbits_spec. lia. }
  assert (k * 2 ^ (e - b) <= m / 2 ^ (e1 - ex) * 2 ^ (e1 - b)) as Hlow.
  { destruct (decide (e1 = e)) as [->|Hne].
    - apply Z.mul_le_mono_nonneg_r; [lia|]. apply Z.div_le_lower_bound; [lia|].
      rewrite Hpow in Hge. nia.
    - assert (2 ^ (e1 - b) = 2 ^ (e1 - e) * 2 ^ (e - b)) as ->.
      { rewrite <- Z.pow_add_r by lia. f_equal. lia. }
      assert (2 ^ 1 <= 2 ^ (e1 - e)) by (apply Z.pow_le_mono_r; lia).
      assert (2 ^ 52 <= m / 2 ^ (e1 - ex)) by (destruct Hnorm as [Hz|]; [exfalso; lia|done]).
      set (q := m / 2 ^ (e1 - ex)) in *. rewrite Z.mul_assoc.
      apply Z.mul_le_mono_nonneg_r; [lia|]. nia. }
  assert (0 < 2 ^ (e1 - b)) by (apply Z.pow_pos_nonneg; lia).
  unfold m2. rewrite Hr.
  destruct (round_cases (m / 2 ^ (e1 - ex)) (loc_of_shr_record r)) as [-> |[-> _]];
    set (q := m / 2 ^ (e1 - ex)) in *; split_and!; nia.
Qed.

(** Rounding stays above every double below the exact value. *)
Lemma round_aux_ge m ex l k e b :
  0 < m -> canonical k e -> b <= ex -> b <= e -> ex <= fexp64 (nbits m + ex) ->
  k * 2 ^ (e - b) <= m * 2 ^ (ex - b) ->
  binary_round_aux 53 1024 false m ex l = S754_infinity false \/
  exists m' e', binary_round_aux 53 1024 false m ex l = S754_finite false m' e' /\
    canonical (Z.pos m') e' /\ b <= e' /\ k * 2 ^ (e - b) <= Z.pos m' * 2 ^ (e' - b).
Proof.
  intros Hm Hc Hb He Hex Hge. remember (binary_round_aux 53 1024 false m ex l) as v eqn:Hv.
  unfold binary_round_aux, shr_fexp at 1 in Hv. rewrite Zdigits2_nbits in Hv by lia.
  destruct (shr_spec m l ex (fexp64 (nbits m + ex) - ex)) as (r & Hshr & Hr & _); [lia..|].
  rewrite Hshr in Hv.
  destruct (rounded_bound_ge m ex k e b r) as (Hm2 & Hbound & Hn); [done..|].
  set (m2 := round_nearest_even _ _) in *. set (e1 := fexp64 (nbits m + ex)) in *.
  replace (ex + (e1 - ex)) with e1 in Hv by lia. pose proof (fexp64_ge (nbits m + ex)).
  destruct (renormalize m2 e1) as (r2 & e2 & Hshr2 & Hpos & He2 & Hval & Hcan); [lia..|].
  rewrite Hshr2 in Hv. destruct (shr_m r2) as [|p|p]; [lia| |lia].
  destruct (e2 <=? 1024 - 53) eqn:Emax; [right|by left].
  apply Z.leb_le in Emax. exists p, e2. split; [done|].
  split; [split; [lia|by split; [|lia]]|]. split; [lia|].
  rewrite <- Hval, <- Z.mul_assoc, <- Z.pow_add_r in Hbound by lia.
  by replace (e2 - e1 + (e1 - b)) with (e2 - b) in Hbound by lia.
Qed.

(** ** Sums and products *)

Lemma binary_round_ge p ex k e b :
  canonical k e -> b <= ex -> b <= e -> b <= fexp64 (nbits (Z.pos p) + ex) ->
  k * 2 ^ (e - b) <= Z.pos p * 2 ^ (ex - b) ->
  binary_round 53 1024 false p ex = S754_infinity false \/
  exists m' e', binary_round 53 1024 false p ex = S754_finite false m' e' /\
    canonical (Z.pos m') e' /\ b <= e' /\ k * 2 ^ (e - b) <= Z.pos m' * 2 ^ (e' - b).
Proof.
  intros Hc Hb He Hf Hge. unfold binary_round. rewrite digits2_log2. fold (nbits (Z.pos p)).
  set (f := fexp64 (nbits (Z.pos p) + ex)) in *.
  destruct (shl_align_pos p ex f) as [H1 H2]. destruct (shl_align p ex f) as [mz ez].
  simpl fst in H1. simpl snd in H2.
  assert (nbits (Z.pos mz) + ez = nbits (Z.pos p) + ex) as Hn.
  { rewrite H1, nbits_mul_pow, H2 by lia. lia. }
  apply round_aux_ge; try done; [lia|rewrite Hn; fold f; lia|].
  rewrite H1, <- Z.mul_assoc, <- Z.pow_add_r by lia.
  by replace (Z.max 0 (ex - f) + (ez - b)) with (ex - b) by lia.
Qed.

(** The positive finite doubles and their values in units of [2^-1074]. *)
Definition regular (x : double) : Prop :=
  match x with S754_finite false m e => canonical (Z.pos m) e | _ => False end.

Definition scaled (x : double) : Z :=
  match x with S754_finite _ m e => Z.pos m * 2 ^ (e - -1074) | _ => 0 end.

Lemma regular_cases x :
  regular x -> exists m e, x = S754_finite false m e /\ canonical (Z.pos m) e /\ -1074 <= e.
Proof.
  destruct x as [| | |[] m e]; try done. intros H. exists m, e. split_and!; [done..|].
  by apply canonical_small in H as [].
Qed.

Lemma scaled_nonneg x : 0 <= scaled x.
Proof. destruct x; simpl; lia. Qed.

Lemma dle_regular x y : regular x -> regular y -> dle x y = true <-> scaled x <= scaled y.
Proof.
  intros (m1 & e1 & -> & H1 & Hb1)%regular_cases (m2 & e2 & -> & H2 & Hb2)%regular_cases.
  by apply (dle_canonical _ _ _ _ (-1074)).
Qed.

(** A sum is not below any double its exact value is not below. *)
Lemma dadd_ge x y z :
  regular x -> regular y -> regular z -> scaled z <= scaled x + scaled y ->
  (x + y)%double = S754_infinity false \/ regular (x + y)%double /\ scaled z <= scaled (x + y)%double.
Proof.
  intros (m1 & e1 & -> & H1 & Hb1)%regular_cases (m2 & e2 & -> & H2 & Hb2)%regular_cases
    (k & e & -> & Hk & Hb)%regular_cases Hle. unfold scaled in Hle.
  cbv beta iota zeta delta [dadd SFadd cond_Zopp]. set (ez := Z.min e1 e2).
  destruct (shl_align_pos m1 e1 ez) as [A1 _]. destruct (shl_align_pos m2 e2 ez) as [A2 _].
  set (p1 := fst (shl_align m1 e1 ez)) in *. set (p2 := fst (shl_align m2 e2 ez)) in *.
  change (Z.pos p1 + Z.pos p2) with (Z.pos (p1 + p2)). unfold binary_normalize.
  replace (Z.max 0 (e1 - ez)) with (e1 - ez) in A1 by lia.
  replace (Z.max 0 (e2 - ez)) with (e2 - ez) in A2 by lia.
  assert (forall e0, ez <= e0 -> 2 ^ (e0 - -1074) = 2 ^ (e0 - ez) * 2 ^ (ez - -1074)) as Hpow.
  { intros e0 ?. rewrite <- Z.pow_add_r by lia. f_equal. lia. }
  rewrite (Hpow e1), (Hpow e2) in Hle by lia.
  destruct (binary_round_ge (p1 + p2) ez (Z.pos k) e (-1074)) as [->|(m & e' & -> & Hc & He & Hv)];
    [done|lia|lia|apply fexp64_ge| |by left|by right].
  rewrite Pos2Z.inj_add, A1, A2. etransitivity; [exact Hle|]. apply Z.eq_le_incl. ring.
Qed.

(** A product with a double not above one is not above the other factor. *)
Lemma dmul_le x m2 e2 :
  regular x -> e2 <= 0 -> Z.pos m2 <= 2 ^ (- e2) -> 2 ^ 52 <= Z.pos m2 ->
  let r := (x * S754_finite false m2 e2)%double in
  r = S754_zero false \/ regular r /\ scaled r <= scaled x.
Proof.
  intros (m1 & e1 & -> & H1 & Hb1)%regular_cases He2 Hm2 Hbig.
  cbv beta iota zeta delta [dmul SFmul xorb]. rewrite Pos2Z.inj_mul. pose proof H1 as (_ & Hf & _).
  assert (nbits (Z.pos m1) + 52 <= nbits (Z.pos m1 * Z.pos m2)) as Hn.
  { rewrite <- nbits_mul_pow by lia. apply nbits_le. nia. }
  assert (Z.pos m2 * 2 ^ (e1 + e2 - (e1 + e2)) <= 2 ^ (e1 - (e1 + e2))) as Hv.
  { rewrite Z.sub_diag. replace (e1 - (e1 + e2)) with (- e2) by lia. lia. }
  destruct (round_aux_le false (Z.pos m1 * Z.pos m2) (e1 + e2) loc_Exact (Z.pos m1) e1 (e1 + e2))
    as [[-> _]|(m & e & -> & Hc & Hb & Hle)]; try lia; try done.
  - unfold fexp, emin in *. lia.
  - intros _. nia.
  - by left.
  - right. split; [exact Hc|]. apply dle_regular; [exact Hc|exact H1|].
    apply (dle_canonical _ _ _ _ (e1 + e2)); [done|done|lia|lia|done].
Qed.

Lemma regular_not_nan x : regular x -> is_nan x = false.
Proof. by destruct x. Qed.

Lemma dlt_regular x y : regular x -> regular y -> dlt x y = true <-> scaled x < scaled y.
Proof.
  intros Hx Hy. split; intros H.
  - destruct (decide (scaled y <= scaled x)) as [Hle|]; [|lia].
    apply dle_regular, dle_dlt_false in Hle; [congruence|done..].
  - destruct (dlt x y) eqn:E; [done|]. apply dlt_false, dle_regular in E;
      auto using regular_not_nan. lia.
Qed.

Lemma dmin_regular a r :
  regular a -> regular r -> regular (dmin a r) /\ scaled (dmin a r) = Z.min (scaled a) (scaled r).
Proof.
  intros Ha Hr. pose proof (dlt_regular r a Hr Ha). unfold dmin.
  destruct (dlt r a); (split; [done|]); [|destruct (decide (scaled r < scaled a))];
    intuition (try lia; try congruence).
Qed.

Lemma dmax_regular a r :
  regular a -> regular r -> regular (dmax a r) /\ scaled (dmax a r) = Z.max (scaled a) (scaled r).
Proof.
  intros Ha Hr. pose proof (dlt_regular a r Ha Hr). unfold dmax.
  destruct (dlt a r); (split; [done|]); [|destruct (decide (scaled a < scaled r))];
    intuition (try lia; try congruence).
Qed.

Lemma dmin_left a r : regular a -> regular r -> scaled a <= scaled r -> dmin a r = a.
Proof.
  intros Ha Hr H. unfold dmin. destruct (dlt r a) eqn:E; [|done].
  apply dlt_regular in E; [lia|done..].
Qed.

Lemma dmin_infinity a : regular a -> dmin a (S754_infinity false) = a.
Proof. by destruct a as [| | |[]]. Qed.

Lemma dmax_zero a : regular a -> dmax a (S754_zero false) = a.
Proof. by destruct a as [| | |[]]. Qed.

Lemma deq_regular x y : regular x -> regular y -> deq x y = true -> x = y.
Proof.
  destruct x as [| | |[] m e], y as [| | |[] m' e']; try done. intros _ _. unfold deq, SFeqb, SFcompare.
  destruct (Z.compare_spec e e') as [->| |]; try done.
  change (Pos.compare_cont Eq m m') with (Pos.compare m m').
  by destruct (Pos.compare_spec m m') as [->| |].
Qed.

Lemma scaled_inj x y : regular x -> regular y -> scaled x = scaled y -> x = y.
Proof.
  intros (m1 & e1 & -> & H1 & Hb1)%regular_cases (m2 & e2 & -> & H2 & Hb2)%regular_cases H.
  unfold scaled in H. destruct (Z.lt_total e1 e2) as [Hlt|[->|Hlt]].
  - pose proof (canonical_exponent _ _ _ _ (-1074) H1 H2 Hb1 Hlt). lia.
  - assert (0 < 2 ^ (e2 - -1074)) by (apply Z.pow_pos_nonneg; lia).
    apply Z.mul_reg_r in H; [|lia]. by simplify_eq.
  - pose proof (canonical_exponent _ _ _ _ (-1074) H2 H1 Hb2 Hlt). lia.
Qed.

(** Deciding it of a literal. *)
Definition is_regular (x : double) : bool :=
  match x with
  | S754_finite false m e => (fexp64 (nbits (Z.pos m) + e) =? e) && (e <=? 971)
  | _ => false
  end.

Lemma is_regular_sound x : is_regular x = true -> regular x.
Proof.
  destruct x as [| | |[] m e]; try done. simpl. rewrite andb_true_iff, Z.eqb_eq, Z.leb_le.
  intros [H1 H2]. split; [lia|]. by split.
Qed.
