(* ===== verification/BaseTypes.v ===== *)
(** * Base types and constants

    [src/sandook/base]: [constants.h], [types.h], [io_desc.h],
    [io_callback.h], [server_stats.h], [error.h] and [hash.h]. The
    [enum]s are inductive types with the source's constructors, in a module
    named after the [enum]; structures are records with the source's fields;
    [Status<T>] is a sum of a value and a Linux error code. *)

From S2P Require Import Prelude Float64.

Local Open Scope Z_scope.

(** ** constants.h *)

Definition kIPAddrStrLen : Z := 16.
Definition kNameStrLen : Z := 20.
Definition kNumMaxServers : Z := 20.
Definition kNumMaxVolumes : Z := 16.
Definition kNumReplicas : Z := 2.
Definition kAllocationBatch : Z := 2048.
Definition kDiscardBatch : Z := 2048.
Definition kSectorShift : Z := 12.
Definition kLinuxSectorShift : Z := 9.
Definition kNumLinuxSectorsPerSandookSector : Z := Z.shiftl 1 (kSectorShift - kLinuxSectorShift).
Definition kDeviceAlignment : Z := Z.shiftl 1 kSectorShift.
Definition kMillion : Z := 1000 * 1000.
Definition kOneMicroSecond : Z := 1.
Definition kOneMilliSecond : Z := 1000 * kOneMicroSecond.
Definition kOneSecond : Z := 1000 * kOneMilliSecond.
Definition kDiskServerStatsUpdateIntervalUs : Z := 100 * kOneMicroSecond.
Definition kControlPlaneUpdateIntervalUs : Z := kDiskServerStatsUpdateIntervalUs.
Definition kServerStatsPullIntervalUs : Z := kControlPlaneUpdateIntervalUs.
Definition kModeSwitchIntervalUs : Z := 300 * kOneMilliSecond.
Definition kDiskServerModeSwitchGracePeriodUs : Z := 1 * kOneMilliSecond.
Definition kCongestionControlWindowUs : Z := 50 * kOneMilliSecond.
Definition kPeakWriteIOPSPerSSD : double := (dlit 20 100 * of_int kMillion)%double.
Definition kPeakReadIOPSPerSSD : double := (dlit 6 10 * of_int kMillion)%double.

(** ** types.h *)

Abbreviation VolumeBlockAddr := (Z).
Abbreviation ServerBlockAddr := (Z).
Abbreviation VolumeID := (Z).
Abbreviation ServerID := (Z).
Definition kInvalidServerID : ServerID := 0.
Definition kInvalidVolumeID : VolumeID := 0.

Module ServerBlockInfo.
Record t := mk { server_id : ServerID; block_addr : ServerBlockAddr }.
#[global] Instance eq_dec : EqDecision t.
Proof. solve_decision. Defined.
End ServerBlockInfo.

Module VolumeBlockInfo.
Record t := mk { vol_id : VolumeID; block_addr : VolumeBlockAddr }.
#[global] Instance eq_dec : EqDecision t.
Proof. solve_decision. Defined.
End VolumeBlockInfo.

(** [std::set<ServerID>]: the elements in increasing order. *)
Abbreviation ServerSet := (list ServerID).

(** The pair's [bool] is the dirty bit. *)
Abbreviation ServerReplicaBlockInfo := (ServerBlockInfo.t * bool)%type.
Abbreviation ServerReplicaBlockInfoList := (list ServerReplicaBlockInfo).
Abbreviation ServerReplicaList := (list ServerID).

(** Traffic, number of read servers, number of write servers. *)
Abbreviation ServerAllocation := (bool * Z * Z)%type.
(** Read and write IOPS. *)
Abbreviation SystemLoad := (Z * Z)%type.
(** Peak read, write and mixed IOPS. *)
Abbreviation DiskPeakIOPS := (Z * Z * Z)%type.
Abbreviation RateLimit := (double).

Module ServerCongestionState.
Inductive t := kInvalid | kUnCongested | kCongested | kCongestedUnstable | kCongestedStable.
#[global] Instance eq_dec : EqDecision t.
Proof. solve_decision. Defined.
End ServerCongestionState.

(** ** io_desc.h and io_callback.h *)

Definition kOpMask : Z := 0xff.
Definition kFlagShift : Z := 8.

(** An [enum class] with an underlying [unsigned] also holds the values none
    of its enumerators names. *)
Module OpType.
Inductive t :=
| kRead | kWrite | kFlush | kDiscard | kWriteSame | kWriteZeroes | kAllocate
| kUnnamed (code : Z).
#[global] Instance eq_dec : EqDecision t.
Proof. solve_decision. Defined.

Definition of_code (c : Z) : t :=
  match c with
  | 0 => kRead | 1 => kWrite | 2 => kFlush | 3 => kDiscard
  | 4 => kWriteSame | 5 => kWriteZeroes | 6 => kAllocate
  | _ => kUnnamed c
  end.

Definition code (op : t) : Z :=
  match op with
  | kRead => 0 | kWrite => 1 | kFlush => 2 | kDiscard => 3
  | kWriteSame => 4 | kWriteZeroes => 5 | kAllocate => 6
  | kUnnamed c => c
  end.
End OpType.

Module IOStatus.
Inductive t := kOk | kFailed.
#[global] Instance eq_dec : EqDecision t.
Proof. solve_decision. Defined.
End IOStatus.

Module IOResult.
Record t := mk { status : IOStatus.t; res : Z }.
End IOResult.

(** The callback is a function pointer: it and its argument travel with the
    request as addresses. *)
Module IODesc.
Record t := mk {
  op_flags : Z;
  num_sectors : Z;
  start_sector : Z;
  addr : Z;
  callback_args : Z;
  callback : Z;
}.
#[global] Instance eq_dec : EqDecision t.
Proof. solve_decision. Defined.
#[global] Instance settable : Settable t :=
  settable! mk <op_flags; num_sectors; start_sector; addr; callback_args; callback>.

Definition get_op (iod : t) : OpType.t := OpType.of_code (Z.land (op_flags iod) kOpMask).
Definition get_flags (iod : t) : Z := Z.shiftr (op_flags iod) kFlagShift.
End IODesc.

(** ** server_stats.h *)

Definition kDefaultServerWeight : double := of_int 1.

Module ServerMode.
Inductive t := kMix | kRead | kWrite.
#[global] Instance eq_dec : EqDecision t.
Proof. solve_decision. Defined.
End ServerMode.

Module ServerStats.
Record t := mk {
  server_id : ServerID;
  mode : ServerMode.t;
  committed_mode : ServerMode.t;
  read_mops : double;
  write_mops : double;
  read_weight : double;
  write_weight : double;
  inflight_reads : Z;
  inflight_writes : Z;
  completed_reads : Z;
  pure_reads : Z;
  impure_reads : Z;
  completed_writes : Z;
  rejected_reads : Z;
  rejected_writes : Z;
  median_read_latency : Z;
  median_write_latency : Z;
  signal_read_latency : Z;
  signal_write_latency : Z;
  is_rejecting_requests : bool;
  congestion_state : ServerCongestionState.t;
}.
#[global] Instance eq_dec : EqDecision t.
Proof. intros x y. unfold Decision. repeat (decide equality; try apply double_eq_dec). Defined.
#[global] Instance settable : Settable t :=
  settable! mk <server_id; mode; committed_mode; read_mops; write_mops; read_weight; write_weight;
    inflight_reads; inflight_writes; completed_reads; pure_reads; impure_reads; completed_writes;
    rejected_reads; rejected_writes; median_read_latency; median_write_latency;
    signal_read_latency; signal_write_latency; is_rejecting_requests; congestion_state>.

(** Value initialisation: every field zero. *)
Definition zero : t :=
  mk 0 ServerMode.kMix ServerMode.kMix (of_int 0) (of_int 0) (of_int 0) (of_int 0)
    0 0 0 0 0 0 0 0 0 0 0 0 false ServerCongestionState.kInvalid.
End ServerStats.

Abbreviation ServerWeight := (double).
Definition kInvalidServerWeight : ServerWeight := double_min.
Abbreviation ServerModes := (list ServerMode.t).
Abbreviation ServerWeights := (list ServerWeight).
Abbreviation ServerStatsList := (list ServerStats.t).
Abbreviation DataPlaneServerStats := (ServerMode.t * ServerCongestionState.t * ServerWeight * ServerWeight)%type.

Definition InitServerWeights (weights : ServerWeights) : ServerWeights :=
  map (fun _ => kInvalidServerWeight) weights.

(** ** error.h *)

Inductive Status (A : Type) :=
| Value (a : A)
| MakeError (code : Z).
Arguments Value {A} a.
Arguments MakeError {A} code.

#[global] Instance status_ret : MRet Status := fun A a => Value a.
#[global] Instance status_bind : MBind Status :=
  fun A B f m => match m with Value a => f a | MakeError c => MakeError c end.

Definition has_value {A} (s : Status A) : bool :=
  match s with Value _ => true | MakeError _ => false end.

(** [MakeCError]: a C errno as a negative int. *)
Definition MakeCError {A} (s : Status A) : Z :=
  match s with Value _ => 0 | MakeError c => - c end.

Definition EEOF : Z := 0.
Definition EIO : Z := 5.
Definition EAGAIN : Z := 11.
Definition ENOMEM : Z := 12.
Definition EEXIST : Z := 17.
Definition EINVAL : Z := 22.
Definition ENOENT : Z := 2.
Definition EINTR : Z := 4.
Definition EALREADY : Z := 114.

(** ** hash.h *)

Section Hash.
(** [std::hash<uint64_t>]: a function of the C++ library the code does not fix. *)
Variable std_hash : Z -> Z.

Definition Hash (var1 var2 : Z) : Z := std_hash (Z.lxor var1 var2).
Definition Hash128 (var : Z) : Z := Hash (u64 var) (u64 (Z.shiftr var 64)).
End Hash.
