(* ===== verification/Wire.v ===== *)
(** * Structures in memory

    The messages of [src/sandook/base/msg.h] are C++ structures written into a
    byte buffer and read back through a cast. A [codec] is a type with its
    size, its alignment and how it is stored at an offset of a buffer, in the
    x86-64 System V layout: little-endian scalars, each field at the next
    multiple of its alignment, padding left as it was. *)

From Stdlib Require Import Floats.
From S2P Require Import Prelude Float64 FloatInt FloatBound FloatOrder.

Local Open Scope Z_scope.

(** ** Scalars as bytes *)

Fixpoint to_le (n : nat) (z : Z) : list Z :=
  match n with O => [] | S n => z mod 256 :: to_le n (z / 256) end.

Fixpoint of_le (bytes : list Z) : Z :=
  match bytes with [] => 0 | b :: bytes => b + 256 * of_le bytes end.

Lemma to_le_length n z : length (to_le n z) = n.
Proof. revert z. induction n; intros z; simpl; auto. Qed.

Lemma of_to_le n z : 0 <= z < 256 ^ Z.of_nat n -> of_le (to_le n z) = z.
Proof.
  revert z. induction n as [|n IH]; intros z Hz; simpl in *; [lia|].
  rewrite Nat2Z.inj_succ, Z.pow_succ_r in Hz by lia. rewrite IH.
  - pose proof (Z.div_mod z 256). lia.
  - split; [apply Z.div_pos; lia|]. apply Z.div_lt_upper_bound; lia.
Qed.

(** ** Codecs *)

Record codec (A : Type) := Codec {
  csize : nat;
  calign : nat;
  cwrite : nat -> A -> list Z -> list Z;
  cread : nat -> list Z -> A;
}.
Arguments Codec {A} csize calign cwrite cread.
Arguments csize {A} c.
Arguments calign {A} c.
Arguments cwrite {A} c off a buf.
Arguments cread {A} c off buf.

(** What a codec promises for the values in [valid]: it writes only its own
    bytes, reads only its own bytes, and reads back what it wrote. *)
Class CodecLaws {A} (c : codec A) (valid : A -> Prop) := {
  write_length off a buf : length (cwrite c off a buf) = length buf;
  write_frame off a buf i : (i < off \/ off + csize c <= i)%nat -> cwrite c off a buf !! i = buf !! i;
  read_local off buf buf' :
    (forall i, (off <= i < off + csize c)%nat -> buf !! i = buf' !! i) -> cread c off buf = cread c off buf';
  read_write off a buf :
    valid a -> (off + csize c <= length buf)%nat -> cread c off (cwrite c off a buf) = a;
}.

Lemma laws_weaken {A} (c : codec A) (P Q : A -> Prop) : CodecLaws c P -> (forall a, Q a -> P a) -> CodecLaws c Q.
Proof. intros [] Hw. split; eauto. Qed.

Lemma read_after_write {A B} (c : codec A) (d : codec B) {P Q} `{!CodecLaws c P, !CodecLaws d Q} off off' b buf :
  (off + csize c <= off' \/ off' + csize d <= off)%nat ->
  cread c off (cwrite d off' b buf) = cread c off buf.
Proof. intros Hd. eapply read_local. intros i Hi. eapply write_frame. lia. Qed.

(** *** Scalars *)

Definition load (off n : nat) (buf : list Z) : list Z := take n (drop off buf).

Definition scalar (n : nat) : codec Z :=
  Codec n n (fun off z buf => list_inserts off (to_le n z) buf) (fun off buf => of_le (load off n buf)).

Abbreviation u8c := (scalar 1).
Abbreviation u32c := (scalar 4).
Abbreviation u64c := (scalar 8).

Lemma load_ext off n buf buf' :
  (forall i, (off <= i < off + n)%nat -> buf !! i = buf' !! i) -> load off n buf = load off n buf'.
Proof.
  intros H. apply list_eq. intros i. unfold load. destruct (decide (i < n)%nat).
  - rewrite !lookup_take_lt by done. rewrite !lookup_drop. apply H. lia.
  - by rewrite !lookup_take_ge by lia.
Qed.

Lemma load_inserts off l buf :
  (off + length l <= length buf)%nat -> load off (length l) (list_inserts off l buf) = l.
Proof.
  intros H. apply list_eq. intros i. unfold load. destruct (decide (i < length l)%nat).
  - rewrite lookup_take_lt, lookup_drop by done. rewrite list_lookup_inserts by lia. f_equal. lia.
  - rewrite lookup_take_ge by lia. symmetry. apply lookup_ge_None_2. lia.
Qed.

#[global] Instance scalar_laws n : CodecLaws (scalar n) (fun z => 0 <= z < 256 ^ Z.of_nat n).
Proof.
  split; intros; simpl in *.
  - apply length_inserts.
  - destruct H; [by apply list_lookup_inserts_lt|]. apply list_lookup_inserts_ge. by rewrite to_le_length.
  - f_equal. by apply load_ext.
  - pose proof (load_inserts off (to_le n a) buf) as Hl. rewrite to_le_length in Hl.
    rewrite Hl by done. by apply of_to_le.
Qed.

(** *** Derived codecs *)

(** The same bytes seen as another type. *)
Definition cmap {A B} (f : A -> B) (g : B -> A) (c : codec A) : codec B :=
  Codec (csize c) (calign c) (fun off b buf => cwrite c off (g b) buf) (fun off buf => f (cread c off buf)).

#[global] Instance cmap_laws {A B} (f : A -> B) (g : B -> A) c P `{!CodecLaws c P} :
  CodecLaws (cmap f g c) (fun b => P (g b) /\ f (g b) = b).
Proof.
  split; intros; simpl in *.
  - apply write_length.
  - by apply write_frame.
  - f_equal. by apply read_local.
  - destruct H as [HP Hfg]. rewrite read_write by done. done.
Qed.

Definition align_up (n a : nat) : nat := ((n + (a - 1)) / a * a)%nat.

(** The offset of a field of type [d] after the fields of [c]. *)
Definition offset_after {A B} (c : codec A) (d : codec B) : nat := Nat.max (csize c) (align_up (csize c) (calign d)).

Definition pair_codec {A B} (c : codec A) (d : codec B) : codec (A * B) :=
  let off_d := offset_after c d in
  Codec (off_d + csize d) (Nat.max (calign c) (calign d))
    (fun off '(a, b) buf => cwrite d (off + off_d) b (cwrite c off a buf))
    (fun off buf => (cread c off buf, cread d (off + off_d) buf)).
Notation "c ⊗ d" := (pair_codec c d) (at level 40, left associativity).

#[global] Instance pair_laws {A B} (c : codec A) (d : codec B) P Q `{!CodecLaws c P, !CodecLaws d Q} :
  CodecLaws (c ⊗ d) (fun ab => P ab.1 /\ Q ab.2).
Proof.
  assert (csize c <= offset_after c d)%nat as Hle by (unfold offset_after; lia).
  split; [intros off [a b] buf|intros off [a b] buf i Hi|intros off buf buf' H|intros off [a b] buf [Ha Hb] Hl]; simpl in *.
  - by rewrite !write_length.
  - rewrite !write_frame by lia. done.
  - f_equal; apply read_local; intros i Hi; apply H; lia.
  - rewrite (read_after_write c d) by lia. rewrite !read_write; rewrite ?write_length; by lia || done.
Qed.

(** A structure is as large as a multiple of its alignment. *)
Definition struct {A} (c : codec A) : codec A :=
  Codec (Nat.max (csize c) (align_up (csize c) (calign c))) (calign c) (cwrite c) (cread c).

#[global] Instance struct_laws {A} (c : codec A) P `{!CodecLaws c P} : CodecLaws (struct c) P.
Proof.
  split; intros; simpl in *.
  - apply write_length.
  - apply write_frame. lia.
  - apply read_local. intros i Hi. apply H. lia.
  - apply read_write; [done|lia].
Qed.

(** An array: element [i] at [i] times the element size. *)
Fixpoint write_elems {A} (c : codec A) (off : nat) (l : list A) (buf : list Z) : list Z :=
  match l with [] => buf | a :: l => write_elems c (off + csize c) l (cwrite c off a buf) end.

Fixpoint read_elems {A} (c : codec A) (n off : nat) (buf : list Z) : list A :=
  match n with O => [] | S n => cread c off buf :: read_elems c n (off + csize c) buf end.

Definition array {A} (n : nat) (c : codec A) : codec (list A) :=
  Codec (n * csize c) (calign c) (fun off l buf => write_elems c off (take n l) buf) (fun off buf => read_elems c n off buf).

Section Elems.
Context {A} (c : codec A) (P : A -> Prop) `{!CodecLaws c P}.

Lemma write_elems_length off l buf : length (write_elems c off l buf) = length buf.
Proof. revert off buf. induction l as [|a l IH]; intros off buf; simpl; [done|]. by rewrite IH, write_length. Qed.

Lemma write_elems_frame off l buf i :
  (i < off \/ off + length l * csize c <= i)%nat -> write_elems c off l buf !! i = buf !! i.
Proof.
  revert off buf. induction l as [|a l IH]; intros off buf Hi; simpl in *; [done|].
  rewrite IH by lia. apply write_frame. lia.
Qed.

Lemma read_elems_local n off buf buf' :
  (forall i, (off <= i < off + n * csize c)%nat -> buf !! i = buf' !! i) ->
  read_elems c n off buf = read_elems c n off buf'.
Proof.
  revert off. induction n as [|n IH]; intros off H; simpl in *; [done|]. f_equal.
  - apply read_local. intros i Hi. apply H. lia.
  - apply IH. intros i Hi. apply H. lia.
Qed.

Lemma read_write_elems off l buf :
  Forall P l -> (off + length l * csize c <= length buf)%nat ->
  read_elems c (length l) off (write_elems c off l buf) = l.
Proof.
  intros Hl. revert off buf. induction Hl as [|a l Ha Hl IH]; intros off buf Hb; simpl in *; [done|]. f_equal.
  - rewrite (read_local off _ (cwrite c off a buf)); [apply read_write; [done|lia]|].
    intros i Hi. apply write_elems_frame. lia.
  - apply IH. rewrite write_length. lia.
Qed.

Lemma read_elems_length n off buf : length (read_elems c n off buf) = n.
Proof. revert off. induction n; intros off; simpl; auto. Qed.

Lemma read_elems_lookup n off buf i :
  (i < n)%nat -> read_elems c n off buf !! i = Some (cread c (off + i * csize c) buf).
Proof.
  revert off i. induction n as [|n IH]; intros off [|i] Hi; simpl; try lia.
  - do 2 f_equal. lia.
  - rewrite IH by lia. do 2 f_equal. lia.
Qed.
End Elems.

#[global] Instance array_laws {A} n (c : codec A) P `{!CodecLaws c P} :
  CodecLaws (array n c) (fun l => length l = n /\ Forall P l).
Proof.
  split; intros; simpl in *.
  - by eapply write_elems_length.
  - eapply write_elems_frame; [done|]. rewrite length_take.
    assert (Nat.min n (length a) * csize c <= n * csize c)%nat by (apply Nat.mul_le_mono_r; lia). lia.
  - by eapply read_elems_local.
  - destruct H as [Hn HP]. subst n. rewrite take_ge by done. eapply read_write_elems; [done..|lia].
Qed.

(** *** Signed integers, booleans, enumerations *)

Definition signed (n : nat) : codec Z :=
  cmap (swrap (8 * Z.of_nat n)) (wrap (8 * Z.of_nat n)) (scalar n).
Abbreviation i32c := (signed 4).

Lemma swrap_wrap w z : 0 < w -> - 2 ^ (w - 1) <= z < 2 ^ (w - 1) -> swrap w (wrap w z) = z.
Proof.
  intros Hw Hz. unfold swrap, wrap. assert (2 ^ w = 2 * 2 ^ (w - 1)) as E.
  { rewrite <- Z.pow_succ_r by lia. f_equal. lia. }
  rewrite Zplus_mod_idemp_l, Z.mod_small; lia.
Qed.

#[global] Instance signed_laws n :
  (0 < n)%nat -> CodecLaws (signed n) (fun z => - 2 ^ (8 * Z.of_nat n - 1) <= z < 2 ^ (8 * Z.of_nat n - 1)).
Proof.
  intros Hn. pose proof (cmap_laws (swrap (8 * Z.of_nat n)) (wrap (8 * Z.of_nat n)) (scalar n) _) as [].
  split; eauto. intros off z buf Hz Hb. apply read_write0; [|done]. split; [|apply swrap_wrap; lia].
  unfold wrap. replace (256 ^ Z.of_nat n) with (2 ^ (8 * Z.of_nat n)) by (by rewrite Z.pow_mul_r by lia).
  apply Z.mod_pos_bound. by apply Z.pow_pos_nonneg; lia.
Qed.

Definition boolc : codec bool := cmap (fun z => negb (z =? 0)) (fun b : bool => if b then 1 else 0) u8c.
#[global] Instance boolc_laws : CodecLaws boolc (fun _ => True).
Proof. pose proof (cmap_laws (fun z => negb (z =? 0)) (fun b : bool => if b then 1 else 0) u8c _) as []. split; eauto.
  intros off b buf _ Hb. apply read_write0; [by destruct b|done]. Qed.

(** *** Doubles, in the IEEE binary64 format *)

Definition bits_of_double (x : double) : Z :=
  let sign (s : bool) := if s then 2 ^ 63 else 0 in
  match x with
  | S754_zero s => sign s
  | S754_infinity s => sign s + 2047 * 2 ^ 52
  | S754_nan => 2047 * 2 ^ 52 + 2 ^ 51
  | S754_finite s m e =>
      sign s + if Z.pos m <? 2 ^ 52 then Z.pos m else (e + 1075) * 2 ^ 52 + (Z.pos m - 2 ^ 52)
  end.

Definition double_of_bits (z : Z) : double :=
  let s := 2 ^ 63 <=? z in
  let biased := (z mod 2 ^ 63) / 2 ^ 52 in
  let frac := z mod 2 ^ 52 in
  if biased =? 2047 then (if frac =? 0 then S754_infinity s else S754_nan)
  else if biased =? 0 then (if frac =? 0 then S754_zero s else S754_finite s (Z.to_pos frac) (-1074))
  else S754_finite s (Z.to_pos (frac + 2 ^ 52)) (biased - 1075).

Definition valid_double (x : double) : Prop :=
  match x with S754_finite _ m e => canonical (Z.pos m) e | _ => True end.

(** Sign, exponent and fraction are separate bit fields. *)
Lemma bit_fields (s : bool) b f :
  0 <= b < 2048 -> 0 <= f < 2 ^ 52 ->
  let z := (if s then 2 ^ 63 else 0) + (b * 2 ^ 52 + f) in
  0 <= z < 2 ^ 64 /\ (2 ^ 63 <=? z) = s /\ (z mod 2 ^ 63) / 2 ^ 52 = b /\ z mod 2 ^ 52 = f.
Proof.
  intros Hb Hf z. assert (0 <= b * 2 ^ 52 + f < 2 ^ 63) as Hr by lia.
  assert (z mod 2 ^ 63 = b * 2 ^ 52 + f) as Hm.
  { unfold z. destruct s; [|by rewrite Z.add_0_l, Z.mod_small].
    rewrite <- (Z.mul_1_l (2 ^ 63)) at 1. rewrite Z.add_comm, Z_mod_plus_full. by apply Z.mod_small. }
  split; [unfold z; destruct s; lia|]. split_and!.
  - unfold z. destruct s; [apply Z.leb_le|apply Z.leb_gt]; lia.
  - rewrite Hm, Z.div_add_l by lia. rewrite Z.div_small; lia.
  - unfold z. replace ((if s then 2 ^ 63 else 0) + (b * 2 ^ 52 + f)) with (f + ((if s then 2 ^ 11 else 0) + b) * 2 ^ 52) by (destruct s; lia).
    rewrite Z_mod_plus_full. by apply Z.mod_small.
Qed.

Lemma bits_of_double_range_inv x : valid_double x ->
  0 <= bits_of_double x < 256 ^ Z.of_nat 8 /\ double_of_bits (bits_of_double x) = x.
Proof.
  intros Hx. change (256 ^ Z.of_nat 8) with (2 ^ 64).
  assert (exists s b f, bits_of_double x = (if s : bool then 2 ^ 63 else 0) + (b * 2 ^ 52 + f) /\ 0 <= b < 2048 /\ 0 <= f < 2 ^ 52 /\
    x = if b =? 2047 then (if f =? 0 then S754_infinity s else S754_nan)
        else if b =? 0 then (if f =? 0 then S754_zero s else S754_finite s (Z.to_pos f) (-1074))
        else S754_finite s (Z.to_pos (f + 2 ^ 52)) (b - 1075)) as (s & b & f & -> & Hb & Hf & Hres).
  { destruct x as [s|s| |s m e]; simpl in Hx.
    - exists s, 0, 0. unfold bits_of_double. split_and!; [lia..|done].
    - exists s, 2047, 0. unfold bits_of_double. split_and!; [lia..|done].
    - exists false, 2047, (2 ^ 51). unfold bits_of_double. split_and!; [lia..|done].
    - destruct (canonical_small _ _ Hx) as [Hm He]. pose proof (proj2 (proj2 Hx)) as Hmax. unfold bits_of_double.
      destruct (Z.ltb_spec (Z.pos m) (2 ^ 52)) as [Hlt|Hge].
      + exists s, 0, (Z.pos m). split_and!; [lia..|]. rewrite (proj2 (Z.eqb_neq 0 2047)), Z.eqb_refl by done.
        rewrite (proj2 (Z.eqb_neq (Z.pos m) 0)) by done. simpl. f_equal.
        destruct (Z.eq_dec e (-1074)); [done|]. pose proof (canonical_normal _ _ Hx). lia.
      + exists s, (e + 1075), (Z.pos m - 2 ^ 52). split_and!; [lia..|].
        rewrite (proj2 (Z.eqb_neq (e + 1075) 2047)), (proj2 (Z.eqb_neq (e + 1075) 0)) by lia.
        f_equal; [|lia]. by replace (Z.pos m - 2 ^ 52 + 2 ^ 52) with (Z.pos m) by lia. }
  destruct (bit_fields s b f Hb Hf) as (Hz & Hs & Hbi & Hfr). split; [done|].
  unfold double_of_bits. by rewrite Hs, Hbi, Hfr, <- Hres.
Qed.

Definition doublec : codec double := cmap double_of_bits bits_of_double u64c.
#[global] Instance doublec_laws : CodecLaws doublec valid_double.
Proof.
  pose proof (cmap_laws double_of_bits bits_of_double u64c _) as []. split; eauto.
  intros off x buf Hx Hb. apply read_write0; [|done]. by apply bits_of_double_range_inv.
Qed.
