(* ===== verification/TDigest.v ===== *)
(** * The t-digest

    [src/lib/tdigest/TDigest.h], the sketch the disk servers keep of their
    latencies: samples are buffered as centroids of weight one and merged, in
    order of their means, into centroids whose sizes a scale function bounds.
    Modelled are the operations the disk monitor uses: a fresh digest, adding a
    sample, and a quantile, which may merge first. The library's sine and
    arcsine are parameters. *)

From S2P Require Import Prelude Float64 FloatInt.

Local Open Scope Z_scope.

Module Centroid.
Record t := mk { mean_ : double; weight_ : double }.

Definition add (c self : t) : t :=
  if negb (weight_ self =? of_int 0)%double then
    let w := (weight_ self + weight_ c)%double in
    mk (mean_ self + weight_ c * (mean_ c - mean_ self) / w)%double w
  else mk (mean_ c) (weight_ c).
End Centroid.

Module TDigest.
Import Centroid.

Record t := mk {
  compression_ : double;
  min_ : double;
  max_ : double;
  maxProcessed_ : Z;
  maxUnprocessed_ : Z;
  processedWeight_ : double;
  unprocessedWeight_ : double;
  processed_ : list Centroid.t;
  unprocessed_ : list Centroid.t;
  cumulative_ : list double;
}.
#[global] Instance settable : Settable t :=
  settable! mk <compression_; min_; max_; maxProcessed_; maxUnprocessed_; processedWeight_; unprocessedWeight_;
    processed_; unprocessed_; cumulative_>.

(** The default constructor: compression 1000, the sizes from it. [max_] starts
    at the smallest positive double. *)
Definition init : t := mk (of_int 1000) double_max double_min 2000 8000 (of_int 0) (of_int 0) [] [] [].

Definition M_PI : double := S754_finite false 7074237752028440 (-51).

Definition haveUnprocessed (d : t) : bool := negb (bool_decide (unprocessed_ d = [])).

Definition isDirty (d : t) : bool :=
  (maxProcessed_ d <? Z.of_nat (length (processed_ d))) || (maxUnprocessed_ d <? Z.of_nat (length (unprocessed_ d))).

(** [std::sort] by mean: elements that compare equal keep their order here. *)
Fixpoint insert_by_mean (c : Centroid.t) (l : list Centroid.t) : list Centroid.t :=
  match l with
  | [] => [c]
  | x :: l' => if (mean_ c <? mean_ x)%double then c :: l else x :: insert_by_mean c l'
  end.
Definition sort_by_mean (l : list Centroid.t) : list Centroid.t := fold_left (fun acc c => insert_by_mean c acc) l [].

(** [std::inplace_merge] of two sorted ranges: the first wins ties. *)
Fixpoint merge_by_mean (l1 l2 : list Centroid.t) : list Centroid.t :=
  match l1 with
  | [] => l2
  | x :: l1' =>
      (fix go (l2 : list Centroid.t) : list Centroid.t :=
         match l2 with
         | [] => l1
         | y :: l2' => if (mean_ y <? mean_ x)%double then y :: go l2' else x :: merge_by_mean l1' l2
         end) l2
  end.

(** The weight before the middle of each centroid, then the total. *)
Fixpoint cumulative_from (previous : double) (l : list Centroid.t) : list double :=
  match l with
  | [] => [previous]
  | c :: l => (previous + weight_ c / of_int 2)%double :: cumulative_from (previous + weight_ c)%double l
  end.

Definition updateCumulative (d : t) : t := d <| cumulative_ := cumulative_from (of_int 0) (processed_ d) |>.

Section Scale.
(** The C library's [sin] and [asin]. *)
Variables sin asin : double -> double.

Definition integratedLocation (q : double) (d : t) : double :=
  (compression_ d * (asin (of_int 2 * q - of_int 1) + M_PI / of_int 2) / M_PI)%double.

Definition integratedQ (k : double) (d : t) : double :=
  ((sin (dmin k (compression_ d) * M_PI / compression_ d - M_PI / of_int 2) + of_int 1) / of_int 2)%double.

(** One step of the merge loop: the last centroid of [processed] first. *)
Definition compress_one (d : t) (st : list Centroid.t * double * double) (c : Centroid.t)
    : list Centroid.t * double * double :=
  let '(rev_processed, wSoFar, wLimit) := st in
  let projectedW := (wSoFar + weight_ c)%double in
  match rev_processed with
  | last :: rest =>
      if (projectedW <=? wLimit)%double then (Centroid.add c last :: rest, projectedW, wLimit)
      else
        let k1 := integratedLocation (wSoFar / processedWeight_ d)%double d in
        (c :: rev_processed, (wSoFar + weight_ c)%double,
         (processedWeight_ d * integratedQ (k1 + of_int 1)%double d)%double)
  | [] => st
  end.

Definition process (d : t) : outcome t :=
  let all := merge_by_mean (sort_by_mean (unprocessed_ d)) (processed_ d) in
  let d := d <| processedWeight_ := (processedWeight_ d + unprocessedWeight_ d)%double |>
             <| unprocessedWeight_ := of_int 0 |> in
  match all with
  | [] => Fault Undefined
  | c0 :: rest =>
      let '(rev_processed, _, _) :=
        fold_left (compress_one d) rest ([c0], weight_ c0, (processedWeight_ d * integratedQ (of_int 1) d)%double) in
      let processed := rev rev_processed in
      first ← deref (head processed);
      last ← deref (head rev_processed);
      Ok (updateCumulative (d <| processed_ := processed |> <| unprocessed_ := [] |>
            <| min_ := dmin (min_ d) (mean_ first) |> <| max_ := dmax (max_ d) (mean_ last) |>))
  end.

Definition processIfNecessary (d : t) : outcome t := if isDirty d then process d else Ok d.

(** [add(Value, Weight)]. *)
Definition add_weighted (x w : double) (d : t) : outcome (bool * t) :=
  if is_nan x then Ok (false, d)
  else
    d ← processIfNecessary (d <| unprocessed_ := unprocessed_ d ++ [Centroid.mk x w] |>
          <| unprocessedWeight_ := (unprocessedWeight_ d + w)%double |>);
    Ok (true, d).

Definition add_ (x : double) (d : t) : outcome t := r ← add_weighted x (of_int 1) d; Ok (snd r).
Definition add (x : Z) (d : t) : outcome t := add_ (of_int x) d.

Definition weightedAverageSorted (x1 w1 x2 w2 : double) : double :=
  let x := ((x1 * w1 + x2 * w2) / (w1 + w2))%double in
  dmax x1 (dmin x x2).

Definition weightedAverage (x1 w1 x2 w2 : double) : double :=
  if (x1 <=? x2)%double then weightedAverageSorted x1 w1 x2 w2 else weightedAverageSorted x2 w2 x1 w1.

(** [std::lower_bound]: the position of the first element not below [x]. *)
Fixpoint lower_bound (x : double) (l : list double) (i : Z) : Z :=
  match l with
  | [] => i
  | y :: l' => if (y <? x)%double then lower_bound x l' (i + 1) else i
  end.

(** Vector subscripts: past the end is undefined. *)
Definition nth_elem {A} (l : list A) (i : Z) : outcome A :=
  if 0 <=? i then deref (l !! Z.to_nat i) else Fault Undefined.

Definition quantileProcessed (q : double) (d : t) : outcome double :=
  if (q <? of_int 0)%double || (of_int 1 <? q)%double then Ok S754_nan
  else
    match processed_ d with
    | [] => Ok S754_nan
    | [c] => Ok (mean_ c)
    | c0 :: _ =>
        let n := Z.of_nat (length (processed_ d)) in
        let index := (q * processedWeight_ d)%double in
        if (index <=? weight_ c0 / of_int 2)%double then
          Ok (min_ d + of_int 2 * index / weight_ c0 * (mean_ c0 - min_ d))%double
        else
          let i := lower_bound index (cumulative_ d) 0 in
          if negb (i + 1 =? Z.of_nat (length (cumulative_ d))) then
            prev ← nth_elem (cumulative_ d) (i - 1);
            here ← nth_elem (cumulative_ d) i;
            c1 ← nth_elem (processed_ d) (i - 1);
            c2 ← nth_elem (processed_ d) i;
            Ok (weightedAverage (mean_ c1) (here - index)%double (mean_ c2) (index - prev)%double)
          else
            cl ← nth_elem (processed_ d) (n - 1);
            let z1 := (index - processedWeight_ d - weight_ cl / of_int 2)%double in
            let z2 := (weight_ cl / of_int 2 - z1)%double in
            Ok (weightedAverage (mean_ cl) z1 (max_ d) z2)
    end.

Definition quantile_ (q : double) (d : t) : outcome (double * t) :=
  d ← (if haveUnprocessed d || isDirty d then process d else Ok d);
  v ← quantileProcessed q d;
  Ok (v, d).

(** The result is converted to an unsigned integer. *)
Definition quantile (q : double) (d : t) : outcome (Z * t) :=
  r ← quantile_ q d;
  v ← to_uint 64 (fst r);
  Ok (v, snd r).

(** ** Weights

    Weights are counts: sums of ones stay exact integers below 2^53. *)

Definition counted (c : Centroid.t) (w : Z) : Prop := weight_ c = of_int w /\ 0 < w.

(** Centroids of total weight [n]. *)
Definition weighs (l : list Centroid.t) (n : Z) : Prop := exists ws, Forall2 counted l ws /\ zsum ws = n.

Lemma weighs_cons c l n : weighs (c :: l) n <-> exists w, counted c w /\ weighs l (n - w).
Proof.
  split.
  - intros (ws & Hw & <-). apply Forall2_cons_inv_l in Hw as (w & ws' & Hc & Hw & ->). exists w. split; [done|].
    exists ws'. split; [done|]. cbn [zsum]. lia.
  - intros (w & Hc & ws & Hw & Hs). exists (w :: ws). split; [by constructor|]. cbn [zsum]. lia.
Qed.

Lemma weighs_Permutation l1 l2 n : l1 ≡ₚ l2 -> weighs l1 n -> weighs l2 n.
Proof.
  intros Hp. revert n. induction Hp as [|c l1 l2 Hp IH|c1 c2 l|l1 l2 l3 Hp1 IH1 Hp2 IH2]; intros n; [done| | |by eauto].
  - rewrite !weighs_cons. intros (w & Hc & Hw). eauto.
  - rewrite !weighs_cons. setoid_rewrite weighs_cons. intros (w1 & H1 & w2 & H2 & Hl). exists w2. split; [done|].
    exists w1. split; [done|]. by replace (n - w2 - w1) with (n - w1 - w2) by lia.
Qed.

Lemma weighs_app l1 l2 n1 n2 : weighs l1 n1 -> weighs l2 n2 -> weighs (l1 ++ l2) (n1 + n2).
Proof.
  intros (w1 & H1 & <-) (w2 & H2 & <-). exists (w1 ++ w2). split; [by apply Forall2_app|apply zsum_app].
Qed.

Lemma weighs_nonneg l n : weighs l n -> Z.of_nat (length l) <= n.
Proof.
  intros (ws & Hw & <-). induction Hw as [|c w l ws [_ Hc] Hw IH]; [done|]. simpl length. cbn [zsum]. lia.
Qed.

Lemma insert_by_mean_perm c l : insert_by_mean c l ≡ₚ c :: l.
Proof. induction l as [|x l IH]; simpl; [done|]. destruct (dlt _ _); [done|]. rewrite IH. solve_Permutation. Qed.

Lemma sort_by_mean_perm l : sort_by_mean l ≡ₚ l.
Proof.
  unfold sort_by_mean. assert (forall l acc, fold_left (fun acc c => insert_by_mean c acc) l acc ≡ₚ acc ++ l) as H.
  { clear l. induction l as [|c l IH]; intros acc; simpl; [by rewrite app_nil_r|].
    rewrite IH, insert_by_mean_perm. solve_Permutation. }
  apply (H l []).
Qed.

Lemma merge_by_mean_perm l1 l2 : merge_by_mean l1 l2 ≡ₚ l1 ++ l2.
Proof.
  revert l2. induction l1 as [|x l1 IH]; intros l2; simpl; [done|].
  induction l2 as [|y l2 IH2]; [by rewrite app_nil_r|]. destruct (dlt _ _).
  - rewrite IH2. solve_Permutation.
  - by rewrite IH.
Qed.

Lemma of_int_nonzero w : 0 < w < 2 ^ 53 -> (of_int w =? of_int 0)%double = false.
Proof. intros Hw. unfold deq, SFeqb. rewrite dcompare_int by lia. by destruct (w ?= 0) eqn:E; [apply Z.compare_eq in E; lia|..]. Qed.

Lemma add_counted c self w w' : counted c w -> counted self w' -> w + w' < 2 ^ 53 -> counted (Centroid.add c self) (w' + w).
Proof.
  intros [Hc Hw] [Hs Hw'] Hlt. unfold Centroid.add. rewrite Hs, Hc, of_int_nonzero by lia. cbn [negb].
  split; [cbn [weight_]; by rewrite dadd_int by lia|lia].
Qed.

(** The merge loop keeps the total weight, and never empties the list. *)
Lemma compress_weighs d rest l n m :
  n + m < 2 ^ 53 -> weighs (fst (fst l)) n -> fst (fst l) <> [] -> weighs rest m ->
  weighs (fst (fst (fold_left (compress_one d) rest l))) (n + m) /\ fst (fst (fold_left (compress_one d) rest l)) <> [].
Proof.
  intros Hlt Hl Hne (ws & Hw & <-). revert l n Hlt Hl Hne.
  induction Hw as [|c w rest ws Hc Hw IH]; intros l n Hlt Hl Hne; cbn [zsum fold_left] in *;
    [split; [by rewrite Z.add_0_r|done]|].
  replace (n + (w + zsum ws)) with ((n + w) + zsum ws) by lia.
  assert (0 <= zsum ws) as Hpos. { clear -Hw. induction Hw as [|??? ? [_ ?]]; simpl; lia. }
  destruct Hl as (vs & Hvs & <-). destruct l as [[rp wSoFar] wLimit]. cbn [fst] in *.
  destruct Hvs as [|x v rp vs Hx Hvs]; [done|]. cbn [compress_one zsum] in *.
  assert (0 <= zsum vs) as Hpos'. { clear -Hvs. induction Hvs as [|??? ? [_ ?]]; simpl; lia. }
  apply IH; [lia|destruct (dle _ _)..]; cbn [fst]; try done.
  - exists ((v + w) :: vs). split; [|cbn [zsum]; lia]. constructor; [|done]. apply add_counted; [done..|]. destruct Hx. lia.
  - exists (w :: v :: vs). split; [|cbn [zsum]; lia]. constructor; [done|]. by constructor.
Qed.

Lemma fold_compress_eq d rest st :
  fold_left (compress_one d) rest st =
  (fst (fst (fold_left (compress_one d) rest st)), snd (fst (fold_left (compress_one d) rest st)),
   snd (fold_left (compress_one d) rest st)).
Proof. by destruct (fold_left _ _ _) as [[]]. Qed.

(** A digest of [n] samples. *)
Record holds (n : Z) (d : t) : Prop := {
  holds_unprocessed : Forall (fun c => weight_ c = of_int 1) (unprocessed_ d);
  holds_room : Z.of_nat (length (unprocessed_ d)) <= maxUnprocessed_ d;
  holds_unprocessed_weight : unprocessedWeight_ d = of_int (Z.of_nat (length (unprocessed_ d)));
  holds_processed : weighs (processed_ d) (n - Z.of_nat (length (unprocessed_ d)));
  holds_processed_weight : processedWeight_ d = of_int (n - Z.of_nat (length (unprocessed_ d)));
  holds_max : maxUnprocessed_ d = 8000;
}.

Lemma ones_weigh l : Forall (fun c => weight_ c = of_int 1) l -> weighs l (Z.of_nat (length l)).
Proof.
  intros H. exists (map (fun _ => 1) l). split.
  - induction H; simpl; constructor; [by split|done].
  - clear H. induction l as [|c l IH]; [done|]. cbn [map zsum length]. lia.
Qed.

(** Merging what was buffered with what was merged before; it never happens
    on an empty digest. *)
Lemma process_spec n d :
  0 < n < 2 ^ 53 -> Forall (fun c => weight_ c = of_int 1) (unprocessed_ d) ->
  unprocessedWeight_ d = of_int (Z.of_nat (length (unprocessed_ d))) ->
  weighs (processed_ d) (n - Z.of_nat (length (unprocessed_ d))) ->
  processedWeight_ d = of_int (n - Z.of_nat (length (unprocessed_ d))) -> maxUnprocessed_ d = 8000 ->
  exists d', process d = Ok d' /\ holds n d' /\ unprocessed_ d' = [] /\ processed_ d' <> [].
Proof.
  intros Hn Hu Huw Hp Hpw Hmax. pose proof (weighs_nonneg _ _ Hp) as Hnn.
  assert (weighs (merge_by_mean (sort_by_mean (unprocessed_ d)) (processed_ d)) n) as Hall.
  { eapply weighs_Permutation; [symmetry; rewrite merge_by_mean_perm, sort_by_mean_perm; reflexivity|].
    replace n with (Z.of_nat (length (unprocessed_ d)) + (n - Z.of_nat (length (unprocessed_ d)))) by lia.
    apply weighs_app; [by apply ones_weigh|done]. }
  unfold process. rewrite Hpw, Huw, dadd_int by lia. rewrite Z.sub_add.
  destruct (merge_by_mean _ _) as [|c0 rest]; [destruct Hall as (ws & ->%Forall2_nil_inv_l & Hs); simpl in Hs; lia|].
  apply weighs_cons in Hall as (w0 & Hc0 & Hrest). cbv zeta. cbn [processedWeight_ update_field].
  match goal with |- context [fold_left (compress_one ?dd) rest ?st] => set (d1 := dd); set (st0 := st) end.
  destruct (compress_weighs d1 rest st0 w0 (n - w0)) as [Hw Hne]; [lia| |done|done|].
  { apply weighs_cons. exists w0. split; [done|]. rewrite Z.sub_diag. by exists []. }
  rewrite fold_compress_eq. set (rp := fst (fst _)) in *. destruct rp as [|cl rp'] eqn:Erp; [done|].
  destruct (rev (cl :: rp')) as [|cf tl] eqn:Erev.
  { apply (f_equal (@length _)) in Erev. rewrite length_rev in Erev. done. }
  cbn [deref head mbind outcome_bind]. eexists. split; [reflexivity|]. replace (w0 + (n - w0)) with n in Hw by lia.
  assert (weighs (cf :: tl) n) as Hw'.
  { rewrite <- Erev. eapply weighs_Permutation; [apply Permutation_rev|done]. }
  split; [|by split].
  split; [by constructor|change (0 <= maxUnprocessed_ d); lia|done| | |exact Hmax].
  - change (weighs (cf :: tl) (n - 0)). by rewrite Z.sub_0_r.
  - change (of_int n = of_int (n - 0)). by rewrite Z.sub_0_r.
Qed.

Lemma init_holds : holds 0 init.
Proof. split; try done. by exists []. Qed.

Lemma of_int_not_nan x : 0 <= x < 2 ^ 53 -> is_nan (of_int x) = false.
Proof. intros Hx. eapply dtrunc_not_nan. by apply dtrunc_int. Qed.

Lemma add_holds n x d :
  0 <= n -> n + 1 < 2 ^ 53 -> 0 <= x < 2 ^ 53 -> holds n d -> exists d', add x d = Ok d' /\ holds (n + 1) d'.
Proof.
  intros Hn Hlt Hx [Hu Hr Huw Hp Hpw Hmax]. pose proof (weighs_nonneg _ _ Hp) as Hnn.
  unfold add, add_, add_weighted. rewrite of_int_not_nan by done. set (d1 := update_field _ _ _).
  assert (Forall (fun c => weight_ c = of_int 1) (unprocessed_ d1)) as Hu1 by (apply Forall_app_2; [done|by repeat constructor]).
  assert (Z.of_nat (length (unprocessed_ d1)) = Z.of_nat (length (unprocessed_ d)) + 1) as Hlen.
  { unfold d1. cbn. rewrite length_app. simpl. lia. }
  assert (unprocessedWeight_ d1 = of_int (Z.of_nat (length (unprocessed_ d1)))) as Huw1.
  { rewrite Hlen. unfold d1. cbn [unprocessedWeight_ update_field]. rewrite Huw. apply dadd_int; lia. }
  assert (weighs (processed_ d1) (n + 1 - Z.of_nat (length (unprocessed_ d1)))) as Hp1.
  { rewrite Hlen. by replace (n + 1 - _) with (n - Z.of_nat (length (unprocessed_ d))) by lia. }
  assert (processedWeight_ d1 = of_int (n + 1 - Z.of_nat (length (unprocessed_ d1)))) as Hpw1.
  { rewrite Hlen. by replace (n + 1 - _) with (n - Z.of_nat (length (unprocessed_ d))) by lia. }
  unfold processIfNecessary. destruct (isDirty d1) eqn:Hdirty.
  - destruct (process_spec (n + 1) d1) as (d' & -> & Hd' & _); [lia|done..|]. by exists d'.
  - exists d1. split; [done|]. split; [done| |done..]. unfold isDirty in Hdirty. lia.
Qed.

(** The digest of a list of samples. *)
Definition digest (xs : list Z) : outcome t := ofold (fun d x => add x d) init xs.

(** Adding samples never fails, and no sample is lost: the centroids' weights
    are whole numbers that add up, with the buffered samples, to exactly the
    number of samples, and the buffer never outgrows its bound. *)
Theorem digest_counts (xs : list Z) :
  Forall (fun x => 0 <= x < 2 ^ 53) xs -> Z.of_nat (length xs) < 2 ^ 53 ->
  exists d, digest xs = Ok d /\ Z.of_nat (length (unprocessed_ d)) <= 8000 /\
    (processedWeight_ d + unprocessedWeight_ d)%double = of_int (Z.of_nat (length xs)) /\
    weighs (processed_ d ++ unprocessed_ d) (Z.of_nat (length xs)).
Proof.
  intros Hxs Hlen. destruct (ofold_total (fun done d => holds (Z.of_nat (length done)) d) (fun d x => add x d) xs init)
    as (d & Hrun & [Hu Hr Huw Hp Hpw Hmax]).
  - apply init_holds.
  - intros done x rest d -> Hd. rewrite Forall_app, Forall_cons in Hxs. rewrite length_app in *. cbn [length] in *.
    rewrite Nat2Z.inj_add. apply add_holds; [lia|lia|tauto|done].
  - pose proof (weighs_nonneg _ _ Hp). exists d. split_and!; [done|lia| |].
    + rewrite Hpw, Huw, dadd_int by lia. f_equal. lia.
    + replace (Z.of_nat (length xs)) with ((Z.of_nat (length xs) - Z.of_nat (length (unprocessed_ d))) + Z.of_nat (length (unprocessed_ d))) by lia.
      apply weighs_app; [done|by apply ones_weigh].
Qed.

(** A quantile of a digest with no samples is not a number, and its conversion
    to an integer is undefined. *)
Lemma quantile_init q : quantile q init = Fault Undefined.
Proof.
  unfold quantile, quantile_, init. cbn -[dlt of_int]. unfold quantileProcessed.
  destruct (_ || _); reflexivity.
Qed.

End Scale.

(** The interpolation returns a value between its two arguments, whatever the
    weights. *)
Theorem weightedAverage_between x1 w1 x2 w2 :
  (x1 <=? x2)%double = true ->
  (x1 <=? weightedAverage x1 w1 x2 w2)%double = true /\ (weightedAverage x1 w1 x2 w2 <=? x2)%double = true.
Proof.
  intros Hle. destruct (dle_not_nan _ _ Hle) as [Hn1 Hn2]. unfold weightedAverage. rewrite Hle. unfold weightedAverageSorted.
  set (x := ddiv _ _). unfold dmax. destruct (dlt x1 (dmin x x2)) eqn:Hlt; [|by split; [apply dle_refl|]].
  split; [by apply dlt_dle|]. destruct (dlt_not_nan _ _ Hlt) as [_ Hny]. unfold dmin in *.
  destruct (dlt x2 x) eqn:Hlt2; [by apply dle_refl|]. by apply dlt_false.
Qed.

Lemma digest_counts_witness :
  exists d, digest (fun x => x) (fun x => x) [120; 80; 95] = Ok d /\ Z.of_nat (length (unprocessed_ d)) <= 8000 /\
    (processedWeight_ d + unprocessedWeight_ d)%double = of_int (Z.of_nat (length [120; 80; 95])) /\
    weighs (processed_ d ++ unprocessed_ d) (Z.of_nat (length [120; 80; 95])).
Proof. apply (digest_counts (fun x => x) (fun x => x)); [repeat constructor; lia|done]. Defined.

Lemma weightedAverage_between_witness :
  let y := weightedAverage (of_int 80) (of_int 3) (of_int 120) (of_int 1) in
  (of_int 80 <=? y)%double = true /\ (y <=? of_int 120)%double = true.
Proof. apply (weightedAverage_between (of_int 80) (of_int 3) (of_int 120) (of_int 1)). vm_compute. reflexivity. Defined.
End TDigest.
