(* ===== verification/Counter.v ===== *)
(** * ThreadSafeCounter

    [src/sandook/base/counter.cc]: one signed 64-bit slot per core, written
    only by the thread running on that core with preemption off, and an offset
    [delta_] that a reset moves instead of clearing the slots. Besides the
    operations run alone, [step] lets the other cores update their slots
    between the reads of [get_sum]. *)

From S2P Require Import Prelude.

Local Open Scope Z_scope.

Module ThreadSafeCounter.

Record t := mk { cnts_ : list Z; delta_ : Z }.
#[global] Instance settable : Settable t := settable! mk <cnts_; delta_>.

(** The constructor, on a machine with [kMaxNumCores] cores. *)
Definition init (kMaxNumCores : nat) : t := mk (replicate kMaxNumCores 0) 0.

(** The index is the running core's: an index past the array is undefined. *)
Definition slot (c : t) (cpu : nat) : outcome Z :=
  match cnts_ c !! cpu with Some x => Ok x | None => Fault Undefined end.

Definition inc_local (cpu : nat) (delta : Z) (c : t) : outcome t :=
  x ← slot c cpu;
  x' ← signed_result 64 (x + delta);
  Ok (c <| cnts_ := <[cpu := x']> (cnts_ c) |>).

Definition dec_local (cpu : nat) (delta : Z) (c : t) : outcome t :=
  x ← slot c cpu;
  x' ← signed_result 64 (x - delta);
  Ok (c <| cnts_ := <[cpu := x']> (cnts_ c) |>).

Definition get_sum (c : t) : outcome Z :=
  sum ← ofold (fun sum cnt => signed_result 64 (sum + cnt)) 0 (cnts_ c);
  signed_result 64 (sum + delta_ c).

Definition get_sum_and_reset (c : t) : outcome (Z * t) :=
  sum ← get_sum c;
  neg ← signed_result 64 (- sum);
  d ← signed_result 64 (delta_ c + neg);
  Ok (sum, c <| delta_ := d |>).

(** The counter shared by its updaters and one thread in
    [get_sum_and_reset]: [None] outside the call, [Some (i, sum)] before the
    read of slot [i]. *)
Record sys := Sys { counter : t; reader : option (nat * Z) }.
#[global] Instance sys_settable : Settable sys := settable! Sys <counter; reader>.

Inductive event :=
| Inc (cpu : nat) (delta : Z)
| Dec (cpu : nat) (delta : Z)
| Begin
| ReadSlot
| Return (sum : Z).

Inductive step : sys -> event -> sys -> Prop :=
| step_inc s cpu d c' :
    inc_local cpu d (counter s) = Ok c' ->
    step s (Inc cpu d) (s <| counter := c' |>)
| step_dec s cpu d c' :
    dec_local cpu d (counter s) = Ok c' ->
    step s (Dec cpu d) (s <| counter := c' |>)
| step_begin s :
    reader s = None ->
    step s Begin (s <| reader := Some (0%nat, 0) |>)
| step_read s i acc x acc' :
    reader s = Some (i, acc) ->
    cnts_ (counter s) !! i = Some x ->
    signed_result 64 (acc + x) = Ok acc' ->
    step s ReadSlot (s <| reader := Some (S i, acc') |>)
| step_return s i acc sum neg d :
    reader s = Some (i, acc) ->
    i = length (cnts_ (counter s)) ->
    signed_result 64 (acc + delta_ (counter s)) = Ok sum ->
    signed_result 64 (- sum) = Ok neg ->
    signed_result 64 (delta_ (counter s) + neg) = Ok d ->
    step s (Return sum) (Sys (mk (cnts_ (counter s)) d) None).

Inductive steps : sys -> list event -> sys -> Prop :=
| steps_nil s : steps s [] s
| steps_cons s1 e s2 tr s3 : step s1 e s2 -> steps s2 tr s3 -> steps s1 (e :: tr) s3.

(** What the updaters added, and what the resets handed out. *)
Definition net1 (e : event) : Z :=
  match e with Inc _ d => d | Dec _ d => - d | _ => 0 end.
Definition net (tr : list event) : Z := zsum (map net1 tr).
Definition returned1 (e : event) : Z := match e with Return s => s | _ => 0 end.
Definition returned (tr : list event) : Z := zsum (map returned1 tr).

(** The value a reader alone would return now. *)
Definition total (c : t) : Z := zsum (cnts_ c) + delta_ c.

Lemma inc_local_spec cpu d c c' :
  inc_local cpu d c = Ok c' ->
  total c' = total c + d /\ length (cnts_ c') = length (cnts_ c) /\ delta_ c' = delta_ c.
Proof.
  unfold inc_local, slot, total. intros H.
  destruct (cnts_ c !! cpu) as [x|] eqn:E; simplify_outcome.
  apply signed_result_Ok in Hrun as [-> _]. simpl.
  rewrite (zsum_insert _ _ x), length_insert by done. lia.
Qed.

Lemma dec_local_spec cpu d c c' :
  dec_local cpu d c = Ok c' ->
  total c' = total c - d /\ length (cnts_ c') = length (cnts_ c) /\ delta_ c' = delta_ c.
Proof.
  unfold dec_local, slot, total. intros H.
  destruct (cnts_ c !! cpu) as [x|] eqn:E; simplify_outcome.
  apply signed_result_Ok in Hrun as [-> _]. simpl.
  rewrite (zsum_insert _ _ x), length_insert by done. lia.
Qed.

Lemma sum_loop l a s :
  ofold (fun sum cnt => signed_result 64 (sum + cnt)) a l = Ok s -> s = a + zsum l.
Proof.
  revert a. induction l as [|x l IH]; intros a H; simpl in *; simplify_outcome; [lia|].
  apply signed_result_Ok in Hrun as [-> _]. apply IH in H. lia.
Qed.

(** A sum that is returned is the counter's value. *)
Lemma get_sum_total c s : get_sum c = Ok s -> s = total c.
Proof.
  unfold get_sum, total. intros H. simplify_outcome.
  apply sum_loop in Hrun. apply signed_result_Ok in H as [-> _]. lia.
Qed.

Lemma init_total n : total (init n) = 0.
Proof. unfold total, init. simpl. rewrite zsum_replicate. lia. Qed.

Lemma step_conserves s e s' :
  step s e s' -> total (counter s') + returned1 e = total (counter s) + net1 e.
Proof.
  destruct 1; simpl;
    repeat match goal with
    | H : inc_local _ _ _ = Ok _ |- _ => apply inc_local_spec in H as (? & ? & ?)
    | H : dec_local _ _ _ = Ok _ |- _ => apply dec_local_spec in H as (? & ? & ?)
    | H : signed_result _ _ = Ok _ |- _ => apply signed_result_Ok in H as [-> _]
    end; unfold total in *; simpl; lia.
Qed.

Lemma steps_conserve s tr s' :
  steps s tr s' -> total (counter s') + returned tr = total (counter s) + net tr.
Proof.
  unfold returned, net. induction 1 as [|s1 e s2 tr s3 Hs _ IH]; [simpl; lia|].
  apply step_conserves in Hs. simpl in *. lia.
Qed.

(** Conservation: however the updates of the other cores fall between the
    slot reads of the resetting thread, what its calls have returned and what
    a later read still sees add up to everything ever added, so no update is
    lost or counted twice. *)
Theorem counter_conserves n tr s v :
  steps (Sys (init n) None) tr s -> get_sum (counter s) = Ok v -> returned tr + v = net tr.
Proof.
  intros Hs ->%get_sum_total. apply steps_conserve in Hs. simpl in Hs.
  rewrite init_total in Hs. lia.
Qed.

Lemma counter_conserves_witness :
  let tr := [Inc 0 3; Begin; ReadSlot; Inc 0 2; Dec 1 4; ReadSlot; Return (-1)] in
  steps (Sys (init 2) None) tr (Sys (mk [5; -4] 1) None) /\ returned tr + 2 = net tr.
Proof.
  intros tr. assert (steps (Sys (init 2) None) tr (Sys (mk [5; -4] 1) None)) as H.
  { repeat (eapply steps_cons; [econstructor; reflexivity|]). apply steps_nil. }
  split; [exact H|]. by apply (counter_conserves 2 tr _ 2 H).
Defined.

End ThreadSafeCounter.
