(* ===== verification/Telemetry.v ===== *)
(** * Telemetry streams

    [src/sandook/telemetry/telemetry_stream.h]: a double-buffered log. Callers
    append to the active buffer; the flusher thread swaps the buffers under
    [buf_lock_] and writes the swapped-out one under [stream_lock_], keeping one
    of each run of empty entries. The two critical sections of [Flush] are two
    steps, so that callers' [TraceBuffered] fall between them. *)

From S2P Require Import Prelude Float64 BaseTypes.

Local Open Scope Z_scope.

Definition kMaxBufferEntries : Z := Z.shiftl 1 23.

(** What a stream needs of its entries ([telemetry_obj.h]). *)
Class TelemetryObj (T : Type) := {
  default_obj : T;
  IsEmpty : T -> bool;
}.

(** The entries of the streams: the payload and the time of construction. *)
Module DiskServerTelemetry.
Record t := mk { timestamp_ : Z; stats_ : ServerStats.t }.
Definition is_empty (x : t) : bool :=
  (ServerStats.read_mops (stats_ x) =? of_int 0)%double &&
  (ServerStats.write_mops (stats_ x) =? of_int 0)%double.
#[global] Instance obj : TelemetryObj t :=
  {| default_obj := mk 0 ServerStats.zero; IsEmpty := is_empty |}.
End DiskServerTelemetry.

Module SystemLoadTelemetry.
Record t := mk { timestamp_ : Z; load_ : SystemLoad }.
Definition is_empty (x : t) : bool :=
  let '(read_ops, write_ops) := load_ x in
  let total_ops := u64 (read_ops + write_ops) in
  (read_ops =? 0) && (write_ops =? 0) && (total_ops =? 0).
#[global] Instance obj : TelemetryObj t :=
  {| default_obj := mk 0 (0, 0); IsEmpty := is_empty |}.
End SystemLoadTelemetry.

Module ControllerRWIsolationTelemetry.
Record t := mk { timestamp_ : Z; allocation_ : ServerAllocation; num_servers_ : Z }.
Definition is_empty (x : t) : bool :=
  let '(is_traffic, n_read, n_write) := allocation_ x in negb is_traffic.
#[global] Instance obj : TelemetryObj t :=
  {| default_obj := mk 0 (false, 0, 0) 0; IsEmpty := is_empty |}.
End ControllerRWIsolationTelemetry.

(** The base class's [IsEmpty]: every entry is logged. *)
Module CongestionControlTelemetry.
Record t := mk { timestamp_ : Z; state_ : ServerCongestionState.t; rate_ : RateLimit }.
#[global] Instance obj : TelemetryObj t :=
  {| default_obj := mk 0 ServerCongestionState.kInvalid (of_int 0); IsEmpty := fun _ => false |}.
End CongestionControlTelemetry.

Module TelemetryStream.

Section Stream.
Context {T : Type} `{!TelemetryObj T}.

(** A buffer is a vector of [kMaxBufferEntries] entries; the map holds the
    ones written since the vector was resized, the rest are default. *)

Definition buf_at (b : gmap Z T) (i : Z) : outcome T :=
  if decide (0 <= i < kMaxBufferEntries) then Ok (default default_obj (b !! i))
  else Fault OutOfRange.

Definition buf_put (b : gmap Z T) (i : Z) (x : T) : outcome (gmap Z T) :=
  if decide (0 <= i < kMaxBufferEntries) then Ok (<[i := x]> b)
  else Fault OutOfRange.

(** [active_A_] says which of the two buffers [buf_active_] points to. *)
Record t := mk {
  buf_idx_ : Z;
  buf_A_ : gmap Z T;
  buf_B_ : gmap Z T;
  active_A_ : bool;
  stream_ : list T;
  last_empty_ : bool;
}.
#[global] Instance settable : Settable t :=
  settable! mk <buf_idx_; buf_A_; buf_B_; active_A_; stream_; last_empty_>.

Definition init : t := mk 0 ∅ ∅ true [] false.

Definition buf_active (s : t) : gmap Z T := if active_A_ s then buf_A_ s else buf_B_ s.
Definition buf_inactive (s : t) : gmap Z T := if active_A_ s then buf_B_ s else buf_A_ s.

Definition set_active (b : gmap Z T) (s : t) : t :=
  if active_A_ s then s <| buf_A_ := b |> else s <| buf_B_ := b |>.

Definition TraceBuffered (obj : T) (s : t) : outcome t :=
  if buf_idx_ s =? kMaxBufferEntries then Ok s
  else
    b ← buf_put (buf_active s) (buf_idx_ s) obj;
    Ok (set_active b s <| buf_idx_ := buf_idx_ s + 1 |>).

Definition Trace (obj : T) (s : t) : t := s <| stream_ := stream_ s ++ [obj] |>.

(** The first critical section of [Flush]: returns the captured [buf_idx]. *)
Definition Flush_swap (s : t) : Z * t :=
  (buf_idx_ s, s <| buf_idx_ := 0 |> <| active_A_ := negb (active_A_ s) |>).

Definition Flush_entry (s : t) (i : Z) : outcome t :=
  x ← buf_at (buf_inactive s) i;
  if IsEmpty x then
    if last_empty_ s then Ok s
    else Ok (s <| last_empty_ := true |> <| stream_ := stream_ s ++ [x] |>)
  else Ok (s <| last_empty_ := false |> <| stream_ := stream_ s ++ [x] |>).

(** The second critical section. *)
Definition Flush_write (buf_idx : Z) (s : t) : outcome t :=
  ofold Flush_entry s (zrange 0 (Z.to_nat buf_idx)).

Definition Flush (s : t) : outcome t :=
  let '(buf_idx, s') := Flush_swap s in Flush_write buf_idx s'.

(** The stream with the flusher between its critical sections or outside. *)
Record sys := Sys { strm : t; flushing : option Z }.
#[global] Instance sys_settable : Settable sys := settable! Sys <strm; flushing>.

Inductive event := ETrace (obj : T) | ESwap | EWrite.

Inductive step : sys -> event -> sys -> Prop :=
| step_trace s obj s' :
    TraceBuffered obj (strm s) = Ok s' -> step s (ETrace obj) (s <| strm := s' |>)
| step_swap s n s' :
    flushing s = None -> Flush_swap (strm s) = (n, s') -> step s ESwap (Sys s' (Some n))
| step_write s n s' :
    flushing s = Some n -> Flush_write n (strm s) = Ok s' -> step s EWrite (Sys s' None).

Inductive steps : sys -> list event -> sys -> Prop :=
| steps_nil s : steps s [] s
| steps_cons s1 e s2 tr s3 : step s1 e s2 -> steps s2 tr s3 -> steps s1 (e :: tr) s3.

(** The steps, executed. *)
Definition exec1 (s : sys) (e : event) : outcome sys :=
  match e, flushing s with
  | ETrace x, _ => s' ← TraceBuffered x (strm s); Ok (s <| strm := s' |>)
  | ESwap, None => let '(n, s') := Flush_swap (strm s) in Ok (Sys s' (Some n))
  | EWrite, Some n => s' ← Flush_write n (strm s); Ok (Sys s' None)
  | _, _ => Fault NoProgress
  end.

(** ** Specification

    The entries traced, in order; of each run of empty ones the log keeps the
    first ([last] says whether the entry before was empty). *)
Definition traced (tr : list event) : list T :=
  omap (fun e => match e with ETrace x => Some x | _ => None end) tr.

Fixpoint squash (last : bool) (l : list T) : list T :=
  match l with
  | [] => []
  | x :: l' => if IsEmpty x && last then squash last l' else x :: squash (IsEmpty x) l'
  end.

Fixpoint ends_empty (last : bool) (l : list T) : bool :=
  match l with [] => last | x :: l' => ends_empty (IsEmpty x) l' end.

(** The first [n] entries of a buffer hold the list [l]. *)
Definition holds (b : gmap Z T) (n : Z) (l : list T) : Prop :=
  n = Z.of_nat (length l) /\ n <= kMaxBufferEntries /\
  forall i x, l !! i = Some x -> b !! Z.of_nat i = Some x.

(** Everything accepted so far is what was written, what the flusher is about
    to write, and what waits in the active buffer. *)
Definition inv (s : sys) (acc : list T) : Prop :=
  exists w p a, acc = w ++ p ++ a /\
    stream_ (strm s) = squash false w /\ last_empty_ (strm s) = ends_empty false w /\
    holds (buf_active (strm s)) (buf_idx_ (strm s)) a /\
    match flushing s with
    | Some n => holds (buf_inactive (strm s)) n p
    | None => p = []
    end.

Lemma squash_app last l1 l2 :
  squash last (l1 ++ l2) = squash last l1 ++ squash (ends_empty last l1) l2.
Proof.
  revert last. induction l1 as [|x l1 IH]; intros last; [done|]. simpl.
  destruct (IsEmpty x) eqn:E, last; simpl; rewrite ?IH; done.
Qed.

Lemma ends_empty_app last l1 l2 :
  ends_empty last (l1 ++ l2) = ends_empty (ends_empty last l1) l2.
Proof. revert last. induction l1; simpl; auto. Qed.

Lemma Flush_entry_spec s i x s' :
  buf_at (buf_inactive s) i = Ok x -> Flush_entry s i = Ok s' ->
  s' = s <| last_empty_ := IsEmpty x |> <| stream_ := stream_ s ++ squash (last_empty_ s) [x] |>.
Proof.
  unfold Flush_entry. intros -> H. simpl in *.
  destruct s as [? ? ? ? ? []], (IsEmpty x) eqn:E; simplify_eq/=; by rewrite ?app_nil_r.
Qed.

(** Writing the swapped-out buffer appends its squashed entries and touches
    nothing the callers use. *)
Lemma Flush_write_spec n l s s' :
  holds (buf_inactive s) n l -> Flush_write n s = Ok s' ->
  s' = s <| last_empty_ := ends_empty (last_empty_ s) l |>
         <| stream_ := stream_ s ++ squash (last_empty_ s) l |>.
Proof.
  intros (Hn & Hmax & Hl) Hrun. unfold Flush_write in Hrun.
  set (P := fun (done : list Z) st => st =
    s <| last_empty_ := ends_empty (last_empty_ s) (take (length done) l) |>
      <| stream_ := stream_ s ++ squash (last_empty_ s) (take (length done) l) |>).
  assert (P (zrange 0 (Z.to_nat n)) s') as HP.
  2:{ unfold P in HP. rewrite zrange_length, take_ge in HP by lia. done. }
  apply (ofold_ind P Flush_entry _ s s'); [|clear Hrun|exact Hrun].
  - unfold P. destruct s. simpl. by rewrite app_nil_r.
  - intros done i rest st st' Heq HP Hst.
    assert (i = Z.of_nat (length done) /\ (length done < length l)%nat) as [-> Hlt].
    { assert (zrange 0 (Z.to_nat n) !! length done = Some i) as Hi.
      { rewrite Heq. by rewrite lookup_app_r, Nat.sub_diag by lia. }
      assert (length done < Z.to_nat n)%nat.
      { apply lookup_lt_Some in Hi. by rewrite zrange_length in Hi. }
      rewrite zrange_lookup in Hi by done. simplify_eq. lia. }
    destruct (lookup_lt_is_Some_2 l (length done) Hlt) as [x Hx].
    assert (buf_at (buf_inactive st) (Z.of_nat (length done)) = Ok x) as Hat.
    { unfold P in HP. subst st. unfold buf_at. rewrite decide_True by lia.
      f_equal. simpl. unfold buf_inactive in *. simpl. by rewrite (Hl _ _ Hx). }
    apply (Flush_entry_spec _ _ x) in Hst; [|done]. subst st'. unfold P in *. subst st. simpl.
    rewrite length_app, Nat.add_1_r, (take_S_r _ _ x Hx), squash_app, ends_empty_app, app_assoc.
    done.
Qed.

Lemma holds_snoc b n l x :
  holds b n l -> n < kMaxBufferEntries -> holds (<[n := x]> b) (n + 1) (l ++ [x]).
Proof.
  intros (Hn & Hmax & Hl) Hlt. unfold holds. rewrite length_app.
  split_and!; [simpl; lia|lia|]. intros i y [[Hi Hy]|[-> ->]]%lookup_snoc_Some.
  - rewrite lookup_insert_ne by lia. auto.
  - by rewrite Hn, lookup_insert_eq.
Qed.

Lemma TraceBuffered_spec obj s s' l :
  TraceBuffered obj s = Ok s' -> holds (buf_active s) (buf_idx_ s) l ->
  stream_ s' = stream_ s /\ last_empty_ s' = last_empty_ s /\
  active_A_ s' = active_A_ s /\ buf_inactive s' = buf_inactive s /\
  ((holds (buf_active s') (buf_idx_ s') (l ++ [obj])) \/
   (s' = s /\ buf_idx_ s = kMaxBufferEntries)).
Proof.
  unfold TraceBuffered. intros H Hl. pose proof Hl as (Hn & Hmax & _).
  destruct (buf_idx_ s =? kMaxBufferEntries) eqn:E.
  { simplify_outcome. apply Z.eqb_eq in E. naive_solver. }
  apply Z.eqb_neq in E. unfold buf_put in H.
  rewrite decide_True in H by lia. simplify_outcome.
  unfold set_active, buf_inactive, buf_active in *.
  destruct (active_A_ s) eqn:Ea; simpl; rewrite ?Ea; (split_and!; try done); left;
    apply holds_snoc; (done || lia).
Qed.

Lemma step_inv s e s' acc :
  step s e s' -> inv s acc ->
  exists acc', inv s' acc' /\ acc' `sublist_of` acc ++ traced [e] /\
    (acc' = acc ++ traced [e] \/ traced [e] <> [] /\ kMaxBufferEntries <= Z.of_nat (length acc)).
Proof.
  intros Hstep (w & p & a & -> & Hs & He & Ha & Hf). destruct Hstep as [s obj st H|s n st Hn H|s n st Hn H].
  - destruct (TraceBuffered_spec _ _ _ _ H Ha) as (Es & Ee & _ & Ei & [Hn|[-> Hfull]]).
    + exists ((w ++ p ++ a) ++ [obj]). split; [|by split; [|left]]. exists w, p, (a ++ [obj]).
      simpl. rewrite Es, Ee, Ei, <- !app_assoc. done.
    + exists (w ++ p ++ a). split_and!; [by exists w, p, a|by apply sublist_inserts_r|].
      right. destruct Ha as (Hl & _). rewrite !length_app. split; [done|lia].
  - rewrite Hn in Hf. subst p. unfold Flush_swap in H. simplify_eq/=.
    exists (w ++ a). simpl. rewrite app_nil_r. split; [|by split; [|left]].
    exists w, a, []. simpl. rewrite app_nil_r. split_and!; try done.
    unfold buf_active, buf_inactive in *. simpl. by destruct (active_A_ _).
  - rewrite Hn in Hf. apply (Flush_write_spec n p) in H; [|done]. subst st.
    exists (w ++ p ++ a). simpl. rewrite app_nil_r. split; [|by split; [|left]].
    exists (w ++ p), [], a. simpl. rewrite Hs, He, squash_app, ends_empty_app, <- app_assoc. done.
Qed.

Lemma steps_inv s tr s' acc :
  steps s tr s' -> inv s acc ->
  Z.of_nat (length acc) + Z.of_nat (length (traced tr)) <= kMaxBufferEntries ->
  inv s' (acc ++ traced tr).
Proof.
  intros Hs. revert acc. induction Hs as [|s1 e s2 tr s3 Hstep _ IH]; intros acc Hinv Hlen.
  { by rewrite app_nil_r. }
  assert (traced (e :: tr) = traced [e] ++ traced tr) as Htr by (destruct e; done).
  rewrite Htr, length_app in Hlen. rewrite Htr, app_assoc.
  destruct (step_inv _ _ _ _ Hstep Hinv) as (acc' & Hinv' & _ & [->|[Hne Hge]]).
  - apply IH; [done|]. rewrite length_app. lia.
  - destruct (traced [e]); simpl in *; [done|lia].
Qed.

Lemma TraceBuffered_total obj s :
  0 <= buf_idx_ s <= kMaxBufferEntries ->
  exists s', TraceBuffered obj s = Ok s' /\ 0 <= buf_idx_ s' <= kMaxBufferEntries.
Proof.
  intros H. unfold TraceBuffered. destruct (buf_idx_ s =? kMaxBufferEntries) eqn:E; [by eexists|].
  apply Z.eqb_neq in E. unfold buf_put. rewrite decide_True by lia. eexists. split; [done|].
  simpl. lia.
Qed.

Lemma exec_steps tr s s' : ofold exec1 s tr = Ok s' -> steps s tr s'.
Proof.
  revert s. induction tr as [|e tr IH]; intros s H; simpl in H; simplify_outcome; [constructor|].
  econstructor; [|by apply IH]. unfold exec1 in Hrun.
  destruct e, (flushing s) eqn:E; simplify_outcome; by econstructor.
Qed.

Lemma inv_init : inv (Sys init None) [].
Proof. exists [], [], []. split_and!; try done. Qed.

End Stream.

Section Theorems.
Context {T : Type} `{!TelemetryObj T}.


End Theorems.

#[local] Instance bool_obj : TelemetryObj (bool * Z) := {| default_obj := (true, 0); IsEmpty := fst |}.


End TelemetryStream.
