(* ===== verification/ControlStats.v ===== *)
(** * The controller's server statistics

    [src/sandook/scheduler/control_plane/server_stats_manager.h]: the table
    of the last report of every registered disk server, the counters of
    operations seen since the last load calculation, and the system load in
    operations per second. Pointers of [stats_map_] are options; a null one is
    never followed on the states [wf] describes. *)

From S2P Require Import Prelude Float64 FloatInt BaseTypes Telemetry.

Local Open Scope Z_scope.

Definition kLoadCalculationIntervalUs : Z := 10 * kOneMilliSecond.
Definition kLoadScaleFactor : double :=
  (of_int kOneSecond / of_int kLoadCalculationIntervalUs)%double.

Module ServerStatsManager.

Record t := mk {
  telemetry_ : TelemetryStream.t (T := SystemLoadTelemetry.t);
  servers_ : ServerSet;
  stats_map_ : list (option ServerStats.t);
  stats_system_reads_ : Z;
  stats_system_writes_ : Z;
  read_ops_ : Z;
  write_ops_ : Z;
  stop_ : bool;
  freeze_load_ : bool;
}.
#[global] Instance settable : Settable t :=
  settable! mk <telemetry_; servers_; stats_map_; stats_system_reads_; stats_system_writes_;
    read_ops_; write_ops_; stop_; freeze_load_>.

Definition init : t :=
  mk TelemetryStream.init [] (replicate (Z.to_nat kNumMaxServers) None) 0 0 0 0 false false.

Definition AddServer (server_id : ServerID) (s : t) : outcome t :=
  let stats := ServerStats.zero
    <| ServerStats.server_id := server_id |>
    <| ServerStats.mode := ServerMode.kMix |>
    <| ServerStats.read_weight := kDefaultServerWeight |>
    <| ServerStats.write_weight := kDefaultServerWeight |> in
  m ← at_put (stats_map_ s) server_id (Some stats);
  Ok (s <| stats_map_ := m |> <| servers_ := set_insert server_id (servers_ s) |>).

Definition GetSystemLoad (s : t) : SystemLoad := (read_ops_ s, write_ops_ s).

(** The list form: the first [servers_.size()] entries after index 0. *)
Definition GetServerStatsList (s : t) : outcome ServerStatsList :=
  let num_servers := length (servers_ s) in
  ofold (fun acc server => st ← deref server; Ok (acc ++ [st]))
    [] (take num_servers (drop 1 (stats_map_ s))).

Definition GetServerStats (server_id : ServerID) (s : t) : outcome ServerStats.t :=
  p ← at_ (stats_map_ s) server_id;
  deref p.

Definition GetDataPlaneServerStats (server_id : ServerID) (s : t) : outcome DataPlaneServerStats :=
  stats ← GetServerStats server_id s;
  Ok (ServerStats.mode stats, ServerStats.congestion_state stats,
      ServerStats.read_weight stats, ServerStats.write_weight stats).

Definition UpdateServerStats (server_id : ServerID) (stats : ServerStats.t)
    (is_override is_update_load : bool) (s : t) : outcome t :=
  new_stats ←
    (if is_override then Ok stats
     else
       p ← at_ (stats_map_ s) server_id;
       old_stats ← deref p;
       Ok (stats <| ServerStats.mode := ServerStats.mode old_stats |>
                 <| ServerStats.read_weight := ServerStats.read_weight old_stats |>
                 <| ServerStats.write_weight := ServerStats.write_weight old_stats |>));
  let reads := u32 (ServerStats.completed_reads stats + ServerStats.rejected_reads stats) in
  let writes := u32 (ServerStats.completed_writes stats + ServerStats.rejected_writes stats) in
  let s1 :=
    if is_update_load then
      s <| stats_system_reads_ := u64 (stats_system_reads_ s + reads) |>
        <| stats_system_writes_ := u64 (stats_system_writes_ s + writes) |>
    else s in
  m ← at_put (stats_map_ s1) server_id (Some new_stats);
  Ok (s1 <| stats_map_ := m |>).

Definition CommitServerMode (server_id : ServerID) (mode : ServerMode.t) (s : t) : outcome t :=
  p ← at_ (stats_map_ s) server_id;
  st ← deref p;
  m ← at_put (stats_map_ s) server_id (Some (st <| ServerStats.committed_mode := mode |>));
  Ok (s <| stats_map_ := m |>).

Definition Stop (s : t) : t := s <| stop_ := true |>.
Definition FreezeLoad (s : t) : t := s <| freeze_load_ := true |>.

(** One round of the load calculator, at time [now]. *)
Definition CalculateLoad (now : Z) (s : t) : outcome t :=
  let system_reads := stats_system_reads_ s in
  let system_writes := stats_system_writes_ s in
  let s1 :=
    if freeze_load_ s then s
    else s <| stats_system_reads_ := 0 |> <| stats_system_writes_ := 0 |> in
  read_ops ← to_uint 64 (of_int system_reads * kLoadScaleFactor)%double;
  write_ops ← to_uint 64 (of_int system_writes * kLoadScaleFactor)%double;
  tel ← TelemetryStream.TraceBuffered
          (SystemLoadTelemetry.mk now (read_ops, write_ops)) (telemetry_ s1);
  Ok (s1 <| read_ops_ := read_ops |> <| write_ops_ := write_ops |> <| telemetry_ := tel |>).

(** ** Well-formed tables

    Servers [1 .. n] are registered, each entry carries its own id, and the
    table has one slot per possible server. *)
Definition wf (n : nat) (s : t) : Prop :=
  servers_ s = zrange 1 n /\
  length (stats_map_ s) = Z.to_nat kNumMaxServers /\
  Z.of_nat n < kNumMaxServers /\
  forall i, 1 <= i <= Z.of_nat n ->
    exists st, stats_map_ s !! Z.to_nat i = Some (Some st) /\ ServerStats.server_id st = i.

Lemma wf_init : wf 0 init.
Proof. split_and!; try done. intros i Hi. lia. Qed.

Lemma wf_lookup n s i :
  wf n s -> 1 <= i <= Z.of_nat n ->
  exists st, GetServerStats i s = Ok st /\ ServerStats.server_id st = i /\
    stats_map_ s !! Z.to_nat i = Some (Some st).
Proof.
  intros (_ & _ & _ & H) Hi. destruct (H i Hi) as (st & Hl & Hid). exists st. split_and!; [|done..].
  unfold GetServerStats, at_. rewrite decide_False by lia. by rewrite Hl.
Qed.

(** Writing the entry of a registered server keeps the table well formed. *)
Lemma wf_put n s i st :
  wf n s -> 1 <= i <= Z.of_nat n -> ServerStats.server_id st = i ->
  exists m, at_put (stats_map_ s) i (Some st) = Ok m /\
    wf n (s <| stats_map_ := m |>) /\
    GetServerStats i (s <| stats_map_ := m |>) = Ok st /\
    forall j, j <> i -> at_ m j = at_ (stats_map_ s) j.
Proof.
  intros (Hs & Hlen & Hn & H) Hi Hid. eexists. split; [apply at_put_in_range; lia|].
  split_and!.
  - split_and!; simpl; [done|by rewrite length_insert|done|]. intros j Hj.
    destruct (decide (i = j)) as [->|Hne].
    + exists st. split; [|done]. apply list_lookup_insert_eq. lia.
    + rewrite list_lookup_insert_ne by lia. by apply H.
  - unfold GetServerStats, at_. rewrite decide_False by lia. simpl.
    rewrite list_lookup_insert_eq by lia. done.
  - intros j Hj. eapply at_put_ne; [|done]. apply at_put_in_range. lia.
Qed.

(** Fields the table does not hold can change. *)
Lemma wf_other n s s' :
  wf n s -> servers_ s' = servers_ s -> stats_map_ s' = stats_map_ s -> wf n s'.
Proof. unfold wf. by intros H -> ->. Qed.

Lemma AddServer_wf n s :
  wf n s -> Z.of_nat n + 1 < kNumMaxServers ->
  exists s', AddServer (Z.of_nat n + 1) s = Ok s' /\ wf (S n) s'.
Proof.
  intros (Hs & Hlen & Hn & H) Hlt. eexists. split.
  { unfold AddServer. rewrite at_put_in_range by lia. reflexivity. }
  split_and!; simpl.
  - rewrite Hs, set_insert_snoc.
    + rewrite zrange_S. do 2 f_equal. lia.
    + apply Forall_forall. intros y Hy%elem_of_zrange. lia.
  - by rewrite length_insert.
  - lia.
  - intros i Hi. destruct (decide (i = Z.of_nat n + 1)) as [->|Hne].
    + eexists. rewrite list_lookup_insert_eq by lia. split; reflexivity.
    + rewrite list_lookup_insert_ne by lia. apply H. lia.
Qed.

Lemma deref_loop l acc :
  ofold (fun acc server => st ← deref server; Ok (acc ++ [st])) acc (Some <$> l)
  = Ok (acc ++ l : list ServerStats.t).
Proof.
  revert acc. induction l as [|x l IH]; intros acc; simpl; [by rewrite app_nil_r|].
  rewrite IH. by rewrite <- app_assoc.
Qed.
Lemma wf_entries n s :
  wf n s -> exists l, take n (drop 1 (stats_map_ s)) = Some <$> l /\
    ServerStats.server_id <$> l = zrange 1 n.
Proof.
  intros (_ & Hlen & Hn & H). induction n as [|n IH]; [by exists []|].
  destruct IH as (l & Hl & Hids); [lia|intros i Hi; apply H; lia|].
  destruct (H (Z.of_nat n + 1)) as (st & Hst & Hid); [lia|].
  exists (l ++ [st]). rewrite fmap_app, (take_S_r _ _ (Some st)).
  - rewrite Hl, fmap_app, Hids, zrange_S. split; [done|]. simpl. do 2 f_equal. lia.
  - rewrite lookup_drop. replace (1 + n)%nat with (Z.to_nat (Z.of_nat n + 1)) by lia. done.
Qed.

(** The list form returns the table's entries, one per registered server in
    the order of their ids. *)
Lemma GetServerStatsList_wf n s :
  wf n s -> exists l, GetServerStatsList s = Ok l /\
    ServerStats.server_id <$> l = zrange 1 n /\
    forall i st, l !! i = Some st -> GetServerStats (Z.of_nat i + 1) s = Ok st.
Proof.
  intros Hwf. destruct (wf_entries n s Hwf) as (l & Hl & Hids). exists l. split_and!; [|done|].
  - unfold GetServerStatsList. destruct Hwf as (-> & _). rewrite zrange_length, Hl.
    apply (deref_loop l []).
  - intros i st Hi. unfold GetServerStats. apply bind_Ok. exists (Some st). split; [|done].
    apply at_Ok. split; [lia|]. assert ((Some <$> l) !! i = Some (Some st)) as Hf.
    { by rewrite list_lookup_fmap, Hi. }
    rewrite <- Hl in Hf. apply lookup_take_Some in Hf as [Hf _]. rewrite lookup_drop in Hf.
    by replace (Z.to_nat (Z.of_nat i + 1)) with (1 + i)%nat by lia.
Qed.

(** The stored entry after an update: a report from the server itself does not
    move the mode and the weights the scheduler chose. *)
Definition merged (is_override : bool) (old stats : ServerStats.t) : ServerStats.t :=
  if is_override then stats
  else stats <| ServerStats.mode := ServerStats.mode old |>
             <| ServerStats.read_weight := ServerStats.read_weight old |>
             <| ServerStats.write_weight := ServerStats.write_weight old |>.

Lemma UpdateServerStats_spec n s id old stats is_override is_update_load :
  wf n s -> 1 <= id <= Z.of_nat n -> ServerStats.server_id stats = id ->
  GetServerStats id s = Ok old ->
  exists s', UpdateServerStats id stats is_override is_update_load s = Ok s' /\ wf n s' /\
    GetServerStats id s' = Ok (merged is_override old stats) /\
    (forall j, j <> id -> GetServerStats j s' = GetServerStats j s) /\
    GetSystemLoad s' = GetSystemLoad s.
Proof.
  intros Hwf Hid Hst Hold.
  set (s1 := if is_update_load then
      s <| stats_system_reads_ := u64 (stats_system_reads_ s +
             u32 (ServerStats.completed_reads stats + ServerStats.rejected_reads stats)) |>
        <| stats_system_writes_ := u64 (stats_system_writes_ s +
             u32 (ServerStats.completed_writes stats + ServerStats.rejected_writes stats)) |>
      else s).
  assert (wf n s1 /\ stats_map_ s1 = stats_map_ s /\ GetSystemLoad s1 = GetSystemLoad s)
    as (Hwf1 & Hmap & Hload).
  { subst s1. destruct is_update_load; [|done]. split; [|done]. by apply (wf_other n s). }
  destruct (wf_put n s1 id (merged is_override old stats)) as (m & Hm & Hwf' & Hget & Hne);
    [done..|by destruct is_override|].
  exists (s1 <| stats_map_ := m |>). split_and!; [|done|done| |done].
  - unfold UpdateServerStats. fold s1. unfold GetServerStats in Hold. simplify_outcome.
    unfold merged in Hm. destruct is_override; simpl.
    + by rewrite Hm.
    + rewrite Hrun. simpl. rewrite Hold. simpl in Hm |- *. by rewrite Hm.
  - intros j Hj. unfold GetServerStats. simpl. by rewrite (Hne j Hj), Hmap.
Qed.

Lemma scale_exact n : 0 <= n < 2 ^ 46 ->
  to_uint 64 (of_int n * kLoadScaleFactor)%double = Ok (100 * n).
Proof.
  intros. replace kLoadScaleFactor with (of_int 100) by (vm_compute; reflexivity).
  rewrite dmul_int by lia. rewrite to_uint_int by lia. f_equal. lia.
Qed.

(** Everything the servers reported since the last round, and only that. *)
Definition reported_reads (st : ServerStats.t) : Z :=
  u32 (ServerStats.completed_reads st + ServerStats.rejected_reads st).
Definition reported_writes (st : ServerStats.t) : Z :=
  u32 (ServerStats.completed_writes st + ServerStats.rejected_writes st).

Lemma reported_reads_nonneg st : 0 <= reported_reads st.
Proof. apply wrap_range. lia. Qed.

Lemma reported_writes_nonneg st : 0 <= reported_writes st.
Proof. apply wrap_range. lia. Qed.

Definition report (s : t) (r : ServerID * ServerStats.t) : outcome t :=
  UpdateServerStats (fst r) (snd r) false true s.

Lemma report_counts s r s' :
  report s r = Ok s' ->
  stats_system_reads_ s' = u64 (stats_system_reads_ s + reported_reads (snd r)) /\
  stats_system_writes_ s' = u64 (stats_system_writes_ s + reported_writes (snd r)) /\
  freeze_load_ s' = freeze_load_ s /\ telemetry_ s' = telemetry_ s.
Proof. unfold report, UpdateServerStats. intros H. by simplify_outcome. Qed.

Lemma reports_count rs s s' :
  ofold report s rs = Ok s' ->
  0 <= stats_system_reads_ s -> 0 <= stats_system_writes_ s ->
  stats_system_reads_ s + zsum (reported_reads ∘ snd <$> rs) < 2 ^ 64 ->
  stats_system_writes_ s + zsum (reported_writes ∘ snd <$> rs) < 2 ^ 64 ->
  stats_system_reads_ s' = stats_system_reads_ s + zsum (reported_reads ∘ snd <$> rs) /\
  stats_system_writes_ s' = stats_system_writes_ s + zsum (reported_writes ∘ snd <$> rs) /\
  freeze_load_ s' = freeze_load_ s /\ telemetry_ s' = telemetry_ s.
Proof.
  revert s. induction rs as [|r rs IH]; intros s H Hr Hw Hbr Hbw; simpl in H; simplify_outcome.
  { lia || (split_and!; (done || lia)). }
  apply report_counts in Hrun as (Er & Ew & Ef & Et). simpl in Hbr, Hbw.
  pose proof (zsum_nonneg (reported_reads ∘ snd) rs (fun r => reported_reads_nonneg (snd r))).
  pose proof (zsum_nonneg (reported_writes ∘ snd) rs (fun r => reported_writes_nonneg (snd r))).
  pose proof (reported_reads_nonneg (snd r)). pose proof (reported_writes_nonneg (snd r)).
  rewrite wrap_small in Er, Ew by lia.
  destruct (IH _ H) as (-> & -> & -> & ->); rewrite ?Er, ?Ew; try lia.
  split_and!; (done || lia).
Qed.

(** C28: The system load is exact: after a round in which the servers sent the
    reports [rs], the load is the reported number of operations scaled to a
    second (a round is 10 ms), and the counters start over. *)
Theorem load_exact now rs s s1 :
  ofold report s rs = Ok s1 ->
  stats_system_reads_ s = 0 -> stats_system_writes_ s = 0 -> freeze_load_ s = false ->
  0 <= TelemetryStream.buf_idx_ (telemetry_ s) <= kMaxBufferEntries ->
  zsum (reported_reads ∘ snd <$> rs) < 2 ^ 46 ->
  zsum (reported_writes ∘ snd <$> rs) < 2 ^ 46 ->
  exists s2, CalculateLoad now s1 = Ok s2 /\
    GetSystemLoad s2 = (100 * zsum (reported_reads ∘ snd <$> rs),
                        100 * zsum (reported_writes ∘ snd <$> rs)) /\
    stats_system_reads_ s2 = 0 /\ stats_system_writes_ s2 = 0 /\ stats_map_ s2 = stats_map_ s1.
Proof.
  intros Hrun Hr0 Hw0 Hf Htel Hr Hw.
  pose proof (zsum_nonneg (reported_reads ∘ snd) rs (fun r => reported_reads_nonneg (snd r))).
  pose proof (zsum_nonneg (reported_writes ∘ snd) rs (fun r => reported_writes_nonneg (snd r))).
  destruct (reports_count _ _ _ Hrun) as (Er & Ew & Ef & Et); try lia.
  unfold CalculateLoad. rewrite Er, Ew, Ef, Hf, Hr0, Hw0, !Z.add_0_l, !scale_exact by lia. simpl.
  rewrite Et. destruct (TelemetryStream.TraceBuffered_total (T := SystemLoadTelemetry.t)
    (SystemLoadTelemetry.mk now (100 * zsum (reported_reads ∘ snd <$> rs),
       100 * zsum (reported_writes ∘ snd <$> rs))) (telemetry_ s) Htel) as (tel & Htel' & _).
  rewrite Htel'. simpl. eexists. split; [reflexivity|]. done.
Qed.

(** Two registered servers, one reporting twice. *)
Definition sample_stats (id reads writes rejected : Z) : ServerStats.t :=
  ServerStats.zero <| ServerStats.server_id := id |> <| ServerStats.completed_reads := reads |>
    <| ServerStats.completed_writes := writes |> <| ServerStats.rejected_writes := rejected |>.

Definition sample : t :=
  match AddServer 1 init ≫= AddServer 2 with Ok s => s | Fault _ => init end.

Lemma load_exact_witness :
  let rs := [(1, sample_stats 1 700 30 2); (2, sample_stats 2 5 0 0); (1, sample_stats 1 40 8 0)] in
  exists s1 s2, ofold report sample rs = Ok s1 /\ CalculateLoad 7 s1 = Ok s2 /\
    GetSystemLoad s2 = (74500, 4000).
Proof.
  intros rs. eexists. edestruct (load_exact 7 rs sample) as (s2 & H2 & Hl & _);
    [vm_compute; reflexivity|reflexivity|reflexivity|reflexivity|by vm_compute|by vm_compute|by vm_compute|].
  exists s2. split; [vm_compute; reflexivity|]. split; [exact H2|]. rewrite Hl. vm_compute. reflexivity.
Defined.



End ServerStatsManager.
