(* ===== verification/Memory.v ===== *)
(** * Byte memories

    Buffers, the memory of the in-memory disk server and block devices: a
    finite map from addresses to bytes, zero where nothing was stored, with
    [memcpy] in both directions. *)

From S2P Require Import Prelude.

Local Open Scope Z_scope.

Abbreviation memory := (gmap Z Z).

Definition byte_at (m : memory) (a : Z) : Z := default 0 (m !! a).

(** The [n] bytes from an address on. *)
Definition bytes_at (a : Z) (n : nat) (m : memory) : list Z := map (byte_at m) (zrange a n).

Fixpoint store_at (a : Z) (bytes : list Z) (m : memory) : memory :=
  match bytes with
  | [] => m
  | b :: bytes' => <[a := b]> (store_at (a + 1) bytes' m)
  end.

Lemma bytes_at_length a n m : length (bytes_at a n m) = n.
Proof. unfold bytes_at. by rewrite length_map, zrange_length. Qed.

Lemma store_at_byte a bytes m i :
  byte_at (store_at a bytes m) i =
  if decide (a <= i < a + Z.of_nat (length bytes)) then default 0 (bytes !! Z.to_nat (i - a)) else byte_at m i.
Proof.
  revert a. induction bytes as [|b bytes IH]; intros a; cbn [store_at length].
  - by rewrite decide_False by lia.
  - unfold byte_at in *. destruct (decide (i = a)) as [->|Hne].
    + rewrite lookup_insert_eq, decide_True by lia. by rewrite Z.sub_diag.
    + rewrite lookup_insert_ne by done. rewrite IH. destruct (decide (a + 1 <= i < a + 1 + Z.of_nat (length bytes))).
      * rewrite decide_True by lia. replace (Z.to_nat (i - a)) with (S (Z.to_nat (i - (a + 1)))) by lia. done.
      * by rewrite decide_False by lia.
Qed.

(** Bytes that are in place read back. *)
Lemma read_back (f : Z -> Z) a bytes :
  (forall i, a <= i < a + Z.of_nat (length bytes) -> f i = default 0 (bytes !! Z.to_nat (i - a))) ->
  map f (zrange a (length bytes)) = bytes.
Proof.
  intros Hf. apply list_eq. intros i. rewrite list_lookup_fmap. destruct (decide (i < length bytes)%nat) as [Hi|Hi].
  - rewrite zrange_lookup by done. cbn [fmap option_fmap option_map]. rewrite Hf by lia.
    replace (Z.to_nat (a + Z.of_nat i - a)) with i by lia. destruct (lookup_lt_is_Some_2 bytes i Hi) as [b Hb]. by rewrite Hb.
  - rewrite lookup_ge_None_2 by (rewrite zrange_length; lia). symmetry. apply lookup_ge_None_2. lia.
Qed.

Lemma bytes_store_same a bytes m : bytes_at a (length bytes) (store_at a bytes m) = bytes.
Proof. apply read_back. intros i Hi. by rewrite store_at_byte, decide_True. Qed.

Lemma bytes_store_other a bytes m b n :
  (b + Z.of_nat n <= a \/ a + Z.of_nat (length bytes) <= b) -> bytes_at b n (store_at a bytes m) = bytes_at b n m.
Proof.
  intros H. unfold bytes_at. apply map_ext_in. intros i Hi%list_elem_of_In%elem_of_zrange.
  rewrite store_at_byte. by rewrite decide_False by lia.
Qed.
