(* ===== verification/Slab.v ===== *)
(** * The slab allocator

    [src/sandook/mem/slab.cc], [slab.h] and the replacement of [malloc] in
    [mem_hook.cc], over a memory of bytes. A list of free pointers is kept in the
    free blocks themselves, in batches; an allocator has one list per size class
    for every core and one for all of them, and carves new blocks from the end
    of its memory. Operations run with preemption disabled and take the lock of
    what they share, so each is one step. *)

From S2P Require Import Prelude Wire Memory.

Local Open Scope Z_scope.

Definition load64 (a : Z) (m : memory) : Z := of_le (bytes_at a 8 m).
Definition store64 (a v : Z) (m : memory) : memory := store_at a (to_le 8 v) m.

Definition bsr_64 (a : Z) : Z := Z.log2 a.

(** [PtrHeader]: a size and the number of a core. *)
Module PtrHeader.
Definition sizeof : Z := 16.
Definition size (hdr : Z) (m : memory) : Z := load64 hdr m.
Definition core_id (hdr : Z) (m : memory) : Z := load64 (hdr + 8) m.
End PtrHeader.

Definition kMemAlignment : Z := 16.

(** ** Lists of free pointers *)

Definition kMinSlabClassShift : Z := 5.
Definition kMaxSlabClassShift : Z := 35.

Module FreePtrsList.
Record t := mk { head_ : Z; size_ : Z }.
#[global] Instance settable : Settable t := settable! mk <head_; size_>.
Definition empty : t := mk 0 0.

(** For the least object size the allocator has. *)
Definition kBatchSize : nat := Z.to_nat ((Z.shiftl 1 kMinSlabClassShift + PtrHeader.sizeof) / 8).

(** [batch->ptrs[i]] *)
Definition ptr_addr (batch : Z) (i : nat) : Z := batch + 8 * Z.of_nat i.
Definition ptrs (batch : Z) (i : nat) (m : memory) : Z := load64 (ptr_addr batch i) m.
Definition set_ptrs (batch : Z) (i : nat) (p : Z) (m : memory) : memory := store64 (ptr_addr batch i) p m.

(** [std::fill] of [n] entries from the [i]th on with [nullptr]. *)
Fixpoint clear (batch : Z) (i n : nat) (m : memory) : memory :=
  match n with O => m | S n => clear batch (S i) n (set_ptrs batch i 0 m) end.

(** The loop of [pop]: the last entry in use, if there is one but the first. *)
Fixpoint last_used (batch : Z) (i : nat) (m : memory) : option nat :=
  match i with
  | O => None
  | S j => if negb (ptrs batch i m =? 0) then Some i else last_used batch j m
  end.

(** The loop of [push]: the first of [n] entries from the [i]th on not in use. *)
Fixpoint first_unused (batch : Z) (i n : nat) (m : memory) : option nat :=
  match n with
  | O => None
  | S n => if ptrs batch i m =? 0 then Some i else first_unused batch (S i) n m
  end.

Definition pop (m : memory) (l : t) : outcome (Z * memory * t) :=
  let l := l <| size_ := u64 (size_ l - 1) |> in
  require (negb (head_ l =? 0)) BugOn;;
  match last_used (head_ l) (kBatchSize - 1) m with
  | Some i => Ok (ptrs (head_ l) i m, set_ptrs (head_ l) i 0 m, l)
  | None => Ok (head_ l, m, l <| head_ := ptrs (head_ l) 0 m |>)
  end.

Definition push (ptr : Z) (m : memory) (l : t) : memory * t :=
  let l := l <| size_ := u64 (size_ l + 1) |> in
  if head_ l =? 0 then (clear ptr 0 kBatchSize m, l <| head_ := ptr |>)
  else
    match first_unused (head_ l) 1 (kBatchSize - 1) m with
    | Some i => (set_ptrs (head_ l) i ptr m, l)
    | None => (clear ptr 1 (kBatchSize - 1) (set_ptrs ptr 0 (head_ l) m), l <| head_ := ptr |>)
    end.
End FreePtrsList.

(** ** The allocator *)

Inductive pool := Global | Cache (cpu : Z) | Transferred (cpu : Z).
#[global] Instance pool_eq_dec : EqDecision pool.
Proof. solve_decision. Defined.
#[global] Instance pool_countable : Countable pool.
Proof.
  refine (inj_countable'
    (fun p => match p with Global => None | Cache c => Some (inl c) | Transferred c => Some (inr c) end)
    (fun o => match o with None => Global | Some (inl c) => Cache c | Some (inr c) => Transferred c end) _).
  by intros [].
Defined.

Module SlabAllocator.
Definition kMaxCacheSizeBytes : Z := 32768.
Definition kMaxCacheEntries : Z := 64.
Definition kEnableTransferCache : bool := false.

(** The lists of [slab_lists_], [cache_lists_] and [transferred_caches_], by the
    pool they belong to and by size class; an untouched list is empty. *)
Record t := mk {
  start_ : Z;
  end_ : Z;
  cur_ : Z;
  lists : gmap (pool * Z) FreePtrsList.t;
  mem : memory;
}.
#[global] Instance settable : Settable t := settable! mk <start_; end_; cur_; lists; mem>.

(** The constructor, for the [len] bytes at [addr]. *)
Definition init (addr len : Z) (m : memory) : t := mk addr (addr + len) addr ∅ m.

Definition get_slab_shift (data_size : Z) : Z :=
  if data_size <=? Z.shiftl 1 kMinSlabClassShift then kMinSlabClassShift else bsr_64 (data_size - 1) + 1.

Definition get_slab_size (slab_shift : Z) : Z := u64 (Z.shiftl 1 slab_shift + PtrHeader.sizeof).

(** [1 << slab_shift] is an [int]: a shift by its width or more is undefined, one
    by 31 is negative and becomes a very large divisor. *)
Definition get_max_num_cache_entries (slab_shift : Z) : outcome Z :=
  require (slab_shift <? 32) Undefined;;
  Ok (Z.min kMaxCacheEntries (kMaxCacheSizeBytes / u64 (swrap 32 (Z.shiftl 1 slab_shift)))).

Definition list_of (k : pool * Z) (s : t) : FreePtrsList.t := default FreePtrsList.empty (lists s !! k).
Definition size_of (k : pool * Z) (s : t) : Z := FreePtrsList.size_ (list_of k s).

Definition push_to (k : pool * Z) (ptr : Z) (s : t) : t :=
  let '(m, l) := FreePtrsList.push ptr (mem s) (list_of k s) in s <| mem := m |> <| lists := <[k := l]> (lists s) |>.
Definition pop_from (k : pool * Z) (s : t) : outcome (Z * t) :=
  r ← FreePtrsList.pop (mem s) (list_of k s);
  let '(p, m, l) := r in
  Ok (p, s <| mem := m |> <| lists := <[k := l]> (lists s) |>).
Definition move (from to : pool * Z) (s : t) : outcome t :=
  r ← pop_from from s;
  let '(p, s) := r in
  Ok (push_to to p s).

(** [while (from.size() > limit) to.push(from.pop())]; the length of [from] is
    fuel enough. *)
Fixpoint turn_in (fuel : nat) (limit : Z) (from to : pool * Z) (s : t) : outcome t :=
  if limit <? size_of from s then
    match fuel with
    | O => Fault NoProgress
    | S fuel => s ← move from to s; turn_in fuel limit from to s
    end
  else Ok s.

Definition free_to_cache_list (cpu hdr slab_shift : Z) (s : t) : outcome t :=
  max_num_cache_entries ← get_max_num_cache_entries slab_shift;
  let cache_list := (Cache cpu, slab_shift) in
  let s := push_to cache_list hdr s in
  if max_num_cache_entries <? size_of cache_list s
  then turn_in (Z.to_nat (size_of cache_list s)) (max_num_cache_entries / 2) cache_list (Global, slab_shift) s
  else Ok s.

Definition free_to_transferred_cache_list (hdr slab_shift : Z) (s : t) : outcome t :=
  max_num_cache_entries ← get_max_num_cache_entries slab_shift;
  let core_id := PtrHeader.core_id hdr (mem s) in
  let transferred_cache_list := (Transferred core_id, slab_shift) in
  let s := push_to transferred_cache_list hdr s in
  let n := size_of transferred_cache_list s in
  let total_num := u64 (n + size_of (Cache core_id, slab_shift) s) in
  if max_num_cache_entries <? total_num then
    let num_to_turn_in := Z.min n (u64 (total_num - max_num_cache_entries / 2)) in
    ofold (fun s _ => move transferred_cache_list (Global, slab_shift) s) s (replicate (Z.to_nat num_to_turn_in) tt)
  else Ok s.

(** [while (list.size())] *)
Fixpoint drain (fuel : nat) (cpu slab_shift : Z) (s : t) : outcome t :=
  let list := (Transferred cpu, slab_shift) in
  if size_of list s =? 0 then Ok s
  else
    match fuel with
    | O => Fault NoProgress
    | S fuel =>
        r ← pop_from list s;
        let '(hdr, s) := r in
        s ← free_to_cache_list cpu hdr slab_shift s;
        drain fuel cpu slab_shift s
    end.

Definition drain_transferred_cache (cpu slab_shift : Z) (s : t) : outcome t :=
  if kEnableTransferCache then drain (Z.to_nat (size_of (Transferred cpu, slab_shift) s)) cpu slab_shift s else Ok s.

(** The loop of [allocate] that takes blocks from the global pool. *)
Fixpoint refill (fuel : nat) (max_num_cache_entries : Z) (cache_list slab_list : pool * Z) (s : t) : outcome t :=
  if negb (size_of slab_list s =? 0) && (size_of cache_list s <? max_num_cache_entries) then
    match fuel with
    | O => Fault NoProgress
    | S fuel => s ← move slab_list cache_list s; refill fuel max_num_cache_entries cache_list slab_list s
    end
  else Ok s.

(** The loop of [allocate] that carves at most [n] blocks. *)
Fixpoint bump (n : nat) (slab_size : Z) (cache_list : pool * Z) (s : t) : t :=
  match n with
  | O => s
  | S n =>
      if cur_ s + slab_size <=? end_ s
      then bump n slab_size cache_list ((push_to cache_list (cur_ s) s) <| cur_ := cur_ s + slab_size |>)
      else s
  end.

(** What fills a core's list when it is empty. *)
Definition allocate_slow (cpu slab_shift : Z) (s : t) : outcome t :=
  let cache_list := (Cache cpu, slab_shift) in
  let slab_list := (Global, slab_shift) in
  max_num_cache_entries ← get_max_num_cache_entries slab_shift;
  let max_num_cache_entries := Z.max max_num_cache_entries 1 in
  s ← refill (Z.to_nat (size_of slab_list s)) max_num_cache_entries cache_list slab_list s;
  let remaining := u64 (max_num_cache_entries - size_of cache_list s) in
  Ok (bump (Z.to_nat remaining) (get_slab_size slab_shift) cache_list s).

Definition allocate (cpu size : Z) (s : t) : outcome (Z * t) :=
  let slab_shift := get_slab_shift size in
  if (size =? 0) || (kMaxSlabClassShift <? slab_shift) then Ok (0, s)
  else
    s ← drain_transferred_cache cpu slab_shift s;
    let cache_list := (Cache cpu, slab_shift) in
    s ← (if negb (size_of cache_list s =? 0) then Ok s else allocate_slow cpu slab_shift s);
    if negb (size_of cache_list s =? 0) then
      r ← pop_from cache_list s;
      let '(ret, s) := r in
      if ret =? 0 then Ok (0, s)
      else
        let s := s <| mem ::= store64 ret size |> <| mem ::= store64 (ret + 8) cpu |> in
        let addr := u64 (ret + PtrHeader.sizeof) in
        require (addr mod kMemAlignment =? 0) BugOn;;
        Ok (addr, s)
    else Ok (0, s).

Definition do_free (cpu hdr slab_shift : Z) (s : t) : outcome t :=
  s ← drain_transferred_cache cpu slab_shift s;
  if kEnableTransferCache then
    if cpu =? PtrHeader.core_id hdr (mem s) then free_to_cache_list cpu hdr slab_shift s
    else free_to_transferred_cache_list hdr slab_shift s
  else free_to_cache_list cpu hdr slab_shift s.

Definition free (cpu ptr : Z) (s : t) : outcome t :=
  if ptr =? 0 then Ok s
  else
    require (negb (ptr <? start_ s)) BugOn;;
    require (negb (cur_ s <=? ptr)) BugOn;;
    let hdr := ptr - PtrHeader.sizeof in
    let slab_shift := get_slab_shift (PtrHeader.size hdr (mem s)) in
    require (negb ((slab_shift <? kMinSlabClassShift) || (kMaxSlabClassShift <? slab_shift))) BugOn;;
    do_free cpu hdr slab_shift s.

(** The thread may have moved to another core, [cpu'], when the old block is
    freed. *)
Definition reallocate (cpu cpu' ptr new_size : Z) (s : t) : outcome (Z * t) :=
  require (negb (ptr <? start_ s)) BugOn;;
  require (negb (cur_ s <=? ptr)) BugOn;;
  let hdr := ptr - PtrHeader.sizeof in
  let size := PtrHeader.size hdr (mem s) in
  let slab_shift := get_slab_shift size in
  r ← allocate cpu new_size s;
  let '(new_ptr, s) := r in
  if new_ptr =? 0 then Ok (0, s)
  else
    let s := s <| mem ::= store_at new_ptr (bytes_at ptr (Z.to_nat (Z.min size new_size)) (mem s)) |> in
    s ← do_free cpu' hdr slab_shift s;
    Ok (new_ptr, s).

Definition if_own (ptr : Z) (s : t) : bool := (start_ s <=? ptr) && (ptr <? end_ s).
End SlabAllocator.

(** ** The replacement of [malloc] *)

Module MemHook.
Import SlabAllocator.

Section Hooks.
(** The C library's allocator, looked up with [dlsym]. *)
Context {R : Type} (real_malloc : Z -> R -> Z * R) (real_free : Z -> R -> R) (real_realloc : Z -> Z -> R -> Z * R).
(** [RuntimeInitialized()] *)
Context (initialized : bool).

Definition new (cpu size : Z) (s : t) (r : R) : outcome (Z * t * R) :=
  if initialized then p ← allocate cpu size s; let '(p, s) := p in Ok (p, s, r)
  else let '(p, r) := real_malloc size r in Ok (p, s, r).

Definition delete (cpu ptr : Z) (s : t) (r : R) : outcome (t * R) :=
  if if_own ptr s then
    if initialized then s ← free cpu ptr s; Ok (s, r) else Ok (s, r)
  else Ok (s, real_free ptr r).

Definition realloc (cpu cpu' ptr size : Z) (s : t) (r : R) : outcome (Z * t * R) :=
  if initialized && if_own ptr s then p ← reallocate cpu cpu' ptr size s; let '(p, s) := p in Ok (p, s, r)
  else let '(p, r) := real_realloc ptr size r in Ok (p, s, r).

(** The header of a pointer that was not given is next to the null pointer. *)
Definition new_aligned (cpu size align : Z) (s : t) (r : R) : outcome (Z * t * R) :=
  let size := u64 (size + 8) in
  p ← new cpu (u64 (size + align - 1)) s r;
  let '(ptr_addr, s, r) := p in
  let aligned_ptr_addr := Z.land (u64 (ptr_addr + 8 + align - 1)) (u64 (Z.lnot (u64 (align - 1)))) in
  require (negb (ptr_addr =? 0)) Undefined;;
  Ok (aligned_ptr_addr, s <| mem ::= store64 (aligned_ptr_addr - 8) ptr_addr |>, r).

Definition delete_aligned (cpu ptr : Z) (s : t) (r : R) : outcome (t * R) :=
  require (negb (ptr =? 0)) Undefined;;
  delete cpu (load64 (ptr - 8) (mem s)) s r.

(** [operator new] without [nothrow]. *)
Definition operator_new (cpu size : Z) (s : t) (r : R) : outcome (Z * t * R) :=
  p ← new cpu size s r;
  let '(ptr, s, r) := p in
  require (negb (negb (size =? 0) && (ptr =? 0))) BugOn;;
  Ok (ptr, s, r).
End Hooks.
End MemHook.
