(* ===== verification/FreeList.v ===== *)
(** * Lists of free pointers

    A list of free pointers is a stack, although it lives in the memory it
    keeps: [free_list_is_stack]. *)

From S2P Require Import Prelude Wire Memory Slab.

Local Open Scope Z_scope.

(** ** Words in memory *)

(** Two memories agree on a range of addresses. *)
Definition agree (m m' : memory) (lo hi : Z) : Prop := forall a, lo <= a < hi -> byte_at m' a = byte_at m a.

Lemma agree_refl m lo hi : agree m m lo hi.
Proof. done. Qed.
Lemma agree_trans m1 m2 m3 lo hi : agree m1 m2 lo hi -> agree m2 m3 lo hi -> agree m1 m3 lo hi.
Proof. intros H1 H2 a Ha. by rewrite H2, H1. Qed.
Lemma agree_sub m m' lo hi lo' hi' : agree m m' lo hi -> lo <= lo' -> hi' <= hi -> agree m m' lo' hi'.
Proof. intros H ?? a Ha. apply H. lia. Qed.

Lemma bytes_agree m m' a n : agree m m' a (a + Z.of_nat n) -> bytes_at a n m' = bytes_at a n m.
Proof. intros H. unfold bytes_at. apply map_ext_in. intros i Hi%list_elem_of_In%elem_of_zrange. by apply H. Qed.

Lemma load64_agree m m' a : agree m m' a (a + 8) -> load64 a m' = load64 a m.
Proof. intros H. unfold load64. f_equal. by apply bytes_agree. Qed.

Lemma store_at_agree a l m lo hi : hi <= a \/ a + Z.of_nat (length l) <= lo -> agree m (store_at a l m) lo hi.
Proof. intros H i Hi. rewrite store_at_byte. by rewrite decide_False by lia. Qed.

Lemma store64_agree a v m lo hi : hi <= a \/ a + 8 <= lo -> agree m (store64 a v m) lo hi.
Proof. intros H. apply store_at_agree. rewrite to_le_length. lia. Qed.

Lemma load_store64 a v m : 0 <= v < 2 ^ 64 -> load64 a (store64 a v m) = v.
Proof.
  intros Hv. unfold load64, store64. pose proof (bytes_store_same a (to_le 8 v) m) as H. rewrite to_le_length in H.
  rewrite H. by apply of_to_le.
Qed.

Lemma load_store64_ne a b v m : b + 8 <= a \/ a + 8 <= b -> load64 b (store64 a v m) = load64 b m.
Proof. intros H. apply load64_agree, store64_agree. lia. Qed.

(** ** Lists of free pointers *)

Module FreeList.
Import FreePtrsList.
#[local] Arguments ptrs : simpl never.
#[local] Arguments set_ptrs : simpl never.
#[local] Arguments clear : simpl never.

(** The bytes a batch takes: all of the least block. *)
Definition kBatchBytes : Z := 8 * Z.of_nat kBatchSize.

Lemma kBatchSize_eq : kBatchSize = 6%nat.
Proof. done. Qed.
Lemma kBatchBytes_eq : kBatchBytes = 48.
Proof. done. Qed.
#[local] Opaque kBatchSize.

Definition apart (p q : Z) : Prop := p + kBatchBytes <= q \/ q + kBatchBytes <= p.
Definition spaced (l : list Z) : Prop := NoDup l /\ (forall p q, p ∈ l -> q ∈ l -> p <> q -> apart p q).
Definition pointer (p : Z) : Prop := 0 < p /\ p < 2 ^ 64.

(** The batches from [h] on hold the pointers [l], the last one pushed first. *)
Inductive rep (m : memory) : Z -> list Z -> Prop :=
| rep_nil : rep m 0 []
| rep_batch h ps l :
    h <> 0 -> (length ps < kBatchSize)%nat ->
    (forall i p, ps !! i = Some p -> ptrs h (S i) m = p /\ p <> 0) ->
    (forall i, (length ps < i < kBatchSize)%nat -> ptrs h i m = 0) ->
    rep m (ptrs h 0 m) l ->
    rep m h (reverse ps ++ h :: l).

Lemma ptrs_agree m m' h i :
  (i < kBatchSize)%nat -> agree m m' h (h + kBatchBytes) -> ptrs h i m' = ptrs h i m.
Proof. intros Hi Ha. apply load64_agree. eapply agree_sub; [done|..]; unfold ptr_addr, kBatchBytes; lia. Qed.

Lemma rep_frame m m' h l : (forall p, p ∈ l -> agree m m' p (p + kBatchBytes)) -> rep m h l -> rep m' h l.
Proof.
  intros Ha Hr. induction Hr as [|h ps l Hh Hl Hu Hn Hr IH]; [constructor|].
  assert (agree m m' h (h + kBatchBytes)) as Hag by (apply Ha; set_solver).
  constructor; [done|done| | |].
  - intros i p Hi. rewrite (ptrs_agree m) by (done || apply lookup_lt_Some in Hi; lia). auto.
  - intros i Hi. rewrite (ptrs_agree m) by (done || lia). auto.
  - rewrite (ptrs_agree m) by (done || lia). apply IH. intros p Hp. apply Ha. set_solver.
Qed.

Lemma set_ptrs_same h i p m : 0 <= p < 2 ^ 64 -> ptrs h i (set_ptrs h i p m) = p.
Proof. apply load_store64. Qed.
Lemma set_ptrs_ne h i j p m : i <> j -> ptrs h j (set_ptrs h i p m) = ptrs h j m.
Proof. intros Hij. apply load_store64_ne. unfold ptr_addr. lia. Qed.
Lemma set_ptrs_agree h i p m lo hi :
  (i < kBatchSize)%nat -> hi <= h \/ h + kBatchBytes <= lo -> agree m (set_ptrs h i p m) lo hi.
Proof. intros Hi H. apply store64_agree. unfold ptr_addr, kBatchBytes in *. lia. Qed.

Lemma clear_spec h n i m :
  (forall j, ptrs h j (clear h i n m) = if decide (i <= j < i + n)%nat then 0 else ptrs h j m) /\
  ((i + n <= kBatchSize)%nat -> forall lo hi, hi <= h \/ h + kBatchBytes <= lo -> agree m (clear h i n m) lo hi).
Proof.
  revert i m. induction n as [|n IH]; intros i m; cbn [clear].
  - split; [intros j; by rewrite decide_False by lia|done].
  - destruct (IH (S i) (set_ptrs h i 0 m)) as [H1 H2]. split.
    + intros j. rewrite H1. destruct (decide (i = j)) as [->|Hij].
      * rewrite decide_False, decide_True by lia. by apply set_ptrs_same.
      * rewrite set_ptrs_ne by done. by destruct (decide (S i <= j < S i + n)%nat), (decide (i <= j < i + S n)%nat); try lia.
    + intros Hi lo hi H. eapply agree_trans; [apply set_ptrs_agree|apply H2]; lia.
Qed.

Lemma last_used_spec h k n m :
  (k <= n)%nat -> (forall i, (1 <= i <= k)%nat -> ptrs h i m <> 0) -> (forall i, (k < i <= n)%nat -> ptrs h i m = 0) ->
  last_used h n m = if decide (k = 0)%nat then None else Some k.
Proof.
  intros Hk Hu Hn. induction n as [|n IH]; cbn [last_used]; [by destruct (decide (k = 0)%nat); [|lia]|].
  destruct (decide (k = S n)) as [->|Hne].
  - destruct (Z.eqb_spec (ptrs h (S n) m) 0) as [E|]; [|done]. by destruct (Hu (S n) ltac:(lia)).
  - rewrite (Hn (S n)) by lia. apply IH; [lia|]. intros i Hi. apply Hn. lia.
Qed.

Lemma first_unused_spec h k n i m :
  (forall j, (i <= j < i + k)%nat -> ptrs h j m <> 0) -> (forall j, (i + k <= j < i + n)%nat -> ptrs h j m = 0) ->
  first_unused h i n m = if decide (k < n)%nat then Some (i + k)%nat else None.
Proof.
  revert i k. induction n as [|n IH]; intros i k Hu Hn; cbn [first_unused]; [by destruct (decide (k < 0)%nat); [lia|]|].
  destruct k as [|k].
  - rewrite (Hn i) by lia. cbn [Z.eqb]. destruct (decide (0 < S n)%nat); [|lia]. f_equal. lia.
  - destruct (Z.eqb_spec (ptrs h i m) 0) as [E|]; [by destruct (Hu i ltac:(lia))|].
    rewrite (IH (S i) k); [|intros j Hj; apply Hu; lia|intros j Hj; apply Hn; lia].
    destruct (decide (k < n)%nat), (decide (S k < S n)%nat); try lia; [|done]. f_equal. lia.
Qed.

Lemma spaced_cons p l : spaced (p :: l) -> p ∉ l /\ spaced l /\ (forall q, q ∈ l -> apart p q).
Proof.
  intros [[Hp Hnd]%NoDup_cons Ha]. split; [done|]. split; [split; [done|]; set_solver|].
  intros q Hq. apply Ha; [set_solver..|]. by intros ->.
Qed.

Lemma spaced_app_r l k : spaced (l ++ k) -> spaced k.
Proof. intros [(_ & _ & Hnd)%NoDup_app Ha]. split; [done|]. set_solver. Qed.

(** [m'] differs from [m] at most in the batches at [l]. *)
Definition within_batches (l : list Z) (m m' : memory) : Prop :=
  forall lo hi, (forall x, x ∈ l -> hi <= x \/ x + kBatchBytes <= lo) -> agree m m' lo hi.

Lemma rep_head m h l : rep m h l -> l <> [] -> h ∈ l /\ h <> 0.
Proof. intros Hr Hl. destruct Hr; [done|]. set_solver. Qed.
Lemma rep_zero m l : rep m 0 l -> l = [].
Proof. inversion 1; done. Qed.

(** What a batch holds tells where the scans of [pop] and [push] stop. *)
Lemma last_used_batch h ps m :
  (length ps < kBatchSize)%nat -> (forall i p, ps !! i = Some p -> ptrs h (S i) m = p /\ p <> 0) ->
  (forall i, (length ps < i < kBatchSize)%nat -> ptrs h i m = 0) ->
  last_used h (kBatchSize - 1) m = if decide (length ps = 0)%nat then None else Some (length ps).
Proof.
  intros Hl Hu Hn. apply last_used_spec; [lia| |intros i Hi; apply Hn; lia].
  intros [|i] Hi; [lia|]. destruct (lookup_lt_is_Some_2 ps i ltac:(lia)) as [p Hp]. destruct (Hu i p Hp) as [-> ?]. done.
Qed.

Lemma first_unused_batch h ps m :
  (length ps < kBatchSize)%nat -> (forall i p, ps !! i = Some p -> ptrs h (S i) m = p /\ p <> 0) ->
  (forall i, (length ps < i < kBatchSize)%nat -> ptrs h i m = 0) ->
  first_unused h 1 (kBatchSize - 1) m = if decide (length ps < kBatchSize - 1)%nat then Some (S (length ps)) else None.
Proof.
  intros Hl Hu Hn. apply (first_unused_spec h (length ps)); [|intros j Hj; apply Hn; lia].
  intros [|i] Hi; [lia|]. destruct (lookup_lt_is_Some_2 ps i ltac:(lia)) as [p Hp]. destruct (Hu i p Hp) as [-> ?]. done.
Qed.

Lemma pop_spec m fl p q :
  rep m (head_ fl) (p :: q) -> spaced (p :: q) ->
  exists m' h', pop m fl = Ok (p, m', mk h' (u64 (size_ fl - 1))) /\ rep m' h' q /\ within_batches q m m'.
Proof.
  intros Hr Hs. unfold pop. destruct fl as [h n]. cbn in *.
  inversion Hr as [|h0 ps l Hh Hl Hu Hn Hnext E1 E2]; subst h0.
  destruct (Z.eqb_spec h 0) as [|_]; [done|]. cbn. rewrite (last_used_batch h ps) by done.
  destruct ps as [|p' ps _] using rev_ind.
  - simpl in E2. injection E2 as <- <-. simpl. eexists _, _. split; [done|]. by split; [|intros ???].
  - rewrite reverse_snoc in E2. injection E2 as -> <-. rewrite length_app in *. simpl in *.
    destruct (decide _) as [|_]; [lia|].
    assert (ptrs h (length ps + 1) m = p) as Hp.
    { replace (length ps + 1)%nat with (S (length ps)) by lia. apply Hu. apply list_lookup_middle. done. }
    eexists _, _. rewrite Hp. split; [done|]. apply spaced_cons in Hs as (_ & Hs & _). split.
    + constructor; [done|lia| | |].
      * intros i x Hi. pose proof (lookup_lt_Some _ _ _ Hi). rewrite set_ptrs_ne by lia. apply Hu. by apply lookup_app_l_Some.
      * intros i Hi. destruct (decide (i = length ps + 1)%nat) as [->|]; [by apply set_ptrs_same|].
        rewrite set_ptrs_ne by done. apply Hn. lia.
      * rewrite set_ptrs_ne by lia. apply (rep_frame m); [|done]. intros x Hx. apply set_ptrs_agree; [lia|].
        apply spaced_app_r, spaced_cons in Hs as (_ & _ & Ha). destruct (Ha x Hx); lia.
    + intros lo hi H. apply set_ptrs_agree; [lia|]. apply H. set_solver.
Qed.

Lemma push_spec p m fl l :
  rep m (head_ fl) l -> spaced (p :: l) -> (forall x, x ∈ p :: l -> pointer x) ->
  let '(m', fl') := push p m fl in
  rep m' (head_ fl') (p :: l) /\ size_ fl' = u64 (size_ fl + 1) /\ within_batches (p :: l) m m'.
Proof.
  intros Hr Hs Hp. pose proof kBatchSize_eq as HK. unfold push. destruct fl as [h n]. simpl in *. pose proof (Hp p ltac:(set_solver)) as [Hp0 Hp64].
  destruct (Z.eqb_spec h 0) as [->|Hh].
  - apply rep_zero in Hr as ->. destruct (clear_spec p kBatchSize 0 m) as [Hc Ha]. cbn [head_ size_]. split; [|split; [done|]].
    + apply (rep_batch _ p [] []); [lia|simpl; lia|done| |].
      * intros i Hi. simpl in Hi. rewrite Hc. by rewrite decide_True by lia.
      * rewrite Hc. rewrite decide_True by lia. constructor.
    + intros lo hi H. apply Ha; [lia|]. apply H. set_solver.
  - inversion Hr as [|h0 ps l0 _ Hl Hu Hn Hnext E1 E2]; [by subst|]. subst h0. subst l.
    rewrite (first_unused_batch h ps) by done. apply spaced_cons in Hs as (Hnin & Hs & Hap).
    destruct (decide (length ps < kBatchSize - 1)%nat) as [Hlt|Hge]; simpl; (split; [|split; [done|]]).
    + change (p :: reverse ps ++ h :: l0) with ((p :: reverse ps) ++ h :: l0). rewrite <-reverse_snoc.
      constructor; [done|rewrite length_app; cbn; lia| | |].
      * intros i x [[Hlt' Hi]|[-> <-]]%lookup_snoc_Some; [|split; [apply set_ptrs_same; lia|lia]].
        rewrite set_ptrs_ne by lia. by apply Hu.
      * intros i Hi. rewrite length_app in Hi. cbn in Hi. rewrite set_ptrs_ne by lia. apply Hn. lia.
      * rewrite set_ptrs_ne by lia. apply (rep_frame m); [|done]. intros x Hx. apply set_ptrs_agree; [lia|].
        apply spaced_app_r, spaced_cons in Hs as (_ & _ & Ha). destruct (Ha x Hx); lia.
    + intros lo hi H. apply set_ptrs_agree; [lia|]. apply H. set_solver.
    + destruct (clear_spec p (kBatchSize - 1) 1 (set_ptrs p 0 h m)) as [Hc Ha].
      apply (rep_batch _ p [] (reverse ps ++ h :: l0)); [lia|simpl; lia|done| |].
      * intros i Hi. simpl in Hi. rewrite Hc. by rewrite decide_True by lia.
      * rewrite Hc. rewrite decide_False by lia.
        destruct (rep_head _ _ _ Hr) as [Hin _]; [by destruct (reverse ps)|].
        rewrite set_ptrs_same by (destruct (Hp h ltac:(set_solver)); lia).
        apply (rep_frame m); [|done]. intros x Hx. eapply agree_trans; [apply set_ptrs_agree|apply Ha]; [lia| |lia|];
          destruct (Hap x Hx); lia.
    + destruct (clear_spec p (kBatchSize - 1) 1 (set_ptrs p 0 h m)) as [_ Ha].
      intros lo hi H. specialize (H p ltac:(set_solver)). eapply agree_trans; [apply set_ptrs_agree|apply Ha]; lia.
Qed.

Lemma NoDup_range_length l lo hi : NoDup l -> (forall x, x ∈ l -> lo <= x < hi) -> lo <= hi -> Z.of_nat (length l) <= hi - lo.
Proof.
  intros Hnd Hr Hle. assert (l ⊆+ zrange lo (Z.to_nat (hi - lo))) as Hs.
  { apply NoDup_submseteq; [done|]. intros x Hx. apply elem_of_zrange. specialize (Hr x Hx). lia. }
  apply submseteq_length in Hs. rewrite zrange_length in Hs. lia.
Qed.

Lemma pointers_length l : NoDup l -> (forall x, x ∈ l -> pointer x) -> Z.of_nat (length l) < 2 ^ 64.
Proof.
  intros Hnd Hp. enough (Z.of_nat (length l) <= 2 ^ 64 - 1) by lia.
  apply NoDup_range_length; [done| |lia]. intros x Hx. destruct (Hp x Hx). lia.
Qed.

(** What a list is used for, and by whom memory is used besides. *)
Inductive op := Push (p : Z) | Pop | Size | Elsewhere (a : Z) (bytes : list Z).

Definition list_step (s : memory * t * list Z) (o : op) : outcome (memory * t * list Z) :=
  let '(m, fl, out) := s in
  match o with
  | Push p => let '(m, fl) := push p m fl in Ok (m, fl, out)
  | Pop => r ← pop m fl; let '(p, m, fl) := r in Ok (m, fl, out ++ [p])
  | Size => Ok (m, fl, out ++ [size_ fl])
  | Elsewhere a bytes => Ok (store_at a bytes m, fl, out)
  end.

(** The same on a stack. *)
Definition stack_step (s : list Z * list Z) (o : op) : outcome (list Z * list Z) :=
  let '(st, out) := s in
  match o with
  | Push p => Ok (p :: st, out)
  | Pop => match st with [] => Fault BugOn | p :: st => Ok (st, out ++ [p]) end
  | Size => Ok (st, out ++ [Z.of_nat (length st)])
  | Elsewhere _ _ => Ok (st, out)
  end.

(** Blocks that are pushed do not overlap those that are in, and nobody writes
    to a block that is in. *)
Fixpoint lawful (st : list Z) (ops : list op) : Prop :=
  match ops with
  | [] => True
  | Push p :: ops => pointer p /\ (forall q, q ∈ st -> apart p q) /\ lawful (p :: st) ops
  | Pop :: ops => lawful (tail st) ops
  | Size :: ops => lawful st ops
  | Elsewhere a bytes :: ops => (forall q, q ∈ st -> a + Z.of_nat (length bytes) <= q \/ q + kBatchBytes <= a) /\ lawful st ops
  end.

Record listed (m : memory) (fl : t) (st : list Z) : Prop := {
  l_rep : rep m (head_ fl) st;
  l_size : size_ fl = Z.of_nat (length st);
  l_spaced : spaced st;
  l_pointer : forall x, x ∈ st -> pointer x;
}.

Lemma listed_length m fl st : listed m fl st -> Z.of_nat (length st) < 2 ^ 64.
Proof. intros [_ _ [Hnd _] Hp]. by apply pointers_length. Qed.

Lemma listed_push p m fl st :
  listed m fl st -> pointer p -> (forall q, q ∈ st -> apart p q) ->
  let '(m', fl') := push p m fl in listed m' fl' (p :: st) /\ within_batches (p :: st) m m'.
Proof.
  intros [Hr Hs Hsp Hp] Hpp Ha.
  assert (spaced (p :: st)) as Hsp'.
  { destruct Hsp as [Hnd Hap]. split; [apply NoDup_cons; split; [|done]; intros Hin; destruct (Ha p Hin); rewrite kBatchBytes_eq in *; lia|].
    intros x y [->|Hx]%elem_of_cons [->|Hy]%elem_of_cons Hne; [done|auto|destruct (Ha x Hx); unfold apart in *; tauto|auto]. }
  assert (forall x, x ∈ p :: st -> pointer x) as Hp' by (intros x [->|Hx]%elem_of_cons; auto).
  pose proof (push_spec p m fl st Hr Hsp' Hp') as H. destruct (push p m fl) as [m' fl'], H as (Hr' & Hs' & Hw).
  split; [|done]. split; [done| |done|done]. rewrite Hs', Hs. pose proof (pointers_length _ (proj1 Hsp') Hp') as Hlen.
  simpl in *. rewrite wrap_small; lia.
Qed.

Lemma listed_pop p m fl st :
  listed m fl (p :: st) -> exists m' fl', pop m fl = Ok (p, m', fl') /\ listed m' fl' st /\ within_batches st m m'.
Proof.
  intros Hl. pose proof (listed_length _ _ _ Hl) as Hlen. destruct Hl as [Hr Hs Hsp Hp].
  destruct (pop_spec m fl p st Hr Hsp) as (m' & h' & -> & Hr' & Hw). eexists _, _. split; [done|]. split; [|done].
  apply spaced_cons in Hsp as (_ & Hsp & _). split; [done| |done|set_solver].
  simpl in *. rewrite Hs, wrap_small; lia.
Qed.

Lemma listed_empty_pop m fl : listed m fl [] -> pop m fl = Fault BugOn.
Proof. intros [Hr _ _ _]. unfold pop. destruct fl as [h n]. simpl in *.
  inversion Hr; subst; [done|]. by destruct (reverse ps). Qed.

Lemma listed_frame m m' fl st : listed m fl st -> (forall p, p ∈ st -> agree m m' p (p + kBatchBytes)) -> listed m' fl st.
Proof. intros [Hr ???] Ha. split; [|done..]. by eapply rep_frame. Qed.

Lemma listed_init m : listed m empty [].
Proof. split; [constructor|done|split; [constructor|set_solver]|set_solver]. Qed.

Lemma list_stack_step m fl st out ops :
  listed m fl st -> lawful st ops -> snd <$> ofold list_step (m, fl, out) ops = snd <$> ofold stack_step (st, out) ops.
Proof.
  revert m fl st out. induction ops as [|o ops IH]; intros m fl st out Hl Hlaw; [done|].
  destruct o as [p| | |a bytes]; simpl in *.
  - destruct Hlaw as (Hp & Ha & Hlaw). pose proof (listed_push p m fl st Hl Hp Ha) as H.
    destruct (push p m fl) as [m' fl'], H as [Hl' _]. simpl. by apply IH.
  - destruct st as [|p st]; [by rewrite listed_empty_pop|].
    destruct (listed_pop p m fl st Hl) as (m' & fl' & -> & Hl' & _). simpl. by apply IH.
  - rewrite (l_size _ _ _ Hl). by apply IH.
  - destruct Hlaw as [Ha Hlaw]. apply IH; [|done]. apply (listed_frame m); [done|]. intros q Hq.
    apply store_at_agree. specialize (Ha q Hq). lia.
Qed.

(** C16: A list of free pointers is a stack: on every sequence of operations that
    pushes blocks which do not overlap and does not write to the blocks that are
    in, it answers what a stack of the same pointers answers - the last one
    pushed first, the number of pointers in, the assertion on an empty list -
    although it is nothing but chained batches in the blocks themselves. *)
Theorem free_list_is_stack m ops :
  lawful [] ops -> snd <$> ofold list_step (m, empty, []) ops = snd <$> ofold stack_step ([], []) ops.
Proof. intros Hlaw. apply list_stack_step; [apply listed_init|done]. Qed.

#[local] Transparent kBatchSize.

(** Nine blocks: the seventh begins a second batch. *)
Definition nine_blocks : list op :=
  map (fun i => Push (64 * i)) (zrange 1 9) ++ [Elsewhere 0 [1; 2; 3]; Pop; Pop; Pop; Size; Pop; Push 640; Pop; Pop].

Lemma nine_blocks_lawful : lawful [] nine_blocks.
Proof.
  unfold nine_blocks, pointer. simpl. unfold apart, kBatchBytes, pointer. change kBatchSize with 6%nat.
  repeat split; try lia; intros q; rewrite ?elem_of_cons, ?elem_of_nil; lia.
Qed.

Lemma free_list_is_stack_witness :
  snd <$> ofold list_step (∅, empty, []) nine_blocks = Ok [576; 512; 448; 6; 384; 640; 320].
Proof. rewrite (free_list_is_stack ∅ nine_blocks); [reflexivity|apply nine_blocks_lawful]. Defined.
End FreeList.
