(* ===== verification/SlabHeap.v ===== *)
(** * The slab allocator implements a heap

    The invariant of the allocator: its blocks do not overlap, and each is in one
    list of free pointers or in use, with its header intact. From it the
    refinement of an abstract heap, in which allocated memory never overlaps and
    keeps its contents: [slab_refines_heap]. *)

From S2P Require Import Prelude Wire Memory Slab FreeList.

Local Open Scope Z_scope.

Import SlabAllocator FreeList.

(** ** Sizes *)

Lemma get_slab_size_eq sh : 5 <= sh <= 35 -> get_slab_size sh = 2 ^ sh + 16.
Proof.
  intros Hsh. unfold get_slab_size, PtrHeader.sizeof. rewrite Z.shiftl_1_l.
  pose proof (Z.pow_le_mono_r 2 sh 35 ltac:(lia) ltac:(lia)). pose proof (Z.pow_nonneg 2 sh ltac:(lia)).
  apply wrap_small. lia.
Qed.

Lemma get_slab_size_min sh : 5 <= sh <= 35 -> kBatchBytes <= get_slab_size sh.
Proof. intros Hsh. rewrite get_slab_size_eq, kBatchBytes_eq by done. pose proof (Z.pow_le_mono_r 2 5 sh ltac:(lia) ltac:(lia)). lia. Qed.

Lemma get_slab_size_aligned sh : 5 <= sh <= 35 -> get_slab_size sh mod 16 = 0.
Proof.
  intros Hsh. rewrite get_slab_size_eq by done. replace sh with (4 + (sh - 4)) by lia.
  rewrite Z.pow_add_r by lia. change (2 ^ 4) with 16. replace (16 * 2 ^ (sh - 4) + 16) with ((2 ^ (sh - 4) + 1) * 16) by lia.
  apply Z.mod_mul. lia.
Qed.

(** A class holds the sizes it is for, up to the one that has to be the last. *)
Lemma get_slab_shift_spec size :
  0 < size -> 5 <= get_slab_shift size /\ size <= 2 ^ get_slab_shift size.
Proof.
  intros H0. unfold get_slab_shift, bsr_64, kMinSlabClassShift. change (Z.shiftl 1 5) with 32.
  destruct (Z.leb_spec size 32); [change (2 ^ 5) with 32; lia|].
  pose proof (Z.log2_spec (size - 1) ltac:(lia)) as [_ Hlt]. rewrite Z.add_1_r.
  pose proof (Z.log2_le_mono 32 (size - 1) ltac:(lia)) as Hle. change (Z.log2 32) with 5 in Hle. lia.
Qed.

Lemma get_slab_shift_mono size size' : size <= size' -> get_slab_shift size <= get_slab_shift size'.
Proof.
  intros Hle. unfold get_slab_shift, bsr_64, kMinSlabClassShift. change (Z.shiftl 1 5) with 32.
  destruct (Z.leb_spec size 32), (Z.leb_spec size' 32); try lia.
  - pose proof (Z.log2_le_mono 32 (size' - 1) ltac:(lia)) as H1. change (Z.log2 32) with 5 in H1. lia.
  - pose proof (Z.log2_le_mono (size - 1) (size' - 1) ltac:(lia)). lia.
Qed.

Lemma get_max_num_cache_entries_Ok sh :
  5 <= sh < 32 -> exists n, get_max_num_cache_entries sh = Ok n /\ 0 <= n <= 64.
Proof.
  intros Hsh. unfold get_max_num_cache_entries. rewrite (proj2 (Z.ltb_lt _ _)) by lia. simpl.
  eexists. split; [done|]. unfold kMaxCacheEntries, kMaxCacheSizeBytes.
  assert (0 <= 32768 / u64 (swrap 32 (Z.shiftl 1 sh))); [|lia].
  pose proof (wrap_range 64 (swrap 32 (Z.shiftl 1 sh)) ltac:(lia)) as Hr.
  destruct (decide (u64 (swrap 32 (Z.shiftl 1 sh)) = 0)) as [->|]; [done|]. apply Z.div_pos; lia.
Qed.

(** ** Blocks *)

(** What a block is used for: allocated with a size by a core, in the hands of
    the operation under way, or in a list. *)
Inductive place := Live (size core : Z) | Held | Free (q : pool).
Abbreviation blocks := (gmap Z (Z * place)).

Record inv (s : t) (g : blocks) : Prop := {
  v_range : 0 < start_ s /\ start_ s <= cur_ s <= end_ s /\ end_ s < 2 ^ 64 /\ cur_ s mod 16 = 0;
  v_block p sh pl : g !! p = Some (sh, pl) ->
    5 <= sh < 32 /\ start_ s <= p /\ p + get_slab_size sh <= cur_ s /\ p mod 16 = 0;
  v_apart p q sh sh' pl pl' : g !! p = Some (sh, pl) -> g !! q = Some (sh', pl') -> p <> q ->
    p + get_slab_size sh <= q \/ q + get_slab_size sh' <= p;
  v_list k : exists l, listed (mem s) (list_of k s) l /\ forall p, p ∈ l <-> g !! p = Some (k.2, Free k.1);
  v_live p sh size core : g !! p = Some (sh, Live size core) ->
    0 < size /\ get_slab_shift size = sh /\ PtrHeader.size p (mem s) = size;
}.

Definition used (pl : place) : Prop := match pl with Free _ => False | _ => True end.

(** Blocks in use other than [X] are left alone. *)
Record keeps (X : list Z) (s : t) (g : blocks) (s' : t) (g' : blocks) : Prop := {
  k_range : start_ s' = start_ s /\ end_ s' = end_ s /\ cur_ s <= cur_ s';
  k_used p sh pl : p ∉ X -> used pl -> g !! p = Some (sh, pl) <-> g' !! p = Some (sh, pl);
  k_mem p sh pl : p ∉ X -> used pl -> g !! p = Some (sh, pl) -> agree (mem s) (mem s') p (p + get_slab_size sh);
}.

Lemma keeps_self X s g : keeps X s g s g.
Proof. split; [lia|done|done]. Qed.

Lemma keeps_then X s1 g1 s2 g2 s3 g3 : keeps X s1 g1 s2 g2 -> keeps X s2 g2 s3 g3 -> keeps X s1 g1 s3 g3.
Proof.
  intros [R1 U1 M1] [R2 U2 M2]. split; [lia| |].
  - intros p sh pl HX Hu. by rewrite U1, U2.
  - intros p sh pl HX Hu Hp. eapply agree_trans; [by eapply M1|]. eapply M2; [done..|]. by apply U1.
Qed.

Lemma keeps_weaken X Y s g s' g' : (forall p, p ∈ X -> p ∈ Y) -> keeps X s g s' g' -> keeps Y s g s' g'.
Proof. intros HXY [R U M]. split; [done|naive_solver|naive_solver]. Qed.

Lemma block_pointer s g p sh pl : inv s g -> g !! p = Some (sh, pl) -> pointer p.
Proof.
  intros [Hr Hb _ _ _] Hp. destruct (Hb _ _ _ Hp) as (Hsh & ? & ? & _). pose proof (get_slab_size_min sh ltac:(lia)).
  rewrite kBatchBytes_eq in *. split; lia.
Qed.

(** Different blocks, and a block and the batch in another. *)
Lemma block_batch_apart s g p q sh sh' pl pl' :
  inv s g -> g !! p = Some (sh, pl) -> g !! q = Some (sh', pl') -> p <> q ->
  p + get_slab_size sh <= q \/ q + kBatchBytes <= p.
Proof.
  intros [_ Hb Ha _ _] Hp Hq Hne. destruct (Hb _ _ _ Hq) as [Hsh' _]. pose proof (get_slab_size_min sh' ltac:(lia)).
  destruct (Ha _ _ _ _ _ _ Hp Hq Hne); lia.
Qed.

Lemma blocks_apart s g p q sh sh' pl pl' :
  inv s g -> g !! p = Some (sh, pl) -> g !! q = Some (sh', pl') -> p <> q -> apart p q.
Proof.
  intros Hi Hp Hq Hne. destruct (v_block s g Hi _ _ _ Hp) as [Hsh _]. pose proof (get_slab_size_min sh ltac:(lia)).
  destruct (block_batch_apart _ _ _ _ _ _ _ _ Hi Hp Hq Hne); unfold apart; lia.
Qed.

Lemma list_of_insert k k' fl s m :
  list_of k' (s <| mem := m |> <| lists := <[k := fl]> (lists s) |>) = if decide (k' = k) then fl else list_of k' s.
Proof. unfold list_of. simpl. destruct (decide (k' = k)) as [->|]; [by rewrite lookup_insert_eq|by rewrite lookup_insert_ne]. Qed.

(** ** Taking a block from a list and giving one to it *)

Definition held_or_in (q : pool) (pl : place) : Prop := pl = Held \/ pl = Free q.

Section Update.
Context (s : t) (g : blocks) (q : pool) (sh p : Z) (pl pl' : place) (fl' : FreePtrsList.t) (m' : memory) (l' W : list Z).
Hypothesis Hinv : inv s g.
Hypothesis Hp : g !! p = Some (sh, pl).
Hypothesis Hpl : held_or_in q pl.
Hypothesis Hpl' : held_or_in q pl'.
Hypothesis Hl' : listed m' fl' l'.
Hypothesis Hin : forall x, x ∈ l' <-> <[p := (sh, pl')]> g !! x = Some (sh, Free q).
Hypothesis HW : within_batches W (mem s) m'.
Hypothesis HWin : forall x, x ∈ W -> x = p \/ g !! x = Some (sh, Free q).
Let s' := s <| mem := m' |> <| lists := <[(q, sh) := fl']> (lists s) |>.
Let g' := <[p := (sh, pl')]> g.

Lemma update_block x sh1 pl1 : g' !! x = Some (sh1, pl1) -> exists pl2, g !! x = Some (sh1, pl2).
Proof. unfold g'. intros [[<- [= <- <-]]|[_ ?]]%lookup_insert_Some; eauto. Qed.

(** A block that is neither [p] nor in the list is out of reach. *)
Lemma update_agree x sh1 pl1 :
  g !! x = Some (sh1, pl1) -> ~ (sh1 = sh /\ held_or_in q pl1) -> agree (mem s) m' x (x + get_slab_size sh1).
Proof.
  intros Hx Hne. apply HW. intros w Hw.
  assert (exists plw, g !! w = Some (sh, plw) /\ held_or_in q plw) as (plw & Hgw & Hplw).
  { destruct (HWin w Hw) as [->|?]; [by eauto|]. eexists. split; [done|by right]. }
  apply (block_batch_apart s g x w sh1 sh pl1 plw); [done..|].
  intros ->. rewrite Hx in Hgw. injection Hgw as -> ->. tauto.
Qed.

Lemma update_agree_used x sh1 pl1 :
  x <> p -> used pl1 -> g !! x = Some (sh1, pl1) -> agree (mem s) m' x (x + get_slab_size sh1).
Proof.
  intros Hne Hu Hx. apply HW. intros w Hw. destruct (HWin w Hw) as [->|Hgw].
  - by apply (block_batch_apart s g x p sh1 sh pl1 pl).
  - apply (block_batch_apart s g x w sh1 sh pl1 (Free q)); [done..|]. intros ->. rewrite Hx in Hgw. by injection Hgw as -> ->.
Qed.

Lemma update_list k : exists l, listed m' (list_of k s') l /\ forall x, x ∈ l <-> g' !! x = Some (k.2, Free k.1).
Proof.
  unfold s'. rewrite list_of_insert. destruct (decide (k = (q, sh))) as [->|Hk]; [by exists l'|].
  destruct (v_list s g Hinv k) as (l & Hl & Hlin). exists l. split.
  - apply (listed_frame (mem s)); [done|]. intros x Hx%Hlin. destruct k as [q1 sh1]. cbn [fst snd] in Hx.
    destruct (v_block s g Hinv _ _ _ Hx) as [Hsh1 _]. pose proof (get_slab_size_min sh1 ltac:(lia)).
    eapply agree_sub; [eapply (update_agree x); [done|]|lia|lia]. intros [-> [?|[= ->]]]; done.
  - intros x. rewrite Hlin. unfold g'. destruct (decide (p = x)) as [<-|Hne]; [|by rewrite lookup_insert_ne].
    rewrite lookup_insert_eq, Hp. destruct k as [q1 sh1]. simpl.
    split; intros [= -> ->]; [destruct Hpl as [?|[= ->]]|destruct Hpl' as [?|[= ->]]]; done.
Qed.

Lemma update_inv : inv s' g' /\ keeps [p] s g s' g'.
Proof.
  split; [split|split].
  - apply Hinv.
  - intros x sh1 pl1 (pl2 & Hx)%update_block. by eapply (v_block s g Hinv).
  - intros x y sh1 sh2 pl1 pl2 (? & Hx)%update_block (? & Hy)%update_block. by eapply (v_apart s g Hinv).
  - apply update_list.
  - intros x sh1 size core Hx. unfold g' in Hx. apply lookup_insert_Some in Hx as [[_ [= _ ->]]|[Hne Hx]].
    { by destruct Hpl' as [|]. }
    destruct (v_live s g Hinv _ _ _ _ Hx) as (H0 & Hs & Hm). split; [done|]. split; [done|]. rewrite <-Hm.
    destruct (v_block s g Hinv _ _ _ Hx) as [Hsh1 _]. pose proof (get_slab_size_min sh1 ltac:(lia)). rewrite kBatchBytes_eq in *.
    apply load64_agree. eapply agree_sub; [eapply (update_agree_used x); [done| |done]|lia|lia]. done.
  - unfold s'. simpl. lia.
  - intros x sh1 pl1 Hx _. unfold g'. by rewrite lookup_insert_ne by set_solver.
  - intros x sh1 pl1 Hx Hu Hg. by eapply update_agree_used; [set_solver|..].
Qed.
End Update.

Lemma size_of_listed s k l : listed (mem s) (list_of k s) l -> size_of k s = Z.of_nat (length l).
Proof. intros [_ Hs _ _]. done. Qed.

(** [size_of] after a change of one list. *)
Definition resized (k : pool * Z) (n : Z) (s s' : t) : Prop :=
  size_of k s' = size_of k s + n /\ forall k', k' <> k -> size_of k' s' = size_of k' s.

Lemma push_to_inv s g q sh p :
  inv s g -> g !! p = Some (sh, Held) ->
  let s' := push_to (q, sh) p s in let g' := <[p := (sh, Free q)]> g in
  inv s' g' /\ keeps [p] s g s' g' /\ resized (q, sh) 1 s s'.
Proof.
  intros Hi Hp. destruct (v_list s g Hi (q, sh)) as (l & Hl & Hin). simpl in Hin.
  assert (forall x, x ∈ l -> x <> p) as Hne by (intros x Hx%Hin ->; congruence).
  pose proof (listed_push p (mem s) (list_of (q, sh) s) l Hl (block_pointer _ _ _ _ _ Hi Hp)) as H.
  unfold push_to. destruct (FreePtrsList.push _ _ _) as [m' fl'].
  destruct H as [Hl' HW]. { intros x Hx. pose proof (Hne x Hx). apply Hin in Hx. by eapply blocks_apart. }
  destruct (update_inv s g q sh p Held (Free q) fl' m' (p :: l) (p :: l)) as [H1 H2]; try done; try (by left + by right).
  - intros x. rewrite elem_of_cons, lookup_insert_Some, Hin. destruct (decide (x = p)); naive_solver.
  - intros x [->|Hx]%elem_of_cons; [by left|]. right. by apply Hin.
  - split; [done|]. split; [done|]. split; unfold size_of.
    + rewrite list_of_insert, decide_True by done. rewrite (l_size _ _ _ Hl'), (l_size _ _ _ Hl). simpl. lia.
    + intros k' Hk. by rewrite list_of_insert, decide_False.
Qed.

Lemma pop_from_inv s g q sh :
  inv s g -> size_of (q, sh) s <> 0 ->
  exists p s', pop_from (q, sh) s = Ok (p, s') /\ g !! p = Some (sh, Free q) /\
    inv s' (<[p := (sh, Held)]> g) /\ keeps [p] s g s' (<[p := (sh, Held)]> g) /\ resized (q, sh) (-1) s s'.
Proof.
  intros Hi Hn. destruct (v_list s g Hi (q, sh)) as (l & Hl & Hin). simpl in Hin.
  unfold size_of in Hn. rewrite (l_size _ _ _ Hl) in Hn. destruct l as [|p l]; [done|].
  destruct (listed_pop p (mem s) _ l Hl) as (m' & fl' & Hpop & Hl' & HW). unfold pop_from. rewrite Hpop.
  destruct (spaced_cons p l (l_spaced _ _ _ Hl)) as [Hpl _].
  assert (g !! p = Some (sh, Free q)) as Hp by (apply Hin; set_solver).
  exists p, (s <| mem := m' |> <| lists := <[(q, sh) := fl']> (lists s) |>). split; [done|]. split; [done|].
  destruct (update_inv s g q sh p (Free q) Held fl' m' l l) as [H1 H2]; try done; try (by left + by right).
  - intros x. rewrite lookup_insert_Some. specialize (Hin x). rewrite elem_of_cons in Hin. split.
    + intros Hx. right. split; [by intros ->|tauto].
    + intros [[_ [=]]|[Hne Hx]]. apply Hin in Hx as [->|?]; done.
  - intros x Hx. right. apply Hin. set_solver.
  - split; [done|]. split; [done|]. split; unfold size_of.
    + rewrite list_of_insert, decide_True by done. rewrite (l_size _ _ _ Hl'), (l_size _ _ _ Hl). simpl. lia.
    + intros k' Hk. by rewrite list_of_insert, decide_False.
Qed.

Lemma size_of_nonneg s g k : inv s g -> 0 <= size_of k s.
Proof. intros Hi. destruct (v_list s g Hi k) as (l & Hl & _). rewrite (size_of_listed s k l Hl). lia. Qed.

Lemma keeps_drop p s g s' g' :
  keeps [p] s g s' g' -> (forall sh pl, g !! p = Some (sh, pl) -> ~ used pl) -> (forall sh pl, g' !! p = Some (sh, pl) -> ~ used pl) ->
  keeps [] s g s' g'.
Proof.
  intros [R U M] H H'. split; [done| |].
  - intros x sh pl _ Hu. destruct (decide (x = p)) as [->|]; [naive_solver|]. apply U; [set_solver|done].
  - intros x sh pl _ Hu Hx. destruct (decide (x = p)) as [->|]; [by destruct (H _ _ Hx)|]. apply (M x sh pl); [set_solver|done..].
Qed.

(** ** The loops *)

(** The lists of one size class, and what an operation on them does. *)
Definition ok_step (X : list Z) (s : t) (g : blocks) (r : outcome t) (P : t -> blocks -> Prop) : Prop :=
  exists s' g', r = Ok s' /\ inv s' g' /\ keeps X s g s' g' /\ P s' g'.

Lemma move_inv s g q q' sh :
  inv s g -> size_of (q, sh) s <> 0 -> q <> q' ->
  ok_step [] s g (move (q, sh) (q', sh) s) (fun s' _ =>
    size_of (q, sh) s' = size_of (q, sh) s - 1 /\ size_of (q', sh) s' = size_of (q', sh) s + 1 /\
    forall k, k <> (q, sh) -> k <> (q', sh) -> size_of k s' = size_of k s).
Proof.
  intros Hi Hn Hq. destruct (pop_from_inv s g q sh Hi Hn) as (p & s1 & Hpop & Hp & Hi1 & Hk1 & Hr1 & Hr1').
  destruct (push_to_inv s1 _ q' sh p Hi1 (lookup_insert_eq _ _ _)) as (Hi2 & Hk2 & Hr2 & Hr2').
  unfold move. rewrite Hpop. eexists _, _. split; [done|]. split; [exact Hi2|]. split; [|split; [|split]].
  - apply (keeps_drop p); [by eapply keeps_then| |]; [rewrite Hp|rewrite lookup_insert_eq]; by intros ?? [= <- <-] [].
  - rewrite Hr2' by congruence. lia.
  - rewrite Hr2, Hr1' by congruence. lia.
  - intros k Hk Hk'. by rewrite Hr2', Hr1'.
Qed.

Lemma ok_step_trans X s g r f P Q :
  ok_step X s g r P -> (forall s' g', inv s' g' -> P s' g' -> ok_step X s' g' (f s') Q) -> ok_step X s g (r ≫= f) Q.
Proof.
  intros (s1 & g1 & -> & Hi1 & Hk1 & HP) Hf. destruct (Hf s1 g1 Hi1 HP) as (s2 & g2 & Hr & Hi2 & Hk2 & HQ).
  exists s2, g2. split; [done|]. split; [done|]. split; [by eapply keeps_then|done].
Qed.

Lemma ok_step_ret X s g (P : t -> blocks -> Prop) : inv s g -> P s g -> ok_step X s g (Ok s) P.
Proof. intros Hi HP. exists s, g. split; [done|]. split; [done|]. split; [apply keeps_self|done]. Qed.

Lemma ok_step_weaken X Y s g r (P Q : t -> blocks -> Prop) :
  (forall p, p ∈ X -> p ∈ Y) -> (forall s' g', P s' g' -> Q s' g') -> ok_step X s g r P -> ok_step Y s g r Q.
Proof.
  intros HXY HPQ (s' & g' & -> & Hi & Hk & HP). exists s', g'. split; [done|]. split; [done|].
  split; [by eapply keeps_weaken|auto].
Qed.

Definition any (_ : t) (_ : blocks) : Prop := True.

Lemma turn_in_inv fuel limit s g q q' sh :
  inv s g -> q <> q' -> 0 <= limit -> size_of (q, sh) s <= Z.of_nat fuel + limit ->
  ok_step [] s g (turn_in fuel limit (q, sh) (q', sh) s) (fun s' _ =>
    forall k, k <> (q, sh) -> k <> (q', sh) -> size_of k s' = size_of k s).
Proof.
  intros Hi Hq Hlim. revert s g Hi. induction fuel as [|fuel IH]; intros s g Hi Hle; cbn [turn_in];
    destruct (Z.ltb_spec limit (size_of (q, sh) s)); try lia; try by apply ok_step_ret.
  eapply ok_step_trans; [apply move_inv; [done|lia|done]|]. intros s' g' Hi' (Hs & _ & Ho).
  eapply ok_step_weaken; [done| |apply IH; [done|lia]]. intros s2 g2 Ho' k Hk Hk'. rewrite Ho' by done. by apply Ho.
Qed.

Lemma refill_inv fuel n s g q q' sh :
  inv s g -> q <> q' -> size_of (q', sh) s <= Z.of_nat fuel ->
  ok_step [] s g (refill fuel n (q, sh) (q', sh) s) any.
Proof.
  intros Hi Hq. revert s g Hi. induction fuel as [|fuel IH]; intros s g Hi Hle; cbn [refill];
    pose proof (size_of_nonneg s g (q', sh) Hi); destruct (Z.eqb_spec (size_of (q', sh) s) 0); simpl; try lia; try by apply ok_step_ret.
  destruct (_ <? _); [|by apply ok_step_ret].
  eapply ok_step_trans; [apply move_inv; [done|lia|done]|]. intros s' g' Hi' [Hs _]. apply IH; [done|lia].
Qed.

Lemma moves_inv n s g q q' sh :
  inv s g -> q <> q' -> Z.of_nat n <= size_of (q, sh) s ->
  ok_step [] s g (ofold (fun s _ => move (q, sh) (q', sh) s) s (replicate n tt)) any.
Proof.
  intros Hi Hq. revert s g Hi. induction n as [|n IH]; intros s g Hi Hle; cbn [replicate ofold]; [by apply ok_step_ret|].
  eapply ok_step_trans; [apply move_inv; [done|lia|done]|]. intros s' g' Hi' [Hs _]. apply IH; [done|lia].
Qed.

(** A block carved from the end. *)
Lemma carve_inv s g sh :
  inv s g -> 5 <= sh < 32 -> cur_ s + get_slab_size sh <= end_ s ->
  let s' := s <| cur_ := cur_ s + get_slab_size sh |> in let g' := <[cur_ s := (sh, Held)]> g in
  g !! cur_ s = None /\ inv s' g' /\ keeps [cur_ s] s g s' g'.
Proof.
  intros Hi Hsh Hle s' g'. pose proof (get_slab_size_min sh ltac:(lia)) as Hmin. rewrite kBatchBytes_eq in Hmin.
  assert (forall p sh pl, g !! p = Some (sh, pl) -> p + 48 <= p + get_slab_size sh <= cur_ s) as Hbelow.
  { intros p sh1 pl Hp. destruct (v_block s g Hi _ _ _ Hp) as (Hsh1 & _ & ? & _).
    pose proof (get_slab_size_min sh1 ltac:(lia)). rewrite kBatchBytes_eq in *. lia. }
  assert (g !! cur_ s = None) as Hnone.
  { destruct (g !! cur_ s) as [[sh1 pl]|] eqn:E; [|done]. specialize (Hbelow _ _ _ E). lia. }
  destruct (v_range s g Hi) as (H0 & H1 & H2 & H3). pose proof (get_slab_size_aligned sh ltac:(lia)) as Hal.
  split; [done|]. split; [split|split].
  - unfold s'. simpl. rewrite Z.add_mod, H3, Hal by lia. repeat split; lia || done.
  - intros p sh1 pl Hp. unfold s'. simpl. apply lookup_insert_Some in Hp as [[<- [= <- <-]]|[_ Hp]]; [lia|].
    destruct (v_block s g Hi _ _ _ Hp) as (? & ? & ? & ?). lia.
  - intros p q sh1 sh2 pl1 pl2 Hp Hq Hne.
    apply lookup_insert_Some in Hp as [[<- [= <- <-]]|[_ Hp]], Hq as [[<- [= <- <-]]|[_ Hq]]; [done| | |by eapply (v_apart s g Hi)].
    + specialize (Hbelow _ _ _ Hq). lia.
    + specialize (Hbelow _ _ _ Hp). lia.
  - intros k. destruct (v_list s g Hi k) as (l & Hl & Hin). exists l. split; [done|]. intros p. rewrite Hin. unfold g'.
    destruct (decide (cur_ s = p)) as [<-|]; [|by rewrite lookup_insert_ne]. rewrite lookup_insert_eq, Hnone. split; discriminate.
  - intros p sh1 size core Hp. apply lookup_insert_Some in Hp as [[_ [=]]|[_ Hp]]. by eapply (v_live s g Hi).
  - unfold s'. simpl. lia.
  - intros p sh1 pl Hp _. unfold g'. by rewrite lookup_insert_ne by set_solver.
  - done.
Qed.

Lemma push_cur k p s c : (push_to k p s) <| cur_ := c |> = push_to k p (s <| cur_ := c |>).
Proof. unfold push_to, list_of. simpl. by destruct (FreePtrsList.push _ _ _). Qed.

Lemma bump_inv n s g q sh :
  inv s g -> 5 <= sh < 32 -> ok_step [] s g (Ok (bump n (get_slab_size sh) (q, sh) s)) any.
Proof.
  intros Hi Hsh. revert s g Hi. induction n as [|n IH]; intros s g Hi; cbn [bump]; [by apply ok_step_ret|].
  destruct (Z.leb_spec (cur_ s + get_slab_size sh) (end_ s)) as [Hle|]; [|by apply ok_step_ret].
  destruct (carve_inv s g sh Hi Hsh Hle) as (Hnone & Hi1 & Hk1). rewrite push_cur.
  destruct (push_to_inv _ _ q sh (cur_ s) Hi1 (lookup_insert_eq _ _ _)) as (Hi2 & Hk2 & _).
  destruct (IH _ _ Hi2) as (s' & g' & Heq & Hi' & Hk' & _). exists s', g'. split; [done|]. split; [done|]. split; [|done].
  eapply keeps_then; [|done]. apply (keeps_drop (cur_ s)); [by eapply keeps_then| |]; [by rewrite Hnone|rewrite lookup_insert_eq].
  by intros ?? [= <- <-] [].
Qed.

(** ** Freeing *)

(** A block that is not in use. *)
Definition idle (p : Z) (g : blocks) : Prop := forall sh pl, g !! p = Some (sh, pl) -> ~ used pl.

Lemma keeps_idle s g s' g' p : keeps [] s g s' g' -> idle p g -> idle p g'.
Proof. intros [_ U _] Hp sh pl Hg Hu. apply (Hp sh pl); [|done]. apply U; [set_solver|done..]. Qed.

Lemma free_to_cache_list_inv cpu p sh s g :
  inv s g -> g !! p = Some (sh, Held) ->
  ok_step [p] s g (free_to_cache_list cpu p sh s) (fun s' g' =>
    idle p g' /\ forall c sh', size_of (Transferred c, sh') s' = size_of (Transferred c, sh') s).
Proof.
  intros Hi Hp. destruct (v_block s g Hi _ _ _ Hp) as [Hsh _]. unfold free_to_cache_list.
  destruct (get_max_num_cache_entries_Ok sh Hsh) as (n & -> & Hn). cbn [mbind outcome_bind].
  destruct (push_to_inv s g (Cache cpu) sh p Hi Hp) as (Hi1 & Hk1 & _ & Hr1).
  assert (idle p (<[p := (sh, Free (Cache cpu))]> g)) as Hidle by (intros ??; rewrite lookup_insert_eq; by intros [= <- <-] []).
  destruct (_ <? _).
  - edestruct (turn_in_inv (Z.to_nat (size_of (Cache cpu, sh) (push_to (Cache cpu, sh) p s))) (n / 2) _ _ (Cache cpu) Global sh Hi1)
      as (s2 & g2 & Heq & Hi2 & Hk2 & Ho); [done|apply Z.div_pos; lia|pose proof (size_of_nonneg _ _ (Cache cpu, sh) Hi1);
        pose proof (Z.div_pos n 2 ltac:(lia) ltac:(lia)); lia|].
    exists s2, g2. split; [done|]. split; [done|]. split; [eapply keeps_then; [done|by eapply keeps_weaken; [|done]; set_solver]|].
    split; [by eapply keeps_idle|]. intros c sh'. rewrite Ho by done. by apply Hr1.
  - exists (push_to (Cache cpu, sh) p s), (<[p := (sh, Free (Cache cpu))]> g). split; [done|]. split; [done|]. split; [done|].
    split; [done|]. intros c sh'. by apply Hr1.
Qed.

Lemma free_to_transferred_cache_list_inv p sh s g :
  inv s g -> g !! p = Some (sh, Held) -> ok_step [p] s g (free_to_transferred_cache_list p sh s) (fun _ g' => idle p g').
Proof.
  intros Hi Hp. destruct (v_block s g Hi _ _ _ Hp) as [Hsh _]. unfold free_to_transferred_cache_list.
  destruct (get_max_num_cache_entries_Ok sh Hsh) as (n & -> & Hn). cbn [mbind outcome_bind].
  set (c := PtrHeader.core_id p (mem s)). destruct (push_to_inv s g (Transferred c) sh p Hi Hp) as (Hi1 & Hk1 & _).
  set (s1 := push_to (Transferred c, sh) p s) in *.
  assert (idle p (<[p := (sh, Free (Transferred c))]> g)) as Hidle by (intros ??; rewrite lookup_insert_eq; by intros [= <- <-] []).
  pose proof (size_of_nonneg _ _ (Transferred c, sh) Hi1) as H0.
  destruct (_ <? _); [|by exists s1, (<[p := (sh, Free (Transferred c))]> g)].
  set (num := Z.min _ _). edestruct (moves_inv (Z.to_nat num) s1 _ (Transferred c) Global sh Hi1) as (s2 & g2 & Heq & Hi2 & Hk2 & _); [done|lia|].
  exists s2, g2. split; [done|]. split; [done|]. split; [eapply keeps_then; [done|by eapply keeps_weaken; [|done]; set_solver]|].
  by eapply keeps_idle.
Qed.

Lemma drain_inv fuel cpu sh s g :
  inv s g -> size_of (Transferred cpu, sh) s <= Z.of_nat fuel -> ok_step [] s g (drain fuel cpu sh s) any.
Proof.
  revert s g. induction fuel as [|fuel IH]; intros s g Hi Hle; cbn [drain];
    pose proof (size_of_nonneg s g (Transferred cpu, sh) Hi); destruct (Z.eqb_spec (size_of (Transferred cpu, sh) s) 0) as [|Hne];
    try lia; try by apply ok_step_ret.
  destruct (pop_from_inv s g (Transferred cpu) sh Hi Hne) as (p & s1 & -> & Hp & Hi1 & Hk1 & Hr1 & _). cbn [mbind outcome_bind].
  destruct (free_to_cache_list_inv cpu p sh s1 _ Hi1 (lookup_insert_eq _ _ _)) as (s2 & g2 & -> & Hi2 & Hk2 & Hidle & Hsz).
  cbn [mbind outcome_bind]. destruct (IH s2 g2 Hi2) as (s3 & g3 & Heq & Hi3 & Hk3 & _); [rewrite Hsz; lia|].
  exists s3, g3. split; [done|]. split; [done|]. split; [|done]. eapply keeps_then; [|done].
  apply (keeps_drop p); [by eapply keeps_then| |done]. rewrite Hp. by intros ?? [= <- <-] [].
Qed.

#[local] Opaque kEnableTransferCache.

Lemma drain_transferred_cache_inv cpu sh s g : inv s g -> ok_step [] s g (drain_transferred_cache cpu sh s) any.
Proof.
  intros Hi. unfold drain_transferred_cache. destruct kEnableTransferCache; [|by apply ok_step_ret].
  apply drain_inv; [done|]. pose proof (size_of_nonneg s g (Transferred cpu, sh) Hi). lia.
Qed.

Lemma do_free_inv cpu p sh s g :
  inv s g -> g !! p = Some (sh, Held) -> ok_step [p] s g (do_free cpu p sh s) (fun _ g' => idle p g').
Proof.
  intros Hi Hp. unfold do_free.
  eapply (ok_step_trans _ _ _ _ _ (fun _ g' => g' !! p = Some (sh, Held))).
  - destruct (drain_transferred_cache_inv cpu sh s g Hi) as (s1 & g1 & Heq & Hi1 & Hk1 & _).
    exists s1, g1. split; [done|]. split; [done|]. split; [by eapply keeps_weaken; [|done]; set_solver|].
    by apply (k_used _ _ _ _ _ Hk1 p sh Held); [set_solver| |].
  - intros s1 g1 Hi1 Hp1.
    assert (ok_step [p] s1 g1 (free_to_cache_list cpu p sh s1) (fun _ g' => idle p g')) as Hc.
    { eapply ok_step_weaken; [done| |by apply free_to_cache_list_inv]. by intros ?? [? _]. }
    destruct kEnableTransferCache; [|done]. destruct (_ =? _); [done|]. by apply free_to_transferred_cache_list_inv.
Qed.

(** ** Writing to a block in use *)

Section Touch.
Context (s : t) (g : blocks) (p sh : Z) (pl pl' : place) (m' : memory).
Hypothesis Hinv : inv s g.
Hypothesis Hp : g !! p = Some (sh, pl).
Hypothesis Hpl : used pl.
Hypothesis Hpl' : used pl'.
Hypothesis Hm : forall lo hi, hi <= p \/ p + get_slab_size sh <= lo -> agree (mem s) m' lo hi.
Hypothesis Hlive : forall size core, pl' = Live size core -> 0 < size /\ get_slab_shift size = sh /\ PtrHeader.size p m' = size.

Lemma touch_agree x sh1 pl1 : g !! x = Some (sh1, pl1) -> x <> p -> agree (mem s) m' x (x + get_slab_size sh1).
Proof. intros Hx Hne. apply Hm. destruct (v_apart s g Hinv _ _ _ _ _ _ Hx Hp Hne); lia. Qed.

Lemma touch_inv :
  let s' := s <| mem := m' |> in let g' := <[p := (sh, pl')]> g in inv s' g' /\ keeps [p] s g s' g'.
Proof.
  intros s' g'.
  assert (forall x sh1 pl1, g' !! x = Some (sh1, pl1) -> exists pl2, g !! x = Some (sh1, pl2)) as Hback.
  { intros x sh1 pl1 [[<- [= <- <-]]|[_ ?]]%lookup_insert_Some; eauto. }
  split; [split|split].
  - apply Hinv.
  - intros x sh1 pl1 (? & Hx)%Hback. by eapply (v_block s g Hinv).
  - intros x y sh1 sh2 pl1 pl2 (? & Hx)%Hback (? & Hy)%Hback. by eapply (v_apart s g Hinv).
  - intros k. destruct (v_list s g Hinv k) as (l & Hl & Hin). exists l. split.
    + apply (listed_frame (mem s)); [done|]. intros x Hx%Hin. destruct (v_block s g Hinv _ _ _ Hx) as [Hsh1 _].
      pose proof (get_slab_size_min k.2 ltac:(lia)).
      eapply agree_sub; [eapply (touch_agree x _ _ Hx)|lia|lia]. intros ->. rewrite Hp in Hx. by injection Hx as -> ->.
    + intros x. rewrite Hin. unfold g'. destruct (decide (p = x)) as [<-|]; [|by rewrite lookup_insert_ne].
      rewrite lookup_insert_eq, Hp. split; intros [= -> ->]; done.
  - intros x sh1 size core Hx. apply lookup_insert_Some in Hx as [[<- [= <- ->]]|[Hne Hx]]; [by eapply Hlive|].
    destruct (v_live s g Hinv _ _ _ _ Hx) as (H0 & Hs & Hm'). split; [done|]. split; [done|]. rewrite <-Hm'.
    destruct (v_block s g Hinv _ _ _ Hx) as [Hsh1 _]. pose proof (get_slab_size_min sh1 ltac:(lia)). rewrite kBatchBytes_eq in *.
    apply load64_agree. eapply agree_sub; [by eapply (touch_agree x)|lia|lia].
  - unfold s'. simpl. lia.
  - intros x sh1 pl1 Hx _. unfold g'. by rewrite lookup_insert_ne by set_solver.
  - intros x sh1 pl1 Hx _ Hg. eapply touch_agree; [done|set_solver].
Qed.
End Touch.

(** ** Allocating *)

Lemma stamp_inv s g p sh size cpu :
  inv s g -> g !! p = Some (sh, Held) -> get_slab_shift size = sh -> 0 < size < 2 ^ 64 ->
  let s' := s <| mem := store64 (p + 8) cpu (store64 p size (mem s)) |> in let g' := <[p := (sh, Live size cpu)]> g in
  inv s' g' /\ keeps [p] s g s' g'.
Proof.
  intros Hi Hp Hsz Hr. destruct (v_block s g Hi _ _ _ Hp) as [Hsh _]. pose proof (get_slab_size_min sh ltac:(lia)).
  rewrite kBatchBytes_eq in *. apply (touch_inv s g p sh Held); [done..| |].
  - intros lo hi H'. eapply agree_trans; apply store64_agree; lia.
  - intros size' core [= <- <-]. split; [lia|]. split; [done|]. unfold PtrHeader.size.
    rewrite load_store64_ne by lia. apply load_store64. lia.
Qed.

Lemma allocate_slow_inv cpu sh s g : inv s g -> 5 <= sh < 32 -> ok_step [] s g (allocate_slow cpu sh s) any.
Proof.
  intros Hi Hsh. unfold allocate_slow. destruct (get_max_num_cache_entries_Ok sh Hsh) as (n & -> & Hn). cbn [mbind outcome_bind].
  eapply ok_step_trans; [apply refill_inv; [done|done|]|].
  - pose proof (size_of_nonneg s g (Global, sh) Hi). lia.
  - intros s1 g1 Hi1 _. by apply bump_inv.
Qed.

(** The sizes the classes of which the allocator can compute with, and those it
    refuses. *)
Definition size_ok (size : Z) : Prop := 0 <= size < 2 ^ 64 /\ (get_slab_shift size < 32 \/ kMaxSlabClassShift < get_slab_shift size).

Lemma keeps_idle_iff s g s' g' p : keeps [] s g s' g' -> idle p g' -> idle p g.
Proof. intros [_ U _] Hp sh pl Hg Hu. apply (Hp sh pl); [|done]. apply U; [set_solver|done..]. Qed.

Lemma allocate_inv cpu size s g :
  inv s g -> size_ok size ->
  exists ret s' g', allocate cpu size s = Ok (ret, s') /\ inv s' g' /\
    ((ret = 0 /\ keeps [] s g s' g') \/
     exists p, ret = p + 16 /\ 0 < size /\ keeps [p] s g s' g' /\ g' !! p = Some (get_slab_shift size, Live size cpu) /\ idle p g).
Proof.
  intros Hi [Hr Hsh]. unfold allocate.
  destruct (Z.eqb_spec size 0) as [|H0]; simpl orb; [by exists 0, s, g; auto using keeps_self|].
  destruct (Z.ltb_spec kMaxSlabClassShift (get_slab_shift size)); [by exists 0, s, g; auto using keeps_self|].
  pose proof (get_slab_shift_spec size ltac:(lia)) as [H5 _]. set (sh := get_slab_shift size) in *.
  destruct (drain_transferred_cache_inv cpu sh s g Hi) as (s1 & g1 & -> & Hi1 & Hk1 & _). cbn [mbind outcome_bind].
  assert (ok_step [] s1 g1 (if negb (size_of (Cache cpu, sh) s1 =? 0) then Ok s1 else allocate_slow cpu sh s1) any)
    as (s2 & g2 & -> & Hi2 & Hk2 & _).
  { destruct (negb _); [by apply ok_step_ret|]. apply allocate_slow_inv; [done|lia]. }
  pose proof (keeps_then _ _ _ _ _ _ _ Hk1 Hk2) as Hk. cbn [mbind outcome_bind].
  destruct (Z.eqb_spec (size_of (Cache cpu, sh) s2) 0) as [|Hne]; cbn [negb]; [by exists 0, s2, g2; auto|].
  destruct (pop_from_inv s2 g2 (Cache cpu) sh Hi2 Hne) as (p & s3 & -> & Hp & Hi3 & Hk3 & _). cbn [mbind outcome_bind].
  destruct (block_pointer _ _ _ _ _ Hi2 Hp) as [Hp0 Hp64]. destruct (Z.eqb_spec p 0) as [|_]; [lia|].
  destruct (v_block _ _ Hi2 _ _ _ Hp) as (_ & _ & Hend & Hal). destruct (v_range _ _ Hi2) as (_ & Hcur & He & _).
  pose proof (get_slab_size_min sh ltac:(lia)). rewrite kBatchBytes_eq in *.
  unfold PtrHeader.sizeof, kMemAlignment. rewrite (wrap_small 64 (p + 16)) by lia.
  rewrite Z.add_mod, Hal by lia. change ((0 + 16 mod 16) mod 16 =? 0) with true. cbn [require mbind outcome_bind].
  destruct (stamp_inv s3 _ p sh size cpu Hi3 (lookup_insert_eq _ _ _) eq_refl ltac:(lia)) as [Hi4 Hk4].
  eexists _, _, _. split; [done|]. split; [exact Hi4|]. right. exists p. split; [done|]. split; [lia|]. split; [|split].
  - eapply keeps_then; [eapply keeps_weaken; [|exact Hk]; set_solver|]. by eapply keeps_then.
  - by rewrite lookup_insert_eq.
  - eapply keeps_idle_iff; [exact Hk|]. intros ??. rewrite Hp. by intros [= <- <-] [].
Qed.

(** ** The abstract heap *)

(** Allocated memory: what is at each address, as long as was asked for. *)
Abbreviation heap := (gmap Z (list Z)).

Inductive event :=
| EAllocate (cpu size : Z)
| EFree (cpu ptr : Z)
| EReallocate (cpu cpu' ptr new_size : Z)
| EWrite (ptr : Z) (off : nat) (bytes : list Z).

Definition exec (s : t) (e : event) : outcome (Z * t) :=
  match e with
  | EAllocate cpu size => allocate cpu size s
  | EFree cpu ptr => s ← free cpu ptr s; Ok (0, s)
  | EReallocate cpu cpu' ptr new_size => reallocate cpu cpu' ptr new_size s
  | EWrite ptr off bytes => Ok (0, s <| mem ::= store_at (ptr + Z.of_nat off) bytes |>)
  end.

(** The program frees, resizes and writes what it has allocated. *)
Definition allowed (h : heap) (e : event) : Prop :=
  match e with
  | EAllocate _ size => size_ok size
  | EFree _ ptr => ptr = 0 \/ is_Some (h !! ptr)
  | EReallocate _ _ ptr new_size => is_Some (h !! ptr) /\ size_ok new_size
  | EWrite ptr off bytes => exists d, h !! ptr = Some d /\ (off + length bytes <= length d)%nat
  end.

(** New memory: aligned, inside the allocator's and apart from all that is
    allocated. *)
Definition new_at (lo hi : Z) (h : heap) (ret : Z) (d : list Z) : Prop :=
  ret mod kMemAlignment = 0 /\ lo <= ret /\ ret + Z.of_nat (length d) <= hi /\ h !! ret = None /\
  forall q d', h !! q = Some d' -> ret + Z.of_nat (length d) <= q \/ q + Z.of_nat (length d') <= ret.

Definition heap_step (lo hi : Z) (h : heap) (e : event) (ret : Z) (h' : heap) : Prop :=
  match e with
  | EAllocate _ size =>
      (ret = 0 /\ h' = h) \/
      exists d, Z.of_nat (length d) = size /\ new_at lo hi h ret d /\ h' = <[ret := d]> h
  | EFree _ ptr => h' = delete ptr h
  | EReallocate _ _ ptr new_size =>
      (ret = 0 /\ h' = h) \/
      exists old d, h !! ptr = Some old /\ Z.of_nat (length d) = new_size /\ new_at lo hi h ret d /\
        take (length old) d = take (length d) old /\ h' = <[ret := d]> (delete ptr h)
  | EWrite ptr off bytes => exists d, h !! ptr = Some d /\ h' = <[ptr := take off d ++ bytes ++ drop (off + length bytes) d]> h
  end.

(** ** Refinement *)

(** The blocks in use are what the heap has, and hold it. *)
Definition holds (g : blocks) (m : memory) (h : heap) : Prop :=
  (forall p sh, g !! p <> Some (sh, Held)) /\
  (forall p sh size core, g !! p = Some (sh, Live size core) -> h !! (p + 16) = Some (bytes_at (p + 16) (Z.to_nat size) m)) /\
  (forall ptr d, h !! ptr = Some d -> exists sh size core, g !! (ptr - 16) = Some (sh, Live size core)).

Definition refines (lo hi : Z) (s : t) (h : heap) : Prop :=
  start_ s = lo /\ end_ s = hi /\ exists g, inv s g /\ holds g (mem s) h.

(** A block holds its header and the bytes asked for. *)
Lemma live_room s g p sh size core :
  inv s g -> g !! p = Some (sh, Live size core) -> 0 < size /\ p + 16 + size <= p + get_slab_size sh.
Proof.
  intros Hi Hp. destruct (v_live s g Hi _ _ _ _ Hp) as (H0 & <- & _). destruct (v_block s g Hi _ _ _ Hp) as [Hsh _].
  pose proof (get_slab_shift_spec size H0) as [_ Hle]. split; [done|]. rewrite get_slab_size_eq by lia. lia.
Qed.

Lemma keeps_bytes X s g s' g' p sh size core :
  inv s g -> keeps X s g s' g' -> p ∉ X -> g !! p = Some (sh, Live size core) ->
  bytes_at (p + 16) (Z.to_nat size) (mem s') = bytes_at (p + 16) (Z.to_nat size) (mem s).
Proof.
  intros Hi Hk HX Hp. destruct (live_room _ _ _ _ _ _ Hi Hp) as [H0 Hroom].
  apply bytes_agree. eapply agree_sub; [by apply (k_mem _ _ _ _ _ Hk p sh (Live size core))|lia|lia].
Qed.

Lemma holds_at g m h ptr d : holds g m h -> h !! ptr = Some d ->
  exists sh size core, g !! (ptr - 16) = Some (sh, Live size core) /\ d = bytes_at ptr (Z.to_nat size) m.
Proof.
  intros (_ & Hl & Hh) Hd. destruct (Hh ptr d Hd) as (sh & size & core & Hg). exists sh, size, core. split; [done|].
  apply Hl in Hg as Hg'. replace (ptr - 16 + 16) with ptr in Hg' by lia. congruence.
Qed.

(** What the blocks in use left alone mean for the heap. *)
Lemma holds_keeps s g s' g' h : inv s g -> keeps [] s g s' g' -> holds g (mem s) h -> holds g' (mem s') h.
Proof.
  intros Hi Hk (Hn & Hl & Hh). split; [|split].
  - intros p sh Hp. apply (Hn p sh). by apply (k_used _ _ _ _ _ Hk p sh Held); [set_solver| |].
  - intros p sh size core Hp. apply (k_used _ _ _ _ _ Hk p sh (Live size core)) in Hp; [|set_solver|done].
    rewrite (Hl _ _ _ _ Hp). f_equal. symmetry. eapply (keeps_bytes []); [done|done|set_solver|done].
  - intros ptr d Hd. destruct (Hh ptr d Hd) as (sh & size & core & Hg). exists sh, size, core.
    by apply (k_used _ _ _ _ _ Hk _ sh (Live size core)); [set_solver| |].
Qed.

(** A block the contents of which are new. *)
Lemma holds_put s g s' g' h p sh size core :
  inv s g -> keeps [p] s g s' g' -> g' !! p = Some (sh, Live size core) -> holds g (mem s) h ->
  holds g' (mem s') (<[p + 16 := bytes_at (p + 16) (Z.to_nat size) (mem s')]> h).
Proof.
  intros Hi Hk Hp (Hn & Hl & Hh). split; [|split].
  - intros q sh1 Hq. destruct (decide (q = p)) as [->|]; [congruence|]. apply (Hn q sh1).
    by apply (k_used _ _ _ _ _ Hk q sh1 Held); [set_solver| |].
  - intros q sh1 size1 core1 Hq. destruct (decide (q = p)) as [->|Hqp].
    + rewrite lookup_insert_eq. rewrite Hp in Hq. by injection Hq as <- <- <-.
    + apply (k_used _ _ _ _ _ Hk q) in Hq; [|set_solver|done]. rewrite lookup_insert_ne by lia. rewrite (Hl _ _ _ _ Hq).
      f_equal. symmetry. eapply (keeps_bytes [p]); [done|done|set_solver|done].
  - intros q e [[<- <-]|[Hne Hq]]%lookup_insert_Some; [exists sh, size, core; by replace (p + 16 - 16) with p by lia|].
    destruct (Hh _ _ Hq) as (sh1 & size1 & core1 & Hg). exists sh1, size1, core1.
    apply (k_used _ _ _ _ _ Hk _ sh1 (Live size1 core1)); [set_solver by lia|done..].
Qed.

(** A block that was not in use is new memory. *)
Lemma holds_new s g s' g' h p sh size core :
  inv s g -> inv s' g' -> keeps [p] s g s' g' -> g' !! p = Some (sh, Live size core) -> idle p g -> holds g (mem s) h ->
  new_at (start_ s') (end_ s') h (p + 16) (bytes_at (p + 16) (Z.to_nat size) (mem s')).
Proof.
  intros Hi Hi' Hk Hp Hidle Hh. destruct (live_room _ _ _ _ _ _ Hi' Hp) as [H0 Hroom]. unfold new_at. rewrite bytes_at_length.
  assert (forall q e, h !! q = Some e -> q <> p + 16) as Hne.
  { intros q e Hq ->. destruct (holds_at _ _ _ _ _ Hh Hq) as (? & ? & ? & Hg & _). replace (p + 16 - 16) with p in Hg by lia.
    by apply Hidle in Hg. }
  destruct (v_block _ _ Hi' _ _ _ Hp) as (_ & ? & ? & Hal). destruct (v_range _ _ Hi') as (_ & ? & _).
  split; [unfold kMemAlignment; rewrite Z.add_mod, Hal by lia; done|]. split; [lia|]. split; [lia|].
  split; [destruct (h !! (p + 16)) eqn:E; [by destruct (Hne _ _ E)|done]|].
  intros q e Hq. pose proof (Hne _ _ Hq). destruct (holds_at _ _ _ _ _ Hh Hq) as (sh1 & size1 & core1 & Hg & ->).
  rewrite bytes_at_length. destruct (live_room _ _ _ _ _ _ Hi Hg) as [? ?].
  assert (g' !! (q - 16) = Some (sh1, Live size1 core1)) as Hg'.
  { apply (k_used _ _ _ _ _ Hk _ sh1 (Live size1 core1)); [set_solver by lia|done..]. }
  destruct (v_apart _ _ Hi' _ _ _ _ _ _ Hp Hg'); lia.
Qed.

(** A block that stops being allocated. *)
Lemma holds_gone s g s' g' h p :
  inv s g -> keeps [p] s g s' g' -> idle p g' -> holds g (mem s) h -> holds g' (mem s') (delete (p + 16) h).
Proof.
  intros Hi Hk Hidle (Hn & Hl & Hh). split; [|split].
  - intros q sh Hq. destruct (decide (q = p)) as [->|]; [by destruct (Hidle _ _ Hq)|]. apply (Hn q sh).
    by apply (k_used _ _ _ _ _ Hk q sh Held); [set_solver| |].
  - intros q sh size core Hq. destruct (decide (q = p)) as [->|]; [by destruct (Hidle _ _ Hq)|].
    apply (k_used _ _ _ _ _ Hk q) in Hq; [|set_solver|done]. rewrite lookup_delete_ne by lia. rewrite (Hl _ _ _ _ Hq).
    f_equal. symmetry. eapply (keeps_bytes [p]); [done|done|set_solver|done].
  - intros q e [Hne Hq]%lookup_delete_Some. destruct (Hh _ _ Hq) as (sh & size & core & Hg). exists sh, size, core.
    apply (k_used _ _ _ _ _ Hk _ sh (Live size core)); [set_solver by lia|done..].
Qed.

(** *** The operations *)

Lemma bytes_at_app a n n' m : bytes_at a (n + n') m = bytes_at a n m ++ bytes_at (a + Z.of_nat n) n' m.
Proof. unfold bytes_at. by rewrite zrange_app, map_app. Qed.

Lemma take_bytes_at a n k m : (n <= k)%nat -> take n (bytes_at a k m) = bytes_at a n m.
Proof. intros Hle. replace k with (n + (k - n))%nat by lia. rewrite bytes_at_app. by rewrite take_app_length' by (by rewrite bytes_at_length). Qed.

Lemma bytes_at_store a n off bytes m :
  (off + length bytes <= n)%nat ->
  bytes_at a n (store_at (a + Z.of_nat off) bytes m) =
  take off (bytes_at a n m) ++ bytes ++ drop (off + length bytes) (bytes_at a n m).
Proof.
  intros Hle. replace n with (off + (length bytes + (n - off - length bytes)))%nat by lia. rewrite !bytes_at_app.
  rewrite (bytes_store_other _ _ _ a) by lia. rewrite bytes_store_same. rewrite (bytes_store_other _ _ _ (a + Z.of_nat off + _)) by lia.
  rewrite take_app_length' by (by rewrite bytes_at_length). rewrite <-drop_drop.
  by rewrite !drop_app_length' by (by rewrite bytes_at_length).
Qed.

Lemma set_mem_id (s : t) : s <| mem := mem s |> = s.
Proof. by destruct s. Qed.

(** A block that is given up by the program and freed. *)
Lemma give_up_inv cpu s g p sh size core :
  inv s g -> g !! p = Some (sh, Live size core) ->
  ok_step [p] s g (do_free cpu p sh s) (fun _ g' => idle p g').
Proof.
  intros Hi Hp. destruct (touch_inv s g p sh (Live size core) Held (mem s) Hi Hp) as [Hi1 Hk1]; [done|done|by intros; apply agree_refl|done|].
  rewrite set_mem_id in *. destruct (do_free_inv cpu p sh s _ Hi1 (lookup_insert_eq _ _ _)) as (s2 & g2 & Heq & Hi2 & Hk2 & Hidle).
  exists s2, g2. split; [done|]. split; [done|]. split; [by eapply keeps_then|done].
Qed.

(** The checks of [free] and [reallocate] accept what has been allocated. *)
Lemma live_checks s g p sh size core :
  inv s g -> g !! p = Some (sh, Live size core) ->
  (p + 16 <? start_ s) = false /\ (cur_ s <=? p + 16) = false /\ get_slab_shift (PtrHeader.size p (mem s)) = sh /\ 5 <= sh < 32.
Proof.
  intros Hi Hp. destruct (live_room _ _ _ _ _ _ Hi Hp). destruct (v_block _ _ Hi _ _ _ Hp) as (? & ? & ? & _).
  destruct (v_live _ _ Hi _ _ _ _ Hp) as (_ & <- & ->). repeat split; rewrite ?Z.ltb_ge, ?Z.leb_gt; lia.
Qed.

Section Steps.
Context (lo hi : Z) (s : t) (h : heap).
Hypothesis Hs : refines lo hi s h.

Definition step_refines (e : event) : Prop :=
  exists ret s' h', exec s e = Ok (ret, s') /\ heap_step lo hi h e ret h' /\ refines lo hi s' h'.

Lemma allocate_refines cpu size : size_ok size -> step_refines (EAllocate cpu size).
Proof.
  intros Hok. destruct Hs as (Hlo & Hhi & g & Hi & Hh).
  destruct (allocate_inv cpu size s g Hi Hok) as (ret & s' & g' & He & Hi' & [[-> Hk]|(p & -> & H0 & Hk & Hp & Hidle)]).
  - exists 0, s', h. split; [done|]. split; [by left|]. destruct (k_range _ _ _ _ _ Hk) as (? & ? & _).
    split; [congruence|]. split; [congruence|]. exists g'. split; [done|]. by apply (holds_keeps s g).
  - destruct (k_range _ _ _ _ _ Hk) as (Hst & Hen & _). pose proof (holds_new _ _ _ _ _ _ _ _ _ Hi Hi' Hk Hp Hidle Hh) as Hnew.
    rewrite Hst, Hen, Hlo, Hhi in Hnew. exists (p + 16), s', (<[p + 16 := bytes_at (p + 16) (Z.to_nat size) (mem s')]> h).
    split; [done|]. split; [right; eexists; split; [|by split]; rewrite bytes_at_length; lia|].
    split; [congruence|]. split; [congruence|]. exists g'. split; [done|]. by eapply (holds_put s g).
Qed.

Lemma heap_null : h !! 0 = None.
Proof.
  destruct Hs as (_ & _ & g & Hi & Hh). destruct (h !! 0) as [d|] eqn:E; [|done].
  destruct (holds_at _ _ _ _ _ Hh E) as (sh & size & core & Hg & _). destruct (v_block _ _ Hi _ _ _ Hg) as (_ & ? & _).
  pose proof (v_range _ _ Hi). lia.
Qed.

Lemma free_refines cpu ptr : ptr = 0 \/ is_Some (h !! ptr) -> step_refines (EFree cpu ptr).
Proof.
  intros Hptr. exists 0. cbn [exec]. unfold free. destruct (Z.eqb_spec ptr 0) as [->|Hne].
  - exists s, h. split; [done|]. split; [symmetry; apply delete_id, heap_null|done].
  - destruct Hptr as [|[d Hd]]; [done|]. destruct Hs as (Hlo & Hhi & g & Hi & Hh).
    destruct (holds_at _ _ _ _ _ Hh Hd) as (sh & size & core & Hg & _). destruct (live_checks _ _ _ _ _ _ Hi Hg) as (H1 & H2 & H3 & Hsh).
    replace (ptr - 16 + 16) with ptr in * by lia. unfold PtrHeader.sizeof. rewrite H1, H2, H3.
    rewrite (proj2 (Z.ltb_ge _ _)), (proj2 (Z.ltb_ge _ _)) by (unfold kMaxSlabClassShift, kMinSlabClassShift; lia).
    cbn [require mbind outcome_bind negb orb].
    destruct (give_up_inv cpu s g _ _ _ _ Hi Hg) as (s' & g' & -> & Hi' & Hk & Hidle). destruct (k_range _ _ _ _ _ Hk) as (? & ? & _).
    exists s', (delete ptr h). split; [done|]. split; [done|]. split; [congruence|]. split; [congruence|]. exists g'. split; [done|].
    replace ptr with (ptr - 16 + 16) by lia. by eapply (holds_gone s g).
Qed.

Lemma write_refines ptr off bytes d : h !! ptr = Some d -> (off + length bytes <= length d)%nat -> step_refines (EWrite ptr off bytes).
Proof.
  intros Hd Hle. destruct Hs as (Hlo & Hhi & g & Hi & Hh). destruct (holds_at _ _ _ _ _ Hh Hd) as (sh & size & core & Hg & ->).
  destruct (live_room _ _ _ _ _ _ Hi Hg) as [H0 Hroom]. destruct (v_live _ _ Hi _ _ _ _ Hg) as (_ & Hsh & Hsz).
  rewrite bytes_at_length in Hle. set (m' := store_at (ptr + Z.of_nat off) bytes (mem s)).
  assert (forall lo hi, hi <= ptr \/ ptr + size <= lo -> agree (mem s) m' lo hi) as Hag.
  { intros lo' hi' H. apply store_at_agree. lia. }
  destruct (touch_inv s g (ptr - 16) sh (Live size core) (Live size core) m' Hi Hg) as [Hi' Hk]; [done|done| | |].
  { intros lo' hi' H. apply Hag. lia. }
  { intros ?? [= <- <-]. split; [done|]. split; [done|]. rewrite <-Hsz. apply load64_agree, Hag. lia. }
  eexists 0, _, _. split; [done|]. split; [eexists; split; [done|reflexivity]|]. split; [done|]. split; [done|].
  eexists. split; [exact Hi'|]. pose proof (holds_put _ _ _ _ _ _ _ _ _ Hi Hk (lookup_insert_eq _ _ _) Hh) as Hput.
  replace (ptr - 16 + 16) with ptr in Hput by lia. rewrite <-bytes_at_store by lia. exact Hput.
Qed.

(** The copy into the new block, before the old one is freed. *)
Lemma copy_inv s1 g1 p q sh sh' size size' core core' :
  inv s1 g1 -> g1 !! p = Some (sh, Live size core) -> g1 !! q = Some (sh', Live size' core') ->
  let n := Z.to_nat (Z.min size size') in
  let s2 := s1 <| mem ::= store_at (q + 16) (bytes_at (p + 16) n (mem s1)) |> in
  let g2 := <[q := (sh', Live size' core')]> g1 in
  inv s2 g2 /\ keeps [q] s1 g1 s2 g2 /\
  take n (bytes_at (q + 16) (Z.to_nat size') (mem s2)) = bytes_at (p + 16) n (mem s1).
Proof.
  intros Hi Hp Hq n s2 g2. destruct (live_room _ _ _ _ _ _ Hi Hp) as [H0 Hroom], (live_room _ _ _ _ _ _ Hi Hq) as [H0' Hroom'].
  destruct (v_live _ _ Hi _ _ _ _ Hq) as (_ & Hsh & Hsz).
  assert (forall lo hi, hi <= q + 16 \/ q + 16 + size' <= lo -> agree (mem s1) (mem s2) lo hi) as Hag.
  { intros lo' hi' H. apply store_at_agree. rewrite bytes_at_length. unfold n. lia. }
  edestruct (touch_inv s1 g1 q sh' (Live size' core') (Live size' core') (mem s2) Hi Hq) as [Hi2 Hk2]; [done|done| | |].
  { intros lo' hi' H. apply Hag. lia. }
  { intros ?? [= <- <-]. split; [done|]. split; [done|]. rewrite <-Hsz. apply load64_agree, Hag. lia. }
  split; [done|]. split; [done|]. rewrite take_bytes_at by lia. unfold s2. simpl.
  pose proof (bytes_store_same (q + 16) (bytes_at (p + 16) n (mem s1)) (mem s1)) as Hb. by rewrite bytes_at_length in Hb.
Qed.

Lemma reallocate_refines cpu cpu' ptr old new_size :
  h !! ptr = Some old -> size_ok new_size -> step_refines (EReallocate cpu cpu' ptr new_size).
Proof.
  intros Hd Hok. destruct Hs as (Hlo & Hhi & g & Hi & Hh). destruct (holds_at _ _ _ _ _ Hh Hd) as (sh & size & core & Hg & ->).
  destruct (live_checks _ _ _ _ _ _ Hi Hg) as (H1 & H2 & H3 & _), (v_live _ _ Hi _ _ _ _ Hg) as (H0 & _ & Hsz).
  replace (ptr - 16 + 16) with ptr in * by lia. unfold step_refines. cbn [exec]. unfold reallocate, PtrHeader.sizeof.
  rewrite H1, H2, H3, Hsz. cbn [require mbind outcome_bind negb].
  destruct (allocate_inv cpu new_size s g Hi Hok) as (ret & s1 & g1 & -> & Hi1 & [[-> Hk1]|(q & -> & Hn0 & Hk1 & Hq & Hidle)]); cbn [mbind outcome_bind].
  { exists 0, s1, h. split; [done|]. split; [by left|]. destruct (k_range _ _ _ _ _ Hk1) as (? & ? & _).
    split; [congruence|]. split; [congruence|]. exists g1. split; [done|]. by apply (holds_keeps s g). }
  destruct (block_pointer _ _ _ _ _ Hi1 Hq) as [Hq0 _]. destruct (Z.eqb_spec (q + 16) 0) as [|_]; [lia|].
  assert (ptr - 16 <> q) as Hne by (intros <-; by apply Hidle in Hg).
  assert (g1 !! (ptr - 16) = Some (sh, Live size core)) as Hg1.
  { apply (k_used _ _ _ _ _ Hk1 _ sh (Live size core)); [set_solver|done..]. }
  destruct (copy_inv s1 g1 _ q sh _ size new_size core cpu Hi1 Hg1 Hq) as (Hi2 & Hk2 & Hcopy).
  replace (ptr - 16 + 16) with ptr in * by lia. set (s2 := s1 <| mem ::= _ |>) in *. set (g2 := <[q := _]> g1) in *.
  pose proof (keeps_then _ _ _ _ _ _ _ Hk1 Hk2) as Hk12.
  assert (g2 !! (ptr - 16) = Some (sh, Live size core)) as Hg2 by (unfold g2; by rewrite lookup_insert_ne).
  assert (g2 !! q = Some (get_slab_shift new_size, Live new_size cpu)) as Hq2 by apply lookup_insert_eq.
  destruct (give_up_inv cpu' s2 g2 _ _ _ _ Hi2 Hg2) as (s3 & g3 & -> & Hi3 & Hk3 & Hidle3). cbn [mbind outcome_bind].
  pose proof (holds_put _ _ _ _ _ _ _ _ _ Hi Hk12 Hq2 Hh) as Hput. pose proof (holds_new _ _ _ _ _ _ _ _ _ Hi Hi2 Hk12 Hq2 Hidle Hh) as Hnew.
  destruct (k_range _ _ _ _ _ Hk12) as (Hst & Hen & _), (k_range _ _ _ _ _ Hk3) as (Hst3 & Hen3 & _). rewrite Hst, Hen, Hlo, Hhi in Hnew.
  set (d := bytes_at (q + 16) _ (mem s2)) in *. exists (q + 16), s3, (<[q + 16 := d]> (delete ptr h)). split; [done|]. split.
  - right. eexists _, d. split; [done|]. split; [unfold d; rewrite bytes_at_length; lia|]. split; [done|]. split; [|done].
    assert (bytes_at ptr (Z.to_nat (Z.min size new_size)) (mem s1) = take (Z.to_nat (Z.min size new_size)) (bytes_at ptr (Z.to_nat size) (mem s))) as Ho.
    { rewrite take_bytes_at by lia. rewrite <-(take_bytes_at _ _ (Z.to_nat size)) by lia. rewrite <-(take_bytes_at _ _ (Z.to_nat size) (mem s)) by lia.
      f_equal. assert (ptr - 16 ∉ [q]) as Hnq by set_solver. pose proof (keeps_bytes _ _ _ _ _ _ _ _ _ Hi Hk1 Hnq Hg) as Hkb. by replace (ptr - 16 + 16) with ptr in Hkb by lia. }
    rewrite Ho in Hcopy. unfold d in *. rewrite !bytes_at_length. rewrite Z2Nat.inj_min in Hcopy.
    destruct (Nat.min_spec (Z.to_nat size) (Z.to_nat new_size)) as [[? Hmin]|[? Hmin]]; rewrite Hmin in Hcopy.
    + rewrite Hcopy, !take_ge; [done|rewrite bytes_at_length; lia..].
    + rewrite <-Hcopy, !take_ge; [done|rewrite bytes_at_length; lia..].
  - split; [congruence|]. split; [congruence|]. exists g3. split; [done|].
    rewrite <-delete_insert_ne by lia. replace ptr with (ptr - 16 + 16) by lia. by eapply (holds_gone s2 g2).
Qed.
End Steps.

Lemma refines_init addr len m :
  0 < addr -> addr mod 16 = 0 -> 0 <= len -> addr + len < 2 ^ 64 -> refines addr (addr + len) (init addr len m) ∅.
Proof.
  intros H0 Hal Hlen Hend. split; [done|]. split; [done|]. exists ∅. split; [split|split; [|split]].
  - simpl. repeat split; lia || done.
  - by intros.
  - by intros.
  - intros k. exists []. split; [unfold list_of, init; simpl; rewrite lookup_empty; apply listed_init|].
    intros p. rewrite lookup_empty. set_solver.
  - by intros.
  - by intros.
  - by intros.
  - by intros.
Qed.

(** C2: The slab allocator implements a heap. From its construction on aligned
    memory, whatever a program that frees, resizes and writes what it has
    allocated does, on whatever cores and for every size that is at most 2 GiB or
    above the largest class: every operation ends without a failed
    assertion; memory it hands out is aligned, inside its own, and overlaps
    nothing that is allocated; allocated memory keeps its contents until it is
    written or freed, although the lists of free blocks are kept in the memory
    around it; and a resized block has the contents it had. *)
Theorem slab_refines_heap addr len m :
  0 < addr -> addr mod 16 = 0 -> 0 <= len -> addr + len < 2 ^ 64 ->
  refines addr (addr + len) (init addr len m) ∅ /\
  forall s h e, refines addr (addr + len) s h -> allowed h e ->
    exists ret s' h', exec s e = Ok (ret, s') /\ heap_step addr (addr + len) h e ret h' /\ refines addr (addr + len) s' h'.
Proof.
  intros H0 Hal Hlen Hend. split; [by apply refines_init|]. intros s h [cpu size|cpu ptr|cpu cpu' ptr n|ptr off bytes] Hr Ha.
  - by apply allocate_refines.
  - by apply free_refines.
  - destruct Ha as [[old Hd] Hok]. by eapply reallocate_refines.
  - destruct Ha as (d & Hd & Hle). by eapply write_refines.
Qed.

Lemma slab_refines_heap_witness :
  exists ret s' h', exec (init 4096 65536 ∅) (EAllocate 0 100) = Ok (ret, s') /\
    heap_step 4096 (4096 + 65536) ∅ (EAllocate 0 100) ret h' /\ refines 4096 (4096 + 65536) s' h'.
Proof.
  apply (slab_refines_heap 4096 65536 ∅); [lia|reflexivity|lia|reflexivity| |].
  - apply (slab_refines_heap 4096 65536 ∅); [lia|reflexivity|lia|reflexivity].
  - split; [lia|]. left. reflexivity.
Defined.

(** Above 2 GiB and up to the largest class there is, an allocation that has
    to fill its core's list shifts an [int] by its width or more. *)
Theorem large_sizes_undefined addr len m cpu size :
  2 ^ 31 < size <= 2 ^ 35 -> allocate cpu size (init addr len m) = Fault Undefined.
Proof.
  intros Hsz.
  assert (32 <= get_slab_shift size <= 35) as Hsh.
  { split; [change 32 with (get_slab_shift (2 ^ 31 + 1))|change 35 with (get_slab_shift (2 ^ 35))]; apply get_slab_shift_mono; lia. }
  unfold allocate. rewrite (proj2 (Z.eqb_neq _ _)) by lia. rewrite (proj2 (Z.ltb_ge _ _)) by (unfold kMaxSlabClassShift; lia).
  unfold allocate_slow, get_max_num_cache_entries. rewrite (proj2 (Z.ltb_ge _ _)) by lia. done.
Qed.

Lemma large_sizes_undefined_witness : allocate 0 (2 ^ 32) (init 4096 (2 ^ 36) ∅) = Fault Undefined.
Proof. apply (large_sizes_undefined 4096 (2 ^ 36) ∅ 0 (2 ^ 32)). split; [reflexivity|discriminate]. Defined.

(** ** Aligned allocation *)

(** [x & ~(align - 1)] on 64 bits. *)
Lemma mask_eq y k : 0 <= k < 64 -> 0 <= y < 2 ^ 64 -> Z.land y (u64 (Z.lnot (u64 (2 ^ k - 1)))) = y / 2 ^ k * 2 ^ k.
Proof.
  intros Hk Hy. pose proof (Z.pow_lt_mono_r 2 k 64 ltac:(lia) ltac:(lia) ltac:(lia)). pose proof (Z.pow_pos_nonneg 2 k ltac:(lia) ltac:(lia)).
  rewrite (wrap_small 64 (2 ^ k - 1)) by lia. rewrite <-Z.shiftr_div_pow2, <-Z.shiftl_mul_pow2 by lia.
  rewrite <-Z.ldiff_ones_r by lia. rewrite Z.ones_equiv, <-Z.sub_1_r. apply Z.bits_inj'. intros i Hi.
  rewrite Z.land_spec, Z.ldiff_spec. unfold wrap. destruct (Z.lt_ge_cases i 64) as [Hlt|Hge].
  - by rewrite Z.mod_pow2_bits_low, Z.lnot_spec by lia.
  - rewrite <-(Z.mod_small y (2 ^ 64)) by lia. by rewrite Z.mod_pow2_bits_high by lia.
Qed.

(** The first aligned address that leaves room for a pointer. *)
Lemma round_up_spec a k :
  0 <= k < 64 -> 0 <= a -> a + 2 ^ k - 1 < 2 ^ 64 ->
  let x := Z.land (u64 (a + 2 ^ k - 1)) (u64 (Z.lnot (u64 (2 ^ k - 1)))) in x mod 2 ^ k = 0 /\ a <= x < a + 2 ^ k.
Proof.
  intros Hk Ha Hb x. pose proof (Z.pow_pos_nonneg 2 k ltac:(lia) ltac:(lia)) as Hpos.
  unfold x. rewrite (wrap_small 64 (a + 2 ^ k - 1)), mask_eq by lia. split; [apply Z.mod_mul; lia|].
  pose proof (Z.div_mod (a + 2 ^ k - 1) (2 ^ k) ltac:(lia)). pose proof (Z.mod_pos_bound (a + 2 ^ k - 1) (2 ^ k) ltac:(lia)). lia.
Qed.

Section Aligned.
Context {R : Type} (real_malloc : Z -> R -> Z * R) (real_free : Z -> R -> R).

(** C23: Aligned allocation, once the runtime is up: unless the allocator has no
    memory, it returns memory with the alignment asked for, inside the
    allocator's and apart from everything allocated, and deleting it finds the
    block it was cut from and leaves the heap as it was. *)
Theorem aligned_new_delete lo hi s h r cpu cpu' size k :
  refines lo hi s h -> 0 < size -> 0 <= k < 64 -> size_ok (size + 8 + 2 ^ k - 1) ->
  (exists s0, allocate cpu (size + 8 + 2 ^ k - 1) s = Ok (0, s0) /\
    MemHook.new_aligned real_malloc true cpu size (2 ^ k) s r = Fault Undefined) \/
  exists a s1, MemHook.new_aligned real_malloc true cpu size (2 ^ k) s r = Ok (a, s1, r) /\
    a mod 2 ^ k = 0 /\ lo <= a /\ a + size <= hi /\
    (forall q d, h !! q = Some d -> a + size <= q \/ q + Z.of_nat (length d) <= a) /\
    exists s2, MemHook.delete_aligned real_free true cpu' a s1 r = Ok (s2, r) /\ refines lo hi s2 h.
Proof.
  intros Hs H0 Hk Hok. pose proof (Z.pow_pos_nonneg 2 k ltac:(lia) ltac:(lia)) as Hpos. pose proof (proj1 Hok) as Hsz.
  unfold MemHook.new_aligned. rewrite (wrap_small 64 (size + 8)) by lia. rewrite (wrap_small 64 (size + 8 + 2 ^ k - 1)) by lia.
  set (n := size + 8 + 2 ^ k - 1) in *. unfold MemHook.new.
  destruct (allocate_refines lo hi s h Hs cpu n Hok) as (ret & s0 & h0 & He & Hstep & Hs0). cbn [exec] in He. rewrite He.
  cbn [mbind outcome_bind].
  destruct Hstep as [[-> ->]|(d & Hlen & Hnew & ->)]; [left; by exists s0|right].
  destruct Hnew as (_ & Hlo & Hhi & Hnone & Hapart).
  assert (0 < lo /\ hi < 2 ^ 64) as [Hlo0 Hhi64].
  { destruct Hs as (<- & <- & g & Hi & _). pose proof (v_range _ _ Hi). lia. }
  destruct (Z.eqb_spec ret 0) as [|_]; [lia|]. cbn [require mbind outcome_bind negb].
  destruct (round_up_spec (ret + 8) k Hk) as [Hal Hin]; [lia|lia|]. set (a := Z.land _ _) in *.
  destruct (write_refines lo hi s0 (<[ret := d]> h) Hs0 ret (Z.to_nat (a - 8 - ret)) (to_le 8 ret) d) as (? & s1 & h1 & He1 & Hstep1 & Hs1);
    [apply lookup_insert_eq|rewrite to_le_length; lia|].
  cbn [exec] in He1. injection He1 as <- <-. replace (ret + Z.of_nat (Z.to_nat (a - 8 - ret))) with (a - 8) in * by lia.
  eexists a, _. split; [done|]. split; [done|]. split; [lia|]. split; [lia|].
  split; [intros q d' Hq; destruct (Hapart q d' Hq); lia|].
  unfold MemHook.delete_aligned, MemHook.delete. destruct (Z.eqb_spec a 0) as [|_]; [lia|]. cbn [require mbind outcome_bind negb].
  change (mem (s0 <| mem ::= store64 (a - 8) ret |>)) with (store64 (a - 8) ret (mem s0)).
  rewrite load_store64 by lia. unfold if_own. destruct Hs0 as (Hst & Hen & _).
  change (start_ (s0 <| mem ::= store64 (a - 8) ret |>)) with (start_ s0). change (end_ (s0 <| mem ::= store64 (a - 8) ret |>)) with (end_ s0).
  rewrite Hst, Hen, (proj2 (Z.leb_le _ _)), (proj2 (Z.ltb_lt _ _)) by lia. cbn [andb].
  destruct Hstep1 as (d1 & _ & ->).
  destruct (free_refines _ _ _ _ Hs1 cpu' ret) as (? & s2 & h2 & He2 & Hstep2 & Hs2).
  { right. rewrite lookup_insert_eq. done. }
  cbn [exec] in He2. apply bind_Ok in He2 as (s2' & Hfree & [= <- <-]). exists s2'.
  assert (free cpu' ret (s0 <| mem ::= store64 (a - 8) ret |>) = Ok s2') as -> by exact Hfree. split; [done|].
  cbn [heap_step] in Hstep2. rewrite Hstep2 in Hs2. by rewrite insert_insert_eq, delete_insert_id in Hs2.
Qed.
End Aligned.

Lemma aligned_new_delete_witness :
  exists a s1, MemHook.new_aligned (fun _ (r : unit) => (0, r)) true 0 100 (2 ^ 8) (init 4096 65536 ∅) tt = Ok (a, s1, tt) /\ a mod 2 ^ 8 = 0.
Proof.
  destruct (aligned_new_delete (fun _ (r : unit) => (0, r)) (fun _ r => r) 4096 (4096 + 65536) (init 4096 65536 ∅) ∅ tt 0 0 100 8)
    as [(s0 & Ha & _)|(a & s1 & Hn & Hal & _)].
  - apply refines_init; [lia|reflexivity|lia|reflexivity].
  - lia.
  - lia.
  - split; [lia|left; reflexivity].
  - exfalso. assert (fst <$> allocate 0 (100 + 8 + 2 ^ 8 - 1) (init 4096 65536 ∅) = Ok 0) as E by (rewrite Ha; reflexivity).
    vm_compute in E. discriminate E.
  - exists a, s1. split; [exact Hn|exact Hal].
Defined.
