(* ===== verification/Io.v ===== *)
(** * Full transfers

    [src/sandook/base/io.h] and [io.cc]: a read or write of the operating
    system, or of a connection, may transfer less than it was asked to. These
    functions repeat it until everything is transferred. The calls are
    interfaces ([PosixFile], [VectorIO]) with their documented behaviour as
    laws; the loops have fuel, and one unit per byte is always enough. *)

From S2P Require Import Prelude BaseTypes.

Local Open Scope Z_scope.

(** ** Files *)

(** [read], [write] and [lseek] on a file descriptor: the result, [-1] on an
    error, and the new state of the open file; [errno] is the code of the last
    error. *)
Class PosixFile (F : Type) := {
  posix_read : Z -> F -> Z * list Z * F;
  posix_write : list Z -> F -> Z * F;
  posix_lseek : Z -> F -> Z * F;
  posix_errno : F -> Z;
}.

Section Full.
Context {F : Type} `{!PosixFile F}.

(** [n] bytes are in [buf] already. *)
Fixpoint read_loop (fuel : nat) (size : Z) (buf : list Z) (f : F) : outcome (Status (list Z) * F) :=
  let n := Z.of_nat (length buf) in
  if n <? size then
    match fuel with
    | O => Fault NoProgress
    | S fuel =>
        let '(ret, data, f) := posix_read (size - n) f in
        if ret =? 0 then Ok (MakeError EINVAL, f)
        else if ret =? -1 then Ok (MakeError (posix_errno f), f)
        else read_loop fuel size (buf ++ data) f
    end
  else if negb (n =? size) then Ok (MakeError EINVAL, f)
  else Ok (Value buf, f).

Definition ReadFull (fuel : nat) (size : Z) (f : F) : outcome (Status (list Z) * F) := read_loop fuel size [] f.

(** The bytes still to write. *)
Fixpoint write_loop (fuel : nat) (rest : list Z) (f : F) : outcome (Status unit * F) :=
  match rest with
  | [] => Ok (Value tt, f)
  | _ =>
      match fuel with
      | O => Fault NoProgress
      | S fuel =>
          let '(ret, f) := posix_write rest f in
          if ret =? 0 then Ok (MakeError EINVAL, f)
          else if ret =? -1 then Ok (MakeError (posix_errno f), f)
          else write_loop fuel (drop (Z.to_nat ret) rest) f
      end
  end.

Definition WriteFull (fuel : nat) (buf : list Z) (f : F) : outcome (Status unit * F) := write_loop fuel buf f.
End Full.

(** An open file: its bytes and the offset the next call starts at. *)
Class PosixLaws (F : Type) `{!PosixFile F} := {
  file_offset : F -> Z;
  file_byte : F -> Z -> Z;
  read_law n f ret data f' :
    posix_read n f = (ret, data, f') -> 0 < n ->
    -1 <= ret <= n /\ (forall a, file_byte f' a = file_byte f a) /\
    (0 <= ret -> data = map (file_byte f) (zrange (file_offset f) (Z.to_nat ret)) /\ file_offset f' = file_offset f + ret);
  write_law buf f ret f' :
    posix_write buf f = (ret, f') ->
    -1 <= ret <= Z.of_nat (length buf) /\ (ret = -1 -> forall a, file_byte f' a = file_byte f a) /\
    (0 <= ret -> file_offset f' = file_offset f + ret /\
       forall a, file_byte f' a =
         if decide (file_offset f <= a < file_offset f + ret)
         then default 0 (buf !! Z.to_nat (a - file_offset f)) else file_byte f a);
  lseek_law off f ret f' :
    posix_lseek off f = (ret, f') ->
    (forall a, file_byte f' a = file_byte f a) /\ (ret <> -1 -> file_offset f' = off);
}.

Section FullLaws.
Context {F : Type} `{!PosixFile F, !PosixLaws F}.

Lemma read_loop_spec fuel size buf f :
  Z.of_nat (length buf) <= size <= Z.of_nat (length buf) + Z.of_nat fuel ->
  exists r f', read_loop fuel size buf f = Ok (r, f') /\ (forall a, file_byte f' a = file_byte f a) /\
    forall data, r = Value data ->
      data = buf ++ map (file_byte f) (zrange (file_offset f) (Z.to_nat (size - Z.of_nat (length buf)))).
Proof.
  revert buf f. induction fuel as [|fuel IH]; intros buf f Hs; simpl.
  - rewrite (proj2 (Z.ltb_ge _ _)) by lia. rewrite (proj2 (Z.eqb_eq _ _)) by lia. simpl. eexists _, _. split; [done|]. split; [done|].
    intros data [= <-]. replace (size - _) with 0 by lia. simpl. by rewrite app_nil_r.
  - destruct (Z.ltb_spec (Z.of_nat (length buf)) size) as [Hlt|Hge].
    + destruct (posix_read _ f) as [[ret d] f1] eqn:Hr. apply read_law in Hr as (Hret & Hb & Hok); [|lia].
      destruct (Z.eqb_spec ret 0); [eexists _, _; split_and!; done|].
      destruct (Z.eqb_spec ret (-1)); [eexists _, _; split_and!; done|].
      destruct (Hok ltac:(lia)) as [-> Hoff]. destruct (IH (buf ++ map (file_byte f) (zrange (file_offset f) (Z.to_nat ret))) f1) as (r & f' & Hrun & Hb' & Hv).
      { rewrite length_app, length_map, zrange_length. lia. }
      rewrite Hrun. eexists _, _. split; [done|]. split; [intros a; by rewrite Hb', Hb|]. intros data Hd. rewrite (Hv data Hd).
      rewrite length_app, length_map, zrange_length, <- app_assoc. f_equal.
      rewrite (map_ext (file_byte f1) (file_byte f)) by done. rewrite <- map_app. f_equal. rewrite Hoff.
      replace (Z.to_nat (size - Z.of_nat (length buf))) with (Z.to_nat ret + Z.to_nat (size - Z.of_nat (length buf) - ret))%nat by lia.
      rewrite zrange_app. do 2 f_equal; lia.
    + rewrite (proj2 (Z.eqb_eq _ _)) by lia. simpl. eexists _, _. split; [done|]. split; [done|].
      intros data [= <-]. replace (size - _) with 0 by lia. simpl. by rewrite app_nil_r.
Qed.

(** A full read returns, and when it succeeds it has read exactly the [size]
    bytes from the offset the file was at; the file is unchanged. *)
Lemma ReadFull_spec fuel size f :
  0 <= size <= Z.of_nat fuel ->
  exists r f', ReadFull fuel size f = Ok (r, f') /\ (forall a, file_byte f' a = file_byte f a) /\
    forall data, r = Value data -> data = map (file_byte f) (zrange (file_offset f) (Z.to_nat size)).
Proof.
  intros Hs. destruct (read_loop_spec fuel size [] f ltac:(simpl; lia)) as (r & f' & Hrun & Hb & Hv).
  exists r, f'. split; [done|]. split; [done|]. intros data Hd. rewrite (Hv data Hd). simpl. by rewrite Z.sub_0_r.
Qed.

Lemma write_loop_spec fuel buf f :
  Z.of_nat (length buf) <= Z.of_nat fuel ->
  exists r f', write_loop fuel buf f = Ok (r, f') /\
    (forall a, ~ file_offset f <= a < file_offset f + Z.of_nat (length buf) -> file_byte f' a = file_byte f a) /\
    (r = Value tt -> file_offset f' = file_offset f + Z.of_nat (length buf) /\
       forall a, file_offset f <= a < file_offset f + Z.of_nat (length buf) ->
         file_byte f' a = default 0 (buf !! Z.to_nat (a - file_offset f))).
Proof.
  revert buf f. induction fuel as [|fuel IH]; intros buf f Hs.
  - destruct buf; [|simpl in Hs; lia]. eexists _, _. split; [done|]. split; [done|]. simpl. split; lia.
  - destruct buf as [|b buf']; [eexists _, _; split; [done|]; split; [done|]; simpl; split; lia|].
    set (buf := b :: buf') in *. cbn [write_loop]. change (b :: buf') with buf.
    destruct (posix_write buf f) as [ret f1] eqn:Hw. apply write_law in Hw as (Hret & Herr & Hok).
    destruct (Z.eqb_spec ret 0) as [->|Hnz].
    { eexists _, _. split; [done|]. split; [|done]. intros a Ha. destruct (Hok ltac:(lia)) as [_ Hb]. rewrite Hb.
      by rewrite decide_False by lia. }
    destruct (Z.eqb_spec ret (-1)) as [->|Hne]; [eexists _, _; split; [done|]; split; [auto|done]|].
    destruct (Hok ltac:(lia)) as [Hoff Hb].
    destruct (IH (drop (Z.to_nat ret) buf) f1) as (r & f' & Hrun & Hout & Hin); [rewrite length_drop; lia|].
    rewrite Hrun. rewrite length_drop, Hoff in *. eexists _, _. split; [done|]. split.
    + intros a Ha. rewrite Hout, Hb by lia. by rewrite decide_False by lia.
    + intros Hr. destruct (Hin Hr) as [Hend Hdata]. split; [lia|]. intros a Ha. destruct (decide (file_offset f + ret <= a)).
      * rewrite Hdata by lia. rewrite lookup_drop. do 2 f_equal. lia.
      * rewrite Hout, Hb by lia. by rewrite decide_True by lia.
Qed.

(** A full write returns; when it succeeds the bytes from the offset on are
    those given and the offset is after them, and in every case no other byte of the file changes. *)
Lemma WriteFull_spec fuel buf f :
  Z.of_nat (length buf) <= Z.of_nat fuel ->
  exists r f', WriteFull fuel buf f = Ok (r, f') /\
    (forall a, ~ file_offset f <= a < file_offset f + Z.of_nat (length buf) -> file_byte f' a = file_byte f a) /\
    (r = Value tt -> file_offset f' = file_offset f + Z.of_nat (length buf) /\
       forall a, file_offset f <= a < file_offset f + Z.of_nat (length buf) ->
         file_byte f' a = default 0 (buf !! Z.to_nat (a - file_offset f))).
Proof. apply write_loop_spec. Qed.
End FullLaws.

(** ** Vectors *)

Module iovec.
Record t := mk { iov_base : Z; iov_len : Z }.
End iovec.
Import iovec.

(** The bytes a vector refers to, in a memory. *)
Definition iov_bytes (mem : Z -> Z) (v : iovec.t) : list Z := map mem (zrange (iov_base v) (Z.to_nat (iov_len v))).
Definition iovs_bytes (mem : Z -> Z) (iov : list iovec.t) : list Z := concat (map (iov_bytes mem) iov).

Definition SumIOV (iov : list iovec.t) : Z := fold_left (fun len e => u64 (len + iov_len e)) iov 0.

(** The vectors that remain after [n] bytes. *)
Fixpoint PullIOV (iov : list iovec.t) (n : Z) : outcome (list iovec.t) :=
  match iov with
  | [] => require (n =? 0) BugOn;; Ok []
  | e :: rest =>
      if n <? iov_len e then Ok (iovec.mk (iov_base e + n) (iov_len e - n) :: rest)
      else PullIOV rest (n - iov_len e)
  end.

Section DoFull.
Context {C : Type} (transfer : list iovec.t -> C -> outcome (Status Z * C)).

(** The loop after a partial transfer of [ret] bytes. *)
Fixpoint transfer_rest (fuel : nat) (s : list iovec.t) (ret : Z) (io : C) : outcome (Status unit * C) :=
  s ← PullIOV s ret;
  match s with
  | [] => Ok (Value tt, io)
  | _ =>
      match fuel with
      | O => Fault NoProgress
      | S fuel =>
          r ← transfer s io;
          match r with
          | (MakeError c, io) => Ok (MakeError c, io)
          | (Value ret, io) => transfer_rest fuel s ret io
          end
      end
  end.

Definition DoFull (fuel : nat) (iov : list iovec.t) (io : C) : outcome (Status unit * C) :=
  r ← transfer iov io;
  match r with
  | (MakeError c, io) => Ok (MakeError c, io)
  | (Value ret, io) => if ret =? SumIOV iov then Ok (Value tt, io) else transfer_rest fuel iov ret io
  end.
End DoFull.

(** A connection to write vectors to: [Writev] sends some of the bytes and
    returns how many, at least one unless there is nothing to send. *)
Class VectorWriter (C : Type) := { Writev : (Z -> Z) -> list iovec.t -> C -> outcome (Status Z * C) }.
Class VectorWriterLaws (C : Type) `{!VectorWriter C} := {
  sent : C -> list Z;
  Writev_returns mem iov io : exists r io', Writev mem iov io = Ok (r, io');
  Writev_law mem iov io n io' :
    Writev mem iov io = Ok (Value n, io') ->
    0 <= n <= Z.of_nat (length (iovs_bytes mem iov)) /\ (iovs_bytes mem iov <> [] -> 0 < n) /\
    sent io' = sent io ++ take (Z.to_nat n) (iovs_bytes mem iov);
}.

Definition WritevFull {C} `{!VectorWriter C} (fuel : nat) (mem : Z -> Z) (iov : list iovec.t) (io : C)
    : outcome (Status unit * C) := DoFull (Writev mem) fuel iov io.

Section VectorLaws.
Context {C : Type} `{!VectorWriter C, !VectorWriterLaws C} (mem : Z -> Z).

Definition valid_iov (iov : list iovec.t) : Prop := Forall (fun v => 0 <= iov_len v) iov.

Lemma iov_bytes_length v : 0 <= iov_len v -> Z.of_nat (length (iov_bytes mem v)) = iov_len v.
Proof. intros H. unfold iov_bytes. rewrite length_map, zrange_length. lia. Qed.

Lemma iovs_bytes_cons v iov : iovs_bytes mem (v :: iov) = iov_bytes mem v ++ iovs_bytes mem iov.
Proof. done. Qed.

Lemma SumIOV_bytes iov :
  valid_iov iov -> Z.of_nat (length (iovs_bytes mem iov)) < 2 ^ 64 -> SumIOV iov = Z.of_nat (length (iovs_bytes mem iov)).
Proof.
  unfold SumIOV. intros Hv. assert (forall acc, 0 <= acc -> acc + Z.of_nat (length (iovs_bytes mem iov)) < 2 ^ 64 ->
    fold_left (fun len e => u64 (len + iov_len e)) iov acc = acc + Z.of_nat (length (iovs_bytes mem iov))) as H.
  { induction Hv as [|v iov Hl Hv IH]; intros acc Ha Hs; cbn [fold_left]; [simpl; lia|].
    pose proof (iov_bytes_length v Hl). rewrite iovs_bytes_cons, length_app in Hs |- *.
    rewrite wrap_small, IH by (rewrite ?wrap_small; lia). lia. }
  intros Hs. rewrite H; lia.
Qed.

Lemma iov_bytes_drop v n :
  0 <= n <= iov_len v -> iov_bytes mem (iovec.mk (iov_base v + n) (iov_len v - n)) = drop (Z.to_nat n) (iov_bytes mem v).
Proof.
  intros Hn. unfold iov_bytes. cbn [iov_base iov_len].
  replace (Z.to_nat (iov_len v)) with (Z.to_nat n + Z.to_nat (iov_len v - n))%nat by lia.
  rewrite zrange_app, map_app, drop_app_length' by (rewrite length_map, zrange_length; done).
  do 2 f_equal. lia.
Qed.

Lemma PullIOV_spec iov n :
  valid_iov iov -> 0 <= n <= Z.of_nat (length (iovs_bytes mem iov)) ->
  exists s, PullIOV iov n = Ok s /\ valid_iov s /\ iovs_bytes mem s = drop (Z.to_nat n) (iovs_bytes mem iov) /\
    (s <> [] -> iovs_bytes mem s <> []).
Proof.
  intros Hv. revert n. induction Hv as [|v iov Hl Hv IH]; intros n Hn; cbn [PullIOV].
  { simpl in Hn. replace n with 0 by lia. exists []. split_and!; [done|constructor|done|done]. }
  pose proof (iov_bytes_length v Hl) as Hlen. rewrite iovs_bytes_cons in *. rewrite length_app in Hn. destruct (Z.ltb_spec n (iov_len v)) as [Hlt|Hge].
  - eexists. split; [done|]. split; [constructor; [simpl; lia|done]|]. rewrite iovs_bytes_cons, iov_bytes_drop by lia. split.
    + rewrite drop_app_le by lia. done.
    + intros _ Hnil. apply (f_equal (@length Z)) in Hnil. rewrite length_app, length_drop in Hnil. simpl in Hnil. lia.
  - destruct (IH (n - iov_len v)) as (s & -> & Hvs & Hb & Hne); [lia|]. exists s. split; [done|]. split; [done|].
    split; [|done]. rewrite Hb, drop_app_ge by lia. f_equal. lia.
Qed.

(** After a partial transfer the rest is sent, each byte once and in order. *)
Lemma transfer_rest_spec fuel s ret io :
  valid_iov s -> 0 <= ret <= Z.of_nat (length (iovs_bytes mem s)) ->
  Z.of_nat (length (iovs_bytes mem s)) - ret <= Z.of_nat fuel ->
  exists r io', transfer_rest (Writev mem) fuel s ret io = Ok (r, io') /\
    (r = Value tt -> sent io' = sent io ++ drop (Z.to_nat ret) (iovs_bytes mem s)).
Proof.
  revert s ret io. induction fuel as [|fuel IH]; intros s ret io Hv Hret Hf; simpl;
    destruct (PullIOV_spec s ret Hv Hret) as (s1 & -> & Hv1 & Hb & Hne); cbn [mbind outcome_bind];
    rewrite <- Hb; destruct s1 as [|e s1']; try (eexists _, _; split; [done|]; intros _; by rewrite app_nil_r).
  - exfalso. apply Hne; [done|]. apply length_zero_iff_nil. rewrite Hb, length_drop. lia.
  - set (s1 := e :: s1') in *. destruct (Writev_returns mem s1 io) as (r & io1 & Hw). rewrite Hw. cbn [mbind outcome_bind].
    destruct r as [n|c]; [|by eexists _, _]. apply Writev_law in Hw as (Hn & Hpos & Hsent).
    destruct (IH s1 n io1 Hv1 Hn) as (r & io' & -> & Hr).
    { specialize (Hpos (Hne ltac:(done))). rewrite Hb, length_drop in *. lia. }
    eexists _, _. split; [done|]. intros ->. rewrite (Hr eq_refl), Hsent, <- app_assoc. by rewrite take_drop.
Qed.

(** A vector write returns, and when it succeeds exactly the bytes of all the
    vectors, in order, have been sent, however the connection cut them up. *)
Theorem WritevFull_spec fuel iov io :
  valid_iov iov -> Z.of_nat (length (iovs_bytes mem iov)) < 2 ^ 64 -> Z.of_nat (length (iovs_bytes mem iov)) <= Z.of_nat fuel ->
  exists r io', WritevFull fuel mem iov io = Ok (r, io') /\
    (r = Value tt -> sent io' = sent io ++ iovs_bytes mem iov).
Proof.
  intros Hv Hs Hf. unfold WritevFull, DoFull. destruct (Writev_returns mem iov io) as (r & io1 & Hw). rewrite Hw. cbn [mbind outcome_bind].
  destruct r as [n|c]; [|by eexists _, _]. apply Writev_law in Hw as (Hn & _ & Hsent).
  rewrite SumIOV_bytes by done. destruct (Z.eqb_spec n (Z.of_nat (length (iovs_bytes mem iov)))) as [->|Hne].
  - eexists _, _. split; [done|]. intros _. by rewrite Hsent, Nat2Z.id, take_ge.
  - destruct (transfer_rest_spec fuel iov n io1 Hv Hn) as (r & io' & -> & Hr); [lia|]. eexists _, _. split; [done|].
    intros ->. rewrite (Hr eq_refl), Hsent, <- app_assoc. by rewrite take_drop.
Qed.
End VectorLaws.

(** A connection that sends three bytes at a time. *)
Module Trickle.
Definition writev (mem : Z -> Z) (iov : list iovec.t) (io : list Z) : outcome (Status Z * list Z) :=
  let bytes := take 3 (iovs_bytes mem iov) in Ok (Value (Z.of_nat (length bytes)), io ++ bytes).
#[global] Instance writer : VectorWriter (list Z) := {| Writev := writev |}.
#[global] Instance writer_laws : VectorWriterLaws (list Z).
Proof.
  refine {| sent := fun io => io |}; intros mem iov io; [by eexists _, _|]. intros n io' [= <- <-].
  rewrite length_take. split; [lia|]. split.
  - intros Hne. destruct (iovs_bytes mem iov); [done|]. simpl. lia.
  - rewrite Nat2Z.id, Nat.min_comm, <- take_take, (take_ge (take 3 _)) by (rewrite length_take; lia). done.
Defined.
End Trickle.

Lemma WritevFull_spec_witness :
  let iov := [iovec.mk 100 4; iovec.mk 200 0; iovec.mk 300 5] in
  let mem := fun a => a mod 256 in
  exists r io', WritevFull (C := list Z) 9 mem iov [] = Ok (r, io') /\ (r = Value tt -> sent io' = sent [] ++ iovs_bytes mem iov).
Proof.
  intros iov mem. apply (WritevFull_spec mem 9 iov []); [repeat constructor; simpl; lia|vm_compute; reflexivity|].
  apply Z.leb_le. vm_compute. reflexivity.
Defined.
