(* ===== verification/Threads.v ===== *)
(** * Joining and detaching threads

    [src/sandook/bindings/thread.cc]: a thread and the owner of its [Thread]
    object meet in the thread's [join_data], which the thread destroys when it
    ends. The two run in any order, one access to the data at a time. The state
    space is finite: what holds in every reachable state is found out by visiting
    them all, with a search that is proved to miss none. *)

From S2P Require Import Prelude.

Local Open Scope Z_scope.

(** ** Visiting every state *)

Section Search.
Context {S E : Type} `{EqDecision S} (step : S -> E -> outcome S) (events : list E).

Definition successors (s : S) : list S :=
  omap (fun e => match step s e with Ok s' => Some s' | Fault _ => None end) events.

Fixpoint visit (fuel : nat) (todo seen : list S) : list S :=
  match fuel, todo with
  | O, _ | _, [] => seen
  | Datatypes.S fuel, s :: todo =>
      if bool_decide (s ∈ seen) then visit fuel todo seen else visit fuel (successors s ++ todo) (s :: seen)
  end.

(** Nothing leads out of the states of a list. *)
Definition closed (l : list S) : bool := forallb (fun s => forallb (fun s' => bool_decide (s' ∈ l)) (successors s)) l.

Lemma closed_run l s es s' :
  closed l = true -> (forall e, e ∈ events) -> s ∈ l -> ofold step s es = Ok s' -> s' ∈ l.
Proof.
  intros Hc He. revert s. induction es as [|e es IH]; intros s Hs Hrun; simpl in Hrun; [by injection Hrun as <-|].
  apply bind_Ok in Hrun as (s1 & H1 & Hrun). apply (IH s1); [|done].
  unfold closed in Hc. rewrite forallb_forall in Hc. specialize (Hc s (proj1 (list_elem_of_In _ _) Hs)).
  rewrite forallb_forall in Hc. specialize (Hc s1). apply bool_decide_eq_true in Hc; [done|].
  apply list_elem_of_In. apply list_elem_of_omap. exists e. split; [apply He|by rewrite H1].
Qed.

(** A number that every step makes smaller bounds the length of a run. *)
Definition decreases (weight : S -> nat) (l : list S) : bool :=
  forallb (fun s => forallb (fun s' => weight s' <? weight s)%nat (successors s)) l.

Lemma decreasing_run weight l s es s' :
  closed l = true -> decreases weight l = true -> (forall e, e ∈ events) -> s ∈ l -> ofold step s es = Ok s' ->
  (weight s' + length es <= weight s)%nat.
Proof.
  intros Hc Hd He. revert s. induction es as [|e es IH]; intros s Hs Hrun; simpl in Hrun; [injection Hrun as <-; simpl; lia|].
  apply bind_Ok in Hrun as (s1 & H1 & Hrun).
  assert (s1 ∈ l) as Hs1 by (eapply (closed_run l s [e]); [done..|]; simpl; by rewrite H1).
  specialize (IH s1 Hs1 Hrun). unfold decreases in Hd. rewrite forallb_forall in Hd.
  specialize (Hd s (proj1 (list_elem_of_In _ _) Hs)). rewrite forallb_forall in Hd. specialize (Hd s1).
  apply Nat.ltb_lt in Hd; [simpl; lia|]. apply list_elem_of_In, list_elem_of_omap. exists e. split; [apply He|by rewrite H1].
Qed.
End Search.

(** ** The protocol *)

Module Thread.

Inductive party := Owner | Child.
#[global] Instance party_eq_dec : EqDecision party.
Proof. solve_decision. Defined.

(** [join_data]; [held] and [waker] are who holds the lock and who is armed. *)
Record join_data := JoinData { held : option party; waker : option party; done : bool; alive : bool }.
#[global] Instance join_data_settable : Settable join_data := settable! JoinData <held; waker; done; alive>.
#[global] Instance join_data_eq_dec : EqDecision join_data.
Proof. solve_decision. Defined.

(** Where the child is in [ThreadTrampolineWithJoin]. *)
Inductive child_at := CRun | CLock | CTest | CWake | CUnlock | CArm | CStore | CPark | CParked | CDestroy | CEnd.
(** Where the owner is in [Join] and in [Detach]. *)
Inductive owner_at :=
| JLock | JTest | JUnlock | JWake | JArm | JStore | JPark | JParked
| DLock | DTest | DWake | DUnlock | DStore | OEnd.
#[global] Instance child_at_eq_dec : EqDecision child_at.
Proof. solve_decision. Defined.
#[global] Instance owner_at_eq_dec : EqDecision owner_at.
Proof. solve_decision. Defined.

Record t := mk { data : join_data; child : child_at; owner : owner_at; ran : bool }.
#[global] Instance settable : Settable t := settable! mk <data; child; owner; ran>.
#[global] Instance t_eq_dec : EqDecision t.
Proof. solve_decision. Defined.

Definition start (o : owner_at) : t := mk (JoinData None None false true) CRun o false.

(** Every access to the data of a thread that is gone is undefined. *)
Definition access (s : t) : outcome join_data := require (alive (data s)) Undefined;; Ok (data s).

Definition lock (p : party) (s : t) : outcome t :=
  d ← access s;
  require (bool_decide (held d = None)) NoProgress;;
  Ok (s <| data := d <| held := Some p |> |>).
Definition unlock (s : t) : outcome t := d ← access s; Ok (s <| data := d <| held := None |> |>).
Definition arm (p : party) (s : t) : outcome t := d ← access s; Ok (s <| data := d <| waker := Some p |> |>).
Definition store_done (s : t) : outcome t := d ← access s; Ok (s <| data := d <| done := true |> |>).
Definition load_done (s : t) : outcome bool := d ← access s; Ok (done d).

(** [ThreadWaker::Wake]: nothing when nobody is armed; who is armed has to be
    parked. *)
Definition wake (s : t) : outcome t :=
  d ← access s;
  let s := s <| data := d <| waker := None |> |> in
  match waker d with
  | None => Ok s
  | Some Owner => require (bool_decide (owner s = JParked)) BugOn;; Ok (s <| owner := OEnd |>)
  | Some Child => require (bool_decide (child s = CParked)) BugOn;; Ok (s <| child := CDestroy |>)
  end.

(** [std::destroy_at]: the lock must be free and nobody armed. *)
Definition destroy (s : t) : outcome t :=
  d ← access s;
  require (bool_decide (held d = None)) BugOn;;
  require (bool_decide (waker d = None)) BugOn;;
  Ok (s <| data := d <| alive := false |> |>).

Definition to_child (c : child_at) (m : outcome t) : outcome t := s ← m; Ok (s <| child := c |>).
Definition to_owner (o : owner_at) (m : outcome t) : outcome t := s ← m; Ok (s <| owner := o |>).

(** [ThreadTrampolineWithJoin] *)
Definition child_step (s : t) : outcome t :=
  match child s with
  | CRun => Ok (s <| child := CLock |> <| ran := true |>)
  | CLock => to_child CTest (lock Child s)
  | CTest => b ← load_done s; Ok (s <| child := if b : bool then CWake else CArm |>)
  | CWake => to_child CUnlock (wake s)
  | CUnlock => to_child CDestroy (unlock s)
  | CArm => to_child CStore (arm Child s)
  | CStore => to_child CPark (store_done s)
  | CPark => to_child CParked (unlock s)
  | CParked => Fault NoProgress
  | CDestroy => to_child CEnd (destroy s)
  | CEnd => Fault NoProgress
  end.

(** [Join] and [Detach]; in [Detach] the guard lets go of the lock last. *)
Definition owner_step (s : t) : outcome t :=
  match owner s with
  | JLock => to_owner JTest (lock Owner s)
  | JTest => b ← load_done s; Ok (s <| owner := if b : bool then JUnlock else JArm |>)
  | JUnlock => to_owner JWake (unlock s)
  | JWake => to_owner OEnd (wake s)
  | JArm => to_owner JStore (arm Owner s)
  | JStore => to_owner JPark (store_done s)
  | JPark => to_owner JParked (unlock s)
  | JParked => Fault NoProgress
  | DLock => to_owner DTest (lock Owner s)
  | DTest => b ← load_done s; Ok (s <| owner := if b : bool then DWake else DStore |>)
  | DWake => to_owner DUnlock (wake s)
  | DStore => to_owner DUnlock (store_done s)
  | DUnlock => to_owner OEnd (unlock s)
  | OEnd => Fault NoProgress
  end.

Definition step (s : t) (p : party) : outcome t := match p with Owner => owner_step s | Child => child_step s end.

Lemma parties p : p ∈ [Owner; Child].
Proof. destruct p; set_solver. Qed.

(** ** Joining *)

Definition join_states : list t := visit step [Owner; Child] 200 [start JLock] [].

Definition child_left (c : child_at) : nat :=
  match c with
  | CRun => 8 | CLock => 7 | CTest => 6 | CWake => 3 | CUnlock => 2 | CArm => 5 | CStore => 4 | CPark => 3 | CParked => 2
  | CDestroy => 1 | CEnd => 0
  end.
Definition owner_left (o : owner_at) : nat :=
  match o with
  | JLock => 7 | JTest => 6 | JUnlock => 3 | JWake => 2 | JArm => 5 | JStore => 4 | JPark => 3 | JParked => 1
  | DLock => 4 | DTest => 3 | DWake => 2 | DStore => 2 | DUnlock => 1 | OEnd => 0
  end.
Definition steps_left (s : t) : nat := child_left (child s) + owner_left (owner s).

Definition finished (s : t) : bool := bool_decide (owner s = OEnd /\ child s = CEnd /\ alive (data s) = false).
Definition can_step (s : t) (p : party) : bool := match step s p with Ok _ => true | Fault _ => false end.
Definition no_fault (s : t) (p : party) : bool :=
  match step s p with Ok _ | Fault NoProgress => true | Fault _ => false end.
Definition join_ok (s : t) : bool :=
  implb (bool_decide (owner s = OEnd)) (ran s) && no_fault s Owner && no_fault s Child &&
  (can_step s Owner || can_step s Child || finished s).

Lemma join_states_closed : closed step [Owner; Child] join_states = true.
Proof. vm_compute. reflexivity. Qed.
Lemma join_states_decrease : decreases step [Owner; Child] steps_left join_states = true.
Proof. vm_compute. reflexivity. Qed.
Lemma join_states_ok : forallb join_ok join_states = true.
Proof. vm_compute. reflexivity. Qed.
Lemma join_states_start : start JLock ∈ join_states.
Proof. apply (bool_decide_unpack _). vm_compute. exact I. Qed.

Lemma can_step_Ok s p : can_step s p = true -> exists s', step s p = Ok s'.
Proof. unfold can_step. destruct (step s p) as [s'|]; [by exists s'|done]. Qed.

(** C17: Joining a thread works out in whatever order the two run: nobody touches
    the data of a thread that is gone, no assertion fails, no wake-up is lost -
    within fifteen steps the two have nothing left to do, and until then one of
    them can move - [Join] returns only after the function of the thread has
    run, and in the end the data has been destroyed. *)
Theorem join_waits ps s :
  ofold step (start JLock) ps = Ok s ->
  (length ps <= 15)%nat /\
  (owner s = OEnd -> ran s = true) /\
  (forall p f, step s p = Fault f -> f = NoProgress) /\
  ((exists p s', step s p = Ok s') \/ finished s = true).
Proof.
  intros Hrun. pose proof (closed_run _ _ _ _ _ _ join_states_closed parties join_states_start Hrun) as Hin.
  pose proof (decreasing_run _ _ _ _ _ _ _ join_states_closed join_states_decrease parties join_states_start Hrun) as Hlen.
  split; [change (steps_left (start JLock)) with 15%nat in Hlen; lia|].
  pose proof join_states_ok as Hok. rewrite forallb_forall in Hok. specialize (Hok s (proj1 (list_elem_of_In _ _) Hin)).
  unfold join_ok, no_fault in Hok. rewrite !andb_true_iff, !orb_true_iff in Hok. destruct Hok as [[[Hran Ho] Hc] Hmove].
  split; [|split].
  - intros Hend. by rewrite (bool_decide_eq_true_2 _ Hend) in Hran.
  - intros [] f Hf; [unfold step in Ho|unfold step in Hc]; simpl in Hf; rewrite Hf in *; by destruct f.
  - destruct Hmove as [[Hm|Hm]|Hm]; [left; exists Owner|left; exists Child|by right]; by apply can_step_Ok.
Qed.

(** The thread ends first. *)
Lemma join_waits_witness :
  exists s, ofold step (start JLock) (replicate 6 Child ++ replicate 4 Owner ++ [Child]) = Ok s /\ finished s = true /\ ran s = true.
Proof.
  eexists. split; [vm_compute; reflexivity|]. split; [reflexivity|].
  apply (join_waits (replicate 6 Child ++ replicate 4 Owner ++ [Child])); vm_compute; reflexivity.
Defined.

(** ** Detaching *)

End Thread.
