(* ===== verification/Rpc.v ===== *)
(** * Remote procedure calls

    [src/sandook/rpc/rpc.cc] and [rpc.h]: a client's flow and the server at the
    other end of its connection, each with a thread that sends and one that
    receives. A critical section, a call on the connection or the return of a
    handler is one step; the threads take steps in any order. The connection is
    a reliable stream of bytes in each direction: [ReadFull] waits for all the
    bytes it is asked for, so that how the stream is cut does not matter.

    Every call gets the reply its own handler returned, once; the calls in
    flight stay within the credits; and no wake-up is lost: as long as the
    connection is up, the threads cannot stop before every call has returned. *)

From S2P Require Import Prelude BaseTypes Wire.

Local Open Scope Z_scope.

Module RPCHeader.
Record t := mk { demand : Z; len : Z; completion_data : Z }.
Definition layout : codec t :=
  struct (cmap (fun '(a, b, c) => mk a b c) (fun h => (demand h, len h, completion_data h)) (u32c ⊗ u64c ⊗ u64c)).
Definition valid (h : t) : Prop := 0 <= demand h < 2 ^ 32 /\ 0 <= len h < 2 ^ 64 /\ 0 <= completion_data h < 2 ^ 64.
End RPCHeader.

Definition CreateRPCHeader (demand len completion_data : Z) : RPCHeader.t := RPCHeader.mk demand len completion_data.
Definition kNumCredits : Z := 128.

Module RPC.

(** A request, or a reply, with the token that tells whose it is. *)
Record req_ctx := Req { payload : list Z; completion : Z }.

Definition size_bytes (l : list Z) : Z := Z.of_nat (length l).

(** What is between header and payload is not initialised. *)
Definition header_bytes (junk : nat -> Z) (h : RPCHeader.t) : list Z :=
  cwrite RPCHeader.layout 0 h (map junk (seq 0 (csize RPCHeader.layout))).

Definition frame (junk : nat -> Z) (demand : Z) (r : req_ctx) : list Z :=
  header_bytes junk (CreateRPCHeader demand (size_bytes (payload r)) (completion r)) ++ payload r.

(** [ReadFull] of a header and of [n] bytes: [None] when the bytes have not
    arrived. *)
Definition read_bytes (n : nat) (wire : list Z) : option (list Z * list Z) :=
  if (n <=? length wire)%nat then Some (take n wire, drop n wire) else None.
Definition read_header (wire : list Z) : option (RPCHeader.t * list Z) :=
  match read_bytes (csize RPCHeader.layout) wire with
  | Some (b, rest) => Some (cread RPCHeader.layout 0 b, rest)
  | None => None
  end.

(** ** The client's flow *)

(** A thread that sends: in its critical section or parked, writing what it has
    gathered, and at its end. A thread that receives: at a header, at the body
    that follows, and at its end. *)
Inductive sender := Waiting | Sending (reqs : list req_ctx) (demand : Z) | SenderEnd.
Inductive receiver := AtHeader | AtBody (hdr : RPCHeader.t) | ReceiverEnd.

Record flow := Flow {
  close_ : bool;
  parked : bool;
  sent_count_ : Z;
  recv_count_ : Z;
  credits_ : Z;
  reqs_ : list req_ctx;
  f_sender : sender;
  f_receiver : receiver;
}.
#[global] Instance flow_settable : Settable flow :=
  settable! Flow <close_; parked; sent_count_; recv_count_; credits_; reqs_; f_sender; f_receiver>.

Definition new_flow : flow := Flow false false 0 0 kNumCredits [] Waiting AtHeader.

Definition is_empty {A} (l : list A) : bool := match l with [] => true | _ => false end.

(** [wake_sender_.Wake()]: nothing unless the thread is parked. *)
Definition wake (f : flow) : flow := f <| parked := false |>.

Definition inflight (f : flow) : Z := u32 (sent_count_ f - recv_count_ f).

Definition RPCFlow_Call (src : list Z) (conn : Z) (f : flow) : flow :=
  let f := f <| reqs_ := reqs_ f ++ [Req src conn] |> in
  if inflight f <? credits_ f then wake f else f.

Definition RPCFlow_close (f : flow) : flow := wake (f <| close_ := true |>).

(** Requests up to the credit limit. *)
Fixpoint gather (credits inflight : Z) (queue : list req_ctx) : list req_ctx * list req_ctx * Z :=
  match queue with
  | [] => ([], [], inflight)
  | r :: queue' =>
      if inflight <? credits then
        let '(reqs, rest, inflight) := gather credits (u32 (inflight + 1)) queue' in (r :: reqs, rest, inflight)
      else ([], queue, inflight)
  end.

(** The critical section of [SendWorker]; the flag tells to send FIN. *)
Definition flow_gather (f : flow) : flow * bool :=
  let n := inflight f in
  if (is_empty (reqs_ f) || (credits_ f <=? n)) && negb (close_ f && is_empty (reqs_ f)) then (f <| parked := true |>, false)
  else
    let '(reqs, rest, demand) := gather (credits_ f) n (reqs_ f) in
    let f := f <| reqs_ := rest |> <| sent_count_ := u32 (sent_count_ f + Z.of_nat (length reqs)) |> in
    if close_ f && is_empty rest then (f <| f_sender := SenderEnd |>, true)
    else (f <| f_sender := Sending reqs demand |>, false).

(** The critical section of [ReceiveWorker]. *)
Definition flow_received (f : flow) : flow :=
  let f := f <| recv_count_ := u32 (recv_count_ f + 1) |> in
  if (inflight f <? credits_ f) && negb (is_empty (reqs_ f)) then wake f else f.

(** ** The server *)

Record server := Server {
  completions_ : list req_ctx;
  demand_ : Z;
  s_close_ : bool;
  s_parked : bool;
  s_sender : sender;
  s_receiver : receiver;
  handlers : list req_ctx;
}.
#[global] Instance server_settable : Settable server :=
  settable! Server <completions_; demand_; s_close_; s_parked; s_sender; s_receiver; handlers>.

Definition new_server : server := Server [] 0 false false Waiting AtHeader [].

Definition s_wake (s : server) : server := s <| s_parked := false |>.

Definition RPCServer_Return (buf : list Z) (completion_data : Z) (s : server) : server :=
  s_wake (s <| completions_ := completions_ s ++ [Req buf completion_data] |>).

(** [SendWorker] up to the construction of what it sends. The demand in the
    headers is read here, once: no client looks at it. *)
Definition server_gather (s : server) : server * bool :=
  if is_empty (completions_ s) && negb (s_close_ s) then (s <| s_parked := true |>, false)
  else
    let completions := completions_ s in
    let s := s <| completions_ := [] |> in
    if s_close_ s && is_empty completions then (s <| s_sender := SenderEnd |>, true)
    else (s <| s_sender := Sending completions (demand_ s) |>, false).

Definition server_closed (s : server) : server := s_wake (s <| s_close_ := true |> <| s_receiver := ReceiverEnd |>).

(** ** Both ends and the connection *)

(** [done] are the replies callers have been given; the logs of the calls made
    and of what the handlers returned are not part of the program. *)
Record sys := Sys {
  client : flow;
  srv : server;
  c2s : list Z;
  s2c : list Z;
  c_fin : bool;
  s_fin : bool;
  done : list req_ctx;
  calls : list req_ctx;
  handled : list (req_ctx * list Z);
}.
#[global] Instance sys_settable : Settable sys := settable! Sys <client; srv; c2s; s2c; c_fin; s_fin; done; calls; handled>.

Definition start : sys := Sys new_flow new_server [] [] false false [] [] [].

(** A read or a write of the connection can fail; a read also fails at the end
    of the stream. *)
Inductive event :=
| ECall (src : list Z) (conn : Z)
| EClose
| EClientGather
| EClientWrite (ok : bool)
| EClientRead (ok : bool)
| EServerRead (ok : bool)
| EHandler (i : nat) (reply : list Z)
| EServerGather
| EServerWrite (ok : bool).

Section Steps.
Context (junk : nat -> Z).

Definition frames (demand : Z) (reqs : list req_ctx) : list Z := concat (map (frame junk demand) reqs).

Definition client_read (s : sys) : outcome sys :=
  let f := client s in
  match f_receiver f with
  | AtHeader =>
      match read_header (s2c s) with
      | Some (hdr, rest) =>
          let f := flow_received f in
          let s := s <| s2c := rest |> in
          if RPCHeader.len hdr =? 0
          then Ok (s <| client := f |> <| done := done s ++ [Req [] (RPCHeader.completion_data hdr)] |>)
          else Ok (s <| client := f <| f_receiver := AtBody hdr |> |>)
      | None => Fault NoProgress
      end
  | AtBody hdr =>
      match read_bytes (Z.to_nat (RPCHeader.len hdr)) (s2c s) with
      | Some (buf, rest) =>
          Ok (s <| s2c := rest |> <| client := f <| f_receiver := AtHeader |> |>
                <| done := done s ++ [Req buf (RPCHeader.completion_data hdr)] |>)
      | None => Fault NoProgress
      end
  | ReceiverEnd => Fault NoProgress
  end.

Definition spawn (r : req_ctx) (v : server) : server := v <| handlers := handlers v ++ [r] |>.

Definition server_read (s : sys) : outcome sys :=
  let v := srv s in
  match s_receiver v with
  | AtHeader =>
      match read_header (c2s s) with
      | Some (hdr, rest) =>
          let v := v <| demand_ := RPCHeader.demand hdr |> in
          let s := s <| c2s := rest |> in
          if RPCHeader.len hdr =? 0 then Ok (s <| srv := spawn (Req [] (RPCHeader.completion_data hdr)) v |>)
          else Ok (s <| srv := v <| s_receiver := AtBody hdr |> |>)
      | None => Fault NoProgress
      end
  | AtBody hdr =>
      match read_bytes (Z.to_nat (RPCHeader.len hdr)) (c2s s) with
      | Some (buf, rest) =>
          Ok (s <| c2s := rest |> <| srv := spawn (Req buf (RPCHeader.completion_data hdr)) (v <| s_receiver := AtHeader |>) |>)
      | None => Fault NoProgress
      end
  | ReceiverEnd => Fault NoProgress
  end.

(** [Run] has joined its threads and the server is gone. *)
Definition server_gone (v : server) : bool :=
  match s_sender v, s_receiver v with SenderEnd, ReceiverEnd => true | _, _ => false end.

Definition is_end (r : receiver) : bool := match r with ReceiverEnd => true | _ => false end.

(** [NoProgress] when the thread cannot take the step. *)
Definition exec (s : sys) (e : event) : outcome sys :=
  let f := client s in
  let v := srv s in
  match e with
  | ECall src conn => Ok (s <| client := RPCFlow_Call src conn f |> <| calls := calls s ++ [Req src conn] |>)
  | EClose => Ok (s <| client := RPCFlow_close f |>)
  | EClientGather =>
      match f_sender f with
      | Waiting =>
          require (negb (parked f)) NoProgress;;
          let '(f, fin) := flow_gather f in
          Ok (s <| client := f |> <| c_fin := c_fin s || fin |>)
      | _ => Fault NoProgress
      end
  | EClientWrite ok =>
      match f_sender f with
      | Sending reqs demand =>
          if ok then Ok (s <| c2s := c2s s ++ frames demand reqs |> <| client := f <| f_sender := Waiting |> |>)
          else Ok (s <| client := f <| f_sender := SenderEnd |> |>)
      | _ => Fault NoProgress
      end
  | EClientRead ok =>
      if ok then client_read s
      else require (negb (is_end (f_receiver f))) NoProgress;; Ok (s <| client := f <| f_receiver := ReceiverEnd |> |>)
  | EServerRead ok =>
      if ok then server_read s
      else require (negb (is_end (s_receiver v))) NoProgress;; Ok (s <| srv := server_closed v |>)
  | EHandler i reply =>
      match handlers v !! i with
      | Some r =>
          require (negb (server_gone v)) Undefined;;
          Ok (s <| srv := RPCServer_Return reply (completion r) (v <| handlers := delete i (handlers v) |>) |>
                <| handled := handled s ++ [(r, reply)] |>)
      | None => Fault NoProgress
      end
  | EServerGather =>
      match s_sender v with
      | Waiting =>
          require (negb (s_parked v)) NoProgress;;
          let '(v, fin) := server_gather v in
          Ok (s <| srv := v |> <| s_fin := s_fin s || fin |>)
      | _ => Fault NoProgress
      end
  | EServerWrite ok =>
      match s_sender v with
      | Sending reqs demand =>
          if ok then Ok (s <| s2c := s2c s ++ frames demand reqs |> <| srv := v <| s_sender := Waiting |> |>)
          else Ok (s <| srv := v <| s_sender := SenderEnd |> |>)
      | _ => Fault NoProgress
      end
  end.

Definition run (s : sys) (es : list event) : outcome sys := ofold exec s es.
End Steps.

(** [RPCClient::Call] uses the flow of the core it runs on. *)
Definition RPCClient_Call (junk : nat -> Z) (cpu : nat) (args : list Z) (conn : Z) (flows : list sys) : outcome (list sys) :=
  s ← deref (flows !! cpu);
  s ← exec junk s (ECall args conn);
  Ok (<[cpu := s]> flows).

(** ** Framing *)

#[global] Instance rpc_header_laws : CodecLaws RPCHeader.layout RPCHeader.valid.
Proof.
  unfold RPCHeader.layout. eapply laws_weaken; [apply _|].
  intros [d l c] (Hd & Hl & Hc); simpl in *. split; [split; [split|]|done]; simpl; lia.
Qed.

Definition valid_req (r : req_ctx) : Prop := size_bytes (payload r) < 2 ^ 64 /\ 0 <= completion r < 2 ^ 64.

Section Framing.
Context (junk : nat -> Z).

Lemma header_bytes_length h : length (header_bytes junk h) = csize RPCHeader.layout.
Proof. unfold header_bytes. rewrite write_length, length_map. apply length_seq. Qed.

Lemma read_header_frame d r rest :
  0 <= d < 2 ^ 32 -> valid_req r ->
  read_header (frame junk d r ++ rest) = Some (CreateRPCHeader d (size_bytes (payload r)) (completion r), payload r ++ rest).
Proof.
  intros Hd [Hl Hc]. unfold read_header, read_bytes, frame. rewrite <-app_assoc.
  rewrite (proj2 (Nat.leb_le _ _)) by (rewrite length_app, header_bytes_length; lia).
  rewrite take_app_length', drop_app_length' by (by rewrite header_bytes_length).
  unfold header_bytes at 1. rewrite read_write; [done| |rewrite length_map, length_seq; lia].
  split; [done|split]; simpl; unfold size_bytes in *; lia.
Qed.

Lemma read_header_nil : read_header [] = None.
Proof. done. Qed.

Lemma read_bytes_app (p rest : list Z) n : n = length p -> read_bytes n (p ++ rest) = Some (p, rest).
Proof.
  intros ->. unfold read_bytes. rewrite (proj2 (Nat.leb_le _ _)) by (rewrite length_app; lia).
  by rewrite take_app_length, drop_app_length.
Qed.

Lemma size_bytes_0 (l : list Z) : size_bytes l = 0 -> l = [].
Proof. destruct l; unfold size_bytes; simpl; [done|lia]. Qed.
End Framing.

(** ** Where every request and every reply is *)

Definition sending (t : sender) : list req_ctx := match t with Sending l _ => l | _ => [] end.
Definition on_body (r : receiver) : Z := match r with AtBody _ => 1 | _ => 0 end.
Definition reply_of (h : req_ctx * list Z) : req_ctx := Req h.2 (completion h.1).

Section Books.
Context (junk : nat -> Z).

Definition encs (fs : list (Z * req_ctx)) : list Z := concat (map (fun '(d, r) => frame junk d r) fs).
Definition demands_ok (fs : list (Z * req_ctx)) : Prop := Forall (fun f => 0 <= f.1 < 2 ^ 32) fs.

(** The bytes on a wire, seen from where its reader is, are the messages [l]. *)
Definition wire_holds (w : list Z) (r : receiver) (l : list req_ctx) : Prop :=
  match r with
  | AtHeader => exists fs, w = encs fs /\ l = map snd fs /\ demands_ok fs
  | AtBody h => exists q fs, w = payload q ++ encs fs /\ l = q :: map snd fs /\ demands_ok fs /\
      RPCHeader.len h = size_bytes (payload q) /\ RPCHeader.completion_data h = completion q
  | ReceiverEnd => True
  end.

Lemma encs_app fs fs' : encs (fs ++ fs') = encs fs ++ encs fs'.
Proof. unfold encs. by rewrite map_app, concat_app. Qed.

Lemma frames_encs d reqs : frames junk d reqs = encs (map (pair d) reqs).
Proof. unfold frames, encs. by rewrite map_map. Qed.

Lemma wire_holds_app w r l d reqs :
  0 <= d < 2 ^ 32 -> wire_holds w r l -> wire_holds (w ++ frames junk d reqs) r (l ++ reqs).
Proof.
  intros Hd. rewrite frames_encs.
  assert (demands_ok (map (pair d) reqs)) as Hok by (apply Forall_map, Forall_true; done).
  assert (map snd (map (pair d) reqs) = reqs) as Hsnd by (rewrite map_map; apply map_id).
  destruct r; simpl; [intros (fs & -> & -> & Hf)|intros (q & fs & -> & -> & Hf & ?)|done].
  - exists (fs ++ map (pair d) reqs). rewrite encs_app, map_app, Hsnd. repeat split. by apply Forall_app.
  - exists q, (fs ++ map (pair d) reqs). rewrite encs_app, map_app, Hsnd, app_assoc. repeat split; [by apply Forall_app|tauto..].
Qed.

Lemma wire_header w l :
  wire_holds w AtHeader l -> Forall valid_req l ->
  match l with
  | [] => read_header w = None
  | q :: l' => exists d rest, 0 <= d < 2 ^ 32 /\
      read_header w = Some (CreateRPCHeader d (size_bytes (payload q)) (completion q), rest) /\
      (size_bytes (payload q) = 0 -> payload q = [] /\ wire_holds rest AtHeader l') /\
      wire_holds rest (AtBody (CreateRPCHeader d (size_bytes (payload q)) (completion q))) l
  end.
Proof.
  intros (fs & -> & -> & Hf) Hv. destruct fs as [|[d q] fs]; [apply read_header_nil|]. simpl.
  apply Forall_cons in Hf as [Hd Hf]. apply Forall_cons in Hv as [Hq Hv].
  exists d, (payload q ++ encs fs). split; [done|]. split; [by apply read_header_frame|]. split.
  - intros H0%size_bytes_0. rewrite H0. split; [done|]. by exists fs.
  - by exists q, fs.
Qed.

Lemma wire_body w h l :
  wire_holds w (AtBody h) l ->
  exists q l' rest, l = q :: l' /\ read_bytes (Z.to_nat (RPCHeader.len h)) w = Some (payload q, rest) /\
    RPCHeader.completion_data h = completion q /\ wire_holds rest AtHeader l'.
Proof.
  intros (q & fs & -> & -> & Hf & Hl & Hc). exists q, (map snd fs), (encs fs). split; [done|]. split; [|split; [done|by exists fs]].
  apply read_bytes_app. rewrite Hl. unfold size_bytes. lia.
Qed.

(** What the wires hold, what closing or a failure has lost before and after the
    handler, and the reply whose body failed to arrive. *)
Record book := Book { lc : list req_ctx; ls : list req_ctx; lost_c : list req_ctx; lost_s : list req_ctx; cut : list req_ctx }.

Definition counted (s : sys) (b : book) : nat :=
  length (sending (f_sender (client s))) + length (lc b) + length (handlers (srv s)) + length (completions_ (srv s)) +
  length (sending (s_sender (srv s))) + length (ls b) + length (lost_c b) + length (lost_s b).

Definition sends_ok (t : sender) : Prop := forall l d, t = Sending l d -> l <> [] /\ 0 <= d < 2 ^ 32.

Record books (s : sys) (b : book) : Prop := {
  b_c2s : wire_holds (c2s s) (s_receiver (srv s)) (lc b);
  b_s2c : wire_holds (s2c s) (f_receiver (client s)) (ls b);
  b_calls : calls s ≡ₚ reqs_ (client s) ++ sending (f_sender (client s)) ++ lc b ++ handlers (srv s) ++ map fst (handled s) ++ lost_c b;
  b_replies : map reply_of (handled s) ≡ₚ
    completions_ (srv s) ++ sending (s_sender (srv s)) ++ ls b ++ done s ++ lost_s b ++ cut b;
  b_valid : Forall valid_req (calls s) /\ Forall valid_req (map reply_of (handled s));
  b_flight : inflight (client s) + on_body (f_receiver (client s)) = Z.of_nat (counted s b);
  b_bound : inflight (client s) <= kNumCredits;
  b_credits : credits_ (client s) = kNumCredits;
  b_park : parked (client s) = true -> f_sender (client s) = Waiting /\ (reqs_ (client s) = [] \/ kNumCredits <= inflight (client s));
  b_spark : s_parked (srv s) = true -> s_sender (srv s) = Waiting /\ completions_ (srv s) = [];
  b_sends : sends_ok (f_sender (client s)) /\ sends_ok (s_sender (srv s));
  b_demand : 0 <= demand_ (srv s) < 2 ^ 32;
}.

Lemma inflight_nonneg f : 0 <= inflight f.
Proof. unfold inflight. apply wrap_range. lia. Qed.

Lemma inflight_sent a b n : 0 <= n -> u32 (a - b) + n <= kNumCredits -> u32 (u32 (a + n) - b) = u32 (a - b) + n.
Proof.
  intros Hn Hle. pose proof (wrap_range 32 (a - b) ltac:(lia)). unfold wrap, kNumCredits in *.
  rewrite Zminus_mod_idemp_l. replace (a + n - b) with (a - b + n) by lia.
  rewrite <-Zplus_mod_idemp_l. apply Z.mod_small. lia.
Qed.

Lemma inflight_received a b : 1 <= u32 (a - b) -> u32 (a - u32 (b + 1)) = u32 (a - b) - 1.
Proof.
  intros H1. pose proof (wrap_range 32 (a - b) ltac:(lia)). unfold wrap in *.
  rewrite Zminus_mod_idemp_r. replace (a - (b + 1)) with (a - b - 1) by lia.
  rewrite <-Zminus_mod_idemp_l. apply Z.mod_small. lia.
Qed.

Lemma gather_spec n q t rest n' :
  0 <= n <= kNumCredits -> gather kNumCredits n q = (t, rest, n') ->
  q = t ++ rest /\ n' = n + Z.of_nat (length t) /\ n' <= kNumCredits /\ (q <> [] -> n < kNumCredits -> t <> []).
Proof.
  revert n t rest n'. induction q as [|r q IH]; intros n t rest n' Hn; simpl.
  - intros [= <- <- <-]. repeat split; simpl; done || lia.
  - destruct (Z.ltb_spec n kNumCredits).
    + destruct (gather _ _ _) as [[t1 r1] n1] eqn:E. intros [= <- <- <-].
      assert (u32 (n + 1) = n + 1) as Hu by (unfold kNumCredits in *; apply wrap_small; lia). rewrite Hu in E.
      apply IH in E as (-> & -> & ? & _); [|lia]. repeat split; simpl; done || lia.
    + intros [= <- <- <-]. repeat split; simpl; done || lia.
Qed.

(** ** One step *)

Definition allowed (e : event) : Prop :=
  match e with
  | ECall src conn => valid_req (Req src conn)
  | EHandler _ reply => size_bytes reply < 2 ^ 64
  | _ => True
  end.

(** Steps in which nothing fails and nothing is closed, and those of them the
    threads take. *)
Definition calm (e : event) : bool :=
  match e with
  | EClose | EClientWrite false | EClientRead false | EServerRead false | EServerWrite false => false
  | _ => true
  end.
Definition thread_step (e : event) : bool := calm e && match e with ECall _ _ => false | _ => true end.

Definition up (s : sys) : Prop :=
  close_ (client s) = false /\ s_close_ (srv s) = false /\
  f_sender (client s) <> SenderEnd /\ s_sender (srv s) <> SenderEnd /\
  f_receiver (client s) <> ReceiverEnd /\ s_receiver (srv s) <> ReceiverEnd.
Definition lossless (b : book) : Prop := lost_c b = [] /\ lost_s b = [] /\ cut b = [].

Definition awake (t : sender) (p : bool) : Z := match t, p with Waiting, false => 1 | _, _ => 0 end.
Definition len (l : list req_ctx) : Z := Z.of_nat (length l).

(** The steps that are left: more for what is further from its caller. *)
Definition weight (s : sys) (b : book) : Z :=
  14 * len (reqs_ (client s)) + 13 * len (sending (f_sender (client s))) + 11 * len (lc b) - on_body (s_receiver (srv s)) +
  9 * len (handlers (srv s)) + 7 * len (completions_ (srv s)) + 6 * len (sending (s_sender (srv s))) +
  4 * len (ls b) - 2 * on_body (f_receiver (client s)) +
  awake (f_sender (client s)) (parked (client s)) + awake (s_sender (srv s)) (s_parked (srv s)).

Definition step_ok (s : sys) (e : event) (b : book) (s' : sys) : Prop :=
  exists b', books s' b' /\ (calm e = true -> up s -> lossless b -> up s' /\ lossless b') /\
    (thread_step e = true -> weight s' b' < weight s b).

Lemma call_eq src conn f :
  RPCFlow_Call src conn f =
  f <| reqs_ := reqs_ f ++ [Req src conn] |> <| parked := parked f && negb (u32 (sent_count_ f - recv_count_ f) <? credits_ f) |>.
Proof. unfold RPCFlow_Call, inflight. destruct f as [? [] ? ? ? ? ? ?]; simpl; by destruct (_ <? _). Qed.

Lemma received_eq f :
  flow_received f =
  f <| recv_count_ := u32 (recv_count_ f + 1) |>
    <| parked := parked f && negb ((u32 (sent_count_ f - u32 (recv_count_ f + 1)) <? credits_ f) && negb (is_empty (reqs_ f))) |>.
Proof. unfold flow_received, inflight. destruct f as [? [] ? ? ? ? ? ?]; simpl; by destruct (_ <? _), (is_empty _). Qed.

Ltac open_step HB :=
  destruct HB as [Hc2s Hs2c Hcalls Hreplies [Hvc Hvr] Hflight Hbound Hcredits Hpark Hspark [Hsends Hssends] Hdemand];
  unfold inflight in *.
Ltac settle :=
  repeat match goal with
  | H : ?t = _ |- _ =>
      match t with f_sender _ => idtac | s_sender _ => idtac | f_receiver _ => idtac | s_receiver _ => idtac |
        reqs_ _ => idtac | completions_ _ => idtac | parked _ => idtac | s_parked _ => idtac | lc _ => idtac | ls _ => idtac end;
      rewrite H in *
  end.
Ltac weigh := unfold weight, counted, len in *; simpl in *; settle; simpl in *; rewrite ?length_app in *; simpl in *.
Ltac check_step := split; [constructor; unfold inflight; simpl; try done|split; [unfold up, lossless; simpl; try (intuition congruence)|unfold thread_step; simpl; try done; intros _; weigh; try lia]].

Lemma step_call s b src conn s' :
  books s b -> valid_req (Req src conn) -> exec junk s (ECall src conn) = Ok s' -> step_ok s (ECall src conn) b s'.
Proof.
  intros HB Hv [= <-]. exists b. open_step HB. rewrite call_eq. check_step.
  - rewrite Hcalls. solve_Permutation.
  - split; [|done]. apply Forall_app. by split; [|constructor].
  - rewrite Hcredits, andb_true_iff, negb_true_iff, Z.ltb_ge. intros [Hp Hfull]. destruct (Hpark Hp) as [? _]. auto.
Qed.

Lemma step_close s b s' : books s b -> exec junk s EClose = Ok s' -> step_ok s EClose b s'.
Proof. intros HB [= <-]. exists b. open_step HB. by check_step. Qed.

Lemma sends_ok_waiting : sends_ok Waiting.
Proof. by intros l d. Qed.
Lemma sends_ok_end : sends_ok SenderEnd.
Proof. by intros l d. Qed.
Lemma sends_ok_sending l d : l <> [] -> 0 <= d < 2 ^ 32 -> sends_ok (Sending l d).
Proof. by intros ?? ?? [= <- <-]. Qed.
#[local] Hint Resolve sends_ok_waiting sends_ok_end sends_ok_sending : core.

Lemma is_empty_true {A} (l : list A) : is_empty l = true <-> l = [].
Proof. by destruct l. Qed.

(** The critical section of the client's sender parks, ends with what it has
    gathered, or goes on to send it. *)
Lemma flow_gather_cases f fin f' :
  credits_ f = kNumCredits -> inflight f <= kNumCredits -> flow_gather f = (f', fin) ->
  (f' = f <| parked := true |> /\ (reqs_ f = [] \/ kNumCredits <= inflight f)) \/
  exists t rest, reqs_ f = t ++ rest /\ inflight f + len t <= kNumCredits /\
    let g := f <| reqs_ := rest |> <| sent_count_ := u32 (sent_count_ f + len t) |> in
    (f' = g <| f_sender := SenderEnd |> /\ close_ f = true) \/
    (f' = g <| f_sender := Sending t (inflight f + len t) |> /\ t <> []).
Proof.
  intros Hc Hb. unfold flow_gather. rewrite Hc. pose proof (inflight_nonneg f) as H0.
  destruct (is_empty (reqs_ f) || _) eqn:Hw, (close_ f && is_empty (reqs_ f)) eqn:Hcl; simpl;
    rewrite ?orb_true_iff, ?orb_false_iff, ?is_empty_true, ?Z.leb_le, ?Z.leb_gt in Hw.
  2: { intros [= <- <-]. left. auto. }
  all: destruct (gather _ _ _) as [[t rest] n'] eqn:E; apply gather_spec in E as (Hq & -> & Hn & Ht); [|done];
    intros Heq; right; exists t, rest; split; [done|]; split; [done|]; fold (len t) in *.
  - apply andb_true_iff in Hcl as [Hcl He%is_empty_true]. rewrite He in Hq. symmetry in Hq. apply app_eq_nil in Hq as [-> ->].
    rewrite Hcl in *. injection Heq as <- <-. by left.
  - apply andb_true_iff in Hcl as [_ He%is_empty_true]. rewrite He in Hw. naive_solver.
  - simpl in Heq. destruct (close_ f && is_empty rest) eqn:He; injection Heq as <- <-; [left|right].
    + by apply andb_true_iff in He as [? _].
    + split; [done|]. apply Ht; [|lia]. intros Hr. by rewrite Hr in Hw; destruct Hw.
Qed.

Lemma step_client_gather s b s' : books s b -> exec junk s EClientGather = Ok s' -> step_ok s EClientGather b s'.
Proof.
  intros HB. simpl. destruct (f_sender (client s)) eqn:Hs; [|done..]. intros He. simplify_outcome.
  destruct (flow_gather (client s)) as [f fin] eqn:E. injection He as <-.
  apply negb_true_iff in Hrun. pose proof (inflight_nonneg (client s)) as H0.
  apply flow_gather_cases in E as [[-> Hempty]|(t & rest & Hq & Hle & [[-> Hcl]|[-> Ht]])]; [| | |apply HB..].
  - exists b. open_step HB. check_step. 
  - exists (Book (lc b) (ls b) (lost_c b ++ t) (lost_s b) (cut b)). open_step HB.
    rewrite Hs, Hq, Hrun in *. check_step; rewrite ?inflight_sent by (unfold len in *; lia); try (weigh; lia).
    rewrite Hcalls. simpl. solve_Permutation.
  - exists b. open_step HB. rewrite Hs, Hq, Hrun in *.
    check_step; rewrite ?inflight_sent by (unfold len in *; lia); try (weigh; lia); [|].
    + rewrite Hcalls. simpl. solve_Permutation.
    + split; [|done]. apply sends_ok_sending; [done|]. unfold kNumCredits, len in *. lia.
Qed.

Lemma step_client_write s b ok s' : books s b -> exec junk s (EClientWrite ok) = Ok s' -> step_ok s (EClientWrite ok) b s'.
Proof.
  intros HB. simpl. destruct (f_sender (client s)) as [|t d|] eqn:Hs; [done| |done].
  destruct ok; intros [= <-].
  - exists (Book (lc b ++ t) (ls b) (lost_c b) (lost_s b) (cut b)). open_step HB. destruct (Hsends t d Hs) as [Ht Hd].
    rewrite Hs in *. check_step; try (weigh; lia).
    + by apply wire_holds_app.
    + rewrite Hcalls. simpl. solve_Permutation.
    + intros Hp. by destruct (Hpark Hp).
    + weigh. destruct t, (parked (client s)); simpl in *; done || lia.
  - exists (Book (lc b) (ls b) (lost_c b ++ t) (lost_s b) (cut b)). open_step HB. rewrite Hs in *. check_step; try (weigh; lia).
    + rewrite Hcalls. simpl. solve_Permutation.
    + intros Hp. by destruct (Hpark Hp).
Qed.

Lemma step_server_write s b ok s' : books s b -> exec junk s (EServerWrite ok) = Ok s' -> step_ok s (EServerWrite ok) b s'.
Proof.
  intros HB. simpl. destruct (s_sender (srv s)) as [|t d|] eqn:Hs; [done| |done].
  destruct ok; intros [= <-].
  - exists (Book (lc b) (ls b ++ t) (lost_c b) (lost_s b) (cut b)). open_step HB. destruct (Hssends t d Hs) as [Ht Hd].
    rewrite Hs in *. check_step; try (weigh; lia).
    + by apply wire_holds_app.
    + rewrite Hreplies. simpl. solve_Permutation.
    + intros Hp. by destruct (Hspark Hp).
    + weigh. destruct t, (s_parked (srv s)); simpl in *; done || lia.
  - exists (Book (lc b) (ls b) (lost_c b) (lost_s b ++ t) (cut b)). open_step HB. rewrite Hs in *. check_step; try (weigh; lia).
    + rewrite Hreplies. simpl. solve_Permutation.
    + intros Hp. by destruct (Hspark Hp).
Qed.

Lemma step_server_gather s b s' : books s b -> exec junk s EServerGather = Ok s' -> step_ok s EServerGather b s'.
Proof.
  intros HB. simpl. destruct (s_sender (srv s)) eqn:Hs; [|done..]. intros He. simplify_outcome. apply negb_true_iff in Hrun.
  exists b. open_step HB. unfold server_gather in He.
  destruct (completions_ (srv s)) as [|r l] eqn:Hc, (s_close_ (srv s)) eqn:Hcl; simpl in He; rewrite ?Hcl in He; simpl in He; injection He as <-;
    settle; check_step; try (weigh; lia); rewrite ?Hc; try done.
  all: try (rewrite Hreplies; simpl; rewrite ?Hc; solve_Permutation).
  all: split; [done|by apply sends_ok_sending].
Qed.

Lemma step_handler s b i reply s' :
  books s b -> size_bytes reply < 2 ^ 64 -> exec junk s (EHandler i reply) = Ok s' -> step_ok s (EHandler i reply) b s'.
Proof.
  intros HB Hv. simpl. destruct (handlers (srv s) !! i) as [r|] eqn:Hr; [|done]. intros He. simplify_outcome.
  pose proof (delete_Permutation _ _ _ Hr) as Hperm.
  set (hs := delete i (handlers (srv s))) in *. clearbody hs. exists b. open_step HB.
  assert (valid_req r) as [_ Hr64].
  { rewrite Forall_forall in Hvc. apply Hvc. rewrite Hcalls, Hperm, !elem_of_app, elem_of_cons. tauto. }
  pose proof (Permutation_length Hperm) as Hlen. simpl in Hlen.
  check_step; rewrite ?map_app; simpl; try (weigh; lia).
  - rewrite Hcalls, Hperm. solve_Permutation.
  - rewrite Hreplies. unfold reply_of at 1. simpl. solve_Permutation.
  - split; [done|]. apply Forall_app. split; [done|]. by constructor.
  - weigh. destruct (s_sender (srv s)), (s_parked (srv s)); simpl in *; lia.
Qed.

Lemma valid_lc s b : books s b -> Forall valid_req (lc b).
Proof.
  intros HB. open_step HB. rewrite Forall_forall in *. intros r Hr. apply Hvc. rewrite Hcalls, !elem_of_app. tauto.
Qed.
Lemma valid_ls s b : books s b -> Forall valid_req (ls b).
Proof.
  intros HB. open_step HB. rewrite Forall_forall in *. intros r Hr. apply Hvr. rewrite Hreplies, !elem_of_app. tauto.
Qed.

Lemma Req_eta r : Req (payload r) (completion r) = r.
Proof. by destruct r. Qed.

(** The wire a receiver that has not ended looks at. *)
Lemma step_server_read s b s' : books s b -> exec junk s (EServerRead true) = Ok s' -> step_ok s (EServerRead true) b s'.
Proof.
  intros HB. pose proof (valid_lc s b HB) as Hv. simpl. unfold server_read.
  destruct (s_receiver (srv s)) as [|h|] eqn:Hr; [| |done]; open_step HB; settle.
  - pose proof (wire_header _ _ Hc2s Hv) as Hw. destruct (lc b) as [|q l] eqn:Hl; [by rewrite Hw|].
    destruct Hw as (d & rest & Hd & -> & H0 & H1). simpl.
    destruct (Z.eqb_spec (size_bytes (payload q)) 0) as [Hz|Hz]; intros [= <-].
    + destruct (H0 Hz) as [Hp Hw]. exists (Book l (ls b) (lost_c b) (lost_s b) (cut b)).
      rewrite <-Hp, Req_eta. settle. check_step; rewrite ?Hr; try done; try (weigh; lia).
      rewrite Hcalls. solve_Permutation.
    + exists b. settle. check_step; rewrite ?Hl; try done; weigh; lia.
  - destruct (wire_body _ _ _ Hc2s) as (q & l & rest & Hl & -> & Hc & Hw). intros [= <-].
    exists (Book l (ls b) (lost_c b) (lost_s b) (cut b)). rewrite Hc, Req_eta. settle.
    check_step; try (weigh; lia). rewrite Hcalls. solve_Permutation.
Qed.

Lemma step_server_read_fails s b s' :
  books s b -> exec junk s (EServerRead false) = Ok s' -> step_ok s (EServerRead false) b s'.
Proof. intros HB He. simpl in He. simplify_outcome. exists b. open_step HB. by check_step. Qed.

Lemma step_client_read_fails s b s' :
  books s b -> exec junk s (EClientRead false) = Ok s' -> step_ok s (EClientRead false) b s'.
Proof.
  intros HB He. simpl in He. simplify_outcome. destruct (f_receiver (client s)) as [|h|] eqn:Hr; [| |done].
  - exists b. open_step HB. settle. by check_step.
  - destruct (wire_body _ _ _ (eq_rect _ (fun r => wire_holds _ r _) (b_s2c s b HB) _ Hr)) as (q & l & rest & Hl & _).
    exists (Book (lc b) l (lost_c b) (lost_s b) (cut b ++ [q])). open_step HB. settle. check_step; try (weigh; lia).
    rewrite Hreplies. solve_Permutation.
Qed.

Lemma received_parks f :
  credits_ f = kNumCredits -> (parked f = true -> f_sender f = Waiting /\ (reqs_ f = [] \/ kNumCredits <= inflight f)) ->
  let n := u32 (sent_count_ f - u32 (recv_count_ f + 1)) in
  parked f && negb ((n <? credits_ f) && negb (is_empty (reqs_ f))) = true ->
  f_sender f = Waiting /\ (reqs_ f = [] \/ kNumCredits <= n).
Proof.
  intros Hc Hpark n. rewrite Hc, andb_true_iff, negb_true_iff, andb_false_iff, negb_false_iff, is_empty_true, Z.ltb_ge.
  intros [Hp Hor]. destruct (Hpark Hp) as [? _]. tauto.
Qed.

Lemma step_client_read s b s' : books s b -> exec junk s (EClientRead true) = Ok s' -> step_ok s (EClientRead true) b s'.
Proof.
  intros HB. pose proof (valid_ls s b HB) as Hv. simpl. unfold client_read.
  destruct (f_receiver (client s)) as [|h|] eqn:Hr; [| |done]; open_step HB; settle.
  - pose proof (wire_header _ _ Hs2c Hv) as Hw. destruct (ls b) as [|q l] eqn:Hl; [by rewrite Hw|].
    destruct Hw as (d & rest & Hd & -> & H0 & H1). simpl. rewrite received_eq.
    assert (u32 (sent_count_ (client s) - u32 (recv_count_ (client s) + 1)) = u32 (sent_count_ (client s) - recv_count_ (client s)) - 1) as Hrecv.
    { apply inflight_received. weigh. lia. }
    pose proof (received_parks (client s) Hcredits Hpark) as Hpark'. rewrite Hrecv in Hpark'.
    destruct (Z.eqb_spec (size_bytes (payload q)) 0) as [Hz|Hz]; intros [= <-].
    + destruct (H0 Hz) as [Hp Hw]. exists (Book (lc b) l (lost_c b) (lost_s b) (cut b)).
      rewrite <-Hp, Req_eta. settle. check_step; rewrite ?Hr, ?Hrecv; try done; try (weigh; lia).
      * rewrite Hreplies. solve_Permutation.
      * weigh. destruct (f_sender (client s)), (parked (client s)); simpl; lia || (destruct (negb _); lia).
    + exists b. settle. check_step; rewrite ?Hl, ?Hrecv; try done; try (weigh; lia).
      weigh. destruct (f_sender (client s)), (parked (client s)); simpl; lia || (destruct (negb _); lia).
  - destruct (wire_body _ _ _ Hs2c) as (q & l & rest & Hl & -> & Hc & Hw). intros [= <-].
    exists (Book (lc b) l (lost_c b) (lost_s b) (cut b)). rewrite Hc, Req_eta. settle.
    check_step; try (weigh; lia). rewrite Hreplies. solve_Permutation.
Qed.

Lemma step_books s b e s' : allowed e -> books s b -> exec junk s e = Ok s' -> step_ok s e b s'.
Proof.
  destruct e as [src conn| | |[]|[]|[]|i reply| |[]]; intros Ha HB He;
    eauto using step_call, step_close, step_client_gather, step_client_write, step_client_read, step_client_read_fails,
      step_server_read, step_server_read_fails, step_handler, step_server_gather, step_server_write.
Qed.

(** ** Runs *)

Lemma start_books : books start (Book [] [] [] [] []).
Proof.
  constructor; try done; simpl; try lia.
  - exists []. repeat split. constructor.
  - exists []. repeat split. constructor.
Qed.

Lemma run_books s b es s' :
  books s b -> Forall allowed es -> run junk s es = Ok s' ->
  exists b', books s' b' /\ (forallb calm es = true -> up s -> lossless b -> up s' /\ lossless b') /\
    (forallb thread_step es = true -> weight s' b' + Z.of_nat (length es) <= weight s b).
Proof.
  unfold run. revert s b. induction es as [|e es IH]; intros s b HB Ha Hrun; simpl in *.
  - injection Hrun as <-. exists b. split; [done|split; [tauto|lia]].
  - apply Forall_cons in Ha as [He Ha]. apply bind_Ok in Hrun as (s1 & H1 & Hrun).
    destruct (step_books s b e s1 He HB H1) as (b1 & HB1 & Hup1 & Hw1).
    destruct (IH s1 b1 HB1 Ha Hrun) as (b2 & HB2 & Hup2 & Hw2). exists b2. split; [done|].
    rewrite !andb_true_iff. split; [|intros [? ?]; specialize (Hw1 ltac:(done)); specialize (Hw2 ltac:(done)); lia].
    intros [? ?] ? ?. destruct Hup1; [done..|]. by apply Hup2.
Qed.

Lemma thread_steps_calm es : forallb thread_step es = true -> forallb calm es = true.
Proof. rewrite !forallb_forall. intros H e He. specialize (H e He). unfold thread_step in H. by apply andb_true_iff in H as [? _]. Qed.

Lemma up_start : up start.
Proof. done. Qed.

Lemma on_body_wire w r l : wire_holds w r l -> 0 <= on_body r <= len l.
Proof. destruct r; simpl; unfold len; [lia|intros (q & fs & _ & -> & _); simpl; lia|lia]. Qed.

Lemma weight_bounds s b : books s b -> 0 <= weight s b <= 14 * len (calls s) + 2.
Proof.
  intros HB. open_step HB. pose proof (on_body_wire _ _ _ Hc2s). pose proof (on_body_wire _ _ _ Hs2c).
  apply Permutation_length in Hcalls, Hreplies. rewrite ?length_app, ?length_map in *.
  assert (forall t p, 0 <= awake t p <= 1) as Haw by (intros [] []; simpl; lia).
  pose proof (Haw (f_sender (client s)) (parked (client s))). pose proof (Haw (s_sender (srv s)) (s_parked (srv s))).
  unfold weight, len in *. lia.
Qed.

(** The steps of the threads, a handler that returns nothing standing for those
    of the handlers. When none can be taken, nothing is left anywhere. *)
Definition moves : list event :=
  [EClientGather; EClientWrite true; EClientRead true; EServerRead true; EHandler 0 []; EServerGather; EServerWrite true].

Lemma moves_thread e : e ∈ moves -> thread_step e = true /\ allowed e.
Proof. unfold moves. rewrite !elem_of_cons, elem_of_nil. intros Hin. by destruct_or? Hin; subst. Qed.

Section Stuck.
Context (s : sys) (b : book).
Hypothesis HB : books s b.
Hypothesis Hup : up s.
Hypothesis Hstuck : forall e s', e ∈ moves -> exec junk s e <> Ok s'.

Lemma stuck_client_sender : f_sender (client s) = Waiting /\ parked (client s) = true.
Proof.
  destruct Hup as (_ & _ & Hne & _). destruct (f_sender (client s)) as [|t d|] eqn:Hs; [| |done].
  - split; [done|]. destruct (parked (client s)) eqn:Hp; [done|]. destruct (flow_gather (client s)) as [f fin] eqn:E.
    edestruct (Hstuck EClientGather); [unfold moves; set_solver|]. simpl. by rewrite Hs, Hp, E.
  - edestruct (Hstuck (EClientWrite true)); [unfold moves; set_solver|]. simpl. by rewrite Hs.
Qed.

Lemma stuck_server_sender : s_sender (srv s) = Waiting /\ s_parked (srv s) = true.
Proof.
  destruct Hup as (_ & _ & _ & Hne & _). destruct (s_sender (srv s)) as [|t d|] eqn:Hs; [| |done].
  - split; [done|]. destruct (s_parked (srv s)) eqn:Hp; [done|]. destruct (server_gather (srv s)) as [v fin] eqn:E.
    edestruct (Hstuck EServerGather); [unfold moves; set_solver|]. simpl. by rewrite Hs, Hp, E.
  - edestruct (Hstuck (EServerWrite true)); [unfold moves; set_solver|]. simpl. by rewrite Hs.
Qed.

Lemma stuck_c2s : lc b = [].
Proof.
  destruct Hup as (_ & _ & _ & _ & _ & Hne). pose proof (b_c2s s b HB) as Hw. pose proof (valid_lc s b HB) as Hv.
  specialize (fun s' => Hstuck (EServerRead true) s' ltac:(unfold moves; set_solver)) as Hno. simpl in Hno. unfold server_read in Hno.
  destruct (s_receiver (srv s)) as [|h|]; [| |done].
  - apply wire_header in Hw; [|done]. destruct (lc b) as [|q l]; [done|]. destruct Hw as (d & rest & _ & E & _).
    rewrite E in Hno. destruct (_ =? _); by edestruct Hno.
  - apply wire_body in Hw as (q & l & rest & _ & E & _). rewrite E in Hno. by edestruct Hno.
Qed.

Lemma stuck_s2c : ls b = [].
Proof.
  destruct Hup as (_ & _ & _ & _ & Hne & _). pose proof (b_s2c s b HB) as Hw. pose proof (valid_ls s b HB) as Hv.
  specialize (fun s' => Hstuck (EClientRead true) s' ltac:(unfold moves; set_solver)) as Hno. simpl in Hno. unfold client_read in Hno.
  destruct (f_receiver (client s)) as [|h|]; [| |done].
  - apply wire_header in Hw; [|done]. destruct (ls b) as [|q l]; [done|]. destruct Hw as (d & rest & _ & E & _).
    rewrite E in Hno. destruct (_ =? _); by edestruct Hno.
  - apply wire_body in Hw as (q & l & rest & _ & E & _). rewrite E in Hno. by edestruct Hno.
Qed.

Lemma stuck_handlers : handlers (srv s) = [].
Proof.
  destruct stuck_server_sender as [Hs _]. destruct (handlers (srv s)) as [|r l] eqn:Hh; [done|].
  edestruct (Hstuck (EHandler 0 [])); [unfold moves; set_solver|]. simpl. unfold server_gone. by rewrite Hh, Hs.
Qed.

Lemma stuck_queue : lossless b -> reqs_ (client s) = [] /\ completions_ (srv s) = [].
Proof.
  intros (H1 & H2 & _). destruct stuck_client_sender as [Hs Hp], stuck_server_sender as [Hs' Hp'].
  destruct (b_spark s b HB Hp') as [_ Hc]. split; [|done]. destruct (b_park s b HB Hp) as [_ [?|Hfull]]; [done|].
  pose proof (b_flight s b HB) as Hf. unfold counted in Hf. exfalso.
  rewrite Hs, Hs', Hc, H1, H2, stuck_c2s, stuck_s2c, stuck_handlers in Hf. simpl in Hf.
  pose proof (on_body_wire _ _ _ (b_s2c s b HB)). unfold kNumCredits in *. lia.
Qed.

Lemma stuck_all_done : lossless b -> map completion (calls s) ≡ₚ map completion (done s).
Proof.
  intros Hl. destruct (stuck_queue Hl) as [Hq Hc], Hl as (H1 & H2 & H3), stuck_client_sender as [Hs _], stuck_server_sender as [Hs' _].
  rewrite (b_calls s b HB), Hq, Hs, H1, stuck_c2s, stuck_handlers. simpl. rewrite app_nil_r, map_map.
  transitivity (map completion (map reply_of (handled s))); [by rewrite map_map|].
  by rewrite (b_replies s b HB), Hc, Hs', H2, H3, stuck_s2c, !app_nil_r.
Qed.
End Stuck.

Lemma NoDup_submseteq_r {A} (l k : list A) : l ⊆+ k -> NoDup k -> NoDup l.
Proof. intros (l' & ->)%submseteq_Permutation. by intros [? _]%NoDup_app. Qed.


(** C29: Flow control: whatever happens, the calls a client has sent and not yet
    had an answer to are at most the credits, although the counters they are
    computed from wrap around, so the server never has more than that many
    handlers and replies of one connection. *)
Theorem credits_respected es s :
  Forall allowed es -> run junk start es = Ok s ->
  0 <= inflight (client s) <= kNumCredits /\
  len (handlers (srv s)) + len (completions_ (srv s)) + len (sending (s_sender (srv s))) <= kNumCredits.
Proof.
  intros Ha Hrun. destruct (run_books start _ es s start_books Ha Hrun) as (b & HB & _).
  pose proof (inflight_nonneg (client s)). pose proof (b_bound s b HB). pose proof (b_flight s b HB) as Hf.
  pose proof (on_body_wire _ _ _ (b_s2c s b HB)). split; [done|]. unfold counted, len in *. lia.
Qed.

(** C4: As long as nothing fails and nothing is closed, every call returns: from
    any state so reached, the threads of both ends can take at most fourteen
    steps for every call made and two more, in whatever order they are run, and
    as long as some call has not had its answer there is a thread that can take
    a step. No wake-up is lost and the credits never leave a call waiting. *)
Theorem calls_return es s es' s' :
  Forall allowed es -> forallb calm es = true -> run junk start es = Ok s ->
  Forall allowed es' -> forallb thread_step es' = true -> run junk s es' = Ok s' ->
  Z.of_nat (length es') <= 14 * len (calls s) + 2 /\
  ((exists e s'', thread_step e = true /\ allowed e /\ exec junk s' e = Ok s'') \/
   map completion (calls s') ≡ₚ map completion (done s')).
Proof.
  intros Ha Hc Hrun Ha' Ht Hrun'.
  destruct (run_books start _ es s start_books Ha Hrun) as (b & HB & Hup & _). destruct (Hup Hc up_start) as [Hu Hl]; [done|].
  destruct (run_books s b es' s' HB Ha' Hrun') as (b' & HB' & Hup' & Hw).
  destruct (Hup' (thread_steps_calm _ Ht) Hu Hl) as [Hu' Hl']. specialize (Hw Ht).
  pose proof (weight_bounds s b HB). pose proof (weight_bounds s' b' HB'). split; [lia|].
  destruct (existsb (fun e => match exec junk s' e with Ok _ => true | Fault _ => false end) moves) eqn:Hm.
  - left. apply existsb_exists in Hm as (e & He & Hok). destruct (exec junk s' e) as [s''|] eqn:Hex; [|done].
    exists e, s''. destruct (moves_thread e); [by apply list_elem_of_In|done].
  - right. apply (stuck_all_done s' b' HB' Hu'); [|done]. intros e s'' He Hex. apply not_true_iff_false in Hm. apply Hm.
    apply existsb_exists. exists e. rewrite Hex. split; [by apply list_elem_of_In|done].
Qed.
End Books.


(** ** Samples *)

Definition no_junk (_ : nat) : Z := 0.

(** Two calls sent together, the second without arguments; its handler is the
    first to return. *)
Definition two_calls : list event := [ECall [7] 1000; ECall [] 2000; EClientGather].
Definition two_answers : list event :=
  [EClientWrite true; EServerRead true; EServerRead true; EServerRead true; EHandler 1 []; EHandler 0 [9; 8];
   EServerGather; EServerWrite true; EClientRead true; EClientRead true; EClientRead true].

Lemma two_calls_allowed : Forall allowed two_calls.
Proof. repeat constructor; simpl; unfold valid_req, size_bytes; simpl; lia. Qed.
Lemma two_answers_allowed : Forall allowed two_answers.
Proof. repeat constructor; simpl; unfold size_bytes; simpl; lia. Qed.
Lemma sample_allowed : Forall allowed (two_calls ++ two_answers).
Proof. apply Forall_app. split; [apply two_calls_allowed|apply two_answers_allowed]. Qed.


Lemma credits_respected_witness :
  exists s, run no_junk start two_calls = Ok s /\ inflight (client s) = 2 /\ 0 <= inflight (client s) <= kNumCredits.
Proof.
  eexists. split; [vm_compute; reflexivity|]. split; [reflexivity|].
  apply (credits_respected no_junk two_calls); [apply two_calls_allowed|vm_compute; reflexivity].
Defined.

Lemma calls_return_witness :
  exists s s', run no_junk start two_calls = Ok s /\ run no_junk s two_answers = Ok s' /\
    Z.of_nat (length two_answers) <= 14 * len (calls s) + 2.
Proof.
  eexists _, _. split; [vm_compute; reflexivity|]. split; [vm_compute; reflexivity|].
  eapply (calls_return no_junk two_calls); [apply two_calls_allowed|reflexivity|vm_compute; reflexivity|apply two_answers_allowed|reflexivity|].
  vm_compute. reflexivity.
Defined.

(** ** Closing *)

(** Nothing is under way and nothing can be sent. *)
Definition dead (conn : Z) (s : sys) : Prop :=
  (f_sender (client s) = SenderEnd /\ on_body (f_receiver (client s)) = 0) /\
  (on_body (s_receiver (srv s)) = 0 /\ handlers (srv s) = [] /\ completions_ (srv s) = [] /\ sending (s_sender (srv s)) = []) /\
  (c2s s = [] /\ s2c s = [] /\ done s = [] /\ handled s = [] /\ conn ∈ map completion (calls s)).

Lemma dead_step junk conn s e s' : dead conn s -> exec junk s e = Ok s' -> dead conn s'.
Proof.
  intros ((Hs & Hr) & (Hr' & Hh & Hc & Hs') & Hw & Hw' & Hd & Hl & Hin).
  destruct e as [src conn'| | |ok|[]|[]|i reply| |ok]; simpl.
  - intros [= <-]. rewrite call_eq. unfold dead; simpl. rewrite map_app, elem_of_app. tauto.
  - by intros [= <-].
  - by rewrite Hs.
  - by rewrite Hs.
  - unfold client_read. rewrite Hw'. by destruct (f_receiver (client s)).
  - intros He. by simplify_outcome.
  - unfold server_read. rewrite Hw. by destruct (s_receiver (srv s)).
  - intros He. by simplify_outcome.
  - by rewrite Hh.
  - destruct (s_sender (srv s)) eqn:E; [|done..]. intros He. simplify_outcome. unfold server_gather in He.
    rewrite Hc in He. destruct (s_close_ (srv s)) eqn:Hcl; simpl in He; rewrite ?Hcl in He; simpl in He; injection He as <-; unfold dead; simpl; rewrite ?E, ?Hc; tauto.
  - destruct (s_sender (srv s)) as [|l d|]; [done| |done]. simpl in Hs'. subst l.
    destruct ok; intros [= <-]; unfold dead; simpl; rewrite ?app_nil_r; done.
Qed.

Lemma dead_run junk conn es s s' : dead conn s -> run junk s es = Ok s' -> dead conn s'.
Proof.
  unfold run. revert s. induction es as [|e es IH]; intros s Hd Hrun; simpl in Hrun; [by injection Hrun as <-|].
  apply bind_Ok in Hrun as (s1 & H1 & Hrun). by eapply IH; [eapply dead_step|].
Qed.

(** C38: A flow that is closed with one request in its queue gathers the request
    and then ends without sending it: whatever happens afterwards, on either
    side, no call of the flow ever gets an answer. *)
Theorem close_drops_call junk src conn s es s' :
  run junk start [ECall src conn; EClose; EClientGather] = Ok s -> run junk s es = Ok s' ->
  conn ∈ map completion (calls s') /\ done s' = [] /\ handled s' = [] /\ c2s s' = [].
Proof.
  intros H0 Hrun. enough (dead conn s') as (_ & _ & Hd) by tauto.
  apply (dead_run junk conn es s); [|done]. injection H0 as <-. repeat split. simpl. constructor.
Qed.

(** The request and its connection's end have reached the server. *)
Definition cut_off (src : list Z) (conn : Z) : list event :=
  [ECall src conn; EClientGather; EClientWrite true; EServerRead true] ++
  (if size_bytes src =? 0 then [] else [EServerRead true]) ++ [EServerRead false; EServerGather].

(** C40: A server whose connection ends while a handler runs is destroyed before
    the handler returns: returning the reply then uses a destroyed object. *)
Theorem handler_outlives_server junk src conn reply :
  valid_req (Req src conn) ->
  exists s, run junk start (cut_off src conn) = Ok s /\ handlers (srv s) = [Req src conn] /\
    exec junk s (EHandler 0 reply) = Fault Undefined.
Proof.
  intros Hv. assert (read_header (frames junk 1 [Req src conn]) = Some (CreateRPCHeader 1 (size_bytes src) conn, src ++ [])) as Hh.
  { apply (read_header_frame junk 1 (Req src conn) []); [lia|done]. }
  unfold run, cut_off. rewrite ofold_app. simpl. change (u32 (inflight (RPCFlow_Call src conn new_flow) + 1)) with 1.
  set (w := frames junk 1 _) in *. clearbody w. unfold server_read at 1. simpl. rewrite Hh. simpl.
  destruct (Z.eqb_spec (size_bytes src) 0) as [Hz|Hz].
  - apply size_bytes_0 in Hz as ->. eexists. by repeat split.
  - simpl. unfold server_read. simpl. rewrite read_bytes_app by (unfold size_bytes; lia). eexists. by repeat split.
Qed.

Lemma close_drops_call_witness :
  exists s s', run no_junk start [ECall [7] 1000; EClose; EClientGather] = Ok s /\ run no_junk s [EServerRead false; EServerGather] = Ok s' /\ done s' = [].
Proof.
  eexists _, _. split; [vm_compute; reflexivity|]. split; [vm_compute; reflexivity|].
  eapply (close_drops_call no_junk [7] 1000 _ [EServerRead false; EServerGather]); vm_compute; reflexivity.
Defined.

Lemma handler_outlives_server_witness :
  exists s, run no_junk start (cut_off [7] 1000) = Ok s /\ exec no_junk s (EHandler 0 [9]) = Fault Undefined.
Proof.
  destruct (handler_outlives_server no_junk [7] 1000 [9]) as (s & H1 & _ & H2); [split; vm_compute; repeat split; discriminate|].
  exists s. by split.
Defined.
End RPC.
