(* ===== verification/CoreLocalCache.v ===== *)
(** * CoreLocalCache

    [src/sandook/base/core_local_cache.h]: a stack of items per core, used
    with preemption off, in front of a shared stack under a spin lock. When
    both are empty [reserve] asks [new_fn_] for more. Items are pointers, so
    the model keeps them abstract; [new_fn_] is a parameter that acts on a
    state [E] of its own. *)

From S2P Require Import Prelude.

Local Open Scope Z_scope.

Module CoreLocalCache.

Section Cache.
Context {A E : Type} (new_fn_ : E -> outcome (list A * E)).

(** Stacks, the top first. *)
Record t := mk { per_core_capacity_ : Z; locals_ : list (list A); global_ : list A }.
#[global] Instance settable : Settable t := settable! mk <per_core_capacity_; locals_; global_>.

Definition init (kMaxNumCores : nat) (per_core_capacity : Z) : t :=
  mk per_core_capacity (replicate kMaxNumCores []) [].

Definition size (items : list A) : Z := Z.of_nat (length items).

(** [locals_] is a C array indexed by the running core. *)
Definition local (s : t) (cpu : nat) : outcome (list A) :=
  match locals_ s !! cpu with Some l => Ok l | None => Fault Undefined end.

Definition pop (cpu : nat) (items : list A) (s : t) : option A * t :=
  match items with
  | [] => (None, s <| locals_ := <[cpu := []]> (locals_ s) |>)
  | x :: rest => (Some x, s <| locals_ := <[cpu := rest]> (locals_ s) |>)
  end.

(** The first critical section of [get]. *)
Definition get_fast (cpu : nat) (s : t) : outcome (option A * t) :=
  items ← local s cpu;
  Ok (pop cpu items s).

(** Moves from the shared stack while it has items and there is room. *)
Fixpoint refill (capacity : Z) (global items : list A) : list A * list A :=
  match global with
  | x :: global' => if size items <? capacity then refill capacity global' (x :: items) else (global, items)
  | [] => ([], items)
  end.

(** The critical section of [get_slow_path]. *)
Definition get_refill (cpu : nat) (s : t) : outcome (option A * t) :=
  items ← local s cpu;
  let (global, items) := refill (per_core_capacity_ s) (global_ s) items in
  Ok (pop cpu items (s <| global_ := global |>)).

(** The critical section of [reserve]: each item is pushed in turn. *)
Definition push_all (items : list A) (s : t) : t := s <| global_ := rev items ++ global_ s |>.

(** The loop of [reserve]; [fuel] bounds the calls of [new_fn_]. *)
Fixpoint collect (fuel : nat) (global_size : Z) (items : list A) (e : E) : outcome (list A * E) :=
  if size items <? global_size then
    match fuel with
    | O => Fault NoProgress
    | S fuel => r ← new_fn_ e; collect fuel global_size (items ++ fst r) (snd r)
    end
  else Ok (items, e).

Definition reserve (fuel : nat) (global_size : Z) (s : t) (e : E) : outcome (t * E) :=
  r ← collect fuel global_size [] e;
  Ok (push_all (fst r) s, snd r).

(** [cpus] lists the core the thread runs on in each critical section: it can
    migrate between them. *)
Fixpoint get_slow_path (fuel : nat) (cpus : list nat) (s : t) (e : E) : outcome (A * t * E) :=
  match cpus with
  | [] => Fault NoProgress
  | cpu :: cpus =>
      r ← get_refill cpu s;
      match r with
      | (Some x, s) => Ok (x, s, e)
      | (None, s) =>
          r ← reserve fuel (per_core_capacity_ s) s e;
          get_slow_path fuel cpus (fst r) (snd r)
      end
  end.

Definition get (fuel : nat) (cpus : list nat) (s : t) (e : E) : outcome (A * t * E) :=
  match cpus with
  | [] => Fault NoProgress
  | cpu :: cpus =>
      r ← get_fast cpu s;
      match r with
      | (Some x, s) => Ok (x, s, e)
      | (None, s) => get_slow_path fuel cpus s e
      end
  end.

(** [put_slow_path]: moves to the shared stack while the local one is larger
    than half the capacity. *)
Fixpoint spill (bound : Z) (items global : list A) : list A * list A :=
  match items with
  | x :: items' => if bound <? size items then spill bound items' (x :: global) else (items, global)
  | [] => ([], global)
  end.

Definition put_slow_path (cpu : nat) (items : list A) (s : t) : t :=
  let (items, global) := spill (Z.max (per_core_capacity_ s / 2) 1) items (global_ s) in
  s <| locals_ := <[cpu := items]> (locals_ s) |> <| global_ := global |>.

Definition put (cpu : nat) (item : A) (s : t) : outcome t :=
  items ← local s cpu;
  let items := item :: items in
  Ok (if per_core_capacity_ s <? size items then put_slow_path cpu items s
      else s <| locals_ := <[cpu := items]> (locals_ s) |>).

(** The destructor: what it passes to [delete_fn_], in order. *)
Definition destroy (s : t) : list A := concat (locals_ s) ++ global_ s.

(** ** What the cache holds *)

Definition held (s : t) : list A := concat (locals_ s) ++ global_ s.

Lemma concat_insert (ls : list (list A)) cpu l l' :
  ls !! cpu = Some l -> concat (<[cpu := l']> ls) ++ l ≡ₚ concat ls ++ l'.
Proof. intros H. pose proof (concat_insert_perm id ls cpu l l' H) as Hp. by rewrite !map_id in Hp. Qed.

Lemma local_Ok s cpu l : local s cpu = Ok l -> locals_ s !! cpu = Some l.
Proof. unfold local. destruct (locals_ s !! cpu); naive_solver. Qed.

Lemma set_local_held s cpu l l' g :
  locals_ s !! cpu = Some l ->
  held (s <| locals_ := <[cpu := l']> (locals_ s) |> <| global_ := g |>) ++ (l ++ global_ s) ≡ₚ held s ++ (l' ++ g).
Proof.
  intros Hl. unfold held. simpl. pose proof (concat_insert _ _ _ l' Hl) as Hc.
  transitivity ((concat (<[cpu := l']> (locals_ s)) ++ l) ++ g ++ global_ s); [solve_Permutation|].
  rewrite Hc. solve_Permutation.
Qed.

Lemma refill_spec cap g l : let (g', l') := refill cap g l in
  l' ++ g' ≡ₚ l ++ g /\ size l' <= Z.max (size l) cap /\ (0 < cap -> l' = [] -> l = [] /\ g = []).
Proof.
  revert l. induction g as [|x g IH]; intros l; simpl.
  - split_and!; [done|lia|done].
  - destruct (Z.ltb_spec (size l) cap) as [Hs|Hs].
    + specialize (IH (x :: l)). destruct (refill cap g (x :: l)) as [g' l']. destruct IH as (Hp & Hb & Hn).
      rewrite Hp. unfold size in *. simpl in *. split_and!; [solve_Permutation|lia|].
      intros Hc Hl. destruct (Hn Hc Hl) as [? _]. done.
    + unfold size in *. split_and!; [done|lia|]. intros ? ->. simpl in Hs. lia.
Qed.

Lemma spill_spec b l g : let (l', g') := spill b l g in
  l' ++ g' ≡ₚ l ++ g /\ size l' <= Z.max b 0.
Proof.
  revert g. induction l as [|x l IH]; intros g; simpl; [unfold size; simpl; split; [done|lia]|].
  destruct (Z.ltb_spec b (size (x :: l))) as [Hs|Hs]; [|split; [done|lia]].
  specialize (IH (x :: g)). destruct (spill b l (x :: g)) as [l' g']. destruct IH as [-> Hb].
  split; [solve_Permutation|done].
Qed.

(** The atomic sections of the operations, in any order: the pops and refills
    of [get], the pushes of [reserve] with what [new_fn_] returned, and
    [put]. *)
Inductive event :=
| EGet (cpu : nat)
| ERefill (cpu : nat)
| EReserve (items : list A)
| EPut (cpu : nat) (item : A).

(** The cache with the items its users hold and all the items ever made; a
    user returns only what it holds. *)
Record sys := Sys { cache : t; out : list A; made : list A }.

Definition taken (s : sys) (r : option A * t) : sys :=
  Sys (snd r) (option_list (fst r) ++ out s) (made s).

Fixpoint remove_one `{EqDecision A} (x : A) (l : list A) : option (list A) :=
  match l with
  | [] => None
  | y :: l' => if decide (x = y) then Some l' else (y ::.) <$> remove_one x l'
  end.

Definition exec `{EqDecision A} (s : sys) (ev : event) : outcome sys :=
  match ev with
  | EGet cpu => r ← get_fast cpu (cache s); Ok (taken s r)
  | ERefill cpu => r ← get_refill cpu (cache s); Ok (taken s r)
  | EReserve items => Ok (Sys (push_all items (cache s)) (out s) (items ++ made s))
  | EPut cpu item =>
      match remove_one item (out s) with
      | Some out' => c ← put cpu item (cache s); Ok (Sys c out' (made s))
      | None => Fault Undefined
      end
  end.

Lemma remove_one_Some `{EqDecision A} (x : A) l l' : remove_one x l = Some l' -> l ≡ₚ x :: l'.
Proof.
  revert l'. induction l as [|y l IH]; intros l' H; simpl in H; [done|].
  case_decide; simplify_eq; [done|]. apply fmap_Some in H as (k & Hk & ->). rewrite (IH _ Hk). solve_Permutation.
Qed.

Definition bounded (s : t) : Prop :=
  Forall (fun l => size l <= Z.max (per_core_capacity_ s) 1) (locals_ s).

(** What an atomic section does to the items held and to the local sizes. *)
Definition gives (x : option A) (s s' : t) : Prop :=
  held s ≡ₚ option_list x ++ held s' /\ (bounded s -> bounded s') /\
  per_core_capacity_ s' = per_core_capacity_ s /\ length (locals_ s') = length (locals_ s).

Lemma set_local_bounded s cpu l g :
  size l <= Z.max (per_core_capacity_ s) 1 -> bounded s ->
  bounded (s <| locals_ := <[cpu := l]> (locals_ s) |> <| global_ := g |>).
Proof. intros Hl Hb. unfold bounded in *. simpl. by apply Forall_insert. Qed.

Lemma pop_gives s cpu l l' g :
  locals_ s !! cpu = Some l -> l' ++ g ≡ₚ l ++ global_ s -> size l' <= Z.max (size l) (per_core_capacity_ s) ->
  let (x, s') := pop cpu l' (s <| global_ := g |>) in gives x s s'.
Proof.
  intros Hl Hp Hsz.
  assert (forall x l1, l' = option_list x ++ l1 ->
    gives x s (s <| locals_ := <[cpu := l1]> (locals_ s) |> <| global_ := g |>)) as Hgen.
  { intros x l1 ->. split_and!; [|intros Hb; apply set_local_bounded; [|done]|done|simpl; by rewrite length_insert].
    - apply (Permutation_app_inv_r (option_list x ++ l1 ++ g)).
      pose proof (set_local_held s cpu l l1 g Hl) as Hh. rewrite <- Hp in Hh.
      transitivity (option_list x ++ held s ++ l1 ++ g); [solve_Permutation|].
      rewrite <- Hh. solve_Permutation.
    - pose proof (proj1 (Forall_lookup _ _) Hb cpu l Hl) as Hb'. unfold size in *. rewrite length_app in Hsz. simpl in *. lia. }
  destruct l' as [|x l1]; simpl; [apply (Hgen None); done|apply (Hgen (Some x)); done].
Qed.

Lemma get_fast_gives cpu s x s' : get_fast cpu s = Ok (x, s') -> gives x s s'.
Proof.
  intros Hg. unfold get_fast in Hg. simplify_outcome. apply local_Ok in Hrun.
  pose proof (pop_gives s cpu v v (global_ s) Hrun ltac:(done) ltac:(lia)) as H.
  replace (s <| global_ := global_ s |>) with s in H by (by destruct s). by rewrite Hg in H.
Qed.

Lemma get_refill_gives cpu s x s' :
  get_refill cpu s = Ok (x, s') -> gives x s s' /\ (0 < per_core_capacity_ s -> x = None -> global_ s = []).
Proof.
  intros Hg. unfold get_refill in Hg. simplify_outcome. apply local_Ok in Hrun.
  pose proof (refill_spec (per_core_capacity_ s) (global_ s) v) as Hr.
  destruct (refill _ _ _) as [g l]. destruct Hr as (Hp & Hsz & Hnil). simplify_outcome.
  pose proof (pop_gives s cpu v l g Hrun Hp Hsz) as H. simpl in H, Hg; rewrite Hg in H. split; [done|].
  intros Hc ->. destruct l; [|done]. by apply Hnil.
Qed.

Lemma put_gives cpu x s s' : put cpu x s = Ok s' ->
  held s' ≡ₚ x :: held s /\ (bounded s -> bounded s') /\ per_core_capacity_ s' = per_core_capacity_ s.
Proof.
  intros Hput. unfold put in Hput. simplify_outcome. apply local_Ok in Hrun.
  assert (forall l g, l ++ g ≡ₚ x :: v ++ global_ s -> held (s <| locals_ := <[cpu := l]> (locals_ s) |> <| global_ := g |>) ≡ₚ x :: held s) as Hh.
  { intros l g Hp. apply (Permutation_app_inv_r (v ++ global_ s)). rewrite (set_local_held s cpu v l g Hrun), Hp.
    solve_Permutation. }
  destruct (Z.ltb_spec (per_core_capacity_ s) (size (x :: v))) as [Hs|Hs].
  - unfold put_slow_path. pose proof (spill_spec (Z.max (per_core_capacity_ s / 2) 1) (x :: v) (global_ s)) as Hsp.
    destruct (spill _ _ _) as [l g]. destruct Hsp as [Hp Hb]. split_and!; [by apply Hh| |done].
    apply set_local_bounded. unfold size in *. simpl in *.
    assert (per_core_capacity_ s / 2 <= Z.max (per_core_capacity_ s) 0); [|lia].
    destruct (Z.le_gt_cases 0 (per_core_capacity_ s)); [|pose proof (Z.div_lt_upper_bound (per_core_capacity_ s) 2 0); lia].
    pose proof (Z.div_le_upper_bound (per_core_capacity_ s) 2 (per_core_capacity_ s)). lia.
  - pose proof (Hh (x :: v) (global_ s) ltac:(done)) as Hh'. split_and!; [done| |done].
    intros Hb. apply (set_local_bounded s cpu (x :: v) (global_ s)); [lia|done].
Qed.

(** C22: Over every interleaving of the operations' critical sections, the items
    made are exactly those the cache would delete and those its users hold,
    each with its multiplicity, and no core keeps more than its capacity. *)
Theorem items_conserved `{EqDecision A} cores cap evs s :
  ofold exec (Sys (init cores cap) [] []) evs = Ok s ->
  destroy (cache s) ++ out s ≡ₚ made s /\ bounded (cache s).
Proof.
  intros Hrun. refine (ofold_ind (fun _ s => held (cache s) ++ out s ≡ₚ made s /\ bounded (cache s)) exec evs _ _ _ _ Hrun).
  - split; [|apply Forall_replicate; unfold size; simpl; lia]. unfold held. simpl. rewrite app_nil_r.
    clear Hrun. induction cores; simpl; [done|]. done.
  - intros done ev rest st st' _ [Hh Hb] Hex. destruct ev as [cpu|cpu|items|cpu x]; simpl in Hex; simplify_outcome.
    + destruct v as [x c]. apply get_fast_gives in Hrun0 as (Hp & Hbd & _). simpl. split; [|by apply Hbd].
      rewrite <- Hh, Hp. solve_Permutation.
    + destruct v as [x c]. apply get_refill_gives in Hrun0 as [(Hp & Hbd & _) _]. simpl. split; [|by apply Hbd].
      rewrite <- Hh, Hp. solve_Permutation.
    + split; [|done]. rewrite <- Hh. unfold held. simpl. rewrite <- (Permutation_rev items). solve_Permutation.
    + destruct (remove_one x (out st)) as [o|] eqn:Ho; [|done]. simplify_outcome.
      apply remove_one_Some in Ho. apply put_gives in Hrun0 as (Hp & Hbd & _). simpl. split; [|by apply Hbd].
      rewrite <- Hh, Hp, Ho. solve_Permutation.
Qed.

(** ** One call of [get] *)

(** What a sequence of calls of [new_fn_] made. *)
Inductive news : E -> list A -> E -> Prop :=
| news_nil e : news e [] e
| news_cons e l e1 l' e2 : new_fn_ e = Ok (l, e1) -> news e1 l' e2 -> news e (l ++ l') e2.

Lemma news_app e l e1 l' e2 : news e l e1 -> news e1 l' e2 -> news e (l ++ l') e2.
Proof. induction 1; intros; simpl; [done|]. rewrite <- app_assoc. econstructor; eauto. Qed.

Lemma collect_news fuel n items e items' e' :
  collect fuel n items e = Ok (items', e') -> exists l, items' = items ++ l /\ news e l e' /\ n <= size items'.
Proof.
  revert items e. induction fuel as [|fuel IH]; intros items e H; simpl in H;
    destruct (Z.ltb_spec (size items) n); simplify_outcome.
  - exists []. rewrite app_nil_r. split_and!; [done|constructor|done].
  - destruct v as [l e1]. apply IH in H as (l' & -> & Hn & Hle). exists (l ++ l'). rewrite <- app_assoc in *.
    split_and!; [done|by econstructor|done].
  - exists []. rewrite app_nil_r. split_and!; [done|constructor|done].
Qed.

Lemma push_all_held items s : held (push_all items s) ≡ₚ held s ++ items.
Proof. unfold held, push_all. simpl. rewrite <- (Permutation_rev items). solve_Permutation. Qed.

Lemma get_slow_path_spec fuel cpus s e x s' e' :
  get_slow_path fuel cpus s e = Ok (x, s', e') ->
  exists l, news e l e' /\ held s ++ l ≡ₚ x :: held s' /\
    per_core_capacity_ s' = per_core_capacity_ s /\ length (locals_ s') = length (locals_ s).
Proof.
  revert s e. induction cpus as [|cpu cpus IH]; intros s e Hg; simpl in Hg; [done|]. simplify_outcome.
  destruct v as [[y|] s1]; apply get_refill_gives in Hrun as [(Hp & _ & Hc & Hlen) _]; simplify_outcome.
  - exists []. rewrite app_nil_r. split_and!; [constructor|done..].
  - unfold reserve in Hrun. simplify_outcome. destruct v0 as [items e1].
    apply collect_news in Hrun0 as (l & -> & Hn & _). apply IH in Hg as (l' & Hn' & Hp' & Hc' & Hlen').
    exists (l ++ l'). split_and!; [by eapply news_app| |simpl in *; congruence..].
    rewrite <- Hp', push_all_held, Hp. simpl. by rewrite app_assoc.
Qed.

(** A call of [get] takes one item out of what the cache held and what
    [new_fn_] made meanwhile. *)
Lemma get_spec fuel cpus s e x s' e' :
  get fuel cpus s e = Ok (x, s', e') ->
  exists l, news e l e' /\ held s ++ l ≡ₚ x :: held s' /\
    per_core_capacity_ s' = per_core_capacity_ s /\ length (locals_ s') = length (locals_ s).
Proof.
  intros Hg. destruct cpus as [|cpu cpus]; simpl in Hg; [done|]. simplify_outcome.
  destruct v as [[y|] s1]; apply get_fast_gives in Hrun as (Hp & _ & Hc & Hlen); simplify_outcome.
  - exists []. rewrite app_nil_r. split_and!; [constructor|done..].
  - apply get_slow_path_spec in Hg as (l & Hn & Hp' & Hc' & Hlen'). exists l.
    split_and!; [done| |congruence..]. by rewrite <- Hp', Hp.
Qed.

Lemma collect_total (P : E -> Prop) fuel n items e :
  (forall e, P e -> exists l e', new_fn_ e = Ok (l, e') /\ l <> [] /\ P e') ->
  P e -> n <= size items + Z.of_nat fuel ->
  exists items' e', collect fuel n items e = Ok (items', e') /\ n <= size items'.
Proof.
  intros Hnew. revert items e. induction fuel as [|fuel IH]; intros items e HP Hf; simpl;
    destruct (Z.ltb_spec (size items) n); [lia|eauto| |eauto].
  destruct (Hnew e HP) as (l & e1 & -> & Hl & HP1). simpl. apply IH; [done|].
  unfold size in *. rewrite length_app. destruct l; [done|]. simpl. lia.
Qed.

Lemma section_total (f : nat -> t -> outcome (option A * t)) cpu s :
  (f = get_fast \/ f = get_refill) -> (cpu < length (locals_ s))%nat -> exists r, f cpu s = Ok r.
Proof.
  intros Hf [l Hl]%lookup_lt_is_Some. destruct Hf as [-> | ->]; unfold get_fast, get_refill, local; rewrite Hl; simpl.
  - eauto.
  - destruct (refill _ _ _). eauto.
Qed.


Lemma collect_spins fuel n items e :
  (forall e, exists e', new_fn_ e = Ok ([], e')) -> size items < n -> collect fuel n items e = Fault NoProgress.
Proof.
  intros Hnew Hn. revert e. induction fuel as [|fuel IH]; intros e; simpl; rewrite (proj2 (Z.ltb_lt _ _) Hn); [done|].
  destruct (Hnew e) as [e' ->]. simpl. by rewrite app_nil_r.
Qed.

(** If [new_fn_] keeps making nothing, as [AllocateBlocks] does when the
    controller refuses, a [get] that finds the cache empty never returns:
    whatever the number of calls and passes, [reserve] is still looping. *)
Theorem get_spins fuel c0 c1 cpus cores cap e :
  (forall e, exists e', new_fn_ e = Ok ([], e')) -> 0 < cap -> (c0 < cores)%nat -> (c1 < cores)%nat ->
  get fuel (c0 :: c1 :: cpus) (init cores cap) e = Fault NoProgress.
Proof.
  intros Hnew Hcap H0 H1. unfold get, get_fast, local, init. simpl. rewrite lookup_replicate_2 by done. simpl.
  rewrite list_insert_id by (by apply lookup_replicate_2).
  unfold get_refill, local. simpl. rewrite lookup_replicate_2 by done. simpl.
  unfold reserve. simpl. by rewrite collect_spins.
Qed.
End Cache.

(** [new_fn_] hands out numbers in twos. *)
Definition two_more (e : Z) : outcome (list Z * Z) := Ok ([e; e + 1], e + 2).

Definition sample_events : list event :=
  [EReserve [7; 8; 9]; ERefill 0%nat; EGet 0%nat; EPut 1%nat 8; ERefill 1%nat].

Lemma items_conserved_witness :
  exists s, ofold exec (Sys (init 2 2) [] []) sample_events = Ok s /\
    destroy (cache s) ++ out s ≡ₚ made s /\ bounded (cache s).
Proof. eexists. split; [vm_compute; reflexivity|]. eapply (items_conserved 2 2 sample_events); vm_compute; reflexivity. Defined.


Lemma get_spins_witness :
  get (fun e : Z => Ok (@nil Z, e)) 100 [0; 1; 0; 1]%nat (init 2 2) 40 = Fault NoProgress.
Proof. apply (get_spins (fun e : Z => Ok (@nil Z, e)) 100 0 1 [0; 1]%nat 2 2 40); [by eexists|lia..]. Defined.
End CoreLocalCache.
