(* ===== verification/Sharding.v ===== *)
(** * Requests of a virtual disk

    [src/sandook/virtual_disk/virtual_disk_base.cc]: a request is split over
    threads and processed one sector at a time by the virtual [ProcessRequest]
    of the disk, whose state [S] all threads share; the results are summed and
    the last error wins. Threads interleave at the granularity of a sector. *)

From S2P Require Import Prelude BaseTypes.

Local Open Scope Z_scope.

Definition kMaxPerRequestConcurrency : Z := 4.
Definition kMaxPerWriteRequestConcurrency : Z := 1.

Module VirtualDiskBase.

(** How a request is split: number of threads, sectors per thread, and the
    rest, which the last thread takes. *)
Record plan := Plan { nthreads : Z; sectors_per_thread : Z; remaining : Z }.

Definition make_plan (iod : IODesc.t) : outcome plan :=
  let op := IODesc.get_op iod in
  let max_concurrency :=
    if decide (op = OpType.kWrite) then kMaxPerWriteRequestConcurrency else kMaxPerRequestConcurrency in
  let nthreads := Z.min (IODesc.num_sectors iod) max_concurrency in
  let sectors_per_thread :=
    if nthreads =? IODesc.num_sectors iod then 1 else IODesc.num_sectors iod / nthreads in
  let remaining := u32 (IODesc.num_sectors iod - u32 (sectors_per_thread * nthreads)) in
  require (u32 (u32 (sectors_per_thread * nthreads) + remaining) =? IODesc.num_sectors iod) BugOn;;
  Ok (Plan nthreads sectors_per_thread remaining).

(** The request for the sector at an offset. *)
Definition sector_iod (iod : IODesc.t) (cur_sector_offset : Z) : IODesc.t :=
  iod <| IODesc.num_sectors := 1 |>
      <| IODesc.start_sector := u64 (IODesc.start_sector iod + cur_sector_offset) |>
      <| IODesc.addr := u64 (IODesc.addr iod + u64 (kDeviceAlignment * cur_sector_offset)) |>.

(** The requests of one thread, in the order of its loop. *)
Definition thread_iods (iod : IODesc.t) (p : plan) (tid : Z) : list IODesc.t :=
  let cur_thread_start_sector := u32 (tid * sectors_per_thread p) in
  let cur_thread_nsectors :=
    if tid =? u32 (nthreads p - 1) then u32 (sectors_per_thread p + remaining p) else sectors_per_thread p in
  map (fun i => sector_iod iod (u32 (cur_thread_start_sector + i))) (zrange 0 (Z.to_nat cur_thread_nsectors)).

Definition shards (iod : IODesc.t) (p : plan) : list (list IODesc.t) :=
  map (thread_iods iod p) (zrange 0 (Z.to_nat (nthreads p))).

Section Process.
Context {S : Type} (ProcessRequest : IODesc.t -> S -> outcome (Status Z * S)).

(** The two atomics the threads update, and the disk. *)
Record shared := Shared { res : Z; err_code : Z; disk : S }.

Definition process_one (iod_cur : IODesc.t) (st : shared) : outcome shared :=
  r ← ProcessRequest iod_cur (disk st);
  match r with
  | (MakeError c, d) => Ok (Shared (res st) c d)
  | (Value n, d) => Ok (Shared (i32 (res st + n)) (err_code st) d)
  end.

(** A schedule names the thread that processes its next sector. *)
Fixpoint run_threads (schedule : list nat) (threads : list (list IODesc.t)) (st : shared) : outcome shared :=
  match schedule with
  | [] => require (bool_decide (Forall (fun l => l = []) threads)) NoProgress;; Ok st
  | tid :: schedule' =>
      match threads !! tid with
      | Some (iod_cur :: rest) =>
          st' ← process_one iod_cur st;
          run_threads schedule' (<[tid := rest]> threads) st'
      | _ => Fault NoProgress
      end
  end.

Definition ProcessShardedRequests (schedule : list nat) (iod : IODesc.t) (d : S) : outcome (IOResult.t * S) :=
  p ← make_plan iod;
  st ← run_threads schedule (shards iod p) (Shared 0 0 d);
  Ok (if err_code st =? 0 then IOResult.mk IOStatus.kOk (res st) else IOResult.mk IOStatus.kFailed (err_code st),
      disk st).

(** [IOCallback] stores the result where the caller waits for it. *)
Definition IOCallback (io_result : IOResult.t) : Z := IOResult.res io_result.

(** [Read] and [Write]: submit, wait for the callback, return what it stored.
    [callback_args] and [callback] are the addresses the caller passes. *)
Definition submit_and_wait (schedule : list nat) (op : OpType.t) (sector buf_size buf_data callback_args callback : Z)
    (d : S) : outcome (Status Z * S) :=
  let iod := IODesc.mk (OpType.code op) (u32 (Z.shiftr buf_size kSectorShift)) sector buf_data
               callback_args callback in
  r ← ProcessShardedRequests schedule iod d;
  Ok (Value (IOCallback (fst r)), snd r).

Definition Read (schedule : list nat) (sector buf_size buf_data callback_args callback : Z) (d : S)
    : outcome (Status Z * S) :=
  submit_and_wait schedule OpType.kRead sector buf_size buf_data callback_args callback d.

Definition Write (schedule : list nat) (sector buf_size buf_data callback_args callback : Z) (d : S)
    : outcome (Status Z * S) :=
  submit_and_wait schedule OpType.kWrite sector buf_size buf_data callback_args callback d.

Definition Allocate (schedule : list nat) (sector n_sectors callback_args callback : Z) (d : S)
    : outcome (Status unit * S) :=
  r ← ProcessShardedRequests schedule
        (IODesc.mk (OpType.code OpType.kAllocate) n_sectors sector 0 callback_args callback) d;
  Ok (Value tt, snd r).
End Process.

(** ** The split covers every sector once *)

Lemma make_plan_spec iod :
  0 <= IODesc.num_sectors iod < 2 ^ 32 ->
  exists p, make_plan iod = Ok p /\ 0 <= nthreads p <= 4 /\ 0 < sectors_per_thread p /\ 0 <= remaining p /\
    sectors_per_thread p * nthreads p + remaining p = IODesc.num_sectors iod /\
    (nthreads p = 0 -> IODesc.num_sectors iod = 0) /\
    (IODesc.get_op iod = OpType.kWrite -> nthreads p <= 1).
Proof.
  intros Hn. unfold make_plan. set (n := IODesc.num_sectors iod) in *.
  set (maxc := if decide _ then _ else _).
  assert (1 <= maxc <= 4 /\ (IODesc.get_op iod = OpType.kWrite -> maxc = 1)) as [Hmax Hwr].
  { unfold maxc, kMaxPerWriteRequestConcurrency, kMaxPerRequestConcurrency. case_decide; split; try lia; done. }
  set (nt := Z.min n maxc). set (spt := if nt =? n then 1 else n / nt).
  assert (0 < spt /\ 0 <= spt * nt <= n) as [Hspt Hle].
  { unfold spt. destruct (Z.eqb_spec nt n) as [E|E]; [unfold nt in *; lia|].
    assert (0 < nt < n) as Hnt by (unfold nt in *; lia). pose proof (Z.mul_div_le n nt ltac:(lia)).
    pose proof (Z.div_str_pos n nt ltac:(lia)). split; [lia|]. nia. }
  rewrite (wrap_small 32 (spt * nt)) by lia. rewrite (wrap_small 32 (n - spt * nt)) by lia.
  replace (spt * nt + (n - spt * nt)) with n by lia. rewrite (wrap_small 32 n), Z.eqb_refl by lia. simpl.
  eexists. split; [reflexivity|]. simpl. split_and!; try lia; unfold nt; try lia. intros Hw%Hwr. lia.
Qed.

Lemma concat_blocks {A} (f : Z -> A) k n :
  concat (map (fun t => map (fun i => f (t * Z.of_nat k + i)) (zrange 0 k)) (zrange 0 n)) =
  map f (zrange 0 (n * k)).
Proof.
  induction n as [|n IH]; [done|]. rewrite zrange_S, map_app, concat_app, IH. simpl. rewrite app_nil_r.
  replace (k + n * k)%nat with (n * k + k)%nat by lia. rewrite zrange_app, map_app. f_equal.
  rewrite <- (zrange_shift (0 + Z.of_nat (n * k)) k), map_map. apply map_ext. intros i. f_equal. lia.
Qed.

Lemma shards_cover iod p :
  0 <= IODesc.num_sectors iod < 2 ^ 32 -> make_plan iod = Ok p ->
  concat (shards iod p) = map (sector_iod iod) (zrange 0 (Z.to_nat (IODesc.num_sectors iod))).
Proof.
  intros Hn Hp. destruct (make_plan_spec iod Hn) as (p' & Hp' & Hnt & Hspt & Hrem & Hsum & Hz & _).
  rewrite Hp' in Hp. simplify_eq. set (n := IODesc.num_sectors iod) in *. unfold shards.
  destruct (Z.to_nat (nthreads p)) as [|m] eqn:Em.
  { rewrite Hz by lia. done. }
  rewrite zrange_S, map_app, concat_app. simpl concat at 2. rewrite app_nil_r.
  set (k := Z.to_nat (sectors_per_thread p)).
  assert (Z.of_nat m * sectors_per_thread p + sectors_per_thread p + remaining p = n) as Hn' by nia.
  assert (forall t i, 0 <= t <= Z.of_nat m -> 0 <= i < sectors_per_thread p + remaining p ->
    0 <= t * sectors_per_thread p <= n /\ 0 <= t * sectors_per_thread p + i < 2 ^ 32) as Hbnd by (intros; nia).
  replace (Z.to_nat n) with (m * k + Z.to_nat (sectors_per_thread p + remaining p))%nat by (unfold k; nia).
  rewrite zrange_app, map_app. f_equal.
  - rewrite <- (concat_blocks (sector_iod iod) k m). f_equal. apply map_ext_in.
    intros t Ht%list_elem_of_In%elem_of_zrange. unfold thread_iods.
    rewrite (wrap_small 32 (nthreads p - 1)) by lia. rewrite (proj2 (Z.eqb_neq t (nthreads p - 1))) by lia.
    apply map_ext_in. intros i Hi%list_elem_of_In%elem_of_zrange.
    destruct (Hbnd t i) as [? ?]; [lia|unfold k in *; lia|].
    rewrite (wrap_small 32 (t * _)), (wrap_small 32 (_ + i)) by lia. f_equal. unfold k. lia.
  - unfold thread_iods. rewrite (wrap_small 32 (nthreads p - 1)) by lia.
    rewrite (proj2 (Z.eqb_eq _ (nthreads p - 1))) by lia.
    rewrite (wrap_small 32 (sectors_per_thread p + remaining p)) by nia.
    rewrite <- (zrange_shift (0 + Z.of_nat (m * k))), map_map. apply map_ext_in.
    intros i Hi%list_elem_of_In%elem_of_zrange. destruct (Hbnd (Z.of_nat m) i) as [? ?]; [lia|lia|].
    rewrite (wrap_small 32 (Z.of_nat m * _)), (wrap_small 32 (_ + i)) by lia. f_equal. unfold k. lia.
Qed.

(** ** What the threads do *)

Section Runs.
Context {S : Type} (ProcessRequest : IODesc.t -> S -> outcome (Status Z * S)).

(** Sectors processed one after the other. *)
Definition process_all (st : shared) (order : list IODesc.t) : outcome shared :=
  ofold (fun st iod => process_one ProcessRequest iod st) st order.

Lemma concat_pop {A} (threads : list (list A)) tid x rest :
  threads !! tid = Some (x :: rest) -> concat threads ≡ₚ x :: concat (<[tid := rest]> threads).
Proof.
  revert tid. induction threads as [|l threads IH]; intros [|tid] Hl; simplify_eq/=; [done|].
  rewrite (IH _ Hl). by rewrite Permutation_middle.
Qed.

Lemma run_threads_order schedule threads st st' :
  run_threads ProcessRequest schedule threads st = Ok st' ->
  exists order, order ≡ₚ concat threads /\ process_all st order = Ok st' /\
    (length threads <= 1 -> order = concat threads)%nat.
Proof.
  revert threads st. induction schedule as [|tid schedule IH]; intros threads st Hrun; simpl in Hrun.
  - simplify_outcome. apply bool_decide_eq_true_1 in Hrun0. exists []. split_and!; [|done|].
    + clear -Hrun0. induction Hrun0 as [|l ls -> _ IH]; [done|]. exact IH.
    + intros _. clear -Hrun0. induction Hrun0 as [|l ls -> _ IH]; [done|]. exact IH.
  - destruct (threads !! tid) as [[|iod rest]|] eqn:Et; simplify_outcome.
    destruct (IH _ _ Hrun) as (order & Hperm & Hall & Hone). exists (iod :: order). split_and!.
    + by rewrite Hperm, (concat_pop _ _ _ _ Et).
    + unfold process_all. simpl. by rewrite Hrun0.
    + rewrite length_insert in Hone. intros Hlen. rewrite (Hone Hlen).
      destruct threads as [|l [|? ?]]; [done| |simpl in Hlen; lia]. destruct tid; simplify_eq/=. done.
Qed.

(** C10: Whatever the interleaving of the threads, every sector of the request is
    processed exactly once, with its own sector number and buffer address, on
    one state after the other; the sectors of a write in increasing order. The
    request fails with the last error, or returns the sum of the results. *)
Theorem sharded_once schedule iod d r d' :
  0 <= IODesc.num_sectors iod < 2 ^ 32 ->
  ProcessShardedRequests ProcessRequest schedule iod d = Ok (r, d') ->
  exists order st,
    order ≡ₚ map (sector_iod iod) (zrange 0 (Z.to_nat (IODesc.num_sectors iod))) /\
    (IODesc.get_op iod = OpType.kWrite ->
     order = map (sector_iod iod) (zrange 0 (Z.to_nat (IODesc.num_sectors iod)))) /\
    process_all (Shared 0 0 d) order = Ok st /\ d' = disk st /\
    r = if err_code st =? 0 then IOResult.mk IOStatus.kOk (res st)
        else IOResult.mk IOStatus.kFailed (err_code st).
Proof.
  intros Hn Hrun. unfold ProcessShardedRequests in Hrun. simplify_outcome. rename v into p, v0 into st.
  pose proof (shards_cover iod p Hn Hrun0) as Hcov.
  destruct (run_threads_order _ _ _ _ Hrun1) as (order & Hperm & Hall & Hone).
  exists order, st. rewrite <- Hcov. split_and!; try done. intros Hw. apply Hone.
  destruct (make_plan_spec iod Hn) as (p' & Hp' & Hnt & _ & _ & _ & _ & Hw1).
  rewrite Hp' in Hrun0. simplify_eq. unfold shards. rewrite length_map, zrange_length. specialize (Hw1 Hw). lia.
Qed.
End Runs.

(** A disk that records the sectors asked of it. *)
Definition recorder (iod : IODesc.t) (log : list (Z * Z)) : outcome (Status Z * list (Z * Z)) :=
  Ok (Value kDeviceAlignment, log ++ [(IODesc.start_sector iod, IODesc.addr iod)]).

Lemma sharded_once_witness :
  let iod := IODesc.mk 0 6 100 (2 ^ 20) 0 0 in
  exists r d, ProcessShardedRequests recorder [3; 0; 3; 1; 2; 3]%nat iod [] = Ok (r, d) /\
    r = IOResult.mk IOStatus.kOk (6 * 4096) /\ length d = 6%nat /\
    exists order st,
      order ≡ₚ map (sector_iod iod) (zrange 0 (Z.to_nat (IODesc.num_sectors iod))) /\
      (IODesc.get_op iod = OpType.kWrite ->
       order = map (sector_iod iod) (zrange 0 (Z.to_nat (IODesc.num_sectors iod)))) /\
      process_all recorder (Shared 0 0 []) order = Ok st /\ d = disk st /\
      r = if err_code st =? 0 then IOResult.mk IOStatus.kOk (res st)
          else IOResult.mk IOStatus.kFailed (err_code st).
Proof.
  intros iod. eexists _, _. split; [vm_compute; reflexivity|]. split; [reflexivity|]. split; [reflexivity|].
  apply (sharded_once recorder [3; 0; 3; 1; 2; 3]%nat iod); [unfold iod; simpl; lia|vm_compute; reflexivity].
Defined.

(** A read or write of one sector that the disk fails with code [c] returns to
    its caller the value [c], not an error. *)
Theorem failure_returned_as_value {S : Type} (ProcessRequest : IODesc.t -> S -> outcome (Status Z * S))
    op sector buf args cb d d' c :
  op = OpType.kRead \/ op = OpType.kWrite -> 0 <= sector < 2 ^ 64 -> 0 <= buf < 2 ^ 64 -> c <> 0 ->
  ProcessRequest (IODesc.mk (OpType.code op) 1 sector buf args cb) d = Ok (MakeError c, d') ->
  submit_and_wait ProcessRequest [0%nat] op sector kDeviceAlignment buf args cb d = Ok (Value c, d').
Proof.
  intros Hop Hs Hb Hc Hfail. unfold submit_and_wait, ProcessShardedRequests.
  change (u32 (Z.shiftr kDeviceAlignment kSectorShift)) with 1.
  set (iod := IODesc.mk (OpType.code op) 1 sector buf args cb) in *.
  assert (make_plan iod = Ok (Plan 1 1 0)) as ->.
  { unfold iod. destruct Hop as [-> | ->]; vm_compute; reflexivity. }
  assert (shards iod (Plan 1 1 0) = [[iod]]) as Hsh.
  { change (shards iod (Plan 1 1 0)) with [[sector_iod iod 0]]. unfold sector_iod. simpl.
    change (u64 (kDeviceAlignment * 0)) with 0. rewrite !Z.add_0_r, !wrap_small by lia. done. }
  cbn [mbind outcome_bind]. rewrite Hsh. simpl. unfold process_one. simpl. rewrite Hfail. simpl.
  by rewrite (proj2 (Z.eqb_neq c 0) Hc).
Qed.

Lemma failure_returned_as_value_witness :
  submit_and_wait (fun _ d => Ok (MakeError EIO, d)) [0%nat] OpType.kRead 7 kDeviceAlignment 4096 0 0 tt
  = Ok (Value EIO, tt).
Proof.
  apply (failure_returned_as_value (fun _ d => Ok (MakeError EIO, d)) OpType.kRead 7 4096 0 0 tt tt EIO);
    [by left|lia|lia|discriminate|reflexivity].
Defined.

End VirtualDiskBase.

(** ** The work queues

    One queue and one worker thread per core. A submission appends under the
    queue's lock; the worker, woken with its lock held, empties the queue,
    starting the processing of each request, and ends once the disk is stopped. *)
Module WorkQueues.

Record WorkQueueThread := mkQueue {
  reqs : list IODesc.t;
  spawned : list IODesc.t;
  exited : bool;
}.
#[global] Instance queue_settable : Settable WorkQueueThread := settable! mkQueue <reqs; spawned; exited>.

Record t := mk { work_queue_ths_ : list WorkQueueThread; stop_ : bool }.
#[global] Instance settable : Settable t := settable! mk <work_queue_ths_; stop_>.

Definition init (cores : nat) : t := mk (replicate cores (mkQueue [] [] false)) false.

Definition SubmitRequestAndPark (cpu_id : Z) (iod : IODesc.t) (s : t) : outcome t :=
  q ← at_ (work_queue_ths_ s) cpu_id;
  qs ← at_put (work_queue_ths_ s) cpu_id (q <| reqs := reqs q ++ [iod] |>);
  Ok (s <| work_queue_ths_ := qs |>).

(** The loop that empties the queue. *)
Fixpoint drain (pending : list IODesc.t) (q : WorkQueueThread) : WorkQueueThread :=
  match pending with
  | [] => q
  | iod :: pending' => drain pending' (q <| reqs := pending' |> <| spawned := spawned q ++ [iod] |>)
  end.

(** One pass of the worker's loop from the point it holds its lock and does
    not park; [None] when it parks. *)
Definition worker_pass (stop : bool) (q : WorkQueueThread) : option WorkQueueThread :=
  if negb stop && bool_decide (reqs q = []) then None
  else
    let q := drain (reqs q) q in
    Some (q <| exited := stop && bool_decide (reqs q = []) |>).

Definition RequestWorker (cpu_id : Z) (s : t) : outcome t :=
  q ← at_ (work_queue_ths_ s) cpu_id;
  require (negb (exited q)) NoProgress;;
  match worker_pass (stop_ s) q with
  | None => Fault NoProgress
  | Some q' => qs ← at_put (work_queue_ths_ s) cpu_id q'; Ok (s <| work_queue_ths_ := qs |>)
  end.

Inductive event := ESubmit (cpu_id : Z) (iod : IODesc.t) | EWorker (cpu_id : Z) | EStop.

Definition exec (s : t) (e : event) : outcome t :=
  match e with
  | ESubmit cpu iod => SubmitRequestAndPark cpu iod s
  | EWorker cpu => RequestWorker cpu s
  | EStop => Ok (s <| stop_ := true |>)
  end.

(** What was submitted to a core, in order. *)
Definition submitted (cpu : Z) (es : list event) : list IODesc.t :=
  omap (fun e => match e with ESubmit c iod => if c =? cpu then Some iod else None | _ => None end) es.

Lemma drain_spec pending q :
  reqs q = pending -> reqs (drain pending q) = [] /\ spawned (drain pending q) = spawned q ++ pending.
Proof.
  revert q. induction pending as [|iod pending IH]; intros q Hq; cbn [drain]; [by rewrite app_nil_r|].
  destruct (IH (q <| reqs := pending |> <| spawned := spawned q ++ [iod] |>)) as [H1 H2]; [done|].
  rewrite H1, H2. simpl. by rewrite <- app_assoc.
Qed.

Definition queue_inv (es : list event) (s : t) : Prop :=
  forall cpu q, at_ (work_queue_ths_ s) cpu = Ok q ->
    spawned q ++ reqs q = submitted cpu es /\ (exited q = true -> stop_ s = true).

Lemma exec_queue_inv es e s s' : queue_inv es s -> exec s e = Ok s' -> queue_inv (es ++ [e]) s'.
Proof.
  intros Hinv Hex cpu q' Hq'. unfold submitted. rewrite omap_app. simpl. fold (submitted cpu es).
  destruct e as [c iod|c|]; simpl in Hex.
  - unfold SubmitRequestAndPark in Hex. simplify_outcome. destruct (decide (c = cpu)) as [->|Hne].
    + rewrite Z.eqb_refl. rewrite (at_put_eq _ _ _ _ Hrun0) in Hq'. simplify_eq. simpl.
      destruct (Hinv _ _ Hrun) as [<- ?]. by rewrite <- app_assoc.
    + rewrite (proj2 (Z.eqb_neq c cpu) Hne), app_nil_r. rewrite (at_put_ne _ _ _ _ _ Hrun0 Hne) in Hq'.
      by apply Hinv.
  - rewrite app_nil_r. unfold RequestWorker in Hex. simplify_outcome.
    destruct (worker_pass (stop_ s) v) as [q|] eqn:Hw; simplify_outcome.
    destruct (decide (c = cpu)) as [->|Hne].
    + rewrite (at_put_eq _ _ _ _ Hrun1) in Hq'. simplify_eq. unfold worker_pass in Hw.
      destruct (negb _ && _); simplify_eq. simpl. destruct (drain_spec (reqs v) v eq_refl) as [-> ->].
      rewrite app_nil_r. destruct (Hinv _ _ Hrun) as [<- _]. split; [done|]. by intros [? _]%andb_true_iff.
    + rewrite (at_put_ne _ _ _ _ _ Hrun1 Hne) in Hq'. by apply Hinv.
  - simplify_outcome. rewrite app_nil_r. destruct (Hinv _ _ Hq'). done.
Qed.

(** C31: Over every order of submissions, worker passes and stops, the requests a
    core has started are a prefix, in order, of those submitted to it, and the
    rest wait in its queue: none is lost, started twice or reordered. *)
Theorem requests_start_once cores es s cpu q :
  ofold exec (init cores) es = Ok s -> at_ (work_queue_ths_ s) cpu = Ok q ->
  spawned q ++ reqs q = submitted cpu es.
Proof.
  intros Hrun Hq. apply (ofold_ind queue_inv exec es (init cores) s); [| |done|done].
  - intros c q0 (_ & Hl)%at_Ok. apply lookup_replicate in Hl as [-> _]. done.
  - intros done e rest st st' _ Hinv Hex. by eapply exec_queue_inv.
Qed.

Lemma requests_start_once_witness :
  let a := IODesc.mk 0 1 10 0 0 0 in let b := IODesc.mk 1 2 20 0 0 0 in let c := IODesc.mk 0 3 30 0 0 0 in
  exists s q, ofold exec (init 2) [ESubmit 1 a; ESubmit 0 b; EWorker 1; ESubmit 1 c] = Ok s /\
    at_ (work_queue_ths_ s) 1 = Ok q /\
    spawned q ++ reqs q = submitted 1 [ESubmit 1 a; ESubmit 0 b; EWorker 1; ESubmit 1 c].
Proof.
  intros a b c. eexists _, _. split; [vm_compute; reflexivity|]. split; [vm_compute; reflexivity|].
  eapply (requests_start_once 2 _ _ 1); vm_compute; reflexivity.
Defined.

End WorkQueues.
