(* ===== verification/DiskModels.v ===== *)
(** * Disk models

    [src/sandook/disk_model/disk_model.h]: per-disk load/latency curves, one
    for reads, one for writes and one per profiled write ratio, with the peak
    load below saturation and the latency predicted at a load. The curves come
    from files; reading one is the argument [LoadModel] of [LoadModels]. *)

From Stdlib Require Import String Sorted.
From S2P Require Import Prelude Float64 FloatInt FloatBound BaseTypes.

Local Open Scope Z_scope.

Definition kReadOnlyModelSuffix : string := "_100r.model".
Definition kWriteOnlyModelSuffix : string := "_1000w.model".

Definition kPeakLoadDampeningFactor : double := dlit 95 100.
Definition kSaturationLatencyUs : Z := 1000.
Definition kSaturationLatencyPenaltyUs : Z :=
  match to_uint 64 (of_int kSaturationLatencyUs * dlit 105 100)%double with
  | Ok z => z
  | Fault _ => 0
  end.

Module DiskModel.

Record MixModel := mkMix {
  write_ratio_bucket : double;
  load : list Z;
  latency : list Z;
}.

Record t := mk {
  load_read_ : list Z;
  latency_read_ : list Z;
  load_write_ : list Z;
  latency_write_ : list Z;
  mix_models_ : list MixModel;
}.
#[global] Instance settable : Settable t :=
  settable! mk <load_read_; latency_read_; load_write_; latency_write_; mix_models_>.

(** The default constructor: empty curves. *)
Definition empty : t := mk [] [] [] [] [].

Definition back {A} (l : list A) : outcome A := deref (last l).

(** ** Peak load *)

(** The loop of [GetPeakIOPS]: [ret] at the first saturated point. *)
Fixpoint peak_loop (load latency : list Z) (ret : Z) (idxs : list Z) : outcome Z :=
  match idxs with
  | [] => Ok ret
  | i :: idxs' =>
      lat ← at_ latency i;
      if kSaturationLatencyUs <=? lat
      then (if i =? 0 then Ok 0 else at_ load (i - 1))
      else peak_loop load latency ret idxs'
  end.

Definition GetPeakIOPS_curve (load latency : list Z) : outcome Z :=
  last_load ← back load;
  ret ← peak_loop load latency last_load (zrange 0 (length load));
  to_uint 64 (of_int ret * kPeakLoadDampeningFactor)%double.

(** ** Predicted latency *)

(** The first index whose load is at least [cur_load], or the size. *)
Fixpoint find_load (cur_load : Z) (load : list Z) (i : Z) : Z :=
  match load with
  | [] => i
  | l :: load' => if cur_load <=? l then i else find_load cur_load load' (i + 1)
  end.

Definition interpolate (cur_load : Z) (load latency : list Z) (idx : Z) : outcome Z :=
  start_load ← at_ load (idx - 1);
  end_load ← at_ load idx;
  let load_range := of_int (u64 (end_load - start_load)) in
  let cur_load_diff := of_int (u64 (cur_load - start_load)) in
  let cur_pct := (cur_load_diff / load_range)%double in
  start_latency ← at_ latency (idx - 1);
  end_latency ← at_ latency idx;
  let latency_range := of_int (u64 (end_latency - start_latency)) in
  latency_delta ← to_uint 64 (latency_range * cur_pct)%double;
  Ok (u64 (start_latency + latency_delta)).

Definition GetLatency_curve (cur_load : Z) (load latency : list Z) : outcome Z :=
  let idx := find_load cur_load load 0 in
  cur_latency ←
    (if idx =? Z.of_nat (length load) then Ok kSaturationLatencyPenaltyUs
     else if idx =? 0 then at_ latency idx
     else interpolate cur_load load latency idx);
  Ok (Z.min cur_latency kSaturationLatencyPenaltyUs).

(** ** Choosing a curve *)

Definition SelectMixModel (write_ratio : double) (m : t) : outcome MixModel :=
  match mix_models_ m with
  | [] => Fault RuntimeError
  | _ =>
    let r0 := if (write_ratio <? of_int 0)%double then of_int 0 else write_ratio in
    let r := if (of_int 1 <? r0)%double then of_int 1 else r0 in
    match find (fun mm => (r <=? write_ratio_bucket mm)%double) (mix_models_ m) with
    | Some mm => Ok mm
    | None => back (mix_models_ m)
    end
  end.

Definition GetLatency (cur_load : Z) (op : OpType.t) (mode : ServerMode.t)
    (write_ratio : double) (m : t) : outcome Z :=
  if decide (op = OpType.kRead /\ mode = ServerMode.kRead)
  then GetLatency_curve cur_load (load_read_ m) (latency_read_ m)
  else if decide (op = OpType.kWrite /\ mode = ServerMode.kWrite)
  then GetLatency_curve cur_load (load_write_ m) (latency_write_ m)
  else
    mix ← SelectMixModel write_ratio m;
    GetLatency_curve cur_load (load mix) (latency mix).

Definition GetPeakIOPS (mode : ServerMode.t) (write_ratio : double) (m : t) : outcome Z :=
  match mode with
  | ServerMode.kRead => GetPeakIOPS_curve (load_read_ m) (latency_read_ m)
  | ServerMode.kWrite => GetPeakIOPS_curve (load_write_ m) (latency_write_ m)
  | ServerMode.kMix =>
      mix ← SelectMixModel write_ratio m;
      GetPeakIOPS_curve (load mix) (latency mix)
  end.

(** ** Loading *)

Definition kMixCandidates : list (double * string) :=
  [(dlit 10 100, "_100w.model"%string); (dlit 20 100, "_200w.model"%string);
   (dlit 25 100, "_250w.model"%string); (dlit 30 100, "_300w.model"%string);
   (dlit 40 100, "_400w.model"%string); (dlit 50 100, "_500w.model"%string);
   (dlit 60 100, "_600w.model"%string); (dlit 70 100, "_700w.model"%string);
   (dlit 75 100, "_750w.model"%string)].

Section Loading.
(** Reading and parsing the file of a curve, [None] when it throws. *)
Variable LoadModel : string -> option (list Z * list Z).

Definition LoadModels (name : string) (m : t) : Status unit * t :=
  match LoadModel (name ++ kReadOnlyModelSuffix)%string with
  | None => (MakeError EINVAL, m)
  | Some (ld_r, lat_r) =>
      let m1 := m <| load_read_ := ld_r |> <| latency_read_ := lat_r |> in
      match LoadModel (name ++ kWriteOnlyModelSuffix)%string with
      | None => (MakeError EINVAL, m1)
      | Some (ld_w, lat_w) =>
          let mixes := omap (fun '(bucket, suffix) =>
            match LoadModel (name ++ suffix)%string with
            | None => None
            | Some (ld, lat) => Some (mkMix bucket ld lat)
            end) kMixCandidates in
          let m2 := m1 <| load_write_ := ld_w |> <| latency_write_ := lat_w |>
                       <| mix_models_ := mixes |> in
          match mixes with [] => (MakeError EINVAL, m2) | _ => (Value tt, m2) end
      end
  end.

(** The constructor from a disk's name. *)
Definition make (name : string) : outcome t :=
  match LoadModels name empty with
  | (Value _, m) => Ok m
  | (MakeError _, _) => Fault RuntimeError
  end.
End Loading.

(** ** Profiled curves

    One latency per load, the loads increasing, the latencies not decreasing. *)
Record wf_curve (load latency : list Z) : Prop := {
  wf_len : length latency = length load;
  wf_ne : load <> [];
  wf_range : Forall (fun x => 0 <= x < 2 ^ 53) load /\ Forall (fun x => 0 <= x < 2 ^ 53) latency;
  wf_load i j x y : load !! i = Some x -> load !! j = Some y -> (i < j)%nat -> x < y;
  wf_lat i j x y : latency !! i = Some x -> latency !! j = Some y -> (i < j)%nat -> x <= y;
}.

Lemma penalty_1050 : kSaturationLatencyPenaltyUs = 1050.
Proof. vm_compute. reflexivity. Qed.

Lemma find_load_spec cur load i0 :
  exists k : nat, find_load cur load i0 = i0 + Z.of_nat k /\ (k <= length load)%nat /\
    (forall j x, load !! j = Some x -> (j < k)%nat -> x < cur) /\
    (forall x, load !! k = Some x -> cur <= x).
Proof.
  revert i0. induction load as [|l load IH]; intros i0; simpl.
  { exists 0%nat. split_and!; [lia|done|by intros j x|done]. }
  destruct (cur <=? l) eqn:E.
  - apply Z.leb_le in E. exists 0%nat. split_and!; [lia|lia|intros; lia|]. simpl. naive_solver.
  - apply Z.leb_gt in E. destruct (IH (i0 + 1)) as (k & Hk & Hlen & Hlt & Hge).
    exists (S k). split_and!; [lia|lia| |done].
    intros [|j] x Hx Hj; simplify_eq/=; [done|]. apply (Hlt j x Hx). lia.
Qed.

(** Interpolation stays between the latencies of the two points. *)
Lemma interpolate_spec cur load latency i l0 l1 t0 t1 :
  load !! i = Some l0 -> load !! S i = Some l1 ->
  latency !! i = Some t0 -> latency !! S i = Some t1 ->
  0 <= l0 < cur -> cur <= l1 < 2 ^ 53 -> 0 <= t0 <= t1 -> t1 < 2 ^ 53 ->
  exists z, interpolate cur load latency (Z.of_nat (S i)) = Ok z /\ t0 <= z <= t1.
Proof.
  intros Hl0 Hl1 Ht0 Ht1 H0 H1 Ht Hmax. unfold interpolate.
  assert (forall (l : list Z) x, l !! i = Some x -> at_ l (Z.of_nat (S i) - 1) = Ok x) as Hat0.
  { intros l x Hx. apply at_Ok. split; [lia|]. by replace (Z.to_nat _) with i by lia. }
  assert (forall (l : list Z) x, l !! S i = Some x -> at_ l (Z.of_nat (S i)) = Ok x) as Hat1.
  { intros l x Hx. apply at_Ok. split; [lia|]. by replace (Z.to_nat _) with (S i) by lia. }
  rewrite (Hat0 _ _ Hl0), (Hat1 _ _ Hl1), (Hat0 _ _ Ht0), (Hat1 _ _ Ht1). simpl.
  rewrite !(wrap_small 64) by lia.
  destruct (to_uint_dmul_fraction (t1 - t0) (of_int (cur - l0) / of_int (l1 - l0))%double)
    as (z & -> & Hz); [lia|apply ddiv_int_fraction; lia|].
  simpl. exists (t0 + z). rewrite wrap_small by lia. split; [done|lia].
Qed.

(** The prediction, by the position of the load among the profiled ones. *)
Lemma GetLatency_at cur load latency :
  wf_curve load latency ->
  exists (k : nat) z, GetLatency_curve cur load latency = Ok z /\ (k <= length load)%nat /\
    (forall j x, load !! j = Some x -> (j < k)%nat -> x < cur) /\
    (forall x, load !! k = Some x -> cur <= x) /\
    ((k = length load /\ z = 1050) \/
     (k = 0%nat /\ exists t, latency !! 0%nat = Some t /\ z = Z.min t 1050) \/
     (exists i t0 t1, k = S i /\ latency !! i = Some t0 /\ latency !! k = Some t1 /\
        Z.min t0 1050 <= z <= Z.min t1 1050)).
Proof.
  intros [Hlen Hne [Hrl Hrt] Hinc Hmono]. rewrite Forall_lookup in Hrl, Hrt.
  unfold GetLatency_curve. rewrite penalty_1050.
  destruct (find_load_spec cur load 0) as (k & -> & Hk & Hlt & Hge). rewrite Z.add_0_l. exists k.
  destruct (Z.eqb_spec (Z.of_nat k) (Z.of_nat (length load))) as [Heq|Hneq].
  { exists 1050. split_and!; try done. left. split; [lia|done]. }
  destruct (lookup_lt_is_Some_2 load k) as [lk Hlk]; [lia|].
  destruct (lookup_lt_is_Some_2 latency k) as [tk Htk]; [lia|].
  pose proof (Hge _ Hlk). destruct k as [|k].
  { rewrite Z.eqb_refl, (proj2 (at_Ok latency (Z.of_nat 0) tk)) by done. simpl.
    eexists. split_and!; try done. right. left. eauto. }
  rewrite (proj2 (Z.eqb_neq _ _)) by lia.
  destruct (lookup_lt_is_Some_2 load k) as [l0 Hl0]; [lia|].
  destruct (lookup_lt_is_Some_2 latency k) as [t0 Ht0]; [lia|].
  pose proof (Hlt _ _ Hl0 ltac:(lia)). pose proof (Hrl _ _ Hl0). pose proof (Hrl _ _ Hlk).
  pose proof (Hrt _ _ Ht0). pose proof (Hrt _ _ Htk). pose proof (Hmono _ _ _ _ Ht0 Htk ltac:(lia)).
  destruct (interpolate_spec cur load latency k l0 lk t0 tk) as (z & -> & Hz); [done..|lia|lia|lia|lia|].
  simpl. eexists. split_and!; try done. right. right. exists k, t0, tk. split_and!; (done || lia).
Qed.

(** The bracket of a load is where the search stops. *)
Lemma bracket_unique cur load latency k i x y :
  wf_curve load latency ->
  (forall j x, load !! j = Some x -> (j < k)%nat -> x < cur) ->
  (forall x, load !! k = Some x -> cur <= x) -> (k <= length load)%nat ->
  load !! i = Some x -> load !! S i = Some y -> x < cur <= y -> k = S i.
Proof.
  intros Hwf Hlt Hge Hk Hx Hy Hc. pose proof (wf_load _ _ Hwf) as Hinc.
  destruct (decide (S i < k)%nat) as [H|H]; [apply (Hlt _ _ Hy) in H; lia|].
  destruct (decide (k <= i)%nat) as [H'|H']; [|lia].
  destruct (lookup_lt_is_Some_2 load k) as [w Hw]; [apply lookup_lt_Some in Hx; lia|].
  pose proof (Hge _ Hw). destruct (decide (k = i)) as [->|]; [simplify_eq; lia|].
  pose proof (Hinc _ _ _ _ Hw Hx ltac:(lia)). lia.
Qed.


Definition sample_load : list Z := [100000; 300000; 400000].
Definition sample_latency : list Z := [90; 150; 1400].

Lemma sample_wf : wf_curve sample_load sample_latency.
Proof.
  split; [done|done|by split; repeat constructor|..];
    intros [|[|[|i]]] [|[|[|j]]] x y Hx Hy Hij; simplify_eq/=; lia.
Qed.


(** A profile whose latency falls between two points: the difference of the
    latencies wraps around, and the prediction is the saturation penalty
    although both neighbours are far below it. *)
Theorem decreasing_latency_saturates :
  GetLatency_curve 150 [100; 200] [500; 400] = Ok kSaturationLatencyPenaltyUs.
Proof. vm_compute. reflexivity. Qed.

(** ** Peak load *)

Lemma peak_loop_spec load latency ret (k n : nat) :
  length latency = length load -> (k + n = length load)%nat ->
  (forall j t, latency !! j = Some t -> (j < k)%nat -> t < 1000) ->
  exists z, peak_loop load latency ret (zrange (Z.of_nat k) n) = Ok z /\
    ((z = ret /\ forall t, t ∈ latency -> t < 1000) \/
     (exists i t, latency !! i = Some t /\ 1000 <= t /\
        (forall j t', latency !! j = Some t' -> (j < i)%nat -> t' < 1000) /\
        match i with O => z = 0 | S j => load !! j = Some z end)).
Proof.
  intros Hlen. revert k. induction n as [|n IH]; intros k Hkn Hbelow.
  { exists ret. split; [done|]. left. split; [done|].
    intros t (j & Hj)%list_elem_of_lookup. apply (Hbelow j); [done|]. apply lookup_lt_Some in Hj. lia. }
  rewrite zrange_cons. destruct (lookup_lt_is_Some_2 latency k) as [t Ht]; [lia|].
  simpl. rewrite (proj2 (at_Ok latency (Z.of_nat k) t)) by (rewrite Nat2Z.id; split; [lia|done]).
  simpl. unfold kSaturationLatencyUs. destruct (1000 <=? t) eqn:E.
  - apply Z.leb_le in E. destruct k as [|k].
    + exists 0. split; [done|]. right. exists 0%nat, t. done.
    + destruct (lookup_lt_is_Some_2 load k) as [l Hl]; [lia|]. exists l.
      rewrite (proj2 (Z.eqb_neq _ _)) by lia. split.
      * apply at_Ok. split; [lia|]. by replace (Z.to_nat _) with k by lia.
      * right. by exists (S k), t.
  - apply Z.leb_gt in E. replace (Z.of_nat k + 1) with (Z.of_nat (S k)) by lia.
    apply IH; [lia|]. intros j t' Hj Hlt. destruct (decide (j = k)) as [->|]; [by simplify_eq|].
    apply (Hbelow j); [done|lia].
Qed.

(** [knee] is the largest profiled load reached before the first saturated
    point (zero when already the first point is saturated). *)
Definition is_knee (load latency : list Z) (knee : Z) : Prop :=
  (last load = Some knee /\ forall t, t ∈ latency -> t < 1000) \/
  (exists i t, latency !! i = Some t /\ 1000 <= t /\
     (forall j t', latency !! j = Some t' -> (j < i)%nat -> t' < 1000) /\
     match i with O => knee = 0 | S j => load !! j = Some knee end).

Lemma dampening_fraction : fraction kPeakLoadDampeningFactor.
Proof. apply is_fraction_sound. vm_compute. reflexivity. Qed.

(** The peak load of a profiled curve exists, and is the load at the knee of
    the curve scaled down: never more than a load profiled below saturation. *)
Theorem GetPeakIOPS_curve_spec load latency :
  wf_curve load latency ->
  exists knee z, is_knee load latency knee /\ GetPeakIOPS_curve load latency = Ok z /\
    0 <= z <= knee /\ dtrunc (of_int knee * kPeakLoadDampeningFactor)%double = Some z.
Proof.
  intros Hwf. destruct Hwf as [Hlen Hne [Hrl _] _ _]. rewrite Forall_lookup in Hrl.
  unfold GetPeakIOPS_curve, back.
  destruct (last load) as [b|] eqn:Hb; [|by apply last_None in Hb]. simpl.
  destruct (peak_loop_spec load latency b 0 (length load)) as (knee & Hrun & Hk); [done|lia|by intros; lia|].
  rewrite (Hrun : peak_loop load latency b (zrange 0 (length load)) = Ok knee). simpl.
  assert (0 <= knee < 2 ^ 53) as Hrange.
  { destruct Hk as [[-> _]|(i & t & _ & _ & _ & Hi)].
    - rewrite last_lookup in Hb. by apply Hrl in Hb.
    - destruct i; [lia|]. by apply Hrl in Hi. }
  destruct (dmul_fraction knee _ Hrange dampening_fraction) as (z & Hz & Hzk).
  exists knee, z. split_and!; [|unfold to_uint; rewrite Hz; by rewrite decide_True by lia|lia|lia|done].
  destruct Hk as [[-> Hall]|Hk]; [by left|by right].
Qed.

Lemma GetPeakIOPS_curve_spec_witness :
  GetPeakIOPS_curve sample_load sample_latency = Ok 285000 /\
  exists knee z, is_knee sample_load sample_latency knee /\
    GetPeakIOPS_curve sample_load sample_latency = Ok z /\
    0 <= z <= knee /\ dtrunc (of_int knee * kPeakLoadDampeningFactor)%double = Some z.
Proof.
  split; [vm_compute; reflexivity|]. apply (GetPeakIOPS_curve_spec _ _ sample_wf).
Defined.

(** ** Choosing the mixed curve *)

Definition bucket_le (a b : MixModel) : Prop :=
  dle (write_ratio_bucket a) (write_ratio_bucket b) = true.

Definition load_mix (LoadModel : string -> option (list Z * list Z)) (name : string)
    (c : double * string) : option MixModel :=
  let '(bucket, suffix) := c in
  match LoadModel (name ++ suffix)%string with
  | None => None
  | Some (ld, lat) => Some (mkMix bucket ld lat)
  end.

Lemma load_mix_bucket LoadModel name c mm :
  load_mix LoadModel name c = Some mm -> write_ratio_bucket mm = fst c.
Proof. destruct c as [b sfx]. simpl. destruct (LoadModel _) as [[]|]; naive_solver. Qed.

Lemma omap_sorted {A} (R : MixModel -> MixModel -> Prop) (Q : A -> A -> Prop) (f : A -> option MixModel) l :
  (forall a b x y, Q a b -> f a = Some x -> f b = Some y -> R x y) ->
  StronglySorted Q l -> StronglySorted R (omap f l).
Proof.
  intros HR. induction 1 as [|a l Hl IH Ha]; simpl; [constructor|].
  destruct (f a) as [x|] eqn:Ea; [|done]. constructor; [done|].
  apply Forall_forall. intros y (b & Hb & Hy)%list_elem_of_omap.
  rewrite Forall_forall in Ha. eapply HR; eauto.
Qed.

Lemma make_mixes LoadModel name m :
  make LoadModel name = Ok m ->
  mix_models_ m <> [] /\ StronglySorted bucket_le (mix_models_ m) /\
  Forall (fun mm => is_nan (write_ratio_bucket mm) = false) (mix_models_ m).
Proof.
  unfold make, LoadModels.
  destruct (LoadModel (name ++ kReadOnlyModelSuffix)%string) as [[ld_r lat_r]|]; [|done].
  destruct (LoadModel (name ++ kWriteOnlyModelSuffix)%string) as [[ld_w lat_w]|]; [|done].
  change (fun '(bucket, suffix) => _) with (load_mix LoadModel name).
  destruct (omap _ kMixCandidates) as [|mm mms] eqn:E; [done|]. intros [= <-]. simpl. rewrite <- E.
  split_and!; [by rewrite E|..].
  - apply (omap_sorted _ (fun a b => dle (fst a) (fst b) = true)).
    + intros a b x y Hab Hx Hy. unfold bucket_le.
      by rewrite (load_mix_bucket _ _ _ _ Hx), (load_mix_bucket _ _ _ _ Hy).
    + repeat constructor.
  - apply Forall_forall. intros x (c & Hc & Hx)%list_elem_of_omap.
    rewrite (load_mix_bucket _ _ _ _ Hx). clear -Hc.
    assert (Forall (fun c => is_nan (fst c) = false) kMixCandidates) as H by (repeat constructor).
    rewrite Forall_forall in H. by apply H.
Qed.

Lemma find_first (p : MixModel -> bool) l mm :
  StronglySorted bucket_le l -> Forall (fun mm => is_nan (write_ratio_bucket mm) = false) l ->
  find p l = Some mm ->
  mm ∈ l /\ p mm = true /\ forall m', m' ∈ l -> p m' = true -> bucket_le mm m'.
Proof.
  intros Hs. induction Hs as [|a l Hl IH Ha]; intros Hn H; simpl in H; [done|].
  inversion_clear Hn as [|? ? Hna Hnl]. destruct (p a) eqn:E.
  - simplify_eq. split_and!; [by left|done|]. intros m' [->|Hm']%elem_of_cons _; [by apply dle_refl|].
    rewrite Forall_forall in Ha. by apply Ha.
  - destruct (IH Hnl H) as (Hin & Hp & Hmin). split_and!; [by right|done|].
    intros m' [->|Hm']%elem_of_cons Hp'; [congruence|auto].
Qed.

Lemma last_max l mm :
  StronglySorted bucket_le l -> Forall (fun mm => is_nan (write_ratio_bucket mm) = false) l ->
  last l = Some mm -> mm ∈ l /\ forall m', m' ∈ l -> bucket_le m' mm.
Proof.
  intros Hs Hn Hlast. apply last_Some in Hlast as [l' ->]. split; [set_solver|].
  intros m' [Hm'|Hm'%list_elem_of_singleton]%elem_of_app.
  - clear Hn. induction l' as [|a l' IH]; [by apply elem_of_nil in Hm'|].
    inversion_clear Hs as [|? ? Hs' Ha]. apply elem_of_cons in Hm' as [->|Hm']; [|auto].
    rewrite Forall_forall in Ha. apply Ha. set_solver.
  - subst m'. rewrite Forall_forall in Hn. apply dle_refl, Hn. set_solver.
Qed.

(** The write ratio clamped to [0, 1]. *)
Definition clamp_ratio (r : double) : double :=
  let r0 := if (r <? of_int 0)%double then of_int 0 else r in
  if (of_int 1 <? r0)%double then of_int 1 else r0.

(** On the models a disk's files give, the mixed curve chosen is the one with
    the smallest profiled write ratio that is not below the observed one, and
    the one with the largest ratio when all are below. *)
Theorem SelectMixModel_rounds_up LoadModel name m r :
  make LoadModel name = Ok m ->
  exists mm, SelectMixModel r m = Ok mm /\ mm ∈ mix_models_ m /\
    ((dle (clamp_ratio r) (write_ratio_bucket mm) = true /\
      forall m', m' ∈ mix_models_ m -> dle (clamp_ratio r) (write_ratio_bucket m') = true ->
        bucket_le mm m') \/
     (forall m', m' ∈ mix_models_ m ->
        dle (clamp_ratio r) (write_ratio_bucket m') = false /\ bucket_le m' mm)).
Proof.
  intros Hm. destruct (make_mixes _ _ _ Hm) as (Hne & Hs & Hn).
  unfold SelectMixModel. fold (clamp_ratio r).
  destruct (mix_models_ m) as [|a l] eqn:E; [done|]. rewrite <- E in *. clear E a l.
  destruct (find _ (mix_models_ m)) as [mm|] eqn:Ef.
  - destruct (find_first _ _ _ Hs Hn Ef) as (Hin & Hp & Hmin). exists mm. auto.
  - unfold back. destruct (last (mix_models_ m)) as [mm|] eqn:El; [|by apply last_None in El].
    destruct (last_max _ _ Hs Hn El) as [Hin Hmax]. exists mm. split_and!; [done|done|right].
    intros m' Hm'. split; [|auto]. apply (find_none _ _ Ef). by apply list_elem_of_In.
Qed.

(** A disk profiled at 10% and 50% writes only. *)
Definition sample_files (f : string) : option (list Z * list Z) :=
  if decide (f = "d_100r.model" \/ f = "d_1000w.model" \/ f = "d_100w.model" \/ f = "d_500w.model")%string
  then Some (sample_load, sample_latency) else None.

Lemma SelectMixModel_rounds_up_witness :
  exists m, make sample_files "d" = Ok m /\
  exists mm, SelectMixModel (dlit 11 100) m = Ok mm /\ mm ∈ mix_models_ m /\
    ((dle (clamp_ratio (dlit 11 100)) (write_ratio_bucket mm) = true /\
      forall m', m' ∈ mix_models_ m -> dle (clamp_ratio (dlit 11 100)) (write_ratio_bucket m') = true ->
        bucket_le mm m') \/
     (forall m', m' ∈ mix_models_ m ->
        dle (clamp_ratio (dlit 11 100)) (write_ratio_bucket m') = false /\ bucket_le m' mm)).
Proof.
  eexists. split; [vm_compute; reflexivity|].
  apply (SelectMixModel_rounds_up sample_files "d"). vm_compute. reflexivity.
Defined.

End DiskModel.
