(* ===== verification/DiskMonitor.v ===== *)
(** * The disk monitor

    [src/sandook/disk_server/disk_monitor.h]: what a disk server knows of its
    disk. The data path counts requests per core and records latencies in a
    buffer; background threads turn the buffer into quantiles, compute the load
    and move the congestion state; the controller's replies set the mode and
    the weights. The fields are grouped in structures; clocks are arguments. *)

From Stdlib Require Import String.
From S2P Require Import Prelude Float64 FloatInt BaseTypes Counter DiskModels TDigest.

Local Open Scope string_scope.
Local Open Scope Z_scope.

Definition kP50 : double := dlit 1 2.
Definition kP90 : double := dlit 9 10.
Definition kP99 : double := dlit 99 100.

Definition kLoadCalculationIntervalUs : Z := 5 * kOneMilliSecond.
Definition kLoadScaleFactor : double := (of_int kOneSecond / of_int kLoadCalculationIntervalUs)%double.
Definition kMaxBufferEntries : Z := Z.shiftl 1 22.
Definition kCongestionLatencyThresholdUs : Z := 2500.
Definition kCongestionSignalRatioThreshold : double := dlit 25 10.
Definition kMinExpectedLatencyUs : Z := 1.
Definition kCongestedUnstableFactor : double := dlit 7 10.
Definition kCongestedStableFactor : double := dlit 9 10.

Module DiskMonitor.
Import ThreadSafeCounter(inc_local, dec_local, get_sum, get_sum_and_reset).
Abbreviation counter := ThreadSafeCounter.t.

(** A latency buffer and its spare: vectors of [kMaxBufferEntries] integers,
    zero where nothing was stored. *)
Record Window := mkWindow { buf_idx : Z; buf_active : gmap Z Z; buf_inactive : gmap Z Z }.
#[global] Instance window_settable : Settable Window := settable! mkWindow <buf_idx; buf_active; buf_inactive>.

(** The per-core counters of one kind of request; [total_pure] exists for
    reads only. *)
Record Counts := mkCounts {
  pure : counter; total_pure : counter; impure : counter; total_impure : counter; mixed : counter;
  total_failed : counter; inflight : counter; completed : counter; rejected : counter; failed : counter; on_disk : counter;
}.
#[global] Instance counts_settable : Settable Counts :=
  settable! mkCounts <pure; total_pure; impure; total_impure; mixed; total_failed; inflight; completed; rejected; failed; on_disk>.

(** The last statistics computed of one kind of request. *)
Record Snapshot := mkSnapshot {
  completed_t : Z; pure_t : Z; impure_t : Z; inflight_t : Z; rejected_t : Z; mops : double; load_ops : Z;
}.
#[global] Instance snapshot_settable : Settable Snapshot :=
  settable! mkSnapshot <completed_t; pure_t; impure_t; inflight_t; rejected_t; mops; load_ops>.

Record Latency := mkLatency { median_td : Z; p90_td : Z; p99_td : Z; signal : Z; td : TDigest.t }.
#[global] Instance latency_settable : Settable Latency := settable! mkLatency <median_td; p90_td; p99_td; signal; td>.

Record t := mk {
  server_id_ : ServerID;
  name_ : string;
  is_rejections_enabled_ : bool;
  model_ : DiskModel.t;
  r_buf : Window;
  w_buf : Window;
  peak_iops_ : DiskPeakIOPS;
  reads : Counts;
  writes : Counts;
  mode_ : ServerMode.t;
  mode_switch_time_us_ : Z;
  read_weight_ : ServerWeight;
  write_weight_ : ServerWeight;
  r_snap : Snapshot;
  w_snap : Snapshot;
  total_load_ops_ : Z;
  write_ratio_ : double;
  congestion_state_ : ServerCongestionState.t;
  r_lat : Latency;
  w_lat : Latency;
  signal_ratio_ : double;
  state_transition_ratio_ : double;
  last_stats_us_ : Z;
}.
#[global] Instance settable : Settable t :=
  settable! mk <server_id_; name_; is_rejections_enabled_; model_; r_buf; w_buf; peak_iops_; reads; writes; mode_;
    mode_switch_time_us_; read_weight_; write_weight_; r_snap; w_snap; total_load_ops_; write_ratio_;
    congestion_state_; r_lat; w_lat; signal_ratio_; state_transition_ratio_; last_stats_us_>.

Definition init (cores : nat) : t :=
  let window := mkWindow 0 ∅ ∅ in
  let c := ThreadSafeCounter.init cores in
  let counts := mkCounts c c c c c c c c c c c in
  let snap := mkSnapshot 0 0 0 0 0 (of_int 0) 0 in
  let lat := mkLatency 0 0 0 0 TDigest.init in
  let max := 2 ^ 64 - 1 in
  mk kInvalidServerID EmptyString false DiskModel.empty window window (max, max, max) counts counts ServerMode.kMix 0
    (of_int 0) (of_int 0) snap snap 0 (of_int 0) ServerCongestionState.kUnCongested lat lat (of_int 0) (of_int 0) 0.

(** ** Setters *)

Definition SetServerID (server_id : ServerID) (s : t) : t := s <| server_id_ := server_id |>.
Definition SetServerName (name : string) (s : t) : t := s <| name_ := name |>.

Definition SetIsRejectionsEnabled (LoadModel : string -> option (list Z * list Z)) (enabled : bool) (s : t) : outcome t :=
  let s := s <| is_rejections_enabled_ := enabled |> in
  require (negb (bool_decide (name_ s = EmptyString))) BugOn;;
  m ← DiskModel.make LoadModel (name_ s);
  Ok (s <| model_ := m |>).

Definition SetDiskPeakIOPS (read_iops write_iops mix_iops : Z) (s : t) : t :=
  s <| peak_iops_ := (read_iops, write_iops, mix_iops) |>.

Definition SetModeAndWeights (now : Z) (mode : ServerMode.t) (read_weight write_weight : ServerWeight) (s : t) : t :=
  let s := if negb (bool_decide (mode = mode_ s)) then s <| mode_switch_time_us_ := now |> else s in
  s <| mode_ := mode |> <| read_weight_ := read_weight |> <| write_weight_ := write_weight |>.

Definition IsModeSwitchGracePeriod (now : Z) (s : t) : bool :=
  u64 (now - mode_switch_time_us_ s) <=? kDiskServerModeSwitchGracePeriodUs.

Definition IsCongested (s : t) : bool := bool_decide (congestion_state_ s = ServerCongestionState.kCongested).

Definition IsAllowingWrites (now : Z) (s : t) : bool :=
  negb (bool_decide (mode_ s = ServerMode.kRead)) || IsModeSwitchGracePeriod now s.

(** ** The data path *)

(** [c.inc_local()] and [c.dec_local()] on the counter [f] of a group. *)
Definition inc (f : Counts -> counter) `{!FieldSetter f} (cpu : nat) (s : Counts) : outcome Counts :=
  c ← inc_local cpu 1 (f s); Ok (s <| f := c |>).
Definition dec (f : Counts -> counter) `{!FieldSetter f} (cpu : nat) (s : Counts) : outcome Counts :=
  c ← dec_local cpu 1 (f s); Ok (s <| f := c |>).

Definition on_reads (f : Counts -> outcome Counts) (s : t) : outcome t := c ← f (reads s); Ok (s <| reads := c |>).
Definition on_writes (f : Counts -> outcome Counts) (s : t) : outcome t := c ← f (writes s); Ok (s <| writes := c |>).

Definition ReadStarted (cpu : nat) (now : Z) (s : t) : outcome (Z * t) := s ← on_reads (inc inflight cpu) s; Ok (now, s).
Definition WriteStarted (cpu : nat) (now : Z) (s : t) : outcome (Z * t) := s ← on_writes (inc inflight cpu) s; Ok (now, s).
Definition ReadRejected (cpu : nat) (s : t) : outcome t := on_reads (inc rejected cpu) s.
Definition WriteRejected (cpu : nat) (s : t) : outcome t := on_writes (inc rejected cpu) s.

(** [buf_active[buf_idx++] = duration_us], unless the buffer is full. *)
Definition record (duration_us : Z) (w : Window) : Window :=
  let idx := buf_idx w in
  let w := w <| buf_idx := u64 (idx + 1) |> in
  if kMaxBufferEntries <=? idx then w else w <| buf_active := <[idx := duration_us]> (buf_active w) |>.

(** A request counts as pure when the disk is in [own] mode, as impure when it
    is in the [other], as mixed otherwise. *)
Definition count_success (cpu : nat) (own other mode : ServerMode.t) (c : Counts) : outcome Counts :=
  c ← inc completed cpu c;
  if decide (mode = own) then inc pure cpu c
  else if decide (mode = other) then inc impure cpu c
  else inc mixed cpu c.

Definition count_failure (cpu : nat) (c : Counts) : outcome Counts := c ← inc total_failed cpu c; inc failed cpu c.

Definition count_completion (cpu : nat) (own other mode : ServerMode.t) (success : bool) (c : Counts) : outcome Counts :=
  c ← dec inflight cpu c;
  c ← inc on_disk cpu c;
  if success then count_success cpu own other mode c else count_failure cpu c.

Definition ReadCompleted (cpu : nat) (now start_time : Z) (success : bool) (s : t) : outcome t :=
  let duration_us := u64 (now - start_time) in
  s ← on_reads (count_completion cpu ServerMode.kRead ServerMode.kWrite (mode_ s) success) s;
  Ok (s <| r_buf := record duration_us (r_buf s) |>).

Definition WriteCompleted (cpu : nat) (now start_time : Z) (success : bool) (s : t) : outcome t :=
  let duration_us := u64 (now - start_time) in
  s ← on_writes (count_completion cpu ServerMode.kWrite ServerMode.kRead (mode_ s) success) s;
  Ok (s <| w_buf := record duration_us (w_buf s) |>).

(** ** Statistics *)

(** The order of the fields assigned by [UpdateStats]; for writes nothing
    beyond the completed, in-flight and rejected counts is read. *)
Definition update_reads (cpu : nat) (elapsed_us : Z) (c : Counts) (n : Snapshot) : outcome (Counts * Snapshot) :=
  '(v1, c1) ← get_sum_and_reset (completed c);
  '(v2, c2) ← get_sum_and_reset (pure c);
  '(v3, c3) ← get_sum_and_reset (impure c);
  c4 ← inc_local cpu (u32 v2) (total_pure c);
  c5 ← inc_local cpu (u32 v3) (total_impure c);
  v6 ← get_sum (inflight c);
  '(v7, c7) ← get_sum_and_reset (rejected c);
  Ok (c <| completed := c1 |> <| pure := c2 |> <| impure := c3 |> <| total_pure := c4 |> <| total_impure := c5 |>
        <| rejected := c7 |>,
      n <| completed_t := u32 v1 |> <| pure_t := u32 v2 |> <| impure_t := u32 v3 |> <| inflight_t := u32 v6 |>
        <| rejected_t := u32 v7 |> <| mops := (of_int (u32 v1) / of_int elapsed_us)%double |>).

Definition update_writes (elapsed_us : Z) (c : Counts) (n : Snapshot) : outcome (Counts * Snapshot) :=
  '(v1, c1) ← get_sum_and_reset (completed c);
  v6 ← get_sum (inflight c);
  '(v7, c7) ← get_sum_and_reset (rejected c);
  Ok (c <| completed := c1 |> <| rejected := c7 |>,
      n <| completed_t := u32 v1 |> <| inflight_t := u32 v6 |> <| rejected_t := u32 v7 |>
        <| mops := (of_int (u32 v1) / of_int elapsed_us)%double |>).

Definition UpdateStats (cpu : nat) (now now' : Z) (s : t) : outcome t :=
  let elapsed_us := u64 (now - last_stats_us_ s) in
  '(rc, rs) ← update_reads cpu elapsed_us (reads s) (r_snap s);
  '(wc, ws) ← update_writes elapsed_us (writes s) (w_snap s);
  Ok (s <| reads := rc |> <| r_snap := rs |> <| writes := wc |> <| w_snap := ws |> <| last_stats_us_ := now' |>).

Definition GetServerStats (s : t) : ServerStats.t :=
  ServerStats.mk (server_id_ s) (mode_ s) ServerMode.kMix (mops (r_snap s)) (mops (w_snap s))
    (read_weight_ s) (write_weight_ s) (inflight_t (r_snap s)) (inflight_t (w_snap s))
    (completed_t (r_snap s)) (pure_t (r_snap s)) (impure_t (r_snap s)) (completed_t (w_snap s))
    (rejected_t (r_snap s)) (rejected_t (w_snap s)) (median_td (r_lat s)) (median_td (w_lat s))
    (signal (r_lat s)) (signal (w_lat s)) false (congestion_state_ s).

Definition UpdateAndGetServerStats (cpu : nat) (now now' : Z) (s : t) : outcome (ServerStats.t * t) :=
  s ← UpdateStats cpu now now' s; Ok (GetServerStats s, s).

Section Flush.
(** The C library's [sin] and [asin], which the digest uses. *)
Variables sin asin : double -> double.

(** The samples of a window and the window after it was swapped. *)
Definition take_window (w : Window) : list Z * Window :=
  let n := Z.min (buf_idx w) kMaxBufferEntries in
  let samples := map (fun i => default 0 (buf_active w !! i)) (zrange 0 (Z.to_nat n)) in
  (samples, mkWindow 0 (buf_inactive w) (buf_active w)).

Definition summarize (samples : list Z) (l : Latency) : outcome Latency :=
  d ← ofold (fun d lat => TDigest.add sin asin lat d) TDigest.init samples;
  '(p50, d) ← TDigest.quantile sin asin kP50 d;
  '(p90, d) ← TDigest.quantile sin asin kP90 d;
  '(p99, d) ← TDigest.quantile sin asin kP99 d;
  Ok (mkLatency p50 p90 p99 p99 d).

Definition FlushReads (s : t) : outcome t :=
  let (samples, w) := take_window (r_buf s) in
  l ← summarize samples (r_lat s);
  Ok (s <| r_buf := w |> <| r_lat := l |>).

Definition FlushWrites (s : t) : outcome t :=
  let (samples, w) := take_window (w_buf s) in
  l ← summarize samples (w_lat s);
  Ok (s <| w_buf := w |> <| w_lat := l |>).

Definition Flush (s : t) : outcome t := s ← FlushReads s; FlushWrites s.
End Flush.

Definition CalculateLoad (s : t) : outcome t :=
  '(r, rc) ← get_sum_and_reset (on_disk (reads s));
  '(w, wc) ← get_sum_and_reset (on_disk (writes s));
  read_load_ops ← to_uint 64 (of_int (u64 r) * kLoadScaleFactor)%double;
  write_load_ops ← to_uint 64 (of_int (u64 w) * kLoadScaleFactor)%double;
  let total := u64 (read_load_ops + write_load_ops) in
  let ratio := if 0 <? total then (of_int write_load_ops / of_int total)%double else of_int 0 in
  Ok (s <| reads ::= fun c => c <| on_disk := rc |> |> <| writes ::= fun c => c <| on_disk := wc |> |>
        <| r_snap ::= fun n => n <| load_ops := read_load_ops |> |>
        <| w_snap ::= fun n => n <| load_ops := write_load_ops |> |>
        <| total_load_ops_ := total |> <| write_ratio_ := ratio |>).

(** ** Congestion *)

(** The observed tail latency over the expected one, the larger of reads and
    writes. *)
Definition ratio_signal (s : t) : outcome double :=
  exp_read ← DiskModel.GetLatency (total_load_ops_ s) OpType.kRead (mode_ s) (write_ratio_ s) (model_ s);
  exp_write ← DiskModel.GetLatency (total_load_ops_ s) OpType.kWrite (mode_ s) (write_ratio_ s) (model_ s);
  let exp_read_lat := of_int (Z.max exp_read kMinExpectedLatencyUs) in
  let exp_write_lat := of_int (Z.max exp_write kMinExpectedLatencyUs) in
  let obs_read_sig := of_int (if decide (mode_ s = ServerMode.kRead) then p99_td (r_lat s) else p90_td (r_lat s)) in
  let obs_write_sig := of_int (if decide (mode_ s = ServerMode.kWrite) then p99_td (w_lat s) else p90_td (w_lat s)) in
  Ok (dmax (obs_read_sig / exp_read_lat)%double (obs_write_sig / exp_write_lat)%double).

Definition is_congested_abs (s : t) : bool :=
  (kCongestionLatencyThresholdUs <? signal (r_lat s)) || (kCongestionLatencyThresholdUs <? signal (w_lat s)).

(** The transitions once the signals are known. *)
Definition transition (overloaded : bool) (s : t) : t :=
  if overloaded then s <| congestion_state_ := ServerCongestionState.kCongested |>
  else
    match congestion_state_ s with
    | ServerCongestionState.kCongested =>
        s <| congestion_state_ := ServerCongestionState.kCongestedUnstable |>
          <| state_transition_ratio_ := kCongestedUnstableFactor |>
    | ServerCongestionState.kCongestedUnstable =>
        if (state_transition_ratio_ s <? signal_ratio_ s)%double then
          s <| congestion_state_ := ServerCongestionState.kCongestedStable |>
            <| state_transition_ratio_ := kCongestedStableFactor |>
        else s
    | ServerCongestionState.kCongestedStable =>
        if (signal_ratio_ s <? state_transition_ratio_ s)%double then
          s <| congestion_state_ := ServerCongestionState.kUnCongested |>
        else s
    | _ => s
    end.

Definition UpdateCongestionState (now : Z) (s : t) : outcome t :=
  if negb (is_rejections_enabled_ s) then Ok s
  else if IsModeSwitchGracePeriod now s then Ok (s <| congestion_state_ := ServerCongestionState.kUnCongested |>)
  else
    ratio ← ratio_signal s;
    let s := s <| signal_ratio_ := ratio |> in
    Ok (transition (is_congested_abs s || (kCongestionSignalRatioThreshold <? signal_ratio_ s)%double) s).

(** One round of the flusher thread. *)
Definition Flusher_round (sin asin : double -> double) (now : Z) (s : t) : outcome t :=
  s ← Flush sin asin s; UpdateCongestionState now s.

(** ** The monitor over its life *)

Section Life.
Variables sin asin : double -> double.
(** Reading and parsing the file of a disk model. *)
Variable LoadModel : string -> option (list Z * list Z).

Inductive event :=
| ERegister (server_id : ServerID) (name : string) (enabled : bool)
| EReadStarted (cpu : nat) (now : Z)
| EWriteStarted (cpu : nat) (now : Z)
| EReadCompleted (cpu : nat) (now start_time : Z) (success : bool)
| EWriteCompleted (cpu : nat) (now start_time : Z) (success : bool)
| EReadRejected (cpu : nat)
| EWriteRejected (cpu : nat)
| EMode (now : Z) (mode : ServerMode.t) (read_weight write_weight : ServerWeight)
| EStats (cpu : nat) (now now' : Z)
| ELoad
| EFlush (now : Z).

Definition exec (s : t) (e : event) : outcome t :=
  match e with
  | ERegister id name enabled => SetIsRejectionsEnabled LoadModel enabled (SetServerName name (SetServerID id s))
  | EReadStarted cpu now => r ← ReadStarted cpu now s; Ok (snd r)
  | EWriteStarted cpu now => r ← WriteStarted cpu now s; Ok (snd r)
  | EReadCompleted cpu now start success => ReadCompleted cpu now start success s
  | EWriteCompleted cpu now start success => WriteCompleted cpu now start success s
  | EReadRejected cpu => ReadRejected cpu s
  | EWriteRejected cpu => WriteRejected cpu s
  | EMode now mode rw ww => Ok (SetModeAndWeights now mode rw ww s)
  | EStats cpu now now' => r ← UpdateAndGetServerStats cpu now now' s; Ok (snd r)
  | ELoad => CalculateLoad s
  | EFlush now => Flusher_round sin asin now s
  end.


(** *** The congestion state machine *)

(** The threshold kept for the next transition is the one of the state. *)
Definition threshold_ok (s : t) : Prop :=
  congestion_state_ s <> ServerCongestionState.kInvalid /\
  (congestion_state_ s = ServerCongestionState.kCongestedUnstable -> state_transition_ratio_ s = kCongestedUnstableFactor) /\
  (congestion_state_ s = ServerCongestionState.kCongestedStable -> state_transition_ratio_ s = kCongestedStableFactor).

Definition same_state (s s' : t) : Prop :=
  congestion_state_ s' = congestion_state_ s /\ state_transition_ratio_ s' = state_transition_ratio_ s.

Lemma Flush_same s s' : Flush sin asin s = Ok s' -> same_state s s'.
Proof.
  intros H. unfold Flush, FlushReads, FlushWrites, take_window in H. simplify_outcome. by split.
Qed.

Lemma exec_same e s s' :
  exec s e = Ok s' -> match e with EFlush _ => True | _ => same_state s s' end.
Proof.
  intros H. destruct e; simpl in H; [..|done].
  - unfold SetIsRejectionsEnabled in H. simplify_outcome. by split.
  - unfold ReadStarted, on_reads in H. simplify_outcome. by split.
  - unfold WriteStarted, on_writes in H. simplify_outcome. by split.
  - unfold ReadCompleted, on_reads in H. simplify_outcome. by split.
  - unfold WriteCompleted, on_writes in H. simplify_outcome. by split.
  - unfold ReadRejected, on_reads in H. simplify_outcome. by split.
  - unfold WriteRejected, on_writes in H. simplify_outcome. by split.
  - unfold SetModeAndWeights in H. simplify_outcome. by destruct (negb _).
  - unfold UpdateAndGetServerStats, UpdateStats in H. do 3 (simplify_outcome; destruct_pairs). by split.
  - unfold CalculateLoad in H. do 3 (simplify_outcome; destruct_pairs). by split.
Qed.

(** The state after one pass of the flusher. *)
Definition next_state (overloaded : bool) (ratio : double) (st : ServerCongestionState.t) : ServerCongestionState.t :=
  if overloaded then ServerCongestionState.kCongested
  else match st with
  | ServerCongestionState.kCongested => ServerCongestionState.kCongestedUnstable
  | ServerCongestionState.kCongestedUnstable =>
      if (kCongestedUnstableFactor <? ratio)%double then ServerCongestionState.kCongestedStable
      else ServerCongestionState.kCongestedUnstable
  | ServerCongestionState.kCongestedStable =>
      if (ratio <? kCongestedStableFactor)%double then ServerCongestionState.kUnCongested
      else ServerCongestionState.kCongestedStable
  | st => st
  end.

Lemma transition_next overloaded s :
  threshold_ok s -> threshold_ok (transition overloaded s) /\ signal_ratio_ (transition overloaded s) = signal_ratio_ s /\
  congestion_state_ (transition overloaded s) = next_state overloaded (signal_ratio_ s) (congestion_state_ s).
Proof.
  unfold threshold_ok, transition, next_state.
  generalize kCongestedUnstableFactor as unstable, kCongestedStableFactor as stable. intros unstable stable (Hinv & Hun & Hst).
  destruct overloaded; [done|].
  destruct (congestion_state_ s) eqn:Hs; rewrite ?Hun, ?Hst by done; try destruct (dlt _ _); simpl; rewrite ?Hs; naive_solver.
Qed.

Lemma UpdateCongestionState_next now s s' :
  threshold_ok s -> UpdateCongestionState now s = Ok s' ->
  threshold_ok s' /\
  congestion_state_ s' =
    if negb (is_rejections_enabled_ s) then congestion_state_ s
    else if IsModeSwitchGracePeriod now s then ServerCongestionState.kUnCongested
    else next_state (is_congested_abs s || (kCongestionSignalRatioThreshold <? signal_ratio_ s')%double)
           (signal_ratio_ s') (congestion_state_ s).
Proof.
  intros Hok H. unfold UpdateCongestionState in H.
  destruct (is_rejections_enabled_ s) eqn:Hen; cbn [negb] in *; [|by simplify_outcome].
  destruct (IsModeSwitchGracePeriod now s); [by simplify_outcome|].
  apply bind_Ok in H as (ratio & Hr & H). cbv zeta in H. set (s1 := s <| signal_ratio_ := ratio |>) in H.
  assert (s' = transition (is_congested_abs s1 || (kCongestionSignalRatioThreshold <? signal_ratio_ s1)%double) s1) as -> by congruence.
  destruct (transition_next (is_congested_abs s1 || (kCongestionSignalRatioThreshold <? signal_ratio_ s1)%double) s1 Hok)
    as (Hok' & Hr' & Hs'). by rewrite Hr', Hs'.
Qed.

Lemma reachable_threshold cores es s : ofold exec (init cores) es = Ok s -> threshold_ok s.
Proof.
  intros Hrun. refine (ofold_ind (fun _ s => threshold_ok s) exec es _ _ _ _ Hrun).
  - by split_and!.
  - intros done e rest st st' _ Hok Hex. pose proof (exec_same _ _ _ Hex) as Hsame. destruct e; try (destruct Hsame as [Hs1 Hs2]).
    all: try (unfold threshold_ok in *; rewrite Hs1, Hs2; done).
    simpl in Hex. unfold Flusher_round in Hex. simplify_outcome. apply Flush_same in Hrun0 as [Hf1 Hf2].
    eapply UpdateCongestionState_next; [|done]. unfold threshold_ok in *. by rewrite Hf1, Hf2.
Qed.

(** C21: On every state the monitor reaches, a pass of the flusher that returns
    moves the congestion state exactly as the state machine says: overload
    always means congested; without it a congested disk first becomes
    unstable, an unstable one stable when its signal exceeds 0.7, a stable one
    uncongested when its signal falls below 0.9; a mode switch resets it. *)
Theorem congestion_machine cores es s now s1 s' :
  ofold exec (init cores) es = Ok s -> Flush sin asin s = Ok s1 -> UpdateCongestionState now s1 = Ok s' ->
  congestion_state_ s' =
    if negb (is_rejections_enabled_ s1) then congestion_state_ s
    else if IsModeSwitchGracePeriod now s1 then ServerCongestionState.kUnCongested
    else next_state (is_congested_abs s1 || (kCongestionSignalRatioThreshold <? signal_ratio_ s')%double)
           (signal_ratio_ s') (congestion_state_ s).
Proof.
  intros Hrun Hfl Hup. apply reachable_threshold in Hrun. apply Flush_same in Hfl as [Hf1 Hf2].
  apply UpdateCongestionState_next in Hup as [_ Hup]; [by rewrite <- Hf1|].
  unfold threshold_ok in *. by rewrite Hf1, Hf2.
Qed.

(** *** The latency windows *)

Definition read_duration (e : event) : option Z :=
  match e with EReadCompleted _ now start _ => Some (u64 (now - start)) | _ => None end.
Definition write_duration (e : event) : option Z :=
  match e with EWriteCompleted _ now start _ => Some (u64 (now - start)) | _ => None end.
Definition is_flush (e : event) : bool := match e with EFlush _ => true | _ => false end.

(** A window that has recorded [ds]. *)
Definition recorded (ds : list Z) (w : Window) : Prop :=
  buf_idx w = Z.of_nat (length ds) /\
  forall i d, Z.of_nat i < kMaxBufferEntries -> ds !! i = Some d -> buf_active w !! Z.of_nat i = Some d.

Lemma record_recorded ds d w :
  Z.of_nat (length ds) + 1 < 2 ^ 64 -> recorded ds w -> recorded (ds ++ [d]) (record d w).
Proof.
  intros Hlen [Hidx Hget]. unfold record. rewrite Hidx. split.
  - rewrite length_app. simpl length. destruct (Z.leb_spec kMaxBufferEntries (Z.of_nat (length ds))); simpl; rewrite wrap_small; lia.
  - intros i x Hi [[Hlt Hx]|[-> ->]]%lookup_snoc_Some.
    + destruct (Z.leb_spec kMaxBufferEntries (Z.of_nat (length ds))); cbn [buf_active update_field]; [by apply Hget|].
      rewrite lookup_insert_ne by lia. by apply Hget.
    + destruct (Z.leb_spec kMaxBufferEntries (Z.of_nat (length ds))); [lia|]. cbn [buf_active update_field]. apply lookup_insert_eq.
Qed.

Lemma take_window_recorded ds w : recorded ds w -> fst (take_window w) = take (Z.to_nat kMaxBufferEntries) ds.
Proof.
  intros [Hidx Hget]. cbn [fst take_window]. rewrite Hidx. apply list_eq. intros i.
  set (n := Z.to_nat (Z.min (Z.of_nat (length ds)) kMaxBufferEntries)).
  assert (0 < kMaxBufferEntries) by done.
  destruct (decide (i < n)%nat) as [Hi|Hi].
  - rewrite list_lookup_fmap, zrange_lookup by done. rewrite lookup_take_lt by lia.
    destruct (lookup_lt_is_Some_2 ds i ltac:(lia)) as [d Hd]. rewrite Hd. cbn [fmap option_fmap option_map].
    rewrite Z.add_0_l, (Hget i d) by (done || lia). done.
  - rewrite lookup_ge_None_2 by (rewrite length_map, zrange_length; lia).
    symmetry. apply lookup_ge_None_2. rewrite length_take. lia.
Qed.

Lemma exec_window e s s' :
  exec s e = Ok s' -> is_flush e = false ->
  r_buf s' = match read_duration e with Some d => record d (r_buf s) | None => r_buf s end /\
  w_buf s' = match write_duration e with Some d => record d (w_buf s) | None => w_buf s end.
Proof.
  intros H Hf. destruct e; simpl in H; [..|done].
  - unfold SetIsRejectionsEnabled in H. simplify_outcome. by split.
  - unfold ReadStarted, on_reads in H. simplify_outcome. by split.
  - unfold WriteStarted, on_writes in H. simplify_outcome. by split.
  - unfold ReadCompleted, on_reads in H. simplify_outcome. by split.
  - unfold WriteCompleted, on_writes in H. simplify_outcome. by split.
  - unfold ReadRejected, on_reads in H. simplify_outcome. by split.
  - unfold WriteRejected, on_writes in H. simplify_outcome. by split.
  - unfold SetModeAndWeights in H. simplify_outcome. by destruct (negb _).
  - unfold UpdateAndGetServerStats, UpdateStats in H. do 3 (simplify_outcome; destruct_pairs). by split.
  - unfold CalculateLoad in H. do 3 (simplify_outcome; destruct_pairs). by split.
Qed.

(** Between two flushes, the samples the next flush summarizes are the
    latencies of the requests completed meanwhile, in order and up to the
    buffer's capacity, for reads and for writes. *)
Theorem flush_sees_completions s0 es s :
  buf_idx (r_buf s0) = 0 -> buf_idx (w_buf s0) = 0 -> Z.of_nat (length es) < 2 ^ 63 ->
  Forall (fun e => is_flush e = false) es -> ofold exec s0 es = Ok s ->
  fst (take_window (r_buf s)) = take (Z.to_nat kMaxBufferEntries) (omap read_duration es) /\
  fst (take_window (w_buf s)) = take (Z.to_nat kMaxBufferEntries) (omap write_duration es).
Proof.
  intros Hr Hw Hlen Hf Hrun.
  assert (recorded (omap read_duration es) (r_buf s) /\ recorded (omap write_duration es) (w_buf s)) as [H1 H2].
  { refine (ofold_ind (fun es s => recorded (omap read_duration es) (r_buf s) /\ recorded (omap write_duration es) (w_buf s))
      exec es s0 s _ _ Hrun); [by split; split|].
    intros done e rest st st' -> [Hrd Hwr] Hex. rewrite Forall_app, Forall_cons in Hf.
    destruct (exec_window _ _ _ Hex ltac:(tauto)) as [-> ->]. rewrite !omap_app. simpl.
    rewrite length_app in Hlen. pose proof (omap_length_le read_duration done). pose proof (omap_length_le write_duration done).
    simpl in Hlen. split.
    - destruct (read_duration e); [apply record_recorded; [lia|done]|by rewrite app_nil_r].
    - destruct (write_duration e); [apply record_recorded; [lia|done]|by rewrite app_nil_r]. }
  split; by apply take_window_recorded.
Qed.

(** A flush that finds no read completed since the last one asks an empty
    digest for its quantiles, which are not numbers, and converts them to
    integers: undefined behaviour on an idle disk. *)
Theorem idle_flush_undefined s : buf_idx (r_buf s) = 0 -> Flush sin asin s = Fault Undefined.
Proof.
  intros H. unfold Flush, FlushReads, take_window. rewrite H. unfold summarize.
  replace (map _ (zrange 0 (Z.to_nat (Z.min 0 kMaxBufferEntries)))) with (@nil Z) by done.
  cbn [ofold mbind outcome_bind]. rewrite TDigest.quantile_init. done.
Qed.

(** *** Counting requests *)

Lemma reset_spec c v c' :
  get_sum_and_reset c = Ok (v, c') -> v = ThreadSafeCounter.total c /\ ThreadSafeCounter.total c' = 0.
Proof.
  intros H. unfold get_sum_and_reset in H. simplify_outcome. apply ThreadSafeCounter.get_sum_total in Hrun as ->.
  apply signed_result_Ok in Hrun0 as [-> _]. apply signed_result_Ok in Hrun1 as [-> _].
  split; [done|]. unfold ThreadSafeCounter.total. simpl. lia.
Qed.

Ltac counter_specs := repeat match goal with
  | H : dec_local _ _ _ = Ok _ |- _ => apply ThreadSafeCounter.dec_local_spec in H as [H _]
  | H : inc_local _ _ _ = Ok _ |- _ => apply ThreadSafeCounter.inc_local_spec in H as [H _]
  | H : get_sum_and_reset _ = Ok _ |- _ => apply reset_spec in H as [? H]
  end.

Lemma count_completion_spec cpu own other mode success c c' :
  count_completion cpu own other mode success c = Ok c' ->
  ThreadSafeCounter.total (inflight c') = ThreadSafeCounter.total (inflight c) - 1 /\
  ThreadSafeCounter.total (completed c') = ThreadSafeCounter.total (completed c) + (if success then 1 else 0).
Proof.
  intros H. unfold count_completion, count_success, count_failure, inc, dec in H.
  destruct success; simplify_outcome; repeat case_decide; simplify_outcome; counter_specs; simpl in *; lia.
Qed.

(** A read that started, one that completed, and whether it succeeded. *)
Definition started (e : event) : Z := match e with EReadStarted _ _ => 1 | _ => 0 end.
Definition finished (e : event) : Z := match e with EReadCompleted _ _ _ _ => 1 | _ => 0 end.
Definition succeeded (e : event) : Z := match e with EReadCompleted _ _ _ true => 1 | _ => 0 end.

(** The monitor and the completed reads it has published so far. *)
Definition exec_publish (st : t * Z) (e : event) : outcome (t * Z) :=
  s ← exec (fst st) e;
  Ok (s, match e with EStats _ _ _ => snd st + completed_t (r_snap s) | _ => snd st end).

Definition balanced (es : list event) (st : t * Z) : Prop :=
  ThreadSafeCounter.total (inflight (reads (fst st))) = zsum (map started es) - zsum (map finished es) /\
  ThreadSafeCounter.total (completed (reads (fst st))) + snd st = zsum (map succeeded es) /\
  0 <= ThreadSafeCounter.total (completed (reads (fst st))) /\ 0 <= snd st.

Lemma zsum_snoc {A} (f : A -> Z) l a : zsum (map f (l ++ [a])) = zsum (map f l) + f a.
Proof. rewrite map_app. rewrite zsum_app. simpl. lia. Qed.

Lemma UpdateCongestionState_reads now s s' : UpdateCongestionState now s = Ok s' -> reads s' = reads s.
Proof.
  intros H. unfold UpdateCongestionState in H. repeat case_match; simplify_outcome; [done..|].
  unfold transition. by repeat case_match.
Qed.

Lemma exec_reads e s s' :
  exec s e = Ok s' -> match e with EStats _ _ _ => True | _ =>
    ThreadSafeCounter.total (inflight (reads s')) = ThreadSafeCounter.total (inflight (reads s)) + started e - finished e /\
    ThreadSafeCounter.total (completed (reads s')) = ThreadSafeCounter.total (completed (reads s)) + succeeded e end.
Proof.
  intros H. destruct e; simpl in H.
  - unfold SetIsRejectionsEnabled in H. simplify_outcome. lia.
  - unfold ReadStarted, on_reads, inc in H. simplify_outcome. counter_specs. simpl in *. lia.
  - unfold WriteStarted, on_writes in H. simplify_outcome. lia.
  - unfold ReadCompleted, on_reads in H. simplify_outcome.
    match goal with Hc : count_completion _ _ _ _ _ _ = Ok _ |- _ => apply count_completion_spec in Hc as [-> ->] end.
    destruct success; simpl; lia.
  - unfold WriteCompleted, on_writes in H. simplify_outcome. lia.
  - unfold ReadRejected, on_reads, inc in H. simplify_outcome. lia.
  - unfold WriteRejected, on_writes in H. simplify_outcome. lia.
  - unfold SetModeAndWeights in H. simplify_outcome. destruct (negb _); simpl; lia.
  - done.
  - unfold CalculateLoad in H. do 3 (simplify_outcome; destruct_pairs). simpl. lia.
  - unfold Flusher_round, Flush, FlushReads, FlushWrites, take_window in H. simplify_outcome.
    apply UpdateCongestionState_reads in H as ->. simpl. lia.
Qed.

Lemma exec_publish_balanced es e st st' :
  Z.of_nat (length (es ++ [e])) < 2 ^ 32 -> balanced es st -> exec_publish st e = Ok st' -> balanced (es ++ [e]) st'.
Proof.
  intros Hlen (Hi & Hc & Hp & Hn) H. unfold exec_publish in H. destruct st as [s n]. cbn [fst snd] in *. simplify_outcome.
  unfold balanced. rewrite !zsum_snoc. cbn [fst snd]. pose proof (exec_reads _ _ _ Hrun) as Hex. destruct e.
  all: try (destruct Hex as [-> ->]; simpl in *; lia).
  all: try (destruct Hex as [-> ->]; simpl in *; destruct success; lia).
  assert (zsum (map succeeded es) <= Z.of_nat (length es)) as Hle.
  { clear. induction es as [|e es IH]; [done|]. cbn [map zsum length]. assert (succeeded e <= 1) by (by destruct e as [| | |? ? ? []| | | | | | |]). lia. }
  clear Hex. simpl in Hrun. unfold UpdateAndGetServerStats, UpdateStats, update_reads in Hrun.
  do 5 (simplify_outcome; destruct_pairs). counter_specs. subst. simpl in *.
  rewrite length_app in Hlen. simpl in Hlen. rewrite wrap_small by lia. lia.
Qed.

(** On every state the monitor reaches, the reads it counts in flight are
    those started and not completed, and every read that succeeded has been
    published exactly once or waits for the next report. *)
Theorem monitor_counts cores es s published :
  Z.of_nat (length es) < 2 ^ 32 -> ofold exec_publish (init cores, 0) es = Ok (s, published) ->
  ThreadSafeCounter.total (inflight (reads s)) = zsum (map started es) - zsum (map finished es) /\
  ThreadSafeCounter.total (completed (reads s)) + published = zsum (map succeeded es).
Proof.
  intros Hlen Hrun.
  assert (balanced es (s, published)) as (Hi & Hc & _); [|done].
  refine (ofold_ind balanced exec_publish es _ _ _ _ Hrun).
  - unfold balanced. cbn [init fst snd reads inflight completed]. rewrite !ThreadSafeCounter.init_total. done.
  - intros done e rest st st' -> Hb Hex. eapply exec_publish_balanced; [|done..].
    rewrite length_app in *. simpl in *. lia.
Qed.
End Life.

(** ** Witnesses *)

(** The digest's scale function on a digest of few samples is never asked. *)
Definition no_sin (x : double) : double := x.
Definition sample_model (f : string) : option (list Z * list Z) := Some ([100000; 300000; 400000], [90; 150; 1400]).

Definition sample_events : list event :=
  [ERegister 1 "ssd" true; EReadStarted 0 100; EReadStarted 1 110; EReadCompleted 0 4000 100 true; EWriteStarted 0 4000;
   EWriteCompleted 1 4400 4000 true; EStats 0 5000 5001; ELoad].

Definition sample_monitor : t :=
  match ofold (exec no_sin no_sin sample_model) (init 2) sample_events with Ok s => s | Fault _ => init 2 end.
Definition sample_flushed : t := match Flush no_sin no_sin sample_monitor with Ok s => s | Fault _ => init 2 end.
Definition sample_congested : t :=
  match UpdateCongestionState 9000 sample_flushed with Ok s => s | Fault _ => init 2 end.

Lemma congestion_machine_witness :
  congestion_state_ sample_congested = ServerCongestionState.kCongested /\
  congestion_state_ sample_congested =
    if negb (is_rejections_enabled_ sample_flushed) then congestion_state_ sample_monitor
    else if IsModeSwitchGracePeriod 9000 sample_flushed then ServerCongestionState.kUnCongested
    else next_state (is_congested_abs sample_flushed || (kCongestionSignalRatioThreshold <? signal_ratio_ sample_congested)%double)
           (signal_ratio_ sample_congested) (congestion_state_ sample_monitor).
Proof.
  split; [vm_compute; reflexivity|].
  apply (congestion_machine no_sin no_sin sample_model 2 sample_events sample_monitor 9000 sample_flushed sample_congested);
    vm_compute; reflexivity.
Defined.

Lemma flush_sees_completions_witness :
  fst (take_window (r_buf sample_monitor)) = take (Z.to_nat kMaxBufferEntries) (omap read_duration sample_events) /\
  fst (take_window (w_buf sample_monitor)) = take (Z.to_nat kMaxBufferEntries) (omap write_duration sample_events).
Proof.
  apply (flush_sees_completions no_sin no_sin sample_model (init 2) sample_events sample_monitor);
    [done|done|done|repeat constructor|vm_compute; reflexivity].
Defined.

Lemma idle_flush_undefined_witness : Flush no_sin no_sin (init 2) = Fault Undefined.
Proof. apply (idle_flush_undefined no_sin no_sin (init 2)). reflexivity. Defined.

Definition sample_published : t * Z :=
  match ofold (exec_publish no_sin no_sin sample_model) (init 2, 0) sample_events with Ok st => st | Fault _ => (init 2, 0) end.

Lemma monitor_counts_witness :
  let (s, published) := sample_published in
  ThreadSafeCounter.total (inflight (reads s)) = zsum (map started sample_events) - zsum (map finished sample_events) /\
  ThreadSafeCounter.total (completed (reads s)) + published = zsum (map succeeded sample_events).
Proof.
  destruct sample_published as [s published] eqn:E.
  apply (monitor_counts no_sin no_sin sample_model 2 sample_events s published); [done|].
  rewrite <- E. vm_compute. reflexivity.
Defined.

End DiskMonitor.
