(* ===== verification/RwIsolation.v ===== *)
(** * Read/write isolation

    [src/sandook/scheduler/control_plane]: [rw_isolation_base.h] decides how
    many servers serve writes and rotates the write role over the servers;
    [rw_isolation_strict.h], [rw_isolation_weak.h] and
    [adaptive_rw_isolation_weak.h] turn the modes into weights;
    [adaptive_rw_isolation_base.h] takes the peak throughput of a server from
    its disk model instead of a constant. The virtual [GetPeakIOPS] is the
    parameter of the base class, and an uninitialised local array is the
    parameter [junk]. *)

From Stdlib Require Import String.
From S2P Require Import Prelude Float64 FloatInt BaseTypes Telemetry DiskModels.

Local Open Scope Z_scope.

Module RWIsolationBase.

Record t := mk {
  telemetry_ : TelemetryStream.t (T := ControllerRWIsolationTelemetry.t);
  last_allocation_ : ServerAllocation;
  prev_system_load_ : SystemLoad;
  last_mode_switch_time_ : Z;
  num_servers_ : Z;
  last_write_server_idx_ : Z;
}.
#[global] Instance settable : Settable t :=
  settable! mk <telemetry_; last_allocation_; prev_system_load_; last_mode_switch_time_;
    num_servers_; last_write_server_idx_>.

Definition init (now : Z) : t := mk TelemetryStream.init (false, 0, 0) (0, 0) now 0 0.

Definition AddServer (s : t) : Status unit * t :=
  (Value tt, s <| num_servers_ := u64 (num_servers_ s + 1) |> <| last_write_server_idx_ := 0 |>).

Definition GetPeakIOPS (server_id : ServerID) (mode : ServerMode.t) : outcome Z :=
  match mode with
  | ServerMode.kRead => to_uint 64 kPeakReadIOPSPerSSD
  | _ => to_uint 64 kPeakWriteIOPSPerSSD
  end.

Definition IsLoadIncreased (load : SystemLoad) (s : t) : bool :=
  let '(cur_read_load, cur_write_load) := load in
  let '(prev_read_load, prev_write_load) := prev_system_load_ s in
  if prev_read_load <? cur_read_load then true
  else if prev_write_load <? cur_write_load then true
  else false.

Definition UpdateSystemLoad (load : SystemLoad) (s : t) : t := s <| prev_system_load_ := load |>.

Definition IsAllocationChanged (allocation : ServerAllocation) (s : t) : bool :=
  let '(cur_is_traffic, cur_nr, cur_nw) := allocation in
  let '(last_is_traffic, last_nr, last_nw) := last_allocation_ s in
  if negb (cur_nr =? 0) && (last_nr =? 0) then true
  else if negb (cur_nw =? 0) && (last_nw =? 0) then true
  else if (last_nr <? cur_nr) || (last_nw <? cur_nw) then true
  else false.

Definition UpdateAllocation (allocation : ServerAllocation) (s : t) : t :=
  s <| last_allocation_ := allocation |>.

Definition AllocationNeedsUpdate (allocation : ServerAllocation) (load : SystemLoad) (s : t) : bool :=
  IsAllocationChanged allocation s.

Definition IsTimeToModeSwitch (now : Z) (s : t) : bool :=
  kModeSwitchIntervalUs <=? u64 (now - last_mode_switch_time_ s).

Definition UpdateModeSwitchTime (now : Z) (s : t) : t := s <| last_mode_switch_time_ := now |>.

(** [(server_id + 1) % num_servers_]. *)
Definition next_idx (num_servers server_id : Z) : outcome Z :=
  if num_servers =? 0 then Fault Undefined else Ok (u64 (server_id + 1) mod num_servers).

Definition all_writes (stats : ServerStatsList) : double :=
  foldl (fun acc server =>
    (acc + of_int (u32 (ServerStats.inflight_writes server +
       ServerStats.completed_writes server + ServerStats.rejected_writes server)))%double)
    (of_int 0) stats.

Section Virtual.
Variable GetPeakIOPS : ServerID -> ServerMode.t -> outcome Z.

(** The demand loop of [GetAllocation]; each turn adds a server. *)
Fixpoint demand_loop (fuel : nat) (num_servers n_servers write_ops : Z)
    (handled_writes server_id dem_w_servers : Z) : outcome Z :=
  match fuel with
  | O => Fault NoProgress
  | S fuel' =>
      if (write_ops <=? handled_writes) || (dem_w_servers =? n_servers) then Ok dem_w_servers
      else
        server_w_tput ← GetPeakIOPS (u32 (server_id + 1)) ServerMode.kMix;
        next ← next_idx num_servers server_id;
        demand_loop fuel' num_servers n_servers write_ops
          (u64 (handled_writes + server_w_tput)) next (u64 (dem_w_servers + 1))
  end.

Definition GetAllocation (stats : ServerStatsList) (load : SystemLoad) (s : t) : outcome ServerAllocation :=
  let n_servers := Z.of_nat (length stats) in
  let '(read_ops, write_ops) := load in
  let total_ops := u64 (read_ops + write_ops) in
  let min_w_servers :=
    if (all_writes stats >? of_int 0)%double || (0 <? write_ops) then kNumReplicas else 0 in
  let kExtraWriteSSDs := 1 in
  if negb (read_ops =? 0) && negb (write_ops =? 0) then
    dem ← demand_loop (S (length stats)) (num_servers_ s) n_servers write_ops
            0 (last_write_server_idx_ s) 0;
    let dem_w_servers := u64 (dem + kExtraWriteSSDs) in
    let n_w_servers := Z.min n_servers (Z.max min_w_servers dem_w_servers) in
    Ok (0 <? total_ops, u64 (n_servers - n_w_servers), n_w_servers)
  else if negb (read_ops =? 0) && (write_ops =? 0) then Ok (0 <? total_ops, n_servers, 0)
  else if negb (write_ops =? 0) && (read_ops =? 0) then Ok (0 <? total_ops, 0, n_servers)
  else Ok (0 <? total_ops, 0, 0).

(** One turn of the loops that assign modes: the mode of server
    [server_id + 1], and the next index. *)
Definition assign (num_servers : Z) (mode : ServerMode.t) (st : ServerModes * Z) (i : Z)
  : outcome (ServerModes * Z) :=
  let '(modes, server_id) := st in
  modes' ← at_put modes (u64 (server_id + 1)) mode;
  next ← next_idx num_servers server_id;
  Ok (modes', next).

Definition all_mix (modes : ServerModes) : ServerModes := map (fun _ => ServerMode.kMix) modes.

(** [junk] is the uninitialised array [modes]; the clock is read before the
    switch ([now]), for the telemetry ([now1]) and for the switch time ([now2]). *)
Definition ComputeModes (junk : ServerModes) (now now1 now2 : Z) (stats : ServerStatsList)
    (load : SystemLoad) (s : t) : outcome (Status ServerModes * t) :=
  let num_servers := Z.of_nat (length stats) in
  if num_servers <=? kNumReplicas then
    Ok (Value (all_mix junk), UpdateSystemLoad load s)
  else
    allocation ← GetAllocation stats load s;
    let '(is_traffic, n_r_servers, n_w_servers) := allocation in
    if negb is_traffic then Ok (MakeError EAGAIN, UpdateSystemLoad load s)
    else if (n_r_servers =? 0) && (n_w_servers =? 0) then
      Ok (Value (all_mix junk), UpdateSystemLoad load s)
    else
      let is_update := AllocationNeedsUpdate allocation load s in
      let s1 := UpdateSystemLoad load s in
      if negb is_update && negb (IsTimeToModeSwitch now s1) then Ok (MakeError EAGAIN, s1)
      else
        let s2 := UpdateAllocation allocation s1 in
        st ← ofold (assign (num_servers_ s2) ServerMode.kWrite)
               (junk, last_write_server_idx_ s2) (zrange 0 (Z.to_nat n_w_servers));
        st' ← ofold (assign (num_servers_ s2) ServerMode.kRead)
                st (zrange 0 (Z.to_nat n_r_servers));
        require (negb (num_servers_ s2 =? 0)) Undefined;;
        let s3 := s2 <| last_write_server_idx_ :=
          u64 (last_write_server_idx_ s2 + n_w_servers) mod num_servers_ s2 |> in
        tel ← TelemetryStream.TraceBuffered
                (ControllerRWIsolationTelemetry.mk now1 allocation (num_servers_ s3)) (telemetry_ s3);
        let s4 := UpdateModeSwitchTime now2 (s3 <| telemetry_ := tel |>) in
        Ok (Value (fst st'), s4).
End Virtual.

(** ** The rotation

    [n] servers are registered; position [k] of the rotation that starts at
    index [idx] is server [srv idx n k]. *)
Definition wf (n : Z) (s : t) : Prop :=
  num_servers_ s = n /\ 0 < n < kNumMaxServers /\ 0 <= last_write_server_idx_ s < n /\
  0 <= TelemetryStream.buf_idx_ (telemetry_ s) <= kMaxBufferEntries.

Definition srv (idx n k : Z) : ServerID := (idx + k) mod n + 1.

(** The write throughput of the first [d] servers of the rotation. *)
Definition capacity (peak : ServerID -> Z) (idx n : Z) (d : nat) : Z :=
  zsum (map (fun k => peak (srv idx n k)) (zrange 0 d)).

Lemma capacity_S peak idx n d :
  capacity peak idx n (S d) = capacity peak idx n d + peak (srv idx n (Z.of_nat d)).
Proof. unfold capacity. rewrite zrange_S, map_app, zsum_app, Z.add_0_l. cbn. lia. Qed.

Lemma srv_range idx n k : 0 < n -> 1 <= srv idx n k <= n.
Proof. intros. unfold srv. pose proof (Z.mod_pos_bound (idx + k) n). lia. Qed.

(** The rotation visits every server once. *)
Lemma srv_inj idx n k k' :
  0 < n -> 0 <= k < n -> 0 <= k' < n -> srv idx n k = srv idx n k' -> k = k'.
Proof.
  unfold srv. intros Hn Hk Hk' H.
  pose proof (Z.div_mod (idx + k) n ltac:(lia)). pose proof (Z.div_mod (idx + k') n ltac:(lia)).
  assert (n * ((idx + k) / n - (idx + k') / n) = k - k') as Hq by lia.
  assert ((idx + k) / n - (idx + k') / n = 0) by nia. nia.
Qed.

Lemma srv_surj idx n i :
  0 < n -> 1 <= i <= n -> exists k, 0 <= k < n /\ srv idx n k = i.
Proof.
  intros Hn Hi. exists ((i - 1 - idx) mod n). split; [apply Z.mod_pos_bound; lia|].
  unfold srv. rewrite Zplus_mod_idemp_r. replace (idx + (i - 1 - idx)) with (i - 1) by lia.
  rewrite Z.mod_small; lia.
Qed.

Lemma next_idx_srv idx n k :
  0 < n < kNumMaxServers -> next_idx n ((idx + k) mod n) = Ok ((idx + (k + 1)) mod n).
Proof.
  unfold kNumMaxServers. intros Hn. unfold next_idx. rewrite (proj2 (Z.eqb_neq n 0)) by lia.
  pose proof (Z.mod_pos_bound (idx + k) n). rewrite wrap_small by lia.
  rewrite Zplus_mod_idemp_l. do 2 f_equal. lia.
Qed.

Section Demand.
Context (GetPeakIOPS : ServerID -> ServerMode.t -> outcome Z) (peak : ServerID -> Z) (n : nat).
Hypothesis n_range : 0 < Z.of_nat n < kNumMaxServers.
(** Every server has a peak throughput, and the peaks add up below 2^64. *)
Hypothesis peak_ok : forall i, 1 <= i <= Z.of_nat n -> GetPeakIOPS i ServerMode.kMix = Ok (peak i).
Hypothesis peak_range : forall i, 0 <= peak i < 2 ^ 58.

Lemma capacity_range idx d : 0 <= capacity peak idx (Z.of_nat n) d <= Z.of_nat d * 2 ^ 58.
Proof.
  induction d as [|d IH]; [done|]. rewrite capacity_S.
  specialize (peak_range (srv idx (Z.of_nat n) (Z.of_nat d))). lia.
Qed.

Lemma capacity_mono idx d e :
  (d <= e)%nat -> capacity peak idx (Z.of_nat n) d <= capacity peak idx (Z.of_nat n) e.
Proof.
  induction 1 as [|e _ IH]; [done|]. rewrite capacity_S.
  specialize (peak_range (srv idx (Z.of_nat n) (Z.of_nat e))). lia.
Qed.

(** The demand loop takes the shortest prefix of the rotation that can absorb
    the writes, or all servers; it always ends. *)
Lemma demand_loop_spec fuel idx w (d : nat) :
  (n - d < fuel)%nat -> (d <= n)%nat ->
  exists d' : nat, demand_loop GetPeakIOPS fuel (Z.of_nat n) (Z.of_nat n) w
      (capacity peak idx (Z.of_nat n) d) ((idx + Z.of_nat d) mod Z.of_nat n) (Z.of_nat d)
      = Ok (Z.of_nat d') /\
    (d <= d' <= n)%nat /\ (w <= capacity peak idx (Z.of_nat n) d' \/ d' = n) /\
    (forall e, (d <= e < d')%nat -> capacity peak idx (Z.of_nat n) e < w).
Proof.
  revert d. induction fuel as [|fuel IH]; intros d Hf Hd; [lia|]. simpl.
  destruct (Z.leb_spec w (capacity peak idx (Z.of_nat n) d)) as [Hw|Hw]; simpl.
  { exists d. split_and!; [done|lia|lia|by left|]. intros. lia. }
  destruct (Z.eqb_spec (Z.of_nat d) (Z.of_nat n)) as [Heq|Hne].
  { exists d. split_and!; [done|lia|lia|right; lia|]. intros. lia. }
  pose proof (srv_range idx (Z.of_nat n) (Z.of_nat d) ltac:(lia)) as Hs.
  fold (srv idx (Z.of_nat n) (Z.of_nat d)). unfold kNumMaxServers in n_range.
  rewrite (wrap_small 32) by lia. rewrite peak_ok by done. simpl.
  rewrite next_idx_srv by done. simpl.
  pose proof (capacity_range idx (S d)) as Hc. rewrite capacity_S in Hc.
  rewrite !wrap_small, <- capacity_S by lia.
  replace (Z.of_nat d + 1) with (Z.of_nat (S d)) by lia.
  destruct (IH (S d)) as (d' & Hrun & Hd' & Hcov & Hmin); [lia|lia|].
  exists d'. split_and!; [done|lia|lia|done|]. intros e He.
  destruct (decide (e = d)) as [->|]; [done|]. apply Hmin. lia.
Qed.

(** With reads and writes in the load, the servers are split: at least the
    replication factor takes writes, and the write servers can absorb the write
    load unless every server is one. *)
Lemma GetAllocation_split stats r w s :
  wf (Z.of_nat n) s -> length stats = n -> (2 < n)%nat -> 0 < r -> 0 < w -> r + w < 2 ^ 64 ->
  exists nw : nat, GetAllocation GetPeakIOPS stats (r, w) s = Ok (true, Z.of_nat (n - nw), Z.of_nat nw) /\
    (2 <= nw <= n)%nat /\
    (w <= capacity peak (last_write_server_idx_ s) (Z.of_nat n) nw \/ nw = n).
Proof.
  intros (Hnum & Hn & Hidx & _) Hlen H2 Hr Hw Hrw. unfold GetAllocation, kNumMaxServers in *.
  rewrite (proj2 (Z.eqb_neq r 0)), (proj2 (Z.eqb_neq w 0)), (proj2 (Z.ltb_lt 0 w)) by lia.
  rewrite orb_true_r, Hlen, Hnum. cbn [negb andb].
  destruct (demand_loop_spec (S n) (last_write_server_idx_ s) w 0) as (d & Hd & Hdn & Hcov & _); [lia|lia|].
  change (capacity peak (last_write_server_idx_ s) (Z.of_nat n) 0) with 0 in Hd.
  rewrite Z.add_0_r, (Z.mod_small (last_write_server_idx_ s)) in Hd by lia.
  change (Z.of_nat 0) with 0 in Hd. rewrite Hd. unfold kNumReplicas. cbn [mbind outcome_bind].
  rewrite !wrap_small, (proj2 (Z.ltb_lt 0 (r + w))) by lia.
  exists (min n (max 2 (d + 1))). split_and!; [do 2 f_equal; [f_equal|]; lia|lia|lia|].
  destruct (decide (n <= max 2 (d + 1))%nat) as [Hle|Hgt]; [right; lia|left].
  destruct Hcov as [Hcov| ->]; [|lia]. replace (min _ _) with (max 2 (d + 1)) by lia.
  eapply Z.le_trans; [exact Hcov|]. apply capacity_mono. lia.
Qed.

End Demand.
(** ** Assigning the modes *)

(** [k] turns from position [a] of the rotation set the modes of positions
    [a .. a + k - 1] and leave every other slot alone. *)
Lemma assign_loop n idx mode modes (a k : nat) :
  0 < n < kNumMaxServers -> length modes = Z.to_nat kNumMaxServers ->
  exists modes', ofold (assign n mode) (modes, (idx + Z.of_nat a) mod n) (zrange 0 k)
      = Ok (modes', (idx + Z.of_nat (a + k)) mod n) /\
    length modes' = Z.to_nat kNumMaxServers /\
    (forall j, Z.of_nat a <= j < Z.of_nat (a + k) -> at_ modes' (srv idx n j) = Ok mode) /\
    (forall i, (forall j, Z.of_nat a <= j < Z.of_nat (a + k) -> i <> srv idx n j) ->
       at_ modes' i = at_ modes i).
Proof.
  intros Hn Hlen. induction k as [|k (m & Hrun & Hl & Hset & Hkeep)].
  { exists modes. rewrite Nat.add_0_r. split_and!; [done|done|lia|done]. }
  rewrite zrange_S, ofold_app, Hrun. cbn [mbind outcome_bind ofold assign].
  pose proof (srv_range idx n (Z.of_nat (a + k)) ltac:(lia)) as Hs. unfold kNumMaxServers in *.
  fold (srv idx n (Z.of_nat (a + k))). rewrite wrap_small by lia.
  destruct (at_put m (srv idx n (Z.of_nat (a + k))) mode) as [m'|] eqn:Hput.
  2:{ rewrite at_put_in_range in Hput by lia. done. }
  cbn [mbind outcome_bind]. rewrite next_idx_srv by done. cbn [mbind outcome_bind].
  exists m'. split_and!.
  - do 4 f_equal. lia.
  - by rewrite (at_put_length _ _ _ _ Hput).
  - intros j Hj. destruct (decide (srv idx n j = srv idx n (Z.of_nat (a + k)))) as [->|Hne].
    + by apply (at_put_eq m).
    + rewrite (at_put_ne _ _ _ _ _ Hput) by done. apply Hset.
      assert (j <> Z.of_nat (a + k)) by (intros ->; done). lia.
  - intros i Hi. rewrite (at_put_ne _ _ _ _ _ Hput) by (intros <-; by apply (Hi (Z.of_nat (a + k))); [lia|]).
    apply Hkeep. intros j Hj. apply Hi. lia.
Qed.

(** Both loops: the first [nw] positions write, the next [nr] read. *)
Lemma assign_roles n idx junk (nw nr : nat) :
  0 < n < kNumMaxServers -> 0 <= idx < n -> length junk = Z.to_nat kNumMaxServers ->
  n = Z.of_nat (nw + nr) ->
  exists st modes next, ofold (assign n ServerMode.kWrite) (junk, idx) (zrange 0 nw) = Ok st /\
    ofold (assign n ServerMode.kRead) st (zrange 0 nr) = Ok (modes, next) /\
    length modes = Z.to_nat kNumMaxServers /\
    forall k, 0 <= k < n ->
      at_ modes (srv idx n k) = Ok (if k <? Z.of_nat nw then ServerMode.kWrite else ServerMode.kRead).
Proof.
  intros Hn Hidx Hlen Hsum.
  destruct (assign_loop n idx ServerMode.kWrite junk 0 nw) as (m & Hw & Hl & Hset & _); [done..|].
  destruct (assign_loop n idx ServerMode.kRead m nw nr) as (m' & Hr & Hl' & Hset' & Hkeep'); [done..|].
  rewrite Z.add_0_r, Z.mod_small in Hw by lia. rewrite Nat.add_0_l in Hw, Hset.
  eexists _, m', _. split_and!; [exact Hw|exact Hr|done|]. intros k Hk.
  destruct (Z.ltb_spec k (Z.of_nat nw)) as [Hlt|Hge]; [|apply Hset'; lia].
  rewrite Hkeep'; [apply Hset; lia|]. intros j Hj Heq. apply srv_inj in Heq; lia.
Qed.

(** Everything after the allocation is known, for a split of the [n] servers. *)
Lemma ComputeModes_alloc G junk now now1 now2 stats load s (n nw : nat) :
  wf (Z.of_nat n) s -> length stats = n -> (2 < n)%nat -> (nw <= n)%nat ->
  length junk = Z.to_nat kNumMaxServers ->
  GetAllocation G stats load s = Ok (true, Z.of_nat (n - nw), Z.of_nat nw) ->
  exists res s', ComputeModes G junk now now1 now2 stats load s = Ok (res, s') /\ wf (Z.of_nat n) s' /\
    match res with
    | MakeError e => e = EAGAIN /\ IsTimeToModeSwitch now s = false /\
        last_write_server_idx_ s' = last_write_server_idx_ s
    | Value modes =>
        (forall k, 0 <= k < Z.of_nat n -> at_ modes (srv (last_write_server_idx_ s) (Z.of_nat n) k)
           = Ok (if k <? Z.of_nat nw then ServerMode.kWrite else ServerMode.kRead)) /\
        last_write_server_idx_ s' = (last_write_server_idx_ s + Z.of_nat nw) mod Z.of_nat n /\
        last_mode_switch_time_ s' = now2
    end.
Proof.
  intros Hwf Hlen H2 Hnw Hjunk Halloc. pose proof Hwf as (Hnum & Hn & Hidx & Htel). unfold ComputeModes.
  rewrite Halloc, Hlen, (proj2 (Z.leb_gt _ _)) by (unfold kNumReplicas; lia).
  cbn [mbind outcome_bind negb].
  assert ((Z.of_nat (n - nw) =? 0) && (Z.of_nat nw =? 0) = false) as ->.
  { apply andb_false_iff. rewrite !Z.eqb_neq. lia. }
  destruct (negb _ && negb _) eqn:Eupd.
  { eexists _, _. split; [reflexivity|]. split; [exact Hwf|].
    apply andb_true_iff in Eupd as [_ Ht]. apply negb_true_iff in Ht. done. }
  destruct (assign_roles (Z.of_nat n) (last_write_server_idx_ s) junk nw (n - nw))
    as (st & modes & next & Hw & Hr & _ & Hroles); [done..|lia|].
  simpl num_servers_. simpl last_write_server_idx_. rewrite Hnum, !Nat2Z.id, Hw.
  cbn [mbind outcome_bind]. rewrite Hr. cbn [mbind outcome_bind].
  rewrite (proj2 (Z.eqb_neq (Z.of_nat n) 0)) by lia. simpl.
  destruct (TelemetryStream.TraceBuffered_total (T := ControllerRWIsolationTelemetry.t)
    (ControllerRWIsolationTelemetry.mk now1 (true, Z.of_nat (n - nw), Z.of_nat nw) (Z.of_nat n))
    (telemetry_ s) Htel) as (tel & Htel' & Hrange).
  rewrite Htel'. simpl. eexists _, _. split; [reflexivity|]. unfold kNumMaxServers in Hn.
  split; [|split; [done|split; [|done]]].
  - split_and!; simpl; [done|lia|unfold kNumMaxServers; lia|apply Z.mod_pos_bound; lia|apply Z.mod_pos_bound; lia|lia|lia].
  - simpl. by rewrite wrap_small by lia.
Qed.


Definition sample_junk : ServerModes := replicate (Z.to_nat kNumMaxServers) ServerMode.kMix.
Definition sample (n : nat) : t := Nat.iter n (fun s => snd (AddServer s)) (init 0).

Lemma sample_isolation_wf n : 0 < Z.of_nat n < kNumMaxServers -> wf (Z.of_nat n) (sample n).
Proof.
  unfold kNumMaxServers. intros Hn.
  assert (num_servers_ (sample n) = Z.of_nat n /\ last_write_server_idx_ (sample n) = 0 /\
    telemetry_ (sample n) = TelemetryStream.init) as (H1 & H2 & H3).
  { assert (Z.of_nat n < 20) as Hlt by lia. clear Hn. induction n as [|n IH]; [done|].
    change (sample (S n)) with (snd (AddServer (sample n))). cbn.
    destruct IH as (-> & _ & ->); [lia|]. rewrite wrap_small by lia. split_and!; [lia|done..]. }
  unfold wf, kNumMaxServers. rewrite H1, H2, H3. split_and!; (lia || done).
Qed.

Lemma base_peak i : GetPeakIOPS i ServerMode.kMix = Ok 200000.
Proof. vm_compute. reflexivity. Qed.


(** When no completed writes show in the load, every server becomes a reader,
    also while servers report writes in flight or rejected. *)
Theorem write_backlog_gets_no_writer G stats r s :
  0 < r < 2 ^ 64 -> GetAllocation G stats (r, 0) s = Ok (true, Z.of_nat (length stats), 0).
Proof.
  intros Hr. unfold GetAllocation. rewrite (proj2 (Z.eqb_neq r 0)) by lia. cbn.
  rewrite Z.add_0_r, wrap_small by lia. by rewrite (proj2 (Z.ltb_lt 0 r)) by lia.
Qed.

End RWIsolationBase.

(** ** Weights *)

(** The loops over the reported servers shared by the weight computations:
    how many servers satisfy [valid], and their weight written. *)
Definition count_valid (valid : ServerStats.t -> bool) (stats : ServerStatsList) : Z :=
  Z.of_nat (length (List.filter valid stats)).

Definition put_weights (valid : ServerStats.t -> bool) (weight : double)
    (stats : ServerStatsList) (weights : ServerWeights) : outcome ServerWeights :=
  ofold (fun ws srv => if valid srv then at_put ws (ServerStats.server_id srv) weight else Ok ws)
    weights stats.

Definition mode_is_not (m : ServerMode.t) (srv : ServerStats.t) : bool :=
  bool_decide (ServerStats.mode srv <> m).

Module RWIsolationStrict.
Definition ComputeWeights (junk : ServerWeights) (stats : ServerStatsList) (op : OpType.t)
    : outcome (Status ServerWeights) :=
  let filter_mode := if decide (op = OpType.kRead) then ServerMode.kWrite else ServerMode.kRead in
  let num_valid_servers := count_valid (mode_is_not filter_mode) stats in
  let weight := (of_int 1 / of_int num_valid_servers)%double in
  weights ← put_weights (mode_is_not filter_mode) weight stats junk;
  Ok (Value weights).
End RWIsolationStrict.

Module RWIsolationWeak.
Definition ComputeReadWeights (junk : ServerWeights) (stats : ServerStatsList)
    : outcome (Status ServerWeights) :=
  let num_valid_servers := Z.of_nat (length stats) in
  let weight := (of_int 1 / of_int num_valid_servers)%double in
  weights ← put_weights (fun _ => true) weight stats junk;
  Ok (Value weights).

Definition ComputeWriteWeights (junk : ServerWeights) (stats : ServerStatsList)
    : outcome (Status ServerWeights) :=
  let num_valid_servers := count_valid (mode_is_not ServerMode.kRead) stats in
  let weight := (of_int 1 / of_int num_valid_servers)%double in
  weights ← put_weights (mode_is_not ServerMode.kRead) weight stats junk;
  Ok (Value weights).

Definition ComputeWeights (junk : ServerWeights) (stats : ServerStatsList) (op : OpType.t)
    : outcome (Status ServerWeights) :=
  match op with
  | OpType.kRead => ComputeReadWeights junk stats
  | OpType.kWrite => ComputeWriteWeights junk stats
  | _ => Fault RuntimeError
  end.
End RWIsolationWeak.

Module AdaptiveRWIsolation.
Record t := mk { base : RWIsolationBase.t; models_ : list DiskModel.t }.
#[global] Instance settable : Settable t := settable! mk <base; models_>.

Definition init (now : Z) : t :=
  mk (RWIsolationBase.init now) (replicate (Z.to_nat kNumMaxServers) DiskModel.empty).

(** [model] is the caller's model, or null; then the model is loaded by name. *)
Definition AddServer (LoadModel : string -> option (list Z * list Z)) (server_id : ServerID)
    (name : string) (model : option DiskModel.t) (s : t) : outcome (Status unit * t) :=
  let '(ret, b) := RWIsolationBase.AddServer (base s) in
  let s1 := s <| base := b |> in
  match ret with
  | MakeError e => Ok (MakeError e, s1)
  | Value _ =>
      m ← match model with Some m => Ok m | None => DiskModel.make LoadModel name end;
      ms ← at_put (models_ s1) server_id m;
      Ok (Value tt, s1 <| models_ := ms |>)
  end.

Definition GetPeakIOPS (s : t) (server_id : ServerID) (mode : ServerMode.t) : outcome Z :=
  m ← at_ (models_ s) server_id;
  DiskModel.GetPeakIOPS ServerMode.kMix (of_int 0) m.

Definition ComputeModes (junk : ServerModes) (now now1 now2 : Z) (stats : ServerStatsList)
    (load : SystemLoad) (s : t) : outcome (Status ServerModes * t) :=
  r ← RWIsolationBase.ComputeModes (GetPeakIOPS s) junk now now1 now2 stats load (base s);
  Ok (fst r, s <| base := snd r |>).

Definition ComputeReadWeights (junk : ServerWeights) (stats : ServerStatsList)
    : outcome (Status ServerWeights) :=
  let num_valid_servers := Z.of_nat (length stats) in
  let weight := (of_int 1 / of_int num_valid_servers)%double in
  weights ← put_weights (fun _ => true) weight stats junk;
  Ok (Value weights).

Definition ComputeWriteWeights (junk : ServerWeights) (stats : ServerStatsList)
    : outcome (Status ServerWeights) :=
  let num_valid_servers := count_valid (mode_is_not ServerMode.kRead) stats in
  let weight := (of_int 1 / of_int num_valid_servers)%double in
  weights ← put_weights (mode_is_not ServerMode.kRead) weight stats junk;
  Ok (Value weights).

Definition ComputeWeights (junk : ServerWeights) (stats : ServerStatsList) (op : OpType.t)
    : outcome (Status ServerWeights) :=
  match op with
  | OpType.kRead => ComputeReadWeights junk stats
  | OpType.kWrite => ComputeWriteWeights junk stats
  | _ => Fault RuntimeError
  end.
End AdaptiveRWIsolation.

(** The reported servers are servers [1 .. n], in order. *)
Definition ids_ok (stats : ServerStatsList) : Prop :=
  exists n : nat, ServerStats.server_id <$> stats = zrange 1 n /\ Z.of_nat n < kNumMaxServers.

Lemma put_weights_spec valid weight stats ws :
  NoDup (ServerStats.server_id <$> stats) ->
  Forall (fun st => 0 <= ServerStats.server_id st < Z.of_nat (length ws)) stats ->
  exists ws', put_weights valid weight stats ws = Ok ws' /\ length ws' = length ws /\
    (forall st, st ∈ stats -> at_ ws' (ServerStats.server_id st) =
       if valid st then Ok weight else at_ ws (ServerStats.server_id st)) /\
    (forall i, i ∉ ServerStats.server_id <$> stats -> at_ ws' i = at_ ws i).
Proof.
  unfold put_weights. revert ws. induction stats as [|st stats IH]; intros ws Hnd Hr.
  { exists ws. split_and!; [done|done|by intros st ?%elem_of_nil|done]. }
  rewrite fmap_cons, NoDup_cons in Hnd. destruct Hnd as [Hst Hnd]. inversion_clear Hr as [|? ? Hs Hr'].
  simpl. set (w1 := if valid st then _ else _).
  assert (exists w, w1 = Ok w /\ length w = length ws /\
    at_ w (ServerStats.server_id st) = (if valid st then Ok weight else at_ ws (ServerStats.server_id st)) /\
    forall i, i <> ServerStats.server_id st -> at_ w i = at_ ws i) as (w & -> & Hl & Hset & Hkeep).
  { subst w1. destruct (valid st); [|by exists ws].
    eexists. split; [by apply at_put_in_range|]. pose proof (at_put_in_range ws _ weight Hs) as Hp.
    split_and!; [by rewrite length_insert|by apply (at_put_eq ws)|].
    intros i Hi. by apply (at_put_ne ws _ (ServerStats.server_id st) i weight). }
  simpl. destruct (IH w Hnd) as (ws' & Hrun & Hl' & Hset' & Hkeep'); [by rewrite Hl|].
  exists ws'. split_and!; [done|congruence| |].
  - intros x [->|Hx]%elem_of_cons; [by rewrite Hkeep'|]. rewrite Hset' by done.
    destruct (valid x); [done|]. apply Hkeep. intros Heq. apply Hst. rewrite <- Heq.
    apply list_elem_of_fmap. eauto.
  - intros i Hi. rewrite not_elem_of_cons in Hi. destruct Hi. by rewrite Hkeep', Hkeep.
Qed.

Lemma ids_ok_put stats (ws : ServerWeights) :
  ids_ok stats -> length ws = Z.to_nat kNumMaxServers ->
  NoDup (ServerStats.server_id <$> stats) /\
  Forall (fun st => 0 <= ServerStats.server_id st < Z.of_nat (length ws)) stats.
Proof.
  intros (n & Hids & Hn) Hl. unfold kNumMaxServers in *. rewrite Hids. split; [apply zrange_NoDup|].
  apply Forall_forall. intros st Hst. assert (ServerStats.server_id st ∈ zrange 1 n) as H.
  { rewrite <- Hids. apply list_elem_of_fmap. eauto. }
  apply elem_of_zrange in H. lia.
Qed.

(** Strict isolation shares an operation equally among the servers whose mode
    admits it; a server of the opposite mode keeps whatever the uninitialised
    array held. *)
Theorem strict_weights junk stats op :
  ids_ok stats -> length junk = Z.to_nat kNumMaxServers ->
  let blocked := if decide (op = OpType.kRead) then ServerMode.kWrite else ServerMode.kRead in
  exists ws, RWIsolationStrict.ComputeWeights junk stats op = Ok (Value ws) /\
    forall st, st ∈ stats -> at_ ws (ServerStats.server_id st) =
      if decide (ServerStats.mode st = blocked) then at_ junk (ServerStats.server_id st)
      else Ok (of_int 1 / of_int (count_valid (mode_is_not blocked) stats))%double.
Proof.
  intros Hids Hlen blocked. destruct (ids_ok_put stats junk Hids Hlen) as [Hnd Hr].
  unfold RWIsolationStrict.ComputeWeights. fold blocked.
  destruct (put_weights_spec (mode_is_not blocked)
    (of_int 1 / of_int (count_valid (mode_is_not blocked) stats))%double stats junk Hnd Hr)
    as (ws & -> & _ & Hset & _).
  exists ws. split; [done|]. intros st Hst. rewrite (Hset st Hst). unfold mode_is_not.
  by case_bool_decide; case_decide.
Qed.

Definition sample_stats : ServerStatsList :=
  (fun i => ServerStats.zero <| ServerStats.server_id := i |>
     <| ServerStats.mode := if i =? 3 then ServerMode.kWrite else ServerMode.kRead |>) <$> [1; 2; 3].
Definition sample_weights : ServerWeights := replicate (Z.to_nat kNumMaxServers) S754_nan.

Lemma strict_weights_witness :
  exists ws, RWIsolationStrict.ComputeWeights sample_weights sample_stats OpType.kRead = Ok (Value ws) /\
    at_ ws 1 = Ok (dlit 1 2) /\ at_ ws 3 = Ok S754_nan /\
    forall st, st ∈ sample_stats -> at_ ws (ServerStats.server_id st) =
      if decide (ServerStats.mode st = ServerMode.kWrite) then at_ sample_weights (ServerStats.server_id st)
      else Ok (of_int 1 / of_int (count_valid (mode_is_not ServerMode.kWrite) sample_stats))%double.
Proof.
  destruct (strict_weights sample_weights sample_stats OpType.kRead) as (ws & Hrun & Hset);
    [by exists 3%nat|done|].
  exists ws. split_and!; [exact Hrun| | |exact Hset].
  - refine (eq_trans (Hset (ServerStats.zero <| ServerStats.server_id := 1 |>
      <| ServerStats.mode := ServerMode.kRead |>) _) _); [by left|vm_compute; reflexivity].
  - refine (eq_trans (Hset (ServerStats.zero <| ServerStats.server_id := 3 |>
      <| ServerStats.mode := ServerMode.kWrite |>) _) _); [by right; right; left|vm_compute; reflexivity].
Defined.

(** Weak isolation: reads go to every server with the same weight. *)
Theorem weak_read_weights junk stats :
  ids_ok stats -> length junk = Z.to_nat kNumMaxServers ->
  exists ws, RWIsolationWeak.ComputeWeights junk stats OpType.kRead = Ok (Value ws) /\
    forall st, st ∈ stats -> at_ ws (ServerStats.server_id st) =
      Ok (of_int 1 / of_int (Z.of_nat (length stats)))%double.
Proof.
  intros Hids Hlen. destruct (ids_ok_put stats junk Hids Hlen) as [Hnd Hr].
  destruct (put_weights_spec (fun _ => true) (of_int 1 / of_int (Z.of_nat (length stats)))%double
    stats junk Hnd Hr) as (ws & Hrun & _ & Hset & _).
  exists ws. simpl. unfold RWIsolationWeak.ComputeReadWeights. by rewrite Hrun.
Qed.
