(* ===== verification/ProfileGuidedPolicy.v ===== *)
(** * Profile-guided weights

    [src/sandook/scheduler/control_plane/profile_guided.h] and
    [profile_guided_rw_isolation.h]: weights that even out the latency the disk
    models predict, found by moving weight to the best server until the
    predicted latencies are close to their mean, with weights proportional to
    peak throughput as the fallback. Logging is not modelled. *)

From Stdlib Require Import String.
From stdpp Require Import sorting.
From S2P Require Import Prelude Float64 FloatInt FloatBound BaseTypes DiskModels RwIsolation.

Local Open Scope Z_scope.

Definition ENOTSUP : Z := 95.

Definition kStaticWeightPeakLoadThreshold : double := dlit 95 100.
Definition kStableMeanBound : double := dlit 5 100.
Definition kMaxIterativeMethodMeanBound : double := of_int 1.
Definition kMaxIterations : nat := Z.to_nat 5000.
Definition kBias : double := dlit 5 1000.
Definition kMinWeight : double := of_int 0.
Definition kMaxWeight : double := of_int 1.

(** [std::clamp(v, lo, hi)]. *)
Definition dclamp (v lo hi : double) : double :=
  if (v <? lo)%double then lo else if (hi <? v)%double then hi else v.

Module ProfileGuided.

Record t := mk { models_ : list DiskModel.t }.
#[global] Instance settable : Settable t := settable! mk <models_>.

Definition init : t := mk (replicate (Z.to_nat kNumMaxServers) DiskModel.empty).

(** The peaks are computed for the log line of a loaded model. *)
Definition AddServer (LoadModel : string -> option (list Z * list Z)) (server_id : ServerID)
    (name : string) (model : option DiskModel.t) (s : t) : outcome (Status unit * t) :=
  match model with
  | Some m =>
      ms ← at_put (models_ s) server_id m;
      Ok (Value tt, s <| models_ := ms |>)
  | None =>
      m ← DiskModel.make LoadModel name;
      ms ← at_put (models_ s) server_id m;
      _ ← DiskModel.GetPeakIOPS ServerMode.kRead (of_int 0) m;
      _ ← DiskModel.GetPeakIOPS ServerMode.kWrite (of_int 0) m;
      _ ← DiskModel.GetPeakIOPS ServerMode.kMix (of_int 0) m;
      Ok (Value tt, s <| models_ := ms |>)
  end.

Definition UseIterativeMethod (stats : ServerStatsList) (op : OpType.t) (load : SystemLoad) (s : t)
    : outcome bool :=
  total_iops_capacity ← ofold (fun total srv =>
      model ← at_ (models_ s) (ServerStats.server_id srv);
      let peak_mode := if decide (ServerStats.mode srv = ServerMode.kRead)
                       then ServerMode.kRead else ServerMode.kWrite in
      srv_load ← DiskModel.GetPeakIOPS peak_mode (of_int 0) model;
      Ok (u64 (total + srv_load))) 0 stats;
  let '(read_ops, write_ops) := load in
  let threshold := (of_int total_iops_capacity * kStaticWeightPeakLoadThreshold)%double in
  if decide (op = OpType.kRead) then Ok (of_int read_ops <? threshold)%double
  else Ok (of_int write_ops <? threshold)%double.

Definition ResetWeights (weights : ServerWeights) (stats : ServerStatsList) : outcome ServerWeights :=
  let default_weight := (of_int 1 / of_int (Z.of_nat (length stats)))%double in
  put_weights (fun _ => true) default_weight stats weights.

Definition GetResidualLoad (server : ServerStats.t) (op : OpType.t) : double :=
  let scale_factor := (of_int kOneSecond / of_int kDiskServerStatsUpdateIntervalUs)%double in
  if decide (ServerStats.mode server = ServerMode.kRead) then of_int 0
  else
    let residual_load :=
      if decide (op = OpType.kRead) then of_int (ServerStats.inflight_writes server)
      else of_int (ServerStats.inflight_reads server) in
    (residual_load * scale_factor)%double.

(** The zero-initialised array [ServerWeights weights{0.0}]. *)
Definition zero_weights : ServerWeights := replicate (Z.to_nat kNumMaxServers) (of_int 0).

(** The signals of one iteration: the array, the best server and its signal,
    and the sum. *)
Record signals := mkSignals {
  sig : list Z;
  best_server_id : ServerID;
  best_server_signal : Z;
  sum_signal : Z;
}.

Definition signals0 : signals :=
  mkSignals (replicate (Z.to_nat kNumMaxServers) 0) kInvalidServerID (2 ^ 64 - 1) 0.

Definition collect (s : t) (op : OpType.t) (total_ops : Z) (write_ratio : double)
    (weights : ServerWeights) (acc : signals) (srv : ServerStats.t) : outcome signals :=
  let server_id := ServerStats.server_id srv in
  let residual_load := GetResidualLoad srv op in
  w ← at_ weights server_id;
  let load := (of_int total_ops * w + residual_load)%double in
  model ← at_ (models_ s) server_id;
  cur_load ← to_uint 64 load;
  sg ← DiskModel.GetLatency cur_load op (ServerStats.mode srv) write_ratio model;
  let '(bid, bsig) := if sg <? best_server_signal acc then (server_id, sg)
                      else (best_server_id acc, best_server_signal acc) in
  sigs ← at_put (sig acc) server_id sg;
  Ok (mkSignals sigs bid bsig (u64 (sum_signal acc + sg))).

Definition update_weight (scale_factor : double) (best_id : ServerID) (new_best_weight : double)
    (weights : ServerWeights) (srv : ServerStats.t) : outcome ServerWeights :=
  let server_id := ServerStats.server_id srv in
  weight ← at_ weights server_id;
  let weight' := if server_id =? best_id then dmin new_best_weight kMaxWeight
                 else dmax (scale_factor * weight)%double kMinWeight in
  at_put weights server_id weight'.

Fixpoint iterate (n : nat) (s : t) (stats : ServerStatsList) (op : OpType.t) (total_ops : Z)
    (write_ratio bound : double) (weights : ServerWeights) : outcome (Status ServerWeights) :=
  match n with
  | O => Ok (MakeError EAGAIN)
  | S n' =>
      sg ← ofold (collect s op total_ops write_ratio weights) signals0 stats;
      let mean_signal := (of_int (sum_signal sg) / of_int (Z.of_nat (length stats)))%double in
      let d_diff_signal := SFabs (of_int (best_server_signal sg) - mean_signal)%double in
      let diff := (d_diff_signal / mean_signal)%double in
      if (diff <=? bound)%double then Ok (Value weights)
      else
        cur_best_weight ← at_ weights (best_server_id sg);
        let new_best_weight := (cur_best_weight + kBias)%double in
        let cur_rem_weight := (of_int 1 - cur_best_weight)%double in
        if (cur_rem_weight =? of_int 0)%double then Ok (MakeError EAGAIN)
        else
          let new_rem_weight := (of_int 1 - new_best_weight)%double in
          let scale_factor := (new_rem_weight / cur_rem_weight)%double in
          if (scale_factor =? of_int 0)%double then Ok (MakeError EAGAIN)
          else
            weights' ← ofold (update_weight scale_factor (best_server_id sg) new_best_weight) weights stats;
            iterate n' s stats op total_ops write_ratio bound weights'
  end.

Definition ComputeWeightsIterative (stats : ServerStatsList) (op : OpType.t) (load : SystemLoad)
    (bound : double) (s : t) : outcome (Status ServerWeights) :=
  if Z.of_nat (length stats) <? 2 then Ok (MakeError EAGAIN)
  else
    let '(read_ops, write_ops) := load in
    let total_ops := u64 (read_ops + write_ops) in
    let write_ratio := (of_int write_ops / of_int total_ops)%double in
    if total_ops =? 0 then Ok (MakeError EAGAIN)
    else
      weights ← ResetWeights zero_weights stats;
      iterate kMaxIterations s stats op total_ops write_ratio bound weights.

Definition peak_of (s : t) (write_ratio : double) (srv : ServerStats.t) : outcome Z :=
  model ← at_ (models_ s) (ServerStats.server_id srv);
  DiskModel.GetPeakIOPS (ServerStats.mode srv) write_ratio model.

(** The weight of one server, and the running sum. *)
Definition peak_weight (s : t) (write_ratio : double) (total_iops_capacity median_load : Z)
    (acc : ServerWeights * double) (srv : ServerStats.t) : outcome (ServerWeights * double) :=
  let '(weights, sum_weights) := acc in
  srv_load ← peak_of s write_ratio srv;
  let weight := (of_int srv_load / of_int total_iops_capacity)%double in
  let weight := if median_load <=? srv_load then (weight + kBias)%double else (weight - kBias)%double in
  let weight := dclamp weight kMinWeight kMaxWeight in
  weights' ← at_put weights (ServerStats.server_id srv) weight;
  Ok (weights', (sum_weights + weight)%double).

Definition normalize (sum_weights : double) (weights : ServerWeights) (srv : ServerStats.t)
    : outcome ServerWeights :=
  w ← at_ weights (ServerStats.server_id srv);
  at_put weights (ServerStats.server_id srv) (w / sum_weights)%double.

Definition ComputeWeightsFromPeak (stats : ServerStatsList) (load : SystemLoad) (s : t)
    : outcome (Status ServerWeights) :=
  if Z.of_nat (length stats) <? 2 then Ok (MakeError EAGAIN)
  else
    let '(read_ops, write_ops) := load in
    let total_ops := u64 (read_ops + write_ops) in
    let write_ratio := (of_int write_ops / of_int total_ops)%double in
    if total_ops =? 0 then Ok (MakeError EAGAIN)
    else
      weights ← ResetWeights zero_weights stats;
      st ← ofold (fun '(loads, total) srv =>
             srv_load ← peak_of s write_ratio srv;
             Ok (loads ++ [srv_load], u64 (total + srv_load))) ([], 0) stats;
      let '(loads, total_iops_capacity) := st in
      if total_iops_capacity =? 0 then Ok (Value weights)
      else
        let loads := merge_sort Z.le loads in
        median_load ← at_ loads (Z.of_nat (length loads) / 2);
        st ← ofold (peak_weight s write_ratio total_iops_capacity median_load) (weights, of_int 0) stats;
        let '(weights, sum_weights) := st in
        if (sum_weights <=? of_int 0)%double then
          weights ← ResetWeights weights stats;
          Ok (Value weights)
        else
          weights ← ofold (normalize sum_weights) weights stats;
          Ok (Value weights).

(** The search over growing bounds: [fuel] limits the rounds. *)
Fixpoint try_bounds (fuel : nat) (bound : double) (stats : ServerStatsList) (op : OpType.t)
    (load : SystemLoad) (s : t) : outcome (option ServerWeights) :=
  if (bound <? kMaxIterativeMethodMeanBound)%double then
    match fuel with
    | O => Fault NoProgress
    | S fuel' =>
        ret ← ComputeWeightsIterative stats op load bound s;
        match ret with
        | Value w => Ok (Some w)
        | MakeError _ => try_bounds fuel' (bound + kStableMeanBound)%double stats op load s
        end
    end
  else Ok None.

Definition kBoundRounds : nat := 20.

Definition ComputeWeights (stats : ServerStatsList) (op : OpType.t) (load : SystemLoad) (s : t)
    : outcome (Status ServerWeights) :=
  use ← UseIterativeMethod stats op load s;
  found ← (if (use : bool) then try_bounds kBoundRounds kStableMeanBound stats op load s else Ok None);
  match found with
  | Some w => Ok (Value w)
  | None => ComputeWeightsFromPeak stats load s
  end.

#[local] Opaque kMaxIterations.

(** ** The search over bounds ends

    Whether the bound reaches its maximum within [fuel] rounds. *)
Fixpoint reaches_max (fuel : nat) (bound : double) : bool :=
  if (bound <? kMaxIterativeMethodMeanBound)%double then
    match fuel with O => false | S fuel' => reaches_max fuel' (bound + kStableMeanBound)%double end
  else true.

Lemma try_bounds_fuel fuel extra bound stats op load s :
  reaches_max fuel bound = true ->
  try_bounds (fuel + extra) bound stats op load s = try_bounds fuel bound stats op load s.
Proof.
  revert bound. induction fuel as [|fuel IH]; intros bound H.
  - simpl in *. destruct (bound <? kMaxIterativeMethodMeanBound)%double eqn:E; [done|].
    destruct extra; simpl; by rewrite E.
  - cbn [Nat.add try_bounds reaches_max] in *.
    destruct (bound <? kMaxIterativeMethodMeanBound)%double; [|done].
    destruct (ComputeWeightsIterative stats op load bound s) as [[w|e]|f]; cbn; [done| |done].
    by apply IH.
Qed.


#[local] Opaque kBoundRounds.

(** ** Only listed servers get weight *)

Definition same_outside (stats : ServerStatsList) (w w' : ServerWeights) : Prop :=
  length w' = length w /\
  forall i, i ∉ ServerStats.server_id <$> stats -> at_ w' i = at_ w i.

#[global] Instance same_outside_preorder stats : PreOrder (same_outside stats).
Proof.
  split; [by split|]. intros a b c [Hl1 H1] [Hl2 H2]. split; [congruence|].
  intros i Hi. by rewrite H2, H1.
Qed.

Lemma at_put_same_outside stats srv (w w' : ServerWeights) x :
  srv ∈ stats -> at_put w (ServerStats.server_id srv) x = Ok w' -> same_outside stats w w'.
Proof.
  intros Hin Hput. split; [by eapply at_put_length|]. intros i Hi. eapply at_put_ne; [done|].
  intros <-. apply Hi, list_elem_of_fmap. eauto.
Qed.

(** A loop over the listed servers whose body writes at most the entry of the
    server it visits. *)
Lemma ofold_same_outside {S} (f : S -> ServerStats.t -> outcome S) (g : S -> ServerWeights) stats s0 s1 :
  (forall srv s s', srv ∈ stats -> f s srv = Ok s' -> same_outside stats (g s) (g s')) ->
  ofold f s0 stats = Ok s1 -> same_outside stats (g s0) (g s1).
Proof.
  intros Hf. apply (ofold_ind (fun _ s => same_outside stats (g s0) (g s)) f); [reflexivity|].
  intros d a r s s' Heq Hs Hrun. etransitivity; [exact Hs|]. eapply Hf; [|exact Hrun]. set_solver.
Qed.

Lemma put_weights_same_outside valid x stats w w' :
  put_weights valid x stats w = Ok w' -> same_outside stats w w'.
Proof.
  apply (ofold_same_outside _ id). intros srv s s' Hin H.
  destruct (valid srv); [by eapply at_put_same_outside|by simplify_eq].
Qed.

Lemma iterate_same_outside n s stats op total ratio bound w w' :
  iterate n s stats op total ratio bound w = Ok (Value w') -> same_outside stats w w'.
Proof.
  revert w. induction n as [|n IH]; intros w H; cbn [iterate] in H; [done|]. simplify_outcome.
  destruct (_ <=? bound)%double; [by simplify_outcome|]. simplify_outcome.
  destruct (_ =? of_int 0)%double; [done|]. destruct (_ =? of_int 0)%double; [done|].
  simplify_outcome. transitivity v1; [|by eapply IH].
  eapply (ofold_same_outside _ id); [|eassumption]. intros srv a b Hin Hu.
  unfold update_weight in Hu. simplify_outcome. by eapply at_put_same_outside.
Qed.

Lemma ComputeWeightsFromPeak_same_outside stats load s w :
  ComputeWeightsFromPeak stats load s = Ok (Value w) -> same_outside stats zero_weights w.
Proof.
  unfold ComputeWeightsFromPeak. destruct (_ <? 2); [done|]. destruct load as [r wr].
  destruct (_ =? 0); [done|]. intros H. simplify_outcome. destruct v0 as [loads total].
  apply put_weights_same_outside in Hrun.
  destruct (total =? 0); [by simplify_outcome|]. simplify_outcome. destruct v1 as [w1 sum].
  assert (same_outside stats v w1) as H1.
  { refine (ofold_same_outside _ fst stats (v, _) (w1, sum) _ Hrun2).
    intros srv [a sa] [b sb] Hin Hu. unfold peak_weight in Hu. simplify_outcome.
    by eapply at_put_same_outside. }
  destruct (sum <=? of_int 0)%double; simplify_outcome.
  - etransitivity; [exact Hrun|]. etransitivity; [exact H1|]. by eapply put_weights_same_outside.
  - etransitivity; [exact Hrun|]. etransitivity; [exact H1|].
    eapply (ofold_same_outside _ id); [|eassumption]. intros srv a b Hin Hu.
    unfold normalize in Hu. simplify_outcome. by eapply at_put_same_outside.
Qed.

Lemma try_bounds_same_outside fuel bound stats op load s w :
  try_bounds fuel bound stats op load s = Ok (Some w) -> same_outside stats zero_weights w.
Proof.
  revert bound. induction fuel as [|fuel IH]; intros bound H; cbn [try_bounds] in H;
    destruct (bound <? _)%double; simplify_eq. simplify_outcome.
  destruct v as [w0|e]; [|by eapply IH]. simplify_outcome. unfold ComputeWeightsIterative in Hrun.
  destruct (_ <? 2); [done|]. destruct load as [r wr]. destruct (_ =? 0); [done|]. simplify_outcome.
  etransitivity; [by eapply put_weights_same_outside|by eapply iterate_same_outside].
Qed.

Lemma zero_weights_at i : 0 <= i < kNumMaxServers -> at_ zero_weights i = Ok (of_int 0).
Proof.
  unfold kNumMaxServers. intros Hi. apply at_Ok. split; [lia|].
  apply lookup_replicate. split; [done|]. unfold kNumMaxServers. lia.
Qed.

Lemma ComputeWeights_same_outside stats op load s w :
  ComputeWeights stats op load s = Ok (Value w) -> same_outside stats zero_weights w.
Proof.
  unfold ComputeWeights. intros H. simplify_outcome. destruct v0 as [w0|].
  - simplify_outcome. destruct (v : bool); [|done]. by eapply try_bounds_same_outside.
  - by eapply ComputeWeightsFromPeak_same_outside.
Qed.

(** ** Weights from peaks are valid

    [std::discrete_distribution] needs weights that are not negative. A weight
    before normalisation lies between zero and one. *)
Definition unit_weight (w : double) : Prop := nonneg w /\ is_finite w = true.

Lemma dclamp_unit v : is_nan v = false -> unit_weight (dclamp v kMinWeight kMaxWeight).
Proof.
  intros Hv. unfold dclamp. destruct (v <? kMinWeight)%double eqn:E1; [by vm_compute|].
  destruct (kMaxWeight <? v)%double eqn:E2; [by vm_compute|].
  split; [apply nonneg_dle; by apply dlt_false|].
  apply dlt_false in E2; [|done|done]. by destruct v as [[]|[]| |[] m e].
Qed.

Definition all_weights (P : double -> Prop) (ws : ServerWeights) : Prop :=
  forall i w, at_ ws i = Ok w -> P w.

Lemma all_weights_put (P : double -> Prop) ws ws' i x :
  all_weights P ws -> P x -> at_put ws i x = Ok ws' -> all_weights P ws'.
Proof.
  intros Hall Hx Hput j w Hj. destruct (decide (i = j)) as [->|Hne].
  - rewrite (at_put_eq _ _ _ _ Hput) in Hj. by simplify_outcome.
  - rewrite (at_put_ne _ _ _ _ _ Hput Hne) in Hj. by eapply Hall.
Qed.

Lemma default_weight_unit n : 0 < Z.of_nat n < 2 ^ 53 -> unit_weight (of_int 1 / of_int (Z.of_nat n))%double.
Proof.
  intros Hn. destruct (ddiv_int_fraction 1 (Z.of_nat n)) as [->|(m & e & b & -> & _)]; by try lia.
Qed.

Lemma ResetWeights_unit ws stats ws' :
  0 < Z.of_nat (length stats) < 2 ^ 53 -> all_weights unit_weight ws ->
  ResetWeights ws stats = Ok ws' -> all_weights unit_weight ws'.
Proof.
  intros Hn Hws. unfold ResetWeights, put_weights.
  apply (ofold_ind (fun _ w => all_weights unit_weight w)); [done|].
  intros d a r s s' _ Hs Hput. eapply all_weights_put; [exact Hs| |exact Hput].
  by apply default_weight_unit.
Qed.

Lemma zero_weights_unit : all_weights unit_weight zero_weights.
Proof. intros i w [_ H]%at_Ok. by apply lookup_replicate in H as [-> _]. Qed.

Lemma peak_of_range s ratio srv z : peak_of s ratio srv = Ok z -> 0 <= z < 2 ^ 64.
Proof.
  unfold peak_of. intros H. simplify_outcome.
  assert (exists ld lat, DiskModel.GetPeakIOPS_curve ld lat = Ok z) as (ld & lat & Hc).
  { unfold DiskModel.GetPeakIOPS in H. destruct (ServerStats.mode srv); simplify_outcome; eauto. }
  unfold DiskModel.GetPeakIOPS_curve in Hc. simplify_outcome. unfold to_uint in Hc.
  destruct (dtrunc _); [|done]. destruct (decide _); by simplify_outcome.
Qed.

Lemma peak_weights_loop s ratio total median stats ws ws' sum' :
  0 < total < 2 ^ 64 -> all_weights unit_weight ws ->
  ofold (peak_weight s ratio total median) (ws, of_int 0) stats = Ok (ws', sum') ->
  all_weights unit_weight ws' /\ nonneg sum'.
Proof.
  intros Ht Hws Hrun.
  refine (ofold_ind (fun _ st => all_weights unit_weight (fst st) /\ nonneg (snd st))
    _ stats (ws, of_int 0) (ws', sum') _ _ Hrun); [by split|].
  clear Hrun. intros d srv r [w1 s1] [w2 s2] _ [Hw Hs] H. unfold peak_weight in H. simplify_outcome.
  apply peak_of_range in Hrun.
  set (q := (of_int v / of_int total)%double) in *.
  assert (is_nan q = false) as Hq by (by apply ddiv_int_not_nan).
  set (x := if median <=? v then _ else _) in *.
  assert (is_nan x = false) as Hx.
  { subst x. destruct (median <=? v); [by apply dadd_not_nan|by apply dsub_not_nan]. }
  apply dclamp_unit in Hx. split; [by eapply all_weights_put|]. by apply dadd_nonneg, Hx.
Qed.

Lemma normalize_loop sum stats ws ws' :
  NoDup (ServerStats.server_id <$> stats) -> positive_double sum -> all_weights unit_weight ws ->
  ofold (normalize sum) ws stats = Ok ws' -> all_weights nonneg ws'.
Proof.
  intros Hnd Hsum Hws Hrun.
  assert (forall i w, at_ ws' i = Ok w -> nonneg w /\
    (i ∉ ServerStats.server_id <$> stats -> is_finite w = true)) as H; [|intros i w Hi; by apply (H i)].
  refine (ofold_ind (fun d ws => forall i w, at_ ws i = Ok w -> nonneg w /\
    (i ∉ ServerStats.server_id <$> d -> is_finite w = true)) _ stats ws ws' _ _ Hrun).
  { intros i w Hi. by destruct (Hws i w Hi). }
  clear Hrun. intros d srv r w1 w2 Heq Hw H. unfold normalize in H. simplify_outcome.
  assert (ServerStats.server_id srv ∉ ServerStats.server_id <$> d) as Hnew.
  { rewrite fmap_app, fmap_cons in Hnd. apply NoDup_app in Hnd as (_ & Hdis & _).
    intros Hin. apply (Hdis _ Hin). by left. }
  destruct (Hw _ _ Hrun) as [Hv Hfin]. intros i w Hi.
  destruct (decide (ServerStats.server_id srv = i)) as [<-|Hne].
  - rewrite (at_put_eq _ _ _ _ H) in Hi. simplify_outcome. split; [apply ddiv_nonneg; auto|].
    rewrite fmap_app. intros Hni. exfalso. apply Hni, elem_of_app. right. by left.
  - rewrite (at_put_ne _ _ _ _ _ H Hne) in Hi. destruct (Hw _ _ Hi) as [? Hf]. split; [done|].
    rewrite fmap_app. intros Hni. apply Hf. set_solver.
Qed.


End ProfileGuided.

Module ProfileGuidedRWIsolation.

Record t := mk { rw_ : AdaptiveRWIsolation.t; pg_ : ProfileGuided.t }.
#[global] Instance settable : Settable t := settable! mk <rw_; pg_>.

Definition init (now : Z) : t := mk (AdaptiveRWIsolation.init now) ProfileGuided.init.

Definition AddServer (LoadModel : string -> option (list Z * list Z)) (server_id : ServerID)
    (name : string) (model : option DiskModel.t) (s : t) : outcome (Status unit * t) :=
  r ← ProfileGuided.AddServer LoadModel server_id name model (pg_ s);
  let s1 := s <| pg_ := snd r |> in
  match fst r with
  | MakeError e => Ok (MakeError e, s1)
  | Value _ =>
      r' ← AdaptiveRWIsolation.AddServer LoadModel server_id name model (rw_ s1);
      let s2 := s1 <| rw_ := snd r' |> in
      match fst r' with
      | MakeError e => Ok (MakeError e, s2)
      | Value _ => Ok (Value tt, s2)
      end
  end.

(** [ProfileGuided] inherits the base class's refusal. *)
Definition GetDiskPeakIOPS (server_id : ServerID) (s : t) : Status DiskPeakIOPS := MakeError ENOTSUP.

Definition ComputeModes (junk : ServerModes) (now now1 now2 : Z) (stats : ServerStatsList)
    (load : SystemLoad) (s : t) : outcome (Status ServerModes * t) :=
  r ← AdaptiveRWIsolation.ComputeModes junk now now1 now2 stats load (rw_ s);
  Ok (fst r, s <| rw_ := snd r |>).

Definition ComputeReadWeights (stats : ServerStatsList) (load : SystemLoad) (s : t)
    : outcome (Status ServerWeights) :=
  ProfileGuided.ComputeWeights stats OpType.kRead load (pg_ s).

Definition ComputeWriteWeights (stats : ServerStatsList) (load : SystemLoad) (s : t)
    : outcome (Status ServerWeights) :=
  let stats_filtered := List.filter (mode_is_not ServerMode.kRead) stats in
  ProfileGuided.ComputeWeights stats_filtered OpType.kWrite load (pg_ s).

Definition ComputeWeights (stats : ServerStatsList) (op : OpType.t) (load : SystemLoad) (s : t)
    : outcome (Status ServerWeights) :=
  match op with
  | OpType.kRead => ComputeReadWeights stats load s
  | OpType.kWrite => ComputeWriteWeights stats load s
  | _ => Fault RuntimeError
  end.

(** C15: No write weight goes to a server in read mode: whenever write weights are
    computed, such a server's weight is zero, as is that of every unregistered
    slot. *)
Theorem write_weights_isolated stats load s w st :
  ids_ok stats -> st ∈ stats -> ServerStats.mode st = ServerMode.kRead ->
  ComputeWeights stats OpType.kWrite load s = Ok (Value w) ->
  at_ w (ServerStats.server_id st) = Ok (of_int 0).
Proof.
  intros (n & Hids & Hn) Hst Hmode H. simpl in H. unfold ComputeWriteWeights in H.
  apply ProfileGuided.ComputeWeights_same_outside in H as [_ H].
  assert (ServerStats.server_id st ∈ zrange 1 n) as Hid.
  { rewrite <- Hids. apply list_elem_of_fmap. eauto. }
  apply elem_of_zrange in Hid. rewrite H; [apply ProfileGuided.zero_weights_at; lia|].
  intros (st' & Heq & Hst')%list_elem_of_fmap. apply list_elem_of_In, filter_In in Hst' as [Hin Hv].
  apply list_elem_of_In in Hin. assert (st' = st) as ->.
  { assert (NoDup (ServerStats.server_id <$> stats)) as Hnd by (rewrite Hids; apply zrange_NoDup).
    apply list_elem_of_lookup in Hin as [i Hi]. apply list_elem_of_lookup in Hst as [j Hj].
    assert (i = j) as ->; [|congruence].
    eapply (NoDup_lookup _ i j (ServerStats.server_id st) Hnd); rewrite list_lookup_fmap;
      [by rewrite Hi, Heq|by rewrite Hj]. }
  unfold mode_is_not in Hv. by apply bool_decide_eq_true in Hv.
Qed.

(** Three servers with the same profile, the first one in read mode. *)
Definition sample_server (id : ServerID) : ServerStats.t :=
  ServerStats.zero <| ServerStats.server_id := id |>
    <| ServerStats.mode := if id =? 1 then ServerMode.kRead else ServerMode.kWrite |>.
Definition sample_stats : ServerStatsList := sample_server <$> [1; 2; 3].

Definition sample : t :=
  let add id s := match AddServer DiskModel.sample_files id "d" None s with Ok r => snd r | Fault _ => s end in
  add 3 (add 2 (add 1 (init 0))).

Lemma write_weights_isolated_witness :
  exists w, ComputeWeights sample_stats OpType.kWrite (200000, 100000) sample = Ok (Value w) /\
    at_ w 1 = Ok (of_int 0) /\ at_ w 2 = Ok (dlit 1 2).
Proof.
  eexists. split; [vm_compute; reflexivity|]. split; [|vm_compute; reflexivity].
  refine (write_weights_isolated sample_stats (200000, 100000) sample _ (sample_server 1) _ _ eq_refl _);
    [by exists 3%nat|by left|vm_compute; reflexivity].
Defined.


End ProfileGuidedRWIsolation.
