(* ===== verification/Configuration.v ===== *)
(** * Configuration

    [src/sandook/config/config.h] and [config.cc]: the enumerations and the
    static constants, initialised in the order of their definitions from the
    JSON document the process loads at start. The document is jsoncpp's and the
    existence of a directory is the file system's: both are arguments. *)

From Stdlib Require Import String.
From S2P Require Import Prelude BaseTypes.

Local Open Scope string_scope.
Local Open Scope Z_scope.

(** The members of the document the initialisers ask for, by name and type; a
    conversion of jsoncpp may raise. *)
Record Json := {
  asCString : string -> outcome string;
  asString : string -> outcome string;
  asInt : string -> outcome Z;
  asUInt : string -> outcome Z;
  asBool : string -> outcome bool;
}.

Module Config.

Inductive ControlPlaneSchedulerType :=
| kNoOp | kProfileGuided | kRWIsolationStrict | kRWIsolationWeak
| kAdaptiveRWIsolationWeak | kProfileGuidedRWIsolation.

Inductive DataPlaneSchedulerType :=
| kWeightedReadWrite | kRandomReadWrite | kRandomReadHashWrite | kWeightedReadHashWrite.

Inductive VirtualDiskType := kRemote | kLocal.
Inductive DiskServerBackend := kPOSIX | kMemory | kSPDK.

#[global] Instance virtual_disk_type_eq_dec : EqDecision VirtualDiskType.
Proof. solve_decision. Defined.

(** The initialisers compare the member with one name after the other; every
    comparison converts the member again. *)
Fixpoint by_name {A} (root : Json) (member : string) (names : list (string * A)) : outcome A :=
  match names with
  | [] => Fault RuntimeError
  | (n, a) :: names' =>
      s ← asCString root member;
      if String.eqb s n then Ok a else by_name root member names'
  end.

Definition VirtualDiskType_names : list (string * VirtualDiskType) :=
  [("Remote", kRemote); ("Local", kLocal)].

Definition ControlPlaneSchedulerType_names : list (string * ControlPlaneSchedulerType) :=
  [("NoOp", kNoOp); ("ProfileGuided", kProfileGuided);
   ("RWIsolationStrict", kRWIsolationStrict); ("RWIsolationWeak", kRWIsolationWeak);
   ("AdaptiveRWIsolationWeak", kAdaptiveRWIsolationWeak);
   ("ProfileGuidedRWIsolation", kProfileGuidedRWIsolation)].

Definition DataPlaneSchedulerType_names : list (string * DataPlaneSchedulerType) :=
  [("WeightedReadWrite", kWeightedReadWrite); ("RandomReadWrite", kRandomReadWrite);
   ("RandomReadHashWrite", kRandomReadHashWrite); ("WeightedReadHashWrite", kWeightedReadHashWrite)].

Definition DiskServerBackend_names : list (string * DiskServerBackend) :=
  [("POSIX", kPOSIX); ("Memory", kMemory); ("SPDK", kSPDK)].

Record t := mk {
  kVirtualDiskType : VirtualDiskType;
  kVirtualDiskIP : string;
  kVirtualDiskPort : Z;
  kVirtualDiskServerAffinity : ServerID;
  kControllerIP : string;
  kControllerPort : Z;
  kSSDModelsDirPath : string;
  kDiskServerRejections : bool;
  kStorageServerIP : string;
  kStorageServerPort : Z;
  kControlPlaneSchedulerType : ControlPlaneSchedulerType;
  kDataPlaneSchedulerType : DataPlaneSchedulerType;
  kDiskServerBackend : DiskServerBackend;
}.

(** The result is converted to a [ServerID], an unsigned 32-bit integer as
    the member already is. *)
Definition load_affinity (root : Json) : outcome ServerID :=
  affinity ← asUInt root "kVirtualDiskServerAffinity";
  require (negb ((affinity <? kInvalidServerID) || (kNumMaxServers <=? affinity))) RuntimeError;;
  Ok affinity.

Definition load_models_dir (exists_ : string -> bool) (root : Json) : outcome string :=
  dir ← asString root "kSSDModelsDirPath";
  require (exists_ dir) RuntimeError;;
  Ok dir.

(** A member only a remote disk has. *)
Definition if_remote {A} (type : VirtualDiskType) (m : outcome A) (otherwise : A) : outcome A :=
  if decide (type = kRemote) then m else Ok otherwise.

Definition load (exists_ : string -> bool) (root : Json) : outcome t :=
  type ← by_name root "kVirtualDiskType" VirtualDiskType_names;
  vd_ip ← if_remote type (asString root "kVirtualDiskIP") EmptyString;
  vd_port ← if_remote type (asInt root "kVirtualDiskPort") 0;
  affinity ← if_remote type (load_affinity root) kInvalidServerID;
  ctrl_ip ← asString root "kControllerIP";
  ctrl_port ← asInt root "kControllerPort";
  dir ← load_models_dir exists_ root;
  rejections ← asBool root "kDiskServerRejections";
  srv_ip ← asString root "kStorageServerIP";
  srv_port ← asInt root "kStorageServerPort";
  control ← by_name root "kControlPlaneSchedulerType" ControlPlaneSchedulerType_names;
  data ← by_name root "kDataPlaneSchedulerType" DataPlaneSchedulerType_names;
  backend ← by_name root "kDiskServerBackend" DiskServerBackend_names;
  Ok (mk type vd_ip vd_port affinity ctrl_ip ctrl_port dir rejections srv_ip srv_port
        control data backend).

(** ** Names and constants *)

Lemma by_name_Ok {A} root member (names : list (string * A)) a :
  by_name root member names = Ok a ->
  exists s, asCString root member = Ok s /\ (s, a) ∈ names.
Proof.
  induction names as [|[n b] names IH]; simpl; intros H; simplify_outcome.
  destruct (String.eqb_spec v n) as [->|]; simplify_outcome.
  - exists n. split; [done|]. by left.
  - destruct (IH H) as (s & Hs & Hin). exists s. split; [done|]. by right.
Qed.

(** A configuration that loads names one of the policies of each plane, the
    ones its document spells, has an affinity that is a slot of the server
    tables (none for a local disk) and a models directory that exists. *)
Theorem load_valid exists_ root c :
  load exists_ root = Ok c ->
  (exists s, asCString root "kDataPlaneSchedulerType" = Ok s /\
     (s, kDataPlaneSchedulerType c) ∈ DataPlaneSchedulerType_names) /\
  (exists s, asCString root "kControlPlaneSchedulerType" = Ok s /\
     (s, kControlPlaneSchedulerType c) ∈ ControlPlaneSchedulerType_names) /\
  (exists s, asCString root "kDiskServerBackend" = Ok s /\
     (s, kDiskServerBackend c) ∈ DiskServerBackend_names) /\
  0 <= kVirtualDiskServerAffinity c < kNumMaxServers /\
  (kVirtualDiskType c = kLocal -> kVirtualDiskServerAffinity c = kInvalidServerID) /\
  exists_ (kSSDModelsDirPath c) = true.
Proof.
  unfold load. intros H. simplify_outcome.
  split_and!; try (by apply by_name_Ok).
  1,2: unfold if_remote, load_affinity in *; destruct (decide (v = kRemote)); simplify_outcome;
    unfold kInvalidServerID, kNumMaxServers in *; lia.
  - unfold if_remote in *. intros ->. by simplify_outcome.
  - unfold load_models_dir in *. by simplify_outcome.
Qed.

(** A document with every member, used by the witness. *)
Definition sample_root : Json := {|
  asCString m := Ok (
    if String.eqb m "kVirtualDiskType" then "Remote"
    else if String.eqb m "kControlPlaneSchedulerType" then "ProfileGuidedRWIsolation"
    else if String.eqb m "kDataPlaneSchedulerType" then "WeightedReadWrite" else "POSIX");
  asString m := Ok "192.168.127.7";
  asInt m := Ok 8888;
  asUInt m := Ok 3;
  asBool m := Ok true;
|}.

Lemma load_valid_witness :
  exists c, load (fun _ => true) sample_root = Ok c /\
    kDataPlaneSchedulerType c = kWeightedReadWrite /\
    0 <= kVirtualDiskServerAffinity c < kNumMaxServers.
Proof.
  eexists. split; [vm_compute; reflexivity|]. split; [reflexivity|].
  apply (load_valid (fun _ => true) sample_root). vm_compute. reflexivity.
Defined.

End Config.
