(* ===== verification/Messages.v ===== *)
(** * Messages

    [src/sandook/base/msg.h]: the structures the controller, the disk servers
    and the virtual disks exchange, their layout, and the functions that build
    them in a buffer whose contents are not initialised ([junk]). [encode] and
    [decode] collect the constructors and the receivers' casts. *)

From S2P Require Import Prelude Float64 FloatInt FloatBound BaseTypes Wire Configuration.

Local Open Scope Z_scope.

(** ** Enumerations *)

Module MsgType.
Inductive t :=
| kStorageOp | kStorageOpReply | kAllocateBlocks | kAllocateBlocksReply | kDiscardBlocks
| kRegisterServer | kRegisterServerReply | kRegisterVolume | kRegisterVolumeReply
| kUpdateServerStats | kUpdateServerStatsReply | kCommitServerMode
| kGetServerStats | kGetServerStatsReply | kGetControllerTime | kGetControllerTimeReply
| kUnnamed (code : Z).

Definition code (m : t) : Z :=
  match m with
  | kStorageOp => 0 | kStorageOpReply => 1 | kAllocateBlocks => 2 | kAllocateBlocksReply => 3
  | kDiscardBlocks => 4 | kRegisterServer => 5 | kRegisterServerReply => 6 | kRegisterVolume => 7
  | kRegisterVolumeReply => 8 | kUpdateServerStats => 9 | kUpdateServerStatsReply => 10
  | kCommitServerMode => 11 | kGetServerStats => 12 | kGetServerStatsReply => 13
  | kGetControllerTime => 14 | kGetControllerTimeReply => 15
  | kUnnamed c => c
  end.

Definition of_code (c : Z) : t :=
  match c with
  | 0 => kStorageOp | 1 => kStorageOpReply | 2 => kAllocateBlocks | 3 => kAllocateBlocksReply
  | 4 => kDiscardBlocks | 5 => kRegisterServer | 6 => kRegisterServerReply | 7 => kRegisterVolume
  | 8 => kRegisterVolumeReply | 9 => kUpdateServerStats | 10 => kUpdateServerStatsReply
  | 11 => kCommitServerMode | 12 => kGetServerStats | 13 => kGetServerStatsReply
  | 14 => kGetControllerTime | 15 => kGetControllerTimeReply
  | c => kUnnamed c
  end.
End MsgType.

Module StorageOpReplyCode.
Inductive t := kSuccess | kFailure | kRejectModeMismatch | kRejectDeviceBusy | kSuccessCongested | kUnnamed (code : Z).
#[global] Instance eq_dec : EqDecision t.
Proof. solve_decision. Defined.

Definition code (c : t) : Z :=
  match c with
  | kSuccess => 0 | kFailure => 1 | kRejectModeMismatch => 2 | kRejectDeviceBusy => 3 | kSuccessCongested => 4
  | kUnnamed c => c
  end.

Definition of_code (c : Z) : t :=
  match c with
  | 0 => kSuccess | 1 => kFailure | 2 => kRejectModeMismatch | 3 => kRejectDeviceBusy | 4 => kSuccessCongested
  | c => kUnnamed c
  end.
End StorageOpReplyCode.

(** An enumeration takes four bytes. Values that no enumerator names are only
    kept where the code distinguishes them. *)
Definition enum {T} (code : T -> Z) (of_code : Z -> T) : codec T := cmap of_code code u32c.

Definition mode_code (m : ServerMode.t) : Z :=
  match m with ServerMode.kMix => 0 | ServerMode.kRead => 1 | ServerMode.kWrite => 2 end.
Definition mode_of (c : Z) : ServerMode.t :=
  match c with 1 => ServerMode.kRead | 2 => ServerMode.kWrite | _ => ServerMode.kMix end.

Definition congestion_code (s : ServerCongestionState.t) : Z :=
  match s with
  | ServerCongestionState.kInvalid => 0 | ServerCongestionState.kUnCongested => 1
  | ServerCongestionState.kCongested => 2 | ServerCongestionState.kCongestedUnstable => 3
  | ServerCongestionState.kCongestedStable => 4
  end.
Definition congestion_of (c : Z) : ServerCongestionState.t :=
  match c with
  | 1 => ServerCongestionState.kUnCongested | 2 => ServerCongestionState.kCongested
  | 3 => ServerCongestionState.kCongestedUnstable | 4 => ServerCongestionState.kCongestedStable
  | _ => ServerCongestionState.kInvalid
  end.

Definition sched_code (s : Config.DataPlaneSchedulerType) : Z :=
  match s with
  | Config.kWeightedReadWrite => 0 | Config.kRandomReadWrite => 1
  | Config.kRandomReadHashWrite => 2 | Config.kWeightedReadHashWrite => 3
  end.
Definition sched_of (c : Z) : Config.DataPlaneSchedulerType :=
  match c with
  | 1 => Config.kRandomReadWrite | 2 => Config.kRandomReadHashWrite | 3 => Config.kWeightedReadHashWrite
  | _ => Config.kWeightedReadWrite
  end.

Definition modec : codec ServerMode.t := enum mode_code mode_of.
Definition congestionc : codec ServerCongestionState.t := enum congestion_code congestion_of.
Definition schedc : codec Config.DataPlaneSchedulerType := enum sched_code sched_of.
Definition msgtypec : codec MsgType.t := enum MsgType.code MsgType.of_code.
Definition replycodec : codec StorageOpReplyCode.t := enum StorageOpReplyCode.code StorageOpReplyCode.of_code.

(** ** Structures *)

Abbreviation is_u32 := (fun z => 0 <= z < 256 ^ Z.of_nat 4).
Abbreviation is_u64 := (fun z => 0 <= z < 256 ^ Z.of_nat 8).
Abbreviation is_i32 := (fun z => - 2 ^ (8 * Z.of_nat 4 - 1) <= z < 2 ^ (8 * Z.of_nat 4 - 1)).
Abbreviation is_byte := (fun z => 0 <= z < 256 ^ Z.of_nat 1).
Definition chars (n : Z) : codec (list Z) := array (Z.to_nat n) u8c.
Definition is_chars (n : Z) (l : list Z) : Prop := length l = Z.to_nat n /\ Forall is_byte l.

Module MsgHeader.
Record t := mk { len : Z; payload_size : Z; type : MsgType.t }.
Definition layout : codec t :=
  struct (cmap (fun '(a, b, c) => mk a b c) (fun m => (len m, payload_size m, type m)) (u64c ⊗ u32c ⊗ msgtypec)).
End MsgHeader.
Definition sizeof_MsgHeader : nat := csize MsgHeader.layout.

Definition IODesc_layout : codec IODesc.t :=
  struct (cmap (fun '(a, b, c, d, e, f) => IODesc.mk a b c d e f)
    (fun m => (IODesc.op_flags m, IODesc.num_sectors m, IODesc.start_sector m, IODesc.addr m,
               IODesc.callback_args m, IODesc.callback m))
    (u32c ⊗ u32c ⊗ u64c ⊗ u64c ⊗ u64c ⊗ u64c)).

Definition ServerBlockInfo_layout : codec ServerBlockInfo.t :=
  struct (cmap (fun '(a, b) => ServerBlockInfo.mk a b)
    (fun m => (ServerBlockInfo.server_id m, ServerBlockInfo.block_addr m)) (u32c ⊗ u64c)).

Module ServerInfo.
Record t := mk { ip : list Z; port : Z; name : list Z; id : Z }.
Definition layout : codec t :=
  struct (cmap (fun '(a, b, c, d) => mk a b c d) (fun m => (ip m, port m, name m, id m))
    (chars kIPAddrStrLen ⊗ i32c ⊗ chars kNameStrLen ⊗ u32c)).
End ServerInfo.

Definition ServerStats_layout : codec ServerStats.t :=
  struct (cmap (fun '(a, b, c, d, e, f, g, h, i, j, k, l, m, n, o, p, q, r, s, t, u) =>
                  ServerStats.mk a b c d e f g h i j k l m n o p q r s t u)
    (fun m => (ServerStats.server_id m, ServerStats.mode m, ServerStats.committed_mode m,
               ServerStats.read_mops m, ServerStats.write_mops m, ServerStats.read_weight m, ServerStats.write_weight m,
               ServerStats.inflight_reads m, ServerStats.inflight_writes m, ServerStats.completed_reads m,
               ServerStats.pure_reads m, ServerStats.impure_reads m, ServerStats.completed_writes m,
               ServerStats.rejected_reads m, ServerStats.rejected_writes m,
               ServerStats.median_read_latency m, ServerStats.median_write_latency m,
               ServerStats.signal_read_latency m, ServerStats.signal_write_latency m,
               ServerStats.is_rejecting_requests m, ServerStats.congestion_state m))
    (u32c ⊗ modec ⊗ modec ⊗ doublec ⊗ doublec ⊗ doublec ⊗ doublec ⊗ u32c ⊗ u32c ⊗ u32c ⊗ u32c ⊗ u32c ⊗ u32c
     ⊗ u32c ⊗ u32c ⊗ u64c ⊗ u64c ⊗ u64c ⊗ u64c ⊗ boolc ⊗ congestionc)).

Module StorageOpMsg.
Record t := mk { iod : IODesc.t; req_id : Z; affinity : ServerID }.
Definition layout : codec t :=
  struct (cmap (fun '(a, b, c) => mk a b c) (fun m => (iod m, req_id m, affinity m)) (IODesc_layout ⊗ u64c ⊗ u32c)).
End StorageOpMsg.

Module StorageOpReplyMsg.
Record t := mk { iod : IODesc.t; req_id : Z; code : StorageOpReplyCode.t; res : Z }.
Definition layout : codec t :=
  struct (cmap (fun '(a, b, c, d) => mk a b c d) (fun m => (iod m, req_id m, code m, res m))
    (IODesc_layout ⊗ u64c ⊗ replycodec ⊗ i32c)).
End StorageOpReplyMsg.

Module AllocateBlocksMsg.
Record t := mk { vol_id : VolumeID; server_id : ServerID }.
Definition layout : codec t :=
  struct (cmap (fun '(a, b) => mk a b) (fun m => (vol_id m, server_id m)) (u32c ⊗ u32c)).
End AllocateBlocksMsg.

Module AllocateBlocksReplyMsg.
Record t := mk { server_blks : list ServerBlockInfo.t }.
Definition layout : codec t :=
  struct (cmap mk server_blks (array (Z.to_nat kAllocationBatch) ServerBlockInfo_layout)).
End AllocateBlocksReplyMsg.

Module DiscardBlocksMsg.
Record t := mk { blocks : list ServerBlockAddr; num_blocks : Z }.
Definition layout : codec t :=
  struct (cmap (fun '(a, b) => mk a b) (fun m => (blocks m, num_blocks m)) (array (Z.to_nat kDiscardBatch) u64c ⊗ u64c)).
End DiscardBlocksMsg.

Module RegisterServerMsg.
Record t := mk { ip : list Z; port : Z; name : list Z; nsectors : Z }.
Definition layout : codec t :=
  struct (cmap (fun '(a, b, c, d) => mk a b c d) (fun m => (ip m, port m, name m, nsectors m))
    (chars kIPAddrStrLen ⊗ i32c ⊗ chars kNameStrLen ⊗ u64c)).
End RegisterServerMsg.

Module RegisterServerReplyMsg.
Record t := mk { server_id : ServerID; is_rejections_enabled : bool }.
Definition layout : codec t :=
  struct (cmap (fun '(a, b) => mk a b) (fun m => (server_id m, is_rejections_enabled m)) (u32c ⊗ boolc)).
End RegisterServerReplyMsg.

Module RegisterVolumeMsg.
Record t := mk { ip : list Z; port : Z; nsectors : Z }.
Definition layout : codec t :=
  struct (cmap (fun '(a, b, c) => mk a b c) (fun m => (ip m, port m, nsectors m)) (chars kIPAddrStrLen ⊗ i32c ⊗ u64c)).
End RegisterVolumeMsg.

Module UpdateServerStatsMsg.
Record t := mk { server_id : ServerID; stats : ServerStats.t }.
Definition layout : codec t :=
  struct (cmap (fun '(a, b) => mk a b) (fun m => (server_id m, stats m)) (u32c ⊗ ServerStats_layout)).
End UpdateServerStatsMsg.

Module UpdateServerStatsReplyMsg.
Record t := mk {
  server_id : ServerID; mode : ServerMode.t; congestion_state : ServerCongestionState.t;
  read_weight : ServerWeight; write_weight : ServerWeight;
}.
Definition layout : codec t :=
  struct (cmap (fun '(a, b, c, d, e) => mk a b c d e)
    (fun m => (server_id m, mode m, congestion_state m, read_weight m, write_weight m))
    (u32c ⊗ modec ⊗ congestionc ⊗ doublec ⊗ doublec)).
End UpdateServerStatsReplyMsg.

Module CommitServerModeMsg.
Record t := mk { server_id : ServerID; mode : ServerMode.t }.
Definition layout : codec t :=
  struct (cmap (fun '(a, b) => mk a b) (fun m => (server_id m, mode m)) (u32c ⊗ modec)).
End CommitServerModeMsg.

Module GetServerStatsMsg.
Record t := mk { vol_id : VolumeID }.
Definition layout : codec t := struct (cmap mk vol_id u32c).
End GetServerStatsMsg.

Module GetControllerTimeReplyMsg.
Record t := mk { microtime : Z }.
Definition layout : codec t := struct (cmap mk microtime u64c).
End GetControllerTimeReplyMsg.

(** An empty structure aligned to four bytes takes four bytes. *)
Definition sizeof_GetControllerTimeMsg : nat := 4.

(** The two replies that are filled server by server: a count and a table.
    Their fields are written one at a time. *)
Module RegisterVolumeReplyMsg.
Record t := mk { servers : list ServerInfo.t; vol_id : VolumeID; sched_type : Config.DataPlaneSchedulerType }.
Definition tablec : codec (list ServerInfo.t) := array (Z.to_nat kNumMaxServers) ServerInfo.layout.
Definition size : nat := csize (struct (tablec ⊗ i32c ⊗ u32c ⊗ schedc)).
Definition off_servers : nat := 0.
Definition off_num_servers : nat := offset_after tablec i32c.
Definition off_vol_id : nat := offset_after (tablec ⊗ i32c) u32c.
Definition off_sched_type : nat := offset_after (tablec ⊗ i32c ⊗ u32c) schedc.
End RegisterVolumeReplyMsg.

Module GetServerStatsReplyMsg.
Record t := mk { vol_id : VolumeID; servers : ServerStatsList }.
Definition tablec : codec ServerStatsList := array (Z.to_nat kNumMaxServers) ServerStats_layout.
Definition size : nat := csize (struct (u32c ⊗ i32c ⊗ tablec)).
Definition off_vol_id : nat := 0.
Definition off_num_servers : nat := offset_after u32c i32c.
Definition off_servers : nat := offset_after (u32c ⊗ i32c) tablec.
End GetServerStatsReplyMsg.

(** The sizes the System V layout gives. *)
Lemma sizes :
  sizeof_MsgHeader = 16%nat /\ csize IODesc_layout = 40%nat /\ csize StorageOpMsg.layout = 56%nat /\
  csize StorageOpReplyMsg.layout = 56%nat /\ csize ServerInfo.layout = 44%nat /\ csize ServerStats_layout = 120%nat /\
  csize RegisterServerMsg.layout = 48%nat /\ RegisterVolumeReplyMsg.size = 892%nat /\ GetServerStatsReplyMsg.size = 2408%nat.
Proof. vm_compute. done. Qed.

(** ** Building messages *)

(** C strings: the characters before the first NUL; [strncpy] copies them and
    fills up to [n] with NULs. *)
Fixpoint c_string (l : list Z) : list Z :=
  match l with [] => [] | c :: l => if c =? 0 then [] else c :: c_string l end.

Definition strncpy (src : list Z) (n : nat) : list Z :=
  let s := c_string (take n src) in s ++ replicate (n - length s) 0.

Section Create.
(** What a buffer of [make_unique_for_overwrite] holds. *)
Variable junk : nat -> Z.

Definition buffer (n : nat) : list Z := map junk (seq 0 n).

Definition write_header (size payload_size : nat) (type : MsgType.t) (buf : list Z) : list Z :=
  cwrite MsgHeader.layout 0 (MsgHeader.mk (Z.of_nat (size + payload_size)) (Z.of_nat payload_size) type) buf.

(** A message all of whose fields are assigned. *)
Definition create {A} (c : codec A) (type : MsgType.t) (m : A) : list Z :=
  cwrite c sizeof_MsgHeader m (write_header (csize c) 0 type (buffer (sizeof_MsgHeader + csize c))).

Definition CreateStorageOpMsg (iod : IODesc.t) (req_id : Z) (affinity : ServerID) (payload_size : nat) : list Z :=
  cwrite StorageOpMsg.layout sizeof_MsgHeader (StorageOpMsg.mk iod req_id affinity)
    (write_header (csize StorageOpMsg.layout) payload_size MsgType.kStorageOp
      (buffer (sizeof_MsgHeader + csize StorageOpMsg.layout + payload_size))).

(** The reply's header says there is no payload, though one may follow. *)
Definition CreateStorageOpReplyMsg (iod : IODesc.t) (req_id : Z) (payload_size : nat) (res : Z)
    (code : StorageOpReplyCode.t) : list Z :=
  cwrite StorageOpReplyMsg.layout sizeof_MsgHeader (StorageOpReplyMsg.mk iod req_id code res)
    (cwrite MsgHeader.layout 0
      (MsgHeader.mk (Z.of_nat (csize StorageOpReplyMsg.layout + payload_size)) 0 MsgType.kStorageOpReply)
      (buffer (sizeof_MsgHeader + csize StorageOpReplyMsg.layout + payload_size))).

Definition CreateAllocateBlocksMsg (vol_id : VolumeID) (server_id : ServerID) : list Z :=
  create AllocateBlocksMsg.layout MsgType.kAllocateBlocks (AllocateBlocksMsg.mk vol_id server_id).

Definition CreateAllocateBlocksReplyMsg (server_blks : list ServerBlockInfo.t) : list Z :=
  create AllocateBlocksReplyMsg.layout MsgType.kAllocateBlocksReply (AllocateBlocksReplyMsg.mk server_blks).

Definition CreateDiscardBlocksMsg (blocks : list ServerBlockAddr) (num_blocks : Z) : outcome (list Z) :=
  require (num_blocks <=? kDiscardBatch) BugOn;;
  Ok (create DiscardBlocksMsg.layout MsgType.kDiscardBlocks (DiscardBlocksMsg.mk blocks num_blocks)).

(** The offsets of the fields the strings are copied to. *)
Definition off_ip : nat := sizeof_MsgHeader.
Definition off_port : nat := sizeof_MsgHeader + offset_after (chars kIPAddrStrLen) i32c.
Definition off_name : nat := sizeof_MsgHeader + offset_after (chars kIPAddrStrLen ⊗ i32c) (chars kNameStrLen).
Definition off_server_nsectors : nat :=
  sizeof_MsgHeader + offset_after (chars kIPAddrStrLen ⊗ i32c ⊗ chars kNameStrLen) u64c.
Definition off_volume_nsectors : nat := sizeof_MsgHeader + offset_after (chars kIPAddrStrLen ⊗ i32c) u64c.

(** [ip] is copied without a terminator over what the buffer held; [name] is
    cleared first. *)
Definition CreateRegisterServerMsg (ip : list Z) (port : Z) (name : list Z) (nsectors : Z) : outcome (list Z) :=
  require (Z.of_nat (length name) <=? kNameStrLen) BugOn;;
  require (Z.of_nat (length ip) <=? kIPAddrStrLen) BugOn;;
  let size := csize RegisterServerMsg.layout in
  let buf := write_header size 0 MsgType.kRegisterServer (buffer (sizeof_MsgHeader + size)) in
  let buf := cwrite i32c off_port port buf in
  let buf := cwrite u64c off_server_nsectors nsectors buf in
  let buf := list_inserts off_name (replicate (Z.to_nat kNameStrLen) 0) buf in
  let buf := list_inserts off_ip (strncpy ip (length ip)) buf in
  Ok (list_inserts off_name (strncpy name (length name)) buf).

Definition CreateRegisterServerReplyMsg (server_id : ServerID) (is_rejections_enabled : bool) : list Z :=
  create RegisterServerReplyMsg.layout MsgType.kRegisterServerReply
    (RegisterServerReplyMsg.mk server_id is_rejections_enabled).

Definition CreateRegisterVolumeMsg (ip : list Z) (port nsectors : Z) : outcome (list Z) :=
  require (Z.of_nat (length ip) <=? kIPAddrStrLen) BugOn;;
  let size := csize RegisterVolumeMsg.layout in
  let buf := write_header size 0 MsgType.kRegisterVolume (buffer (sizeof_MsgHeader + size)) in
  let buf := cwrite i32c off_port port buf in
  let buf := cwrite u64c off_volume_nsectors nsectors buf in
  Ok (list_inserts off_ip (strncpy ip (length ip)) buf).

Definition CreateRegisterVolumeReplyMsg (vol_id : VolumeID) (sched_type : Config.DataPlaneSchedulerType) : list Z :=
  let size := RegisterVolumeReplyMsg.size in
  let buf := write_header size 0 MsgType.kRegisterVolumeReply (buffer (sizeof_MsgHeader + size)) in
  let buf := cwrite i32c (sizeof_MsgHeader + RegisterVolumeReplyMsg.off_num_servers) 0 buf in
  let buf := cwrite u32c (sizeof_MsgHeader + RegisterVolumeReplyMsg.off_vol_id) vol_id buf in
  cwrite schedc (sizeof_MsgHeader + RegisterVolumeReplyMsg.off_sched_type) sched_type buf.

Definition CreateUpdateServerStatsMsg (server_id : ServerID) (stats : ServerStats.t) : list Z :=
  create UpdateServerStatsMsg.layout MsgType.kUpdateServerStats
    (UpdateServerStatsMsg.mk server_id (stats <| ServerStats.server_id := server_id |>)).

Definition CreateUpdateServerStatsReplyMsg (server_id : ServerID) (mode : ServerMode.t)
    (congestion_state : ServerCongestionState.t) (read_weight write_weight : ServerWeight) : list Z :=
  create UpdateServerStatsReplyMsg.layout MsgType.kUpdateServerStatsReply
    (UpdateServerStatsReplyMsg.mk server_id mode congestion_state read_weight write_weight).

Definition CreateCommitServerModeMsg (server_id : ServerID) (mode : ServerMode.t) : list Z :=
  create CommitServerModeMsg.layout MsgType.kCommitServerMode (CommitServerModeMsg.mk server_id mode).

Definition CreateGetServerStatsMsg (vol_id : VolumeID) : list Z :=
  create GetServerStatsMsg.layout MsgType.kGetServerStats (GetServerStatsMsg.mk vol_id).

Definition CreateGetServerStatsReplyMsg (vol_id : VolumeID) : list Z :=
  let size := GetServerStatsReplyMsg.size in
  let buf := write_header size 0 MsgType.kGetServerStatsReply (buffer (sizeof_MsgHeader + size)) in
  let buf := cwrite i32c (sizeof_MsgHeader + GetServerStatsReplyMsg.off_num_servers) 0 buf in
  cwrite u32c (sizeof_MsgHeader + GetServerStatsReplyMsg.off_vol_id) vol_id buf.

Definition CreateGetControllerTimeMsg : list Z :=
  write_header sizeof_GetControllerTimeMsg 0 MsgType.kGetControllerTime
    (buffer (sizeof_MsgHeader + sizeof_GetControllerTimeMsg)).

Definition CreateGetControllerTimeReplyMsg (microtime : Z) : list Z :=
  create GetControllerTimeReplyMsg.layout MsgType.kGetControllerTimeReply (GetControllerTimeReplyMsg.mk microtime).
End Create.

(** [msg->servers.at(msg->num_servers++) = info], for a table at [off] whose
    count is at [off_num]. *)
Definition add_entry {A} (c : codec A) (off_num off : nat) (info : A) (buf : list Z) : outcome (list Z) :=
  let num := cread i32c off_num buf in
  require (num <? kNumMaxServers) BugOn;;
  require (0 <=? num) OutOfRange;;
  let buf := cwrite i32c off_num (num + 1) buf in
  Ok (cwrite c (off + Z.to_nat num * csize c) info buf).

Definition AddServer (buf : list Z) (info : ServerInfo.t) : outcome (list Z) :=
  add_entry ServerInfo.layout (sizeof_MsgHeader + RegisterVolumeReplyMsg.off_num_servers)
    (sizeof_MsgHeader + RegisterVolumeReplyMsg.off_servers) info buf.

Definition AddServerStats (buf : list Z) (stats : ServerStats.t) : outcome (list Z) :=
  add_entry ServerStats_layout (sizeof_MsgHeader + GetServerStatsReplyMsg.off_num_servers)
    (sizeof_MsgHeader + GetServerStatsReplyMsg.off_servers) stats buf.

Definition header_of (buf : list Z) : MsgHeader.t := cread MsgHeader.layout 0 buf.

Definition GetMsgSize (buf : list Z) : Z := u64 (MsgHeader.len (header_of buf) + Z.of_nat sizeof_MsgHeader).

(** ** All messages *)

Inductive message :=
| MStorageOp (m : StorageOpMsg.t) (payload : list Z)
| MStorageOpReply (m : StorageOpReplyMsg.t) (payload : list Z)
| MAllocateBlocks (m : AllocateBlocksMsg.t)
| MAllocateBlocksReply (m : AllocateBlocksReplyMsg.t)
| MDiscardBlocks (m : DiscardBlocksMsg.t)
| MRegisterServer (m : RegisterServerMsg.t)
| MRegisterServerReply (m : RegisterServerReplyMsg.t)
| MRegisterVolume (m : RegisterVolumeMsg.t)
| MRegisterVolumeReply (m : RegisterVolumeReplyMsg.t)
| MUpdateServerStats (m : UpdateServerStatsMsg.t)
| MUpdateServerStatsReply (m : UpdateServerStatsReplyMsg.t)
| MCommitServerMode (m : CommitServerModeMsg.t)
| MGetServerStats (m : GetServerStatsMsg.t)
| MGetServerStatsReply (m : GetServerStatsReplyMsg.t)
| MGetControllerTime
| MGetControllerTimeReply (m : GetControllerTimeReplyMsg.t).

(** How the senders build each message; the payloads are copied behind the
    structure. *)
Definition encode (junk : nat -> Z) (m : message) : outcome (list Z) :=
  match m with
  | MStorageOp m payload =>
      Ok (list_inserts (sizeof_MsgHeader + csize StorageOpMsg.layout) payload
            (CreateStorageOpMsg junk (StorageOpMsg.iod m) (StorageOpMsg.req_id m) (StorageOpMsg.affinity m) (length payload)))
  | MStorageOpReply m payload =>
      Ok (list_inserts (sizeof_MsgHeader + csize StorageOpReplyMsg.layout) payload
            (CreateStorageOpReplyMsg junk (StorageOpReplyMsg.iod m) (StorageOpReplyMsg.req_id m) (length payload)
               (StorageOpReplyMsg.res m) (StorageOpReplyMsg.code m)))
  | MAllocateBlocks m => Ok (CreateAllocateBlocksMsg junk (AllocateBlocksMsg.vol_id m) (AllocateBlocksMsg.server_id m))
  | MAllocateBlocksReply m => Ok (CreateAllocateBlocksReplyMsg junk (AllocateBlocksReplyMsg.server_blks m))
  | MDiscardBlocks m => CreateDiscardBlocksMsg junk (DiscardBlocksMsg.blocks m) (DiscardBlocksMsg.num_blocks m)
  | MRegisterServer m =>
      CreateRegisterServerMsg junk (RegisterServerMsg.ip m) (RegisterServerMsg.port m) (RegisterServerMsg.name m)
        (RegisterServerMsg.nsectors m)
  | MRegisterServerReply m =>
      Ok (CreateRegisterServerReplyMsg junk (RegisterServerReplyMsg.server_id m)
            (RegisterServerReplyMsg.is_rejections_enabled m))
  | MRegisterVolume m =>
      CreateRegisterVolumeMsg junk (RegisterVolumeMsg.ip m) (RegisterVolumeMsg.port m) (RegisterVolumeMsg.nsectors m)
  | MRegisterVolumeReply m =>
      ofold AddServer (CreateRegisterVolumeReplyMsg junk (RegisterVolumeReplyMsg.vol_id m)
        (RegisterVolumeReplyMsg.sched_type m)) (RegisterVolumeReplyMsg.servers m)
  | MUpdateServerStats m =>
      Ok (CreateUpdateServerStatsMsg junk (UpdateServerStatsMsg.server_id m) (UpdateServerStatsMsg.stats m))
  | MUpdateServerStatsReply m =>
      Ok (CreateUpdateServerStatsReplyMsg junk (UpdateServerStatsReplyMsg.server_id m) (UpdateServerStatsReplyMsg.mode m)
            (UpdateServerStatsReplyMsg.congestion_state m) (UpdateServerStatsReplyMsg.read_weight m)
            (UpdateServerStatsReplyMsg.write_weight m))
  | MCommitServerMode m => Ok (CreateCommitServerModeMsg junk (CommitServerModeMsg.server_id m) (CommitServerModeMsg.mode m))
  | MGetServerStats m => Ok (CreateGetServerStatsMsg junk (GetServerStatsMsg.vol_id m))
  | MGetServerStatsReply m =>
      ofold AddServerStats (CreateGetServerStatsReplyMsg junk (GetServerStatsReplyMsg.vol_id m))
        (GetServerStatsReplyMsg.servers m)
  | MGetControllerTime => Ok (CreateGetControllerTimeMsg junk)
  | MGetControllerTimeReply m => Ok (CreateGetControllerTimeReplyMsg junk (GetControllerTimeReplyMsg.microtime m))
  end.

(** What a receiver reads: the header's type, then the structure behind it. A
    storage request carries its payload in its last [payload_size] bytes, a
    reply behind its structure. *)
Definition decode (buf : list Z) : option message :=
  let hdr := header_of buf in
  let off := sizeof_MsgHeader in
  match MsgHeader.type hdr with
  | MsgType.kStorageOp =>
      Some (MStorageOp (cread StorageOpMsg.layout off buf)
              (drop (length buf - Z.to_nat (MsgHeader.payload_size hdr)) buf))
  | MsgType.kStorageOpReply =>
      Some (MStorageOpReply (cread StorageOpReplyMsg.layout off buf) (drop (off + csize StorageOpReplyMsg.layout) buf))
  | MsgType.kAllocateBlocks => Some (MAllocateBlocks (cread AllocateBlocksMsg.layout off buf))
  | MsgType.kAllocateBlocksReply => Some (MAllocateBlocksReply (cread AllocateBlocksReplyMsg.layout off buf))
  | MsgType.kDiscardBlocks => Some (MDiscardBlocks (cread DiscardBlocksMsg.layout off buf))
  | MsgType.kRegisterServer => Some (MRegisterServer (cread RegisterServerMsg.layout off buf))
  | MsgType.kRegisterServerReply => Some (MRegisterServerReply (cread RegisterServerReplyMsg.layout off buf))
  | MsgType.kRegisterVolume => Some (MRegisterVolume (cread RegisterVolumeMsg.layout off buf))
  | MsgType.kRegisterVolumeReply =>
      let num := cread i32c (off + RegisterVolumeReplyMsg.off_num_servers) buf in
      Some (MRegisterVolumeReply (RegisterVolumeReplyMsg.mk
              (take (Z.to_nat num) (cread RegisterVolumeReplyMsg.tablec (off + RegisterVolumeReplyMsg.off_servers) buf))
              (cread u32c (off + RegisterVolumeReplyMsg.off_vol_id) buf)
              (cread schedc (off + RegisterVolumeReplyMsg.off_sched_type) buf)))
  | MsgType.kUpdateServerStats => Some (MUpdateServerStats (cread UpdateServerStatsMsg.layout off buf))
  | MsgType.kUpdateServerStatsReply => Some (MUpdateServerStatsReply (cread UpdateServerStatsReplyMsg.layout off buf))
  | MsgType.kCommitServerMode => Some (MCommitServerMode (cread CommitServerModeMsg.layout off buf))
  | MsgType.kGetServerStats => Some (MGetServerStats (cread GetServerStatsMsg.layout off buf))
  | MsgType.kGetServerStatsReply =>
      let num := cread i32c (off + GetServerStatsReplyMsg.off_num_servers) buf in
      Some (MGetServerStatsReply (GetServerStatsReplyMsg.mk
              (cread u32c (off + GetServerStatsReplyMsg.off_vol_id) buf)
              (take (Z.to_nat num) (cread GetServerStatsReplyMsg.tablec (off + GetServerStatsReplyMsg.off_servers) buf))))
  | MsgType.kGetControllerTime => Some MGetControllerTime
  | MsgType.kGetControllerTimeReply => Some (MGetControllerTimeReply (cread GetControllerTimeReplyMsg.layout off buf))
  | MsgType.kUnnamed _ => None
  end.

(** ** Round trips *)

Ltac solve_laws := eapply laws_weaken; [typeclasses eauto|intros []; simpl; intuition].

#[global] Instance i32_laws : CodecLaws i32c is_i32.
Proof. apply signed_laws. lia. Qed.
#[global] Instance modec_laws : CodecLaws modec (fun _ => True).
Proof. unfold modec, enum. eapply laws_weaken; [typeclasses eauto|]. by intros []. Qed.
#[global] Instance congestionc_laws : CodecLaws congestionc (fun _ => True).
Proof. unfold congestionc, enum. eapply laws_weaken; [typeclasses eauto|]. by intros []. Qed.
#[global] Instance schedc_laws : CodecLaws schedc (fun _ => True).
Proof. unfold schedc, enum. eapply laws_weaken; [typeclasses eauto|]. by intros []. Qed.

Definition named (m : MsgType.t) : Prop := match m with MsgType.kUnnamed _ => False | _ => True end.
#[global] Instance msgtypec_laws : CodecLaws msgtypec named.
Proof. unfold msgtypec, enum. eapply laws_weaken; [typeclasses eauto|]. by intros []. Qed.

Definition named_code (c : StorageOpReplyCode.t) : Prop :=
  match c with StorageOpReplyCode.kUnnamed _ => False | _ => True end.
#[global] Instance replycodec_laws : CodecLaws replycodec named_code.
Proof. unfold replycodec, enum. eapply laws_weaken; [typeclasses eauto|]. by intros []. Qed.

#[global] Instance chars_laws n : CodecLaws (chars n) (is_chars n).
Proof. unfold chars, is_chars. typeclasses eauto. Qed.

Definition valid_header (m : MsgHeader.t) : Prop :=
  is_u64 (MsgHeader.len m) /\ is_u32 (MsgHeader.payload_size m) /\ named (MsgHeader.type m).
#[global] Instance header_laws : CodecLaws MsgHeader.layout valid_header.
Proof. unfold MsgHeader.layout, valid_header. solve_laws. Qed.

Definition valid_iod (m : IODesc.t) : Prop :=
  is_u32 (IODesc.op_flags m) /\ is_u32 (IODesc.num_sectors m) /\ is_u64 (IODesc.start_sector m) /\
  is_u64 (IODesc.addr m) /\ is_u64 (IODesc.callback_args m) /\ is_u64 (IODesc.callback m).
#[global] Instance iod_laws : CodecLaws IODesc_layout valid_iod.
Proof. unfold IODesc_layout, valid_iod. solve_laws. Qed.

Definition valid_block (m : ServerBlockInfo.t) : Prop :=
  is_u32 (ServerBlockInfo.server_id m) /\ is_u64 (ServerBlockInfo.block_addr m).
#[global] Instance block_laws : CodecLaws ServerBlockInfo_layout valid_block.
Proof. unfold ServerBlockInfo_layout, valid_block. solve_laws. Qed.

Definition valid_info (m : ServerInfo.t) : Prop :=
  is_chars kIPAddrStrLen (ServerInfo.ip m) /\ is_i32 (ServerInfo.port m) /\
  is_chars kNameStrLen (ServerInfo.name m) /\ is_u32 (ServerInfo.id m).
#[global] Instance info_laws : CodecLaws ServerInfo.layout valid_info.
Proof. unfold ServerInfo.layout, valid_info. solve_laws. Qed.

Definition valid_stats (m : ServerStats.t) : Prop :=
  is_u32 (ServerStats.server_id m) /\
  Forall valid_double [ServerStats.read_mops m; ServerStats.write_mops m; ServerStats.read_weight m; ServerStats.write_weight m] /\
  Forall is_u32 [ServerStats.inflight_reads m; ServerStats.inflight_writes m; ServerStats.completed_reads m;
    ServerStats.pure_reads m; ServerStats.impure_reads m; ServerStats.completed_writes m;
    ServerStats.rejected_reads m; ServerStats.rejected_writes m] /\
  Forall is_u64 [ServerStats.median_read_latency m; ServerStats.median_write_latency m;
    ServerStats.signal_read_latency m; ServerStats.signal_write_latency m].
#[global] Instance stats_laws : CodecLaws ServerStats_layout valid_stats.
Proof.
  unfold ServerStats_layout. eapply laws_weaken.
  { apply struct_laws, cmap_laws. do 20 (apply pair_laws; [|typeclasses eauto]). typeclasses eauto. }
  intros [] (H1 & H2 & H3 & H4). cbn in H1, H2, H3, H4. rewrite !Forall_cons in H2. rewrite !Forall_cons in H3. rewrite !Forall_cons in H4.
  cbn. split; [|done].
  destruct_and!. split_and!; done.
Qed.

#[global] Instance storage_op_laws :
  CodecLaws StorageOpMsg.layout (fun m => valid_iod (StorageOpMsg.iod m) /\ is_u64 (StorageOpMsg.req_id m) /\ is_u32 (StorageOpMsg.affinity m)).
Proof. unfold StorageOpMsg.layout. solve_laws. Qed.

#[global] Instance storage_op_reply_laws :
  CodecLaws StorageOpReplyMsg.layout (fun m => valid_iod (StorageOpReplyMsg.iod m) /\ is_u64 (StorageOpReplyMsg.req_id m) /\
    named_code (StorageOpReplyMsg.code m) /\ is_i32 (StorageOpReplyMsg.res m)).
Proof. unfold StorageOpReplyMsg.layout. solve_laws. Qed.

#[global] Instance allocate_laws :
  CodecLaws AllocateBlocksMsg.layout (fun m => is_u32 (AllocateBlocksMsg.vol_id m) /\ is_u32 (AllocateBlocksMsg.server_id m)).
Proof. unfold AllocateBlocksMsg.layout. solve_laws. Qed.

#[global] Instance allocate_reply_laws :
  CodecLaws AllocateBlocksReplyMsg.layout (fun m => length (AllocateBlocksReplyMsg.server_blks m) = Z.to_nat kAllocationBatch /\
    Forall valid_block (AllocateBlocksReplyMsg.server_blks m)).
Proof. unfold AllocateBlocksReplyMsg.layout. solve_laws. Qed.

#[global] Instance discard_laws :
  CodecLaws DiscardBlocksMsg.layout (fun m => (length (DiscardBlocksMsg.blocks m) = Z.to_nat kDiscardBatch /\
    Forall is_u64 (DiscardBlocksMsg.blocks m)) /\ is_u64 (DiscardBlocksMsg.num_blocks m)).
Proof. unfold DiscardBlocksMsg.layout. solve_laws. Qed.

#[global] Instance register_server_laws :
  CodecLaws RegisterServerMsg.layout (fun m => is_chars kIPAddrStrLen (RegisterServerMsg.ip m) /\ is_i32 (RegisterServerMsg.port m) /\
    is_chars kNameStrLen (RegisterServerMsg.name m) /\ is_u64 (RegisterServerMsg.nsectors m)).
Proof. unfold RegisterServerMsg.layout. solve_laws. Qed.

#[global] Instance register_server_reply_laws :
  CodecLaws RegisterServerReplyMsg.layout (fun m => is_u32 (RegisterServerReplyMsg.server_id m)).
Proof. unfold RegisterServerReplyMsg.layout. solve_laws. Qed.

#[global] Instance register_volume_laws :
  CodecLaws RegisterVolumeMsg.layout (fun m => is_chars kIPAddrStrLen (RegisterVolumeMsg.ip m) /\ is_i32 (RegisterVolumeMsg.port m) /\
    is_u64 (RegisterVolumeMsg.nsectors m)).
Proof. unfold RegisterVolumeMsg.layout. solve_laws. Qed.

#[global] Instance update_stats_laws :
  CodecLaws UpdateServerStatsMsg.layout (fun m => is_u32 (UpdateServerStatsMsg.server_id m) /\ valid_stats (UpdateServerStatsMsg.stats m)).
Proof. unfold UpdateServerStatsMsg.layout. solve_laws. Qed.

#[global] Instance update_stats_reply_laws :
  CodecLaws UpdateServerStatsReplyMsg.layout (fun m => is_u32 (UpdateServerStatsReplyMsg.server_id m) /\
    valid_double (UpdateServerStatsReplyMsg.read_weight m) /\ valid_double (UpdateServerStatsReplyMsg.write_weight m)).
Proof. unfold UpdateServerStatsReplyMsg.layout. solve_laws. Qed.

#[global] Instance commit_laws : CodecLaws CommitServerModeMsg.layout (fun m => is_u32 (CommitServerModeMsg.server_id m)).
Proof. unfold CommitServerModeMsg.layout. solve_laws. Qed.

#[global] Instance get_stats_laws : CodecLaws GetServerStatsMsg.layout (fun m => is_u32 (GetServerStatsMsg.vol_id m)).
Proof. unfold GetServerStatsMsg.layout. solve_laws. Qed.

#[global] Instance time_reply_laws : CodecLaws GetControllerTimeReplyMsg.layout (fun m => is_u64 (GetControllerTimeReplyMsg.microtime m)).
Proof. unfold GetControllerTimeReplyMsg.layout. solve_laws. Qed.

(** *** Buffers *)

Lemma buffer_length junk n : length (buffer junk n) = n.
Proof. unfold buffer. by rewrite length_map, length_seq. Qed.

Lemma load_inserts_prefix off n l buf :
  (length l <= n)%nat -> (off + n <= length buf)%nat ->
  load off n (list_inserts off l buf) = l ++ load (off + length l) (n - length l) buf.
Proof.
  intros Hl Hn. apply list_eq. intros i. unfold load. destruct (decide (i < n)%nat).
  - rewrite lookup_take_lt, lookup_drop by done. destruct (decide (i < length l)%nat).
    + rewrite list_lookup_inserts, lookup_app_l by lia. f_equal. lia.
    + rewrite list_lookup_inserts_ge by lia. rewrite lookup_app_r, lookup_take_lt, lookup_drop by lia. f_equal. lia.
  - rewrite lookup_take_ge, lookup_app_r, lookup_take_ge by lia. done.
Qed.

Lemma load_inserts_other off n off' l buf :
  (off + n <= off' \/ off' + length l <= off)%nat -> load off n (list_inserts off' l buf) = load off n buf.
Proof.
  intros H. apply load_ext. intros i Hi. destruct H; [apply list_lookup_inserts_lt|apply list_lookup_inserts_ge]; lia.
Qed.

Lemma drop_inserts off (l buf : list Z) : length buf = (off + length l)%nat -> drop off (list_inserts off l buf) = l.
Proof.
  intros H. pose proof (load_inserts off l buf ltac:(lia)) as Hl. unfold load in Hl.
  by rewrite take_ge in Hl by (rewrite length_drop, length_inserts; lia).
Qed.

Lemma read_inserts_other {A} (c : codec A) {P} `{!CodecLaws c P} off off' l buf :
  (off + csize c <= off' \/ off' + length l <= off)%nat -> cread c off (list_inserts off' l buf) = cread c off buf.
Proof.
  intros H. eapply read_local. intros i Hi. destruct H; [apply list_lookup_inserts_lt|apply list_lookup_inserts_ge]; lia.
Qed.

Lemma read_chars n off buf : (off + Z.to_nat n <= length buf)%nat -> cread (chars n) off buf = load off (Z.to_nat n) buf.
Proof.
  unfold chars. simpl. generalize (Z.to_nat n) as k. intros k. revert off. induction k as [|k IH]; intros off H; [done|].
  simpl. destruct (lookup_lt_is_Some_2 buf off ltac:(lia)) as [b Hb].
  unfold load. rewrite (drop_S _ _ _ Hb). simpl. f_equal; [lia|]. replace (S off) with (off + 1)%nat by lia.
  apply IH. lia.
Qed.

Lemma load_buffer junk off n k : (off + n <= k)%nat -> load off n (buffer junk k) = map junk (seq off n).
Proof.
  intros H. apply list_eq. intros i. unfold load, buffer. destruct (decide (i < n)%nat).
  - rewrite lookup_take_lt, lookup_drop, !list_lookup_fmap, !lookup_seq_lt by lia. done.
  - rewrite lookup_take_ge, list_lookup_fmap, lookup_seq_ge by lia. done.
Qed.

(** *** Headers and structures *)

Lemma read_write_header size payload type buf :
  Z.of_nat (size + payload) < 2 ^ 32 -> named type -> (sizeof_MsgHeader <= length buf)%nat ->
  header_of (write_header size payload type buf) = MsgHeader.mk (Z.of_nat (size + payload)) (Z.of_nat payload) type.
Proof.
  intros Hs Ht Hl. unfold header_of, write_header. eapply read_write; [|done].
  unfold valid_header. simpl. change (Z.pow_pos 256 8) with (2 ^ 64). change (Z.pow_pos 256 4) with (2 ^ 32).
  split_and!; [lia..|done].
Qed.

Lemma header_after_write {A} (c : codec A) {P} `{!CodecLaws c P} off a buf :
  (sizeof_MsgHeader <= off)%nat -> header_of (cwrite c off a buf) = header_of buf.
Proof. intros H. unfold header_of. eapply read_after_write; [typeclasses eauto..|]. left. done. Qed.

Lemma header_after_inserts off l buf :
  (sizeof_MsgHeader <= off)%nat -> header_of (list_inserts off l buf) = header_of buf.
Proof. intros H. unfold header_of. eapply read_inserts_other; [typeclasses eauto|]. left. done. Qed.

Lemma create_spec junk {A} (c : codec A) {P} `{!CodecLaws c P} type m :
  P m -> named type -> Z.of_nat (csize c) < 2 ^ 32 ->
  header_of (create junk c type m) = MsgHeader.mk (Z.of_nat (csize c)) 0 type /\
  cread c sizeof_MsgHeader (create junk c type m) = m /\
  length (create junk c type m) = (sizeof_MsgHeader + csize c)%nat.
Proof.
  intros Hm Ht Hs. unfold create.
  assert (length (write_header (csize c) 0 type (buffer junk (sizeof_MsgHeader + csize c))) = (sizeof_MsgHeader + csize c)%nat) as Hl.
  { unfold write_header. by rewrite write_length, buffer_length. }
  split_and!.
  - rewrite (header_after_write c), read_write_header by (rewrite ?buffer_length; lia || done). by rewrite Nat.add_0_r.
  - apply read_write; [done|]. by rewrite Hl.
  - by rewrite write_length.
Qed.

(** *** Tables *)

Section Table.
Context {A} (c : codec A) (P : A -> Prop) `{!CodecLaws c P} (off_num off : nat) (buf0 : list Z).
Hypothesis Hnum : (off_num + 4 <= length buf0)%nat.
Hypothesis Htable : (off + Z.to_nat kNumMaxServers * csize c <= length buf0)%nat.
Hypothesis Hdisj : (off_num + 4 <= off \/ off + Z.to_nat kNumMaxServers * csize c <= off_num)%nat.
Hypothesis Hzero : cread i32c off_num buf0 = 0.

(** The buffer after the entries of [l]. *)
Definition holds (l : list A) (buf : list Z) : Prop :=
  length buf = length buf0 /\ cread i32c off_num buf = Z.of_nat (length l) /\
  (forall i a, l !! i = Some a -> cread c (off + i * csize c) buf = a) /\
  (forall i, (i < off_num \/ off_num + 4 <= i)%nat ->
     (i < off \/ off + Z.to_nat kNumMaxServers * csize c <= i)%nat -> buf !! i = buf0 !! i).

Lemma slot_bound (i : nat) : Z.of_nat i < kNumMaxServers -> (i * csize c + csize c <= Z.to_nat kNumMaxServers * csize c)%nat.
Proof.
  intros H. replace (i * csize c + csize c)%nat with (S i * csize c)%nat by lia. apply Nat.mul_le_mono_r. lia.
Qed.

Lemma add_entry_holds l a buf :
  holds l buf -> P a -> Z.of_nat (length l) < kNumMaxServers ->
  exists buf', add_entry c off_num off a buf = Ok buf' /\ holds (l ++ [a]) buf'.
Proof.
  intros (Hlen & Hn & Hget & Hfr) Ha Hl. pose proof (slot_bound _ Hl) as Hs. unfold add_entry. rewrite Hn.
  rewrite (proj2 (Z.ltb_lt _ _) Hl), (proj2 (Z.leb_le 0 (Z.of_nat (length l)))) by lia. cbn [require mbind outcome_bind].
  rewrite Nat2Z.id. eexists. split; [reflexivity|].
  set (buf1 := cwrite i32c off_num (Z.of_nat (length l) + 1) buf).
  assert (length buf1 = length buf0) as Hl1 by (unfold buf1; by rewrite write_length).
  assert (csize i32c = 4%nat) as E4 by done.
  split_and!.
  - by rewrite write_length.
  - rewrite (read_after_write i32c c) by lia. unfold buf1.
    replace (Z.of_nat (length (l ++ [a]))) with (Z.of_nat (length l) + 1) by (rewrite length_app; simpl; lia).
    apply read_write; [|rewrite E4; lia]. unfold kNumMaxServers in Hl. cbn. lia.
  - intros i x [Hi|[-> ->]]%lookup_snoc_Some.
    + destruct Hi as [Hi Hx]. assert (i * csize c + csize c <= length l * csize c)%nat.
      { replace (i * csize c + csize c)%nat with (S i * csize c)%nat by lia. apply Nat.mul_le_mono_r. lia. }
      rewrite (read_after_write c c) by lia. unfold buf1. rewrite (read_after_write c i32c) by lia. by apply Hget.
    + apply read_write; [done|lia].
  - intros i Hi1 Hi2. rewrite write_frame by lia. unfold buf1. rewrite write_frame by (rewrite E4; lia). by apply Hfr.
Qed.

Lemma add_entries_holds l :
  Forall P l -> Z.of_nat (length l) <= kNumMaxServers ->
  exists buf, ofold (fun buf a => add_entry c off_num off a buf) buf0 l = Ok buf /\ holds l buf.
Proof.
  intros HP Hl. apply ofold_total.
  - split_and!; [done|by rewrite Hzero|done|done].
  - intros done a rest buf -> Hh. rewrite length_app in Hl. simpl in Hl. rewrite Forall_app, Forall_cons in HP.
    apply add_entry_holds; [done|tauto|lia].
Qed.

Lemma holds_table l buf :
  holds l buf -> Z.of_nat (length l) <= kNumMaxServers ->
  take (Z.to_nat (cread i32c off_num buf)) (cread (array (Z.to_nat kNumMaxServers) c) off buf) = l.
Proof.
  clear Hnum Htable Hdisj Hzero. intros (_ & Hn & Hget & _) Hl. rewrite Hn, Nat2Z.id. apply list_eq. intros i. destruct (decide (i < length l)%nat) as [Hi|Hi].
  - destruct (lookup_lt_is_Some_2 l i Hi) as [a Ha]. rewrite lookup_take_lt by done. cbn [cread array].
    rewrite read_elems_lookup by lia. by rewrite (Hget i a Ha), Ha.
  - rewrite lookup_take_ge by lia. symmetry. apply lookup_ge_None_2. lia.
Qed.

Lemma holds_read {B} (d : codec B) {Q} `{!CodecLaws d Q} off' l buf :
  holds l buf -> (off' + csize d <= off_num \/ off_num + 4 <= off')%nat ->
  (off' + csize d <= off \/ off + Z.to_nat kNumMaxServers * csize c <= off')%nat ->
  cread d off' buf = cread d off' buf0.
Proof. clear Hnum Htable Hdisj Hzero. intros (_ & _ & _ & Hfr) H1 H2. eapply read_local. intros i Hi. apply Hfr; lia. Qed.
End Table.

(** *** Every message *)

Definition no_nul (l : list Z) : Prop := Forall (fun c => c <> 0) l.

Definition valid_message (m : message) : Prop :=
  match m with
  | MStorageOp m payload =>
      (valid_iod (StorageOpMsg.iod m) /\ is_u64 (StorageOpMsg.req_id m) /\ is_u32 (StorageOpMsg.affinity m)) /\
      Z.of_nat (csize StorageOpMsg.layout + length payload) < 2 ^ 32
  | MStorageOpReply m payload =>
      (valid_iod (StorageOpReplyMsg.iod m) /\ is_u64 (StorageOpReplyMsg.req_id m) /\
       named_code (StorageOpReplyMsg.code m) /\ is_i32 (StorageOpReplyMsg.res m)) /\
      Z.of_nat (csize StorageOpReplyMsg.layout + length payload) < 2 ^ 32
  | MAllocateBlocks m => is_u32 (AllocateBlocksMsg.vol_id m) /\ is_u32 (AllocateBlocksMsg.server_id m)
  | MAllocateBlocksReply m =>
      length (AllocateBlocksReplyMsg.server_blks m) = Z.to_nat kAllocationBatch /\
      Forall valid_block (AllocateBlocksReplyMsg.server_blks m)
  | MDiscardBlocks m =>
      (length (DiscardBlocksMsg.blocks m) = Z.to_nat kDiscardBatch /\ Forall is_u64 (DiscardBlocksMsg.blocks m)) /\
      0 <= DiscardBlocksMsg.num_blocks m <= kDiscardBatch
  | MRegisterServer m =>
      no_nul (RegisterServerMsg.ip m) /\ Z.of_nat (length (RegisterServerMsg.ip m)) <= kIPAddrStrLen /\
      is_i32 (RegisterServerMsg.port m) /\
      no_nul (RegisterServerMsg.name m) /\ Z.of_nat (length (RegisterServerMsg.name m)) <= kNameStrLen /\
      is_u64 (RegisterServerMsg.nsectors m)
  | MRegisterServerReply m => is_u32 (RegisterServerReplyMsg.server_id m)
  | MRegisterVolume m =>
      no_nul (RegisterVolumeMsg.ip m) /\ Z.of_nat (length (RegisterVolumeMsg.ip m)) <= kIPAddrStrLen /\
      is_i32 (RegisterVolumeMsg.port m) /\ is_u64 (RegisterVolumeMsg.nsectors m)
  | MRegisterVolumeReply m =>
      Forall valid_info (RegisterVolumeReplyMsg.servers m) /\
      Z.of_nat (length (RegisterVolumeReplyMsg.servers m)) <= kNumMaxServers /\ is_u32 (RegisterVolumeReplyMsg.vol_id m)
  | MUpdateServerStats m => is_u32 (UpdateServerStatsMsg.server_id m) /\ valid_stats (UpdateServerStatsMsg.stats m)
  | MUpdateServerStatsReply m =>
      is_u32 (UpdateServerStatsReplyMsg.server_id m) /\
      valid_double (UpdateServerStatsReplyMsg.read_weight m) /\ valid_double (UpdateServerStatsReplyMsg.write_weight m)
  | MCommitServerMode m => is_u32 (CommitServerModeMsg.server_id m)
  | MGetServerStats m => is_u32 (GetServerStatsMsg.vol_id m)
  | MGetServerStatsReply m =>
      Forall valid_stats (GetServerStatsReplyMsg.servers m) /\
      Z.of_nat (length (GetServerStatsReplyMsg.servers m)) <= kNumMaxServers /\ is_u32 (GetServerStatsReplyMsg.vol_id m)
  | MGetControllerTime => True
  | MGetControllerTimeReply m => is_u64 (GetControllerTimeReplyMsg.microtime m)
  end.

(** An [ip] field: the string, then whatever the buffer held. *)
Definition ip_sent (junk : nat -> Z) (ip : list Z) : list Z :=
  ip ++ map junk (seq (off_ip + length ip) (Z.to_nat kIPAddrStrLen - length ip)).

(** What the receiver of a message sees. *)
Definition as_sent (junk : nat -> Z) (m : message) : message :=
  match m with
  | MRegisterServer m =>
      MRegisterServer (RegisterServerMsg.mk (ip_sent junk (RegisterServerMsg.ip m)) (RegisterServerMsg.port m)
        (RegisterServerMsg.name m ++ replicate (Z.to_nat kNameStrLen - length (RegisterServerMsg.name m)) 0)
        (RegisterServerMsg.nsectors m))
  | MRegisterVolume m =>
      MRegisterVolume (RegisterVolumeMsg.mk (ip_sent junk (RegisterVolumeMsg.ip m)) (RegisterVolumeMsg.port m)
        (RegisterVolumeMsg.nsectors m))
  | MUpdateServerStats m =>
      MUpdateServerStats (UpdateServerStatsMsg.mk (UpdateServerStatsMsg.server_id m)
        (UpdateServerStatsMsg.stats m <| ServerStats.server_id := UpdateServerStatsMsg.server_id m |>))
  | m => m
  end.

(** A buffer that carries a message: its size is what its header says, and the
    receiver reads [m]. *)
Definition carries (buf : list Z) (m : message) : Prop :=
  GetMsgSize buf = Z.of_nat (length buf) /\ decode buf = Some m.

Lemma msg_size buf size payload type :
  header_of buf = MsgHeader.mk (Z.of_nat size) payload type -> length buf = (sizeof_MsgHeader + size)%nat ->
  Z.of_nat size < 2 ^ 32 -> GetMsgSize buf = Z.of_nat (length buf).
Proof.
  intros Hh Hl Hs. unfold GetMsgSize. rewrite Hh, Hl. cbn [MsgHeader.len].
  assert (sizeof_MsgHeader = 16%nat) as -> by done. rewrite wrap_small; lia.
Qed.

Lemma create_carries junk {A} (c : codec A) {P} `{!CodecLaws c P} type (m : A) msg :
  P m -> named type -> Z.of_nat (csize c) < 2 ^ 32 ->
  (forall buf, MsgHeader.type (header_of buf) = type -> cread c sizeof_MsgHeader buf = m -> decode buf = Some msg) ->
  carries (create junk c type m) msg.
Proof.
  intros Hm Ht Hs Hdec. destruct (create_spec junk c type m Hm Ht Hs) as (Hh & Hr & Hl).
  split; [by eapply msg_size|]. apply Hdec; [by rewrite Hh|done].
Qed.

Lemma payload_carries junk {A} (c : codec A) {P} `{!CodecLaws c P} hdr (m : A) payload msg :
  P m -> named (MsgHeader.type hdr) -> Z.of_nat (csize c + length payload) < 2 ^ 32 ->
  MsgHeader.len hdr = Z.of_nat (csize c + length payload) -> is_u32 (MsgHeader.payload_size hdr) ->
  (forall buf, header_of buf = hdr -> cread c sizeof_MsgHeader buf = m ->
     length buf = (sizeof_MsgHeader + csize c + length payload)%nat ->
     drop (sizeof_MsgHeader + csize c) buf = payload -> decode buf = Some msg) ->
  carries (list_inserts (sizeof_MsgHeader + csize c) payload
    (cwrite c sizeof_MsgHeader m (cwrite MsgHeader.layout 0 hdr (buffer junk (sizeof_MsgHeader + csize c + length payload))))) msg.
Proof.
  intros Hm Ht Hs Hlen Hp Hdec. set (b0 := buffer _ _). set (b1 := cwrite MsgHeader.layout 0 hdr b0).
  set (b2 := cwrite c sizeof_MsgHeader m b1). assert (length b2 = (sizeof_MsgHeader + csize c + length payload)%nat) as Hl.
  { unfold b2, b1, b0. by rewrite !write_length, buffer_length. }
  assert (header_of (list_inserts (sizeof_MsgHeader + csize c) payload b2) = hdr) as Hh.
  { rewrite header_after_inserts by lia. unfold b2. rewrite (header_after_write c) by done.
    apply read_write; [|unfold b0; rewrite buffer_length; fold sizeof_MsgHeader; lia].
    split; [rewrite Hlen; cbn; lia|by split]. }
  split.
  - apply (msg_size _ (csize c + length payload) (MsgHeader.payload_size hdr) (MsgHeader.type hdr)); [rewrite Hh; rewrite <- Hlen; by destruct hdr|rewrite length_inserts; lia|done].
  - apply Hdec; [done| |by rewrite length_inserts|by apply drop_inserts].
    rewrite (read_inserts_other c) by lia. apply read_write; [done|].
    unfold b1, b0. rewrite write_length, buffer_length. lia.
Qed.

Lemma load_after_write {A} (c : codec A) {P} `{!CodecLaws c P} off n off' a buf :
  (off + n <= off' \/ off' + csize c <= off)%nat -> load off n (cwrite c off' a buf) = load off n buf.
Proof. intros H. apply load_ext. intros i Hi. eapply write_frame. lia. Qed.

Lemma strncpy_all l : no_nul l -> strncpy l (length l) = l.
Proof.
  intros Hl. unfold strncpy. rewrite take_ge by done.
  assert (c_string l = l) as ->. { induction Hl as [|x l Hx Hl IH]; simpl; [done|]. by rewrite (proj2 (Z.eqb_neq x 0) Hx), IH. }
  by rewrite Nat.sub_diag, app_nil_r.
Qed.

Lemma register_offsets :
  sizeof_MsgHeader = 16%nat /\ off_ip = 16%nat /\ off_port = 32%nat /\ off_name = 36%nat /\ off_server_nsectors = 56%nat /\
  off_volume_nsectors = 40%nat /\ csize RegisterServerMsg.layout = 48%nat /\ csize RegisterVolumeMsg.layout = 32%nat /\
  Z.to_nat kIPAddrStrLen = 16%nat /\ Z.to_nat kNameStrLen = 20%nat /\ csize i32c = 4%nat /\ csize u64c = 8%nat /\
  csize MsgHeader.layout = 16%nat.
Proof. vm_compute. done. Qed.

Lemma read_register_server buf :
  cread RegisterServerMsg.layout sizeof_MsgHeader buf =
  RegisterServerMsg.mk (cread (chars kIPAddrStrLen) off_ip buf) (cread i32c off_port buf)
    (cread (chars kNameStrLen) off_name buf) (cread u64c off_server_nsectors buf).
Proof. reflexivity. Qed.

Lemma read_register_volume buf :
  cread RegisterVolumeMsg.layout sizeof_MsgHeader buf =
  RegisterVolumeMsg.mk (cread (chars kIPAddrStrLen) off_ip buf) (cread i32c off_port buf) (cread u64c off_volume_nsectors buf).
Proof. reflexivity. Qed.

Lemma load_drop off n k buf : (k <= n)%nat -> load (off + k) (n - k) buf = drop k (load off n buf).
Proof. intros H. unfold load. rewrite <- drop_drop, skipn_firstn_comm. done. Qed.

Lemma ip_field junk ip buf :
  (length ip <= 16)%nat -> (32 <= length buf)%nat -> load off_ip 16 buf = map junk (seq off_ip 16) ->
  load off_ip 16 (list_inserts off_ip ip buf) = ip_sent junk ip.
Proof.
  intros Hl Hb Hj. destruct register_offsets as (_ & Ei & _). rewrite load_inserts_prefix by lia. unfold ip_sent. f_equal.
  rewrite load_drop, Hj by done. rewrite skipn_map, skipn_seq. done.
Qed.

Lemma name_field name buf :
  (length name <= 20)%nat -> load off_name 20 buf = replicate 20 0 -> (56 <= length buf)%nat ->
  load off_name 20 (list_inserts off_name name buf) = name ++ replicate (20 - length name) 0.
Proof.
  intros Hl Hz Hb. destruct register_offsets as (_ & _ & _ & En & _). rewrite load_inserts_prefix by lia. f_equal.
  rewrite load_drop, Hz by done. by rewrite drop_replicate.
Qed.

(** A header over a fresh buffer leaves the rest of it alone. *)
Lemma fresh_load junk size type off n :
  (16 <= off)%nat -> (off + n <= 16 + size)%nat ->
  load off n (write_header size 0 type (buffer junk (sizeof_MsgHeader + size))) = map junk (seq off n).
Proof.
  intros H1 H2. destruct register_offsets as (Eh & _ & _ & _ & _ & _ & _ & _ & _ & _ & _ & _ & Eh').
  unfold write_header. rewrite (load_after_write MsgHeader.layout) by lia. apply load_buffer. lia.
Qed.

Ltac field_lia := rewrite ?length_replicate, ?length_inserts, ?write_length, ?buffer_length; lia.

Lemma register_server_carries junk ip port name nsectors :
  let m := MRegisterServer (RegisterServerMsg.mk ip port name nsectors) in
  valid_message m -> exists buf, encode junk m = Ok buf /\ carries buf (as_sent junk m).
Proof.
  intros m (Hip & Hipl & Hport & Hname & Hnamel & Hns).
  cbn [RegisterServerMsg.ip RegisterServerMsg.port RegisterServerMsg.name RegisterServerMsg.nsectors] in *.
  destruct register_offsets as (Eh & Ei & Ep & En & Es & _ & Ez & _ & Eil & Enl & E4 & E8 & Eh').
  cbn [encode m RegisterServerMsg.ip RegisterServerMsg.port RegisterServerMsg.name RegisterServerMsg.nsectors].
  unfold CreateRegisterServerMsg. rewrite (proj2 (Z.leb_le _ _) Hnamel), (proj2 (Z.leb_le _ _) Hipl).
  cbn [require mbind outcome_bind]. rewrite !strncpy_all by done. set (b0 := write_header _ _ _ _).
  assert (length b0 = 64%nat) as Hl0 by (unfold b0, write_header; rewrite write_length, buffer_length, Eh, Ez; done).
  eexists. split; [reflexivity|]. set (buf := list_inserts off_name name _).
  assert (length buf = 64%nat) as Hl by (unfold buf; by rewrite !length_inserts, !write_length).
  assert (header_of buf = MsgHeader.mk 48 0 MsgType.kRegisterServer) as Hh.
  { unfold buf, b0. rewrite !header_after_inserts, (header_after_write u64c), (header_after_write i32c) by lia.
    rewrite read_write_header by (rewrite ?buffer_length, ?Ez; lia || done). by rewrite Ez. }
  split; [apply (msg_size _ 48 0 MsgType.kRegisterServer); [done|lia..]|].
  unfold decode. rewrite Hh. cbn [MsgHeader.type]. rewrite read_register_server.
  cbn [as_sent m RegisterServerMsg.ip RegisterServerMsg.port RegisterServerMsg.name RegisterServerMsg.nsectors]. do 2 f_equal.
  rewrite !read_chars, Eil, Enl by lia. unfold buf. f_equal.
  - rewrite load_inserts_other by lia. apply ip_field; [lia|field_lia|].
    rewrite load_inserts_other, (load_after_write u64c), (load_after_write i32c) by field_lia.
    unfold b0. rewrite fresh_load by lia. by rewrite Ei.
  - rewrite !(read_inserts_other i32c) by field_lia. rewrite (read_after_write i32c u64c) by lia.
    apply read_write; [done|lia].
  - apply name_field; [lia| |field_lia]. rewrite load_inserts_other by lia.
    pose proof (load_inserts off_name (replicate 20 0)) as Hz. rewrite length_replicate in Hz. apply Hz. field_lia.
  - rewrite !(read_inserts_other u64c) by field_lia. apply read_write; [done|field_lia].
Qed.

Lemma register_volume_carries junk ip port nsectors :
  let m := MRegisterVolume (RegisterVolumeMsg.mk ip port nsectors) in
  valid_message m -> exists buf, encode junk m = Ok buf /\ carries buf (as_sent junk m).
Proof.
  intros m (Hip & Hipl & Hport & Hns).
  cbn [RegisterVolumeMsg.ip RegisterVolumeMsg.port RegisterVolumeMsg.nsectors] in *.
  destruct register_offsets as (Eh & Ei & Ep & _ & _ & Es & _ & Ez & Eil & _ & E4 & E8 & Eh').
  cbn [encode m RegisterVolumeMsg.ip RegisterVolumeMsg.port RegisterVolumeMsg.nsectors].
  unfold CreateRegisterVolumeMsg. rewrite (proj2 (Z.leb_le _ _) Hipl).
  cbn [require mbind outcome_bind]. rewrite !strncpy_all by done. set (b0 := write_header _ _ _ _).
  assert (length b0 = 48%nat) as Hl0 by (unfold b0, write_header; rewrite write_length, buffer_length, Eh, Ez; done).
  eexists. split; [reflexivity|]. set (buf := list_inserts off_ip ip _).
  assert (length buf = 48%nat) as Hl by (unfold buf; by rewrite !length_inserts, !write_length).
  assert (header_of buf = MsgHeader.mk 32 0 MsgType.kRegisterVolume) as Hh.
  { unfold buf, b0. rewrite !header_after_inserts, (header_after_write u64c), (header_after_write i32c) by lia.
    rewrite read_write_header by (rewrite ?buffer_length, ?Ez; lia || done). by rewrite Ez. }
  split; [apply (msg_size _ 32 0 MsgType.kRegisterVolume); [done|lia..]|].
  unfold decode. rewrite Hh. cbn [MsgHeader.type]. rewrite read_register_volume.
  cbn [as_sent m RegisterVolumeMsg.ip RegisterVolumeMsg.port RegisterVolumeMsg.nsectors]. do 2 f_equal.
  rewrite !read_chars, Eil by lia. unfold buf. f_equal.
  - apply ip_field; [lia|field_lia|]. rewrite (load_after_write u64c), (load_after_write i32c) by lia.
    unfold b0. rewrite fresh_load by lia. by rewrite Ei.
  - rewrite (read_inserts_other i32c) by lia. rewrite (read_after_write i32c u64c) by lia. apply read_write; [done|lia].
  - rewrite (read_inserts_other u64c) by lia. apply read_write; [done|field_lia].
Qed.

Lemma table_offsets :
  sizeof_MsgHeader = 16%nat /\ RegisterVolumeReplyMsg.size = 892%nat /\ RegisterVolumeReplyMsg.off_servers = 0%nat /\
  RegisterVolumeReplyMsg.off_num_servers = 880%nat /\ RegisterVolumeReplyMsg.off_vol_id = 884%nat /\
  RegisterVolumeReplyMsg.off_sched_type = 888%nat /\ (Z.to_nat kNumMaxServers * csize ServerInfo.layout = 880)%nat /\
  GetServerStatsReplyMsg.size = 2408%nat /\ GetServerStatsReplyMsg.off_vol_id = 0%nat /\
  GetServerStatsReplyMsg.off_num_servers = 4%nat /\ GetServerStatsReplyMsg.off_servers = 8%nat /\
  (Z.to_nat kNumMaxServers * csize ServerStats_layout = 2400)%nat /\ csize i32c = 4%nat /\ csize u32c = 4%nat /\ csize schedc = 4%nat.
Proof. vm_compute. done. Qed.

Lemma zero_is_i32 : is_i32 0.
Proof. cbn. lia. Qed.

Lemma volume_reply_carries junk servers vol_id sched_type :
  let m := MRegisterVolumeReply (RegisterVolumeReplyMsg.mk servers vol_id sched_type) in
  valid_message m -> exists buf, encode junk m = Ok buf /\ carries buf m.
Proof.
  intros m (Hs & Hn & Hv). destruct table_offsets as (Eh & Ez & Eo & En & Ev & Et & Ea & _ & _ & _ & _ & _ & E4 & Eu & Es).
  cbn [encode m RegisterVolumeReplyMsg.servers RegisterVolumeReplyMsg.vol_id RegisterVolumeReplyMsg.sched_type] in *.
  set (create := CreateRegisterVolumeReplyMsg junk vol_id sched_type).
  assert (length create = 908%nat) as Hlc.
  { unfold create, CreateRegisterVolumeReplyMsg, write_header. by rewrite !write_length, buffer_length, Eh, Ez. }
  destruct (add_entries_holds ServerInfo.layout valid_info (sizeof_MsgHeader + RegisterVolumeReplyMsg.off_num_servers)
    (sizeof_MsgHeader + RegisterVolumeReplyMsg.off_servers) create ltac:(lia) ltac:(lia) ltac:(lia)) with (l := servers)
    as (buf & Hrun & Hh); [|done|done|].
  { unfold create, CreateRegisterVolumeReplyMsg, write_header.
    rewrite (read_after_write i32c schedc), (read_after_write i32c u32c) by lia.
    apply read_write; [apply zero_is_i32|field_lia]. }
  exists buf. split; [done|]. pose proof (proj1 Hh) as Hl.
  assert (header_of buf = MsgHeader.mk 892 0 MsgType.kRegisterVolumeReply) as Hhd.
  { unfold header_of. rewrite (holds_read _ _ _ _ MsgHeader.layout 0 _ _ Hh) by (fold sizeof_MsgHeader; lia).
    change (header_of create = MsgHeader.mk 892 0 MsgType.kRegisterVolumeReply).
    unfold create, CreateRegisterVolumeReplyMsg.
    rewrite (header_after_write schedc), (header_after_write u32c), (header_after_write i32c) by lia.
    rewrite read_write_header by (rewrite ?buffer_length, ?Ez; lia || done). by rewrite Ez. }
  split; [apply (msg_size _ 892 0 MsgType.kRegisterVolumeReply); [done|lia..]|].
  unfold decode. rewrite Hhd. cbn [MsgHeader.type m]. do 3 f_equal.
  - by apply (holds_table _ _ _ create).
  - rewrite (holds_read _ _ _ _ u32c _ _ _ Hh) by lia. unfold create, CreateRegisterVolumeReplyMsg.
    rewrite (read_after_write u32c schedc) by lia. apply read_write; [done|unfold write_header; field_lia].
  - rewrite (holds_read _ _ _ _ schedc _ _ _ Hh) by lia. apply read_write; [done|unfold write_header; field_lia].
Qed.

Lemma stats_reply_carries junk servers vol_id :
  let m := MGetServerStatsReply (GetServerStatsReplyMsg.mk vol_id servers) in
  valid_message m -> exists buf, encode junk m = Ok buf /\ carries buf m.
Proof.
  intros m (Hs & Hn & Hv). destruct table_offsets as (Eh & _ & _ & _ & _ & _ & _ & Ez & Ev & En & Eo & Ea & E4 & Eu & _).
  cbn [encode m GetServerStatsReplyMsg.servers GetServerStatsReplyMsg.vol_id] in *.
  set (create := CreateGetServerStatsReplyMsg junk vol_id).
  assert (length create = 2424%nat) as Hlc.
  { unfold create, CreateGetServerStatsReplyMsg, write_header. by rewrite !write_length, buffer_length, Eh, Ez. }
  destruct (add_entries_holds ServerStats_layout valid_stats (sizeof_MsgHeader + GetServerStatsReplyMsg.off_num_servers)
    (sizeof_MsgHeader + GetServerStatsReplyMsg.off_servers) create ltac:(lia) ltac:(lia) ltac:(lia)) with (l := servers)
    as (buf & Hrun & Hh); [|done|done|].
  { unfold create, CreateGetServerStatsReplyMsg, write_header. rewrite (read_after_write i32c u32c) by lia.
    apply read_write; [apply zero_is_i32|field_lia]. }
  exists buf. split; [done|]. pose proof (proj1 Hh) as Hl.
  assert (header_of buf = MsgHeader.mk 2408 0 MsgType.kGetServerStatsReply) as Hhd.
  { unfold header_of. rewrite (holds_read _ _ _ _ MsgHeader.layout 0 _ _ Hh) by (fold sizeof_MsgHeader; lia).
    change (header_of create = MsgHeader.mk 2408 0 MsgType.kGetServerStatsReply).
    unfold create, CreateGetServerStatsReplyMsg. rewrite (header_after_write u32c), (header_after_write i32c) by lia.
    rewrite read_write_header by (rewrite ?buffer_length, ?Ez; lia || done). by rewrite Ez. }
  split; [apply (msg_size _ 2408 0 MsgType.kGetServerStatsReply); [done|lia..]|].
  unfold decode. rewrite Hhd. cbn [MsgHeader.type m]. do 3 f_equal.
  - rewrite (holds_read _ _ _ _ u32c _ _ _ Hh) by lia. unfold create, CreateGetServerStatsReplyMsg.
    apply read_write; [done|unfold write_header; field_lia].
  - by apply (holds_table _ _ _ create).
Qed.

(** For the messages built by [create]. *)
Ltac by_create :=
  cbn [encode]; eexists; split; [reflexivity|];
  unfold CreateAllocateBlocksMsg, CreateAllocateBlocksReplyMsg, CreateRegisterServerReplyMsg,
    CreateUpdateServerStatsReplyMsg, CreateCommitServerModeMsg, CreateGetServerStatsMsg, CreateGetControllerTimeReplyMsg;
  eapply create_carries; [typeclasses eauto|eassumption|exact I|vm_compute; reflexivity|];
  intros buf Hh Hr; unfold decode; rewrite Hh, Hr; reflexivity.

Lemma small_u32 n k : Z.of_nat (k + n) < 2 ^ 32 -> is_u32 (Z.of_nat n).
Proof. cbn. lia. Qed.

(** C14: Whatever its buffer held, every message the system sends is as long as its
    header says, and its receiver reads back its type, every field and its
    payload; an [ip] is followed by the old contents of the buffer. *)
Theorem messages_roundtrip junk m :
  valid_message m ->
  exists buf, encode junk m = Ok buf /\ GetMsgSize buf = Z.of_nat (length buf) /\ decode buf = Some (as_sent junk m).
Proof.
  intros Hv. change (exists buf, encode junk m = Ok buf /\ carries buf (as_sent junk m)).
  destruct m as [[iod id aff] p|[iod id code res] p|[]|[]|[]|[]|[]|[]|[]|[]|[]|[]|[]|[]| |[]]; cbn [as_sent].
  - destruct Hv as [Hm Hs]. eexists. split; [reflexivity|].
    apply (payload_carries junk StorageOpMsg.layout (MsgHeader.mk _ _ MsgType.kStorageOp) _ p);
      [exact Hm|exact I|exact Hs|done|by eapply small_u32|].
    intros buf Hh Hr Hl Hd. unfold decode. rewrite Hh. cbn [MsgHeader.type MsgHeader.payload_size]. rewrite Hr. do 2 f_equal.
    rewrite Nat2Z.id. by replace (length buf - length p)%nat with (sizeof_MsgHeader + csize StorageOpMsg.layout)%nat by lia.
  - destruct Hv as [Hm Hs]. eexists. split; [reflexivity|].
    apply (payload_carries junk StorageOpReplyMsg.layout (MsgHeader.mk _ _ MsgType.kStorageOpReply) _ p);
      [exact Hm|exact I|exact Hs|done|done|].
    intros buf Hh Hr Hl Hd. unfold decode. rewrite Hh. cbn [MsgHeader.type]. by rewrite Hr, Hd.
  - by_create.
  - by_create.
  - destruct Hv as [Hb Hn]. cbn [encode]. unfold CreateDiscardBlocksMsg. cbn [DiscardBlocksMsg.num_blocks] in *.
    rewrite (proj2 (Z.leb_le _ _)) by lia. cbn [require mbind outcome_bind].
    eexists. split; [reflexivity|]. eapply create_carries; [typeclasses eauto| |exact I|vm_compute; reflexivity|].
    + split; [exact Hb|]. unfold kDiscardBatch in Hn. cbn. lia.
    + intros buf Hh Hr. unfold decode. by rewrite Hh, Hr.
  - by apply register_server_carries.
  - by_create.
  - by apply register_volume_carries.
  - by apply volume_reply_carries.
  - destruct Hv as [Hid Hst]. cbn [encode]. eexists. split; [reflexivity|]. unfold CreateUpdateServerStatsMsg.
    eapply create_carries; [typeclasses eauto| |exact I|vm_compute; reflexivity|].
    + split; [exact Hid|]. split; [exact Hid|]. exact (proj2 Hst).
    + intros buf Hh Hr. unfold decode. by rewrite Hh, Hr.
  - by_create.
  - by_create.
  - by_create.
  - by apply stats_reply_carries.
  - assert (header_of (CreateGetControllerTimeMsg junk) = MsgHeader.mk 4 0 MsgType.kGetControllerTime) as Hh.
    { unfold CreateGetControllerTimeMsg. by rewrite read_write_header by (rewrite ?buffer_length; done || lia). }
    eexists. split; [reflexivity|]. split; [|unfold decode; by rewrite Hh].
    apply (msg_size _ 4 0 MsgType.kGetControllerTime); [done| |done].
    unfold CreateGetControllerTimeMsg, write_header. by rewrite write_length, buffer_length.
  - by_create.
Qed.

Definition sample_iod : IODesc.t := IODesc.mk 1 1 77 140737353887744 94000 98000.

Lemma messages_roundtrip_witness :
  let m := MStorageOp (StorageOpMsg.mk sample_iod 5 3) [10; 20; 30; 40] in
  exists buf, encode (fun _ => 170) m = Ok buf /\ GetMsgSize buf = Z.of_nat (length buf) /\
    decode buf = Some (as_sent (fun _ => 170) m).
Proof.
  intros m. apply (messages_roundtrip (fun _ => 170) m).
  cbn [valid_message m]. split; [|vm_compute; reflexivity]. unfold valid_iod. cbn. repeat split; lia.
Defined.

Lemma c_string_app l c l' : no_nul l -> c <> 0 -> c_string (l ++ c :: l') = l ++ c :: c_string l'.
Proof.
  intros Hl Hc. induction Hl as [|x l Hx Hl IH]; simpl.
  - by rewrite (proj2 (Z.eqb_neq c 0) Hc).
  - by rewrite (proj2 (Z.eqb_neq x 0) Hx), IH.
Qed.

(** A disk server's address is copied without its terminator into a buffer
    that is not initialised: unless the next byte happened to be zero, the
    controller reads a longer address. *)
Theorem ip_unterminated junk ip port name nsectors buf m :
  valid_message (MRegisterServer (RegisterServerMsg.mk ip port name nsectors)) ->
  Z.of_nat (length ip) < kIPAddrStrLen -> junk (off_ip + length ip)%nat <> 0 ->
  encode junk (MRegisterServer (RegisterServerMsg.mk ip port name nsectors)) = Ok buf ->
  decode buf = Some (MRegisterServer m) ->
  exists rest, c_string (RegisterServerMsg.ip m) = ip ++ junk (off_ip + length ip)%nat :: rest.
Proof.
  intros Hv Hl Hj Henc Hdec. destruct (register_server_carries junk ip port name nsectors Hv) as (buf' & Henc' & _ & Hdec').
  rewrite Henc in Henc'. injection Henc' as <-. rewrite Hdec in Hdec'. cbn [as_sent] in Hdec'. injection Hdec' as ->.
  cbn [RegisterServerMsg.ip]. unfold ip_sent.
  destruct (Z.to_nat kIPAddrStrLen - length ip)%nat as [|n] eqn:En; [lia|]. cbn [seq map].
  rewrite c_string_app by (done || exact (proj1 Hv)). eauto.
Qed.

Lemma ip_unterminated_witness :
  let ip := [49; 48; 46; 48; 46; 48; 46; 49] in
  exists buf m rest,
    encode (fun _ => 65) (MRegisterServer (RegisterServerMsg.mk ip 80 [115] 9)) = Ok buf /\
    decode buf = Some (MRegisterServer m) /\ c_string (RegisterServerMsg.ip m) = ip ++ 65 :: rest.
Proof.
  intros ip. pose (m0 := MRegisterServer (RegisterServerMsg.mk ip 80 [115] 9)).
  assert (valid_message m0) as Hv.
  { split; [repeat (apply Forall_cons; split; [done|]); apply Forall_nil; done|]. split; [vm_compute; done|]. split; [cbn; lia|].
    split; [repeat (apply Forall_cons; split; [done|]); apply Forall_nil; done|]. split; [vm_compute; done|]. cbn. lia. }
  pose (buf := match encode (fun _ => 65) m0 with Ok b => b | Fault _ => [] end).
  pose (m := match decode buf with Some (MRegisterServer m) => m | _ => RegisterServerMsg.mk [] 0 [] 0 end).
  exists buf, m. destruct (ip_unterminated (fun _ => 65) ip 80 [115] 9 buf m Hv) as [rest Hr];
    [vm_compute; reflexivity|lia|vm_compute; reflexivity|vm_compute; reflexivity|].
  exists rest. split_and!; [vm_compute; reflexivity|vm_compute; reflexivity|exact Hr].
Defined.
