(* ===== verification/CalibratedTime.v ===== *)
(** * Time and the calibration of clocks

    [src/sandook/base/time.h] and [src/sandook/utils/calibrated_time.cc]: points
    in time and durations at their widths, and how a server estimates by how much
    the controller's clock is ahead of its own. *)

From S2P Require Import Prelude BaseTypes Wire Configuration Messages.

Local Open Scope Z_scope.

Definition kMilliseconds : Z := 1000.
Definition kSeconds : Z := 1000000.

(** ** Conversions *)

Module timeval.
Record t := mk { tv_sec : Z; tv_usec : Z }.
End timeval.
Module timespec.
Record t := mk { tv_sec : Z; tv_nsec : Z }.
End timespec.

Definition timeval_to_us (tv : timeval.t) : Z := u64 (timeval.tv_sec tv * kSeconds + timeval.tv_usec tv).
Definition us_to_timeval (us : Z) : timeval.t := timeval.mk (swrap 64 (us / kSeconds)) (swrap 64 (us mod kSeconds)).
Definition timespec_to_us (ts : timespec.t) : Z := u64 (timespec.tv_sec ts * kSeconds + Z.quot (timespec.tv_nsec ts) 1000).
Definition us_to_timespec (us : Z) : timespec.t := timespec.mk (swrap 64 (us / kSeconds)) (swrap 64 (us mod kSeconds * 1000)).

(** A duration is an [int64_t], a point in time a [uint64_t]. *)
Module Duration.
Definition of_timeval (tv : timeval.t) : Z := swrap 64 (timeval_to_us tv).
Definition of_timespec (ts : timespec.t) : Z := swrap 64 (timespec_to_us ts).
Definition Timeval (d : Z) : timeval.t := us_to_timeval (u64 d).
Definition Timespec (d : Z) : timespec.t := us_to_timespec (u64 d).
Definition Milliseconds (d : Z) : Z := swrap 64 (u64 d / kMilliseconds).
Definition IsZero (d : Z) : bool := d =? 0.
Definition _s (s : Z) : Z := swrap 64 (u64 (s * kSeconds)).
Definition _ms (ms : Z) : Z := swrap 64 (u64 (ms * kMilliseconds)).
Definition _us (us : Z) : Z := swrap 64 us.
End Duration.

Module Time.
Definition of_timeval (tv : timeval.t) : Z := timeval_to_us tv.
Definition of_timespec (ts : timespec.t) : Z := timespec_to_us ts.
Definition Timeval (t : Z) : timeval.t := us_to_timeval t.
Definition Timespec (t : Z) : timespec.t := us_to_timespec t.
Definition Milliseconds (t : Z) : Z := t / kMilliseconds.
Definition add (t d : Z) : Z := u64 (t + d).
Definition sub (t d : Z) : Z := u64 (t - d).
Definition diff (t t' : Z) : Z := swrap 64 (u64 (t - t')).
Definition Since (now t : Z) : Z := diff now t.
Definition Until (now t : Z) : Z := diff t now.
End Time.

Lemma u64_swrap z : u64 (swrap 64 z) = u64 z.
Proof.
  unfold wrap, swrap. rewrite Zminus_mod_idemp_l. f_equal. lia.
Qed.

Lemma swrap_u64 z : - 2 ^ 63 <= z < 2 ^ 63 -> swrap 64 (u64 z) = z.
Proof. intros Hz. apply swrap_wrap; lia. Qed.

(** Adding the duration between two points in time to the first gives the
    second, for all points in time, also when the difference does not fit the
    duration; and a point in time survives its conversions as long as its seconds
    fit. *)
Theorem time_roundtrips t t' :
  is_u64 t -> is_u64 t' ->
  Time.add t (Time.diff t' t) = t' /\ Time.sub t' (Time.diff t' t) = t /\
  Time.of_timeval (Time.Timeval t) = t /\ Time.of_timespec (Time.Timespec t) = t.
Proof.
  intros Ht Ht'. unfold in_u in *. unfold Time.add, Time.sub, Time.diff.
  assert (forall a b, u64 (a + swrap 64 (u64 b)) = u64 (a + b)) as Hadd.
  { intros a b. rewrite <-(wrap_add_r 64 a), u64_swrap, wrap_idemp. apply wrap_add_r. }
  pose proof (Z.div_mod t kSeconds ltac:(done)) as Hd. pose proof (Z.mod_pos_bound t kSeconds ltac:(done)) as Hm.
  assert (0 <= t / kSeconds < 2 ^ 60) as Hs.
  { split; [apply Z.div_pos; [lia|done]|]. apply Z.div_lt_upper_bound; [done|]. unfold kSeconds. lia. }
  unfold kSeconds in *. split; [|split; [|split]].
  - rewrite Hadd. replace (t + (t' - t)) with t' by lia. by apply wrap_small.
  - replace (t' - swrap 64 (u64 (t' - t))) with (t' + - swrap 64 (u64 (t' - t))) by lia.
    assert (forall z, u64 (t' + - swrap 64 (u64 z)) = u64 (t' - z)) as ->.
    { intros z. change (u64 (t' - swrap 64 (u64 z)) = u64 (t' - z)). unfold wrap at 1 3. rewrite <-Zminus_mod_idemp_r.
      change (swrap 64 (u64 z) mod 2 ^ 64) with (u64 (swrap 64 (u64 z))). rewrite u64_swrap, wrap_idemp. unfold wrap. apply Zminus_mod_idemp_r. }
    replace (t' - (t' - t)) with t by lia. by apply wrap_small.
  - unfold Time.of_timeval, Time.Timeval, timeval_to_us, us_to_timeval, kSeconds. simpl.
    rewrite !swrap_small by lia. rewrite wrap_small; lia.
  - unfold Time.of_timespec, Time.Timespec, timespec_to_us, us_to_timespec, kSeconds. simpl.
    rewrite !swrap_small by lia. rewrite Z.quot_mul by lia. rewrite wrap_small; lia.
Qed.

Lemma time_roundtrips_witness : Time.add 5 (Time.diff (2 ^ 64 - 1) 5) = 2 ^ 64 - 1.
Proof. apply (time_roundtrips 5 (2 ^ 64 - 1)); split; vm_compute; congruence. Defined.

(** The milliseconds of a negative duration are not negative: the division is
    done on the unsigned number. *)
Theorem negative_milliseconds d : - 2 ^ 63 <= d < 0 -> 0 <= Duration.Milliseconds d.
Proof.
  intros Hd. unfold Duration.Milliseconds, kMilliseconds. pose proof (wrap_range 64 d ltac:(lia)) as Hr.
  assert (0 <= u64 d / 1000 < 2 ^ 60) as Hq by (split; [apply Z.div_pos; lia|apply Z.div_lt_upper_bound; lia]).
  rewrite swrap_small; lia.
Qed.

Lemma negative_milliseconds_witness : 0 <= Duration.Milliseconds (-5000) /\ Duration.Milliseconds (-5000) <> -5.
Proof. split; [apply (negative_milliseconds (-5000)); split; vm_compute; congruence|vm_compute; discriminate]. Defined.

(** ** Calibration *)

Definition kWarmupCalibrationRounds : nat := 1000.
Definition kCalibrationRounds : nat := 10000.

(** What a round of [CalibrationWorker] gets from the clock before and after the
    call, and from the call. *)
Record round := Round { server_start_time : Z; resp : list Z; server_end_time : Z }.

Definition calibration_round (sum : Z) (r : round) : outcome (Status Z) :=
  let size := csize GetControllerTimeReplyMsg.layout in
  if (length (resp r) <? size)%nat then Ok (MakeError EINVAL)
  else
    let msg := cread GetControllerTimeReplyMsg.layout 0 (drop (length (resp r) - size) (resp r)) in
    let rtt := u64 (server_end_time r - server_start_time r) in
    let single_trip := rtt / 2 in
    let client_start_time := u64 (GetControllerTimeReplyMsg.microtime msg - single_trip) in
    let delta := swrap 64 (u64 (client_start_time - server_start_time r)) in
    sum ← signed_result 64 (sum + delta);
    Ok (Value sum).

Fixpoint calibration_sum (sum : Z) (rounds : list round) : outcome (Status Z) :=
  match rounds with
  | [] => Ok (Value sum)
  | r :: rounds =>
      s ← calibration_round sum r;
      match s with Value sum => calibration_sum sum rounds | MakeError e => Ok (MakeError e) end
  end.

Definition CalibrationWorker (rounds : list round) : outcome (Status Z) :=
  s ← calibration_sum 0 rounds;
  match s with
  | Value sum => require (negb (length rounds =? 0)%nat) Undefined;; Ok (Value (Z.quot sum (Z.of_nat (length rounds))))
  | MakeError e => Ok (MakeError e)
  end.

(** The rounds to warm up are not used. *)
Definition CalibrateTimeWithController (warmup rounds : list round) : outcome (Status Z) :=
  w ← CalibrationWorker warmup;
  match w with MakeError e => Ok (MakeError e) | Value _ => CalibrationWorker rounds end.

Definition CalibratedMicroTime (ControllerCalibrationMicroTime micro_time : Z) : Z :=
  u64 (micro_time + ControllerCalibrationMicroTime).

(** The controller answers with its own time, [ahead] of ours, at some moment of
    the call, and the call takes at most [rtt]. *)
Definition answered (junk : nat -> Z) (ahead rtt : Z) (r : round) : Prop :=
  exists at_, 0 <= server_start_time r <= at_ /\ at_ <= server_end_time r < 2 ^ 60 /\
    server_end_time r - server_start_time r <= rtt /\ 0 <= at_ + ahead < 2 ^ 60 /\
    resp r = CreateGetControllerTimeReplyMsg junk (at_ + ahead).

Section Calibration.
Context (junk : nat -> Z) (ahead rtt : Z).
Hypothesis Hahead : - 2 ^ 47 <= ahead <= 2 ^ 47.
Hypothesis Hrtt : 0 <= rtt <= 2 ^ 40.

#[local] Instance reply_laws : CodecLaws GetControllerTimeReplyMsg.layout (fun m => is_u64 (GetControllerTimeReplyMsg.microtime m)).
Proof. unfold GetControllerTimeReplyMsg.layout. solve_laws. Qed.

Lemma reply_microtime z :
  is_u64 z ->
  let buf := CreateGetControllerTimeReplyMsg junk z in
  let size := csize GetControllerTimeReplyMsg.layout in
  (length buf <? size)%nat = false /\
  GetControllerTimeReplyMsg.microtime (cread GetControllerTimeReplyMsg.layout 0 (drop (length buf - size) buf)) = z.
Proof.
  intros Hz buf size.
  assert (length buf = (sizeof_MsgHeader + size)%nat) as Hlen.
  { unfold buf, CreateGetControllerTimeReplyMsg, create. rewrite write_length. unfold write_header. rewrite write_length.
    unfold buffer. by rewrite length_map, length_seq. }
  split; [apply Nat.ltb_ge; lia|]. replace (length buf - size)%nat with sizeof_MsgHeader by lia.
  transitivity (GetControllerTimeReplyMsg.microtime (cread GetControllerTimeReplyMsg.layout sizeof_MsgHeader buf)).
  - clearbody buf. reflexivity.
  - unfold buf at 1, CreateGetControllerTimeReplyMsg, create.
    rewrite read_write; [done|done|]. unfold write_header. rewrite write_length. unfold buffer. rewrite length_map, length_seq. lia.
Qed.

Lemma calibration_round_spec sum r :
  answered junk ahead rtt r -> - 2 ^ 62 <= sum <= 2 ^ 62 ->
  exists delta, calibration_round sum r = Ok (Value (sum + delta)) /\ ahead - rtt / 2 <= delta <= ahead + (rtt + 1) / 2.
Proof.
  intros (at_ & H1 & H2 & H3 & H4 & Hresp) Hsum. unfold calibration_round. rewrite Hresp.
  destruct (reply_microtime (at_ + ahead)) as [-> ->]; [unfold in_u; lia|]. cbn zeta.
  assert (0 <= server_end_time r - server_start_time r) as H0 by lia.
  remember (server_end_time r - server_start_time r) as d eqn:Ed. rewrite (wrap_small 64 d) by lia.
  pose proof (Z.div_mod d 2 ltac:(lia)). pose proof (Z.mod_pos_bound d 2 ltac:(lia)).
  pose proof (Z.div_mod rtt 2 ltac:(lia)). pose proof (Z.mod_pos_bound rtt 2 ltac:(lia)).
  pose proof (Z.div_mod (rtt + 1) 2 ltac:(lia)). pose proof (Z.mod_pos_bound (rtt + 1) 2 ltac:(lia)).
  exists (at_ + ahead - d / 2 - server_start_time r).
  assert (u64 (u64 (at_ + ahead - d / 2) - server_start_time r) = u64 (at_ + ahead - d / 2 - server_start_time r)) as ->.
  { unfold wrap. apply Zminus_mod_idemp_l. }
  assert (- 2 ^ 48 <= at_ + ahead - d / 2 - server_start_time r <= 2 ^ 48) as Hdelta by lia.
  rewrite swrap_u64 by lia. unfold signed_result. rewrite decide_True by lia. split; [done|]. lia.
Qed.

Lemma rtt_half : 0 <= rtt / 2 <= 2 ^ 40 /\ 0 <= (rtt + 1) / 2 <= 2 ^ 40.
Proof.
  pose proof (Z.div_mod rtt 2 ltac:(lia)). pose proof (Z.mod_pos_bound rtt 2 ltac:(lia)).
  pose proof (Z.div_mod (rtt + 1) 2 ltac:(lia)). pose proof (Z.mod_pos_bound (rtt + 1) 2 ltac:(lia)). lia.
Qed.

Lemma calibration_sum_spec rounds sum :
  Forall (answered junk ahead rtt) rounds -> Z.abs sum + Z.of_nat (length rounds) * 2 ^ 48 <= 2 ^ 62 ->
  exists s, calibration_sum sum rounds = Ok (Value s) /\
    Z.of_nat (length rounds) * (ahead - rtt / 2) <= s - sum <= Z.of_nat (length rounds) * (ahead + (rtt + 1) / 2).
Proof.
  revert sum. induction rounds as [|r rounds IH]; intros sum Hr Hsum; cbn [calibration_sum length]; [exists sum; split; [done|lia]|].
  apply Forall_cons in Hr as [Hr Hrs]. cbn [length] in Hsum.
  destruct (calibration_round_spec sum r Hr) as (delta & -> & Hdelta); [lia|]. cbn [mbind outcome_bind].
  pose proof rtt_half. destruct (IH (sum + delta) Hrs) as (s & -> & Hs); [lia|]. exists s. split; [done|].
  rewrite Nat2Z.inj_succ, !Z.mul_succ_l. lia.
Qed.

(** A quotient is between the bounds of what it is the quotient of. *)
Lemma quot_between n lo hi s : 0 < n -> n * lo <= s <= n * hi -> lo <= Z.quot s n <= hi.
Proof.
  intros Hn [Hlo Hhi]. split.
  - rewrite <-(Z.quot_mul lo n) by lia. apply Z.quot_le_mono; lia.
  - rewrite <-(Z.quot_mul hi n) by lia. apply Z.quot_le_mono; lia.
Qed.

Lemma worker_spec rounds :
  Forall (answered junk ahead rtt) rounds -> (0 < length rounds <= kCalibrationRounds)%nat ->
  exists d, CalibrationWorker rounds = Ok (Value d) /\ ahead - rtt / 2 <= d <= ahead + (rtt + 1) / 2.
Proof.
  intros Hr Hn. assert (Z.of_nat (length rounds) <= 10000) as Hn'.
  { transitivity (Z.of_nat kCalibrationRounds); [lia|]. vm_compute. discriminate. }
  destruct (calibration_sum_spec rounds 0 Hr) as (s & Hs & Hb); [lia|]. unfold CalibrationWorker. rewrite Hs. cbn [mbind outcome_bind].
  rewrite (proj2 (Nat.eqb_neq _ _)) by lia. eexists. split; [done|]. apply quot_between; lia.
Qed.

(** C18: Calibration works: when the controller's clock is ahead of ours by an
    amount that does not change and every call takes at most [rtt], the time read
    after the calibration differs from the controller's by at most half of that,
    rounded up. No sum overflows. *)
Theorem calibration_error warmup rounds now :
  Forall (answered junk ahead rtt) warmup -> length warmup = kWarmupCalibrationRounds ->
  Forall (answered junk ahead rtt) rounds -> length rounds = kCalibrationRounds ->
  0 <= now < 2 ^ 62 -> rtt <= now + ahead ->
  exists d, CalibrateTimeWithController warmup rounds = Ok (Value d) /\
    - (rtt / 2) <= CalibratedMicroTime d now - (now + ahead) <= (rtt + 1) / 2.
Proof.
  intros Hw Hwl Hr Hrl Hnow Hpos. unfold CalibrateTimeWithController.
  destruct (worker_spec warmup Hw) as (w & -> & _); [rewrite Hwl; split; apply Nat.leb_le; vm_compute; reflexivity|].
  cbn [mbind outcome_bind]. destruct (worker_spec rounds Hr) as (d & -> & Hd); [rewrite Hrl; split; apply Nat.leb_le; vm_compute; reflexivity|].
  pose proof rtt_half as [Hh Hh']. pose proof (Z.div_le_upper_bound rtt 2 rtt ltac:(lia) ltac:(lia)).
  exists d. split; [done|]. unfold CalibratedMicroTime. rewrite wrap_small; lia.
Qed.
End Calibration.

(** Every call takes ten microseconds and is answered after three. *)
Definition sample_round (i : nat) : round :=
  Round (1000 + 20 * Z.of_nat i) (CreateGetControllerTimeReplyMsg (fun _ => 0) (1003 + 20 * Z.of_nat i + 500)) (1010 + 20 * Z.of_nat i).

Lemma sample_rounds_answered n : Z.of_nat n <= 10000 -> Forall (answered (fun _ => 0) 500 10) (map sample_round (seq 0 n)).
Proof.
  intros Hn. apply Forall_map, Forall_seq. intros i Hi. exists (1003 + 20 * Z.of_nat i). cbn [sample_round server_start_time server_end_time resp].
  split; [lia|]. split; [lia|]. split; [lia|]. split; [lia|reflexivity].
Qed.

Lemma calibration_error_witness :
  exists d, CalibrateTimeWithController (map sample_round (seq 0 kWarmupCalibrationRounds)) (map sample_round (seq 0 kCalibrationRounds)) = Ok (Value d) /\
    - (10 / 2) <= CalibratedMicroTime d 1000000 - (1000000 + 500) <= (10 + 1) / 2.
Proof.
  apply (calibration_error (fun _ => 0) 500 10); [lia|lia| | | | |lia|lia].
  - apply sample_rounds_answered. vm_compute. discriminate.
  - rewrite length_map. apply length_seq.
  - apply sample_rounds_answered. vm_compute. discriminate.
  - rewrite length_map. apply length_seq.
Defined.
