(* ===== verification/StorageServer.v ===== *)
(** * Disk servers

    [src/sandook/disk_server]: a [StorageServer] monitors its disk and executes
    storage requests; [mem_server.cc], [spdk_server.cc] and [blk_server.cc] are
    its three back ends, and [disk_conn_handler.cc] turns messages into
    requests and replies. A back end is a type with the operations of the
    virtual class as an interface; what they promise the virtual disks is a
    second interface, with one instance per back end. Flash devices
    ([bindings/storage.h]) and POSIX files belong to the environment. *)

From Stdlib Require Import String.
From S2P Require Import Prelude Float64 BaseTypes Counter Memory Io DiskMonitor Configuration Messages.

Local Open Scope Z_scope.

Definition ENOTSUP : Z := 95.
Definition kBlockSizeBytes : Z := 4096.
Definition kCapacityBytes : Z := Z.shiftl 1 33.

(** ** bindings/storage.h *)

(** The runtime's flash storage: a result that is zero on success. *)
Class FlashDevice (D : Type) := {
  storage_read : Z -> Z -> D -> Z * list Z * D;
  storage_write : list Z -> Z -> Z -> D -> Z * D;
  storage_deallocate : Z -> Z -> D -> Z * D;
  storage_block_size : Z;
  storage_num_blocks : Z;
}.

Module Storage.
Section Storage.
Context {D : Type} `{!FlashDevice D}.

Definition Write (src : list Z) (start_lba : Z) (d : D) : Status unit * D :=
  let (ret, d) := storage_write src start_lba (Z.of_nat (length src) / storage_block_size) d in
  if negb (ret =? 0) then (MakeError (- ret), d) else (Value tt, d).

Definition Read (size : Z) (start_lba : Z) (d : D) : Status (list Z) * D :=
  let '(ret, data, d) := storage_read start_lba (size / storage_block_size) d in
  if negb (ret =? 0) then (MakeError (- ret), d) else (Value data, d).

Definition Deallocate (start_lba num_sectors : Z) (d : D) : Status unit * D :=
  let (ret, d) := storage_deallocate start_lba num_sectors d in
  if negb (ret =? 0) then (MakeError (- ret), d) else (Value tt, d).

Definition get_num_bytes : Z := u64 (storage_num_blocks * storage_block_size).
End Storage.
End Storage.

(** ** storage_server.h *)

(** Where a request runs and when it starts and completes. *)
Record clock := Clock { cpu : nat; started_at : Z; completed_at : Z }.

Module StorageServer.
Section Server.
Context {B : Type}.

Record t := mk { name_ : string; server_id_ : ServerID; mon_ : DiskMonitor.t; backend : B }.
#[global] Instance settable : Settable t := settable! mk <name_; server_id_; mon_; backend>.

Definition HandleRejection (cpu : nat) (op : OpType.t) (s : t) : outcome t :=
  match op with
  | OpType.kRead => m ← DiskMonitor.ReadRejected cpu (mon_ s); Ok (s <| mon_ := m |>)
  | OpType.kWrite => m ← DiskMonitor.WriteRejected cpu (mon_ s); Ok (s <| mon_ := m |>)
  | _ => Ok s
  end.

Definition IsCongested (s : t) : bool := DiskMonitor.IsCongested (mon_ s).
Definition IsAllowingWrites (now : Z) (s : t) : bool := DiskMonitor.IsAllowingWrites now (mon_ s).

(** [hook_read_started], the access, [hook_read_completed]. *)
Definition hooked_read {A} (c : clock) (access : B -> outcome (Status A * B)) (s : t) : outcome (Status A * t) :=
  '(start, m) ← DiskMonitor.ReadStarted (cpu c) (started_at c) (mon_ s);
  '(r, b) ← access (backend s);
  m ← DiskMonitor.ReadCompleted (cpu c) (completed_at c) start (has_value r) m;
  Ok (r, s <| mon_ := m |> <| backend := b |>).

Definition hooked_write {A} (c : clock) (access : B -> outcome (Status A * B)) (s : t) : outcome (Status A * t) :=
  '(start, m) ← DiskMonitor.WriteStarted (cpu c) (started_at c) (mon_ s);
  '(r, b) ← access (backend s);
  m ← DiskMonitor.WriteCompleted (cpu c) (completed_at c) start (has_value r) m;
  Ok (r, s <| mon_ := m |> <| backend := b |>).

(** Replies of the controller. *)
Definition HandleUpdateServerStatsReply (now : Z) (reply : option UpdateServerStatsReplyMsg.t) (s : t) : Status unit * t :=
  match reply with
  | None => (MakeError EINVAL, s)
  | Some msg =>
      (Value tt, s <| mon_ := DiskMonitor.SetModeAndWeights now (UpdateServerStatsReplyMsg.mode msg)
                       (UpdateServerStatsReplyMsg.read_weight msg) (UpdateServerStatsReplyMsg.write_weight msg) (mon_ s) |>)
  end.

Definition HandleRegisterServerReply (LoadModel : string -> option (list Z * list Z))
    (reply : option RegisterServerReplyMsg.t) (s : t) : outcome (Status unit * t) :=
  match reply with
  | None => Ok (MakeError EINVAL, s)
  | Some msg =>
      let id := RegisterServerReplyMsg.server_id msg in
      let m := DiskMonitor.SetServerName (name_ s) (DiskMonitor.SetServerID id (mon_ s)) in
      m ← DiskMonitor.SetIsRejectionsEnabled LoadModel (RegisterServerReplyMsg.is_rejections_enabled msg) m;
      Ok (Value tt, s <| server_id_ := id |> <| mon_ := m |>)
  end.

(** One round of the updater thread: the statistics, the reply of the
    controller, and the mode the server has taken up. *)
Definition ControllerStatsUpdater_round {C} (cpu : nat) (now now' now'' : Z)
    (update : ServerID -> ServerStats.t -> C -> option UpdateServerStatsReplyMsg.t * C)
    (commit : ServerID -> ServerMode.t -> C -> C) (s : t) (ctrl : C) : outcome (t * C) :=
  '(stats, m) ← DiskMonitor.UpdateAndGetServerStats cpu now now' (mon_ s);
  let (reply, ctrl) := update (server_id_ s) stats ctrl in
  let (_, s) := HandleUpdateServerStatsReply now'' reply (s <| mon_ := m |>) in
  Ok (s, commit (server_id_ s) (DiskMonitor.mode_ (mon_ s)) ctrl).
End Server.
Arguments t B : clear implicits.

Definition GetMsgResponseSize (msg : StorageOpMsg.t) : Z :=
  match IODesc.get_op (StorageOpMsg.iod msg) with
  | OpType.kRead => u32 (Z.shiftl (IODesc.num_sectors (StorageOpMsg.iod msg)) kSectorShift)
  | _ => 0
  end.
End StorageServer.
Import StorageServer(hooked_read, hooked_write).

(** The virtual operations: a request with its payload and the size of the
    reply's payload, to a result and that payload. *)
Class DiskServerOps (B : Type) := {
  HandleStorageOp : clock -> StorageOpMsg.t -> list Z -> Z -> StorageServer.t B ->
    outcome (Status Z * list Z * StorageServer.t B);
  HandleDiscardBlocks : list ServerBlockAddr -> StorageServer.t B -> outcome (Status unit * StorageServer.t B);
}.

(** The bytes of a request, an unsigned 32-bit product. *)
Definition op_len (iod : IODesc.t) : Z := u32 (Z.shiftl (IODesc.num_sectors iod) kSectorShift).

(** Results are returned as [int]. *)
Definition read_result {S} (len : Z) (r : Status (list Z) * S) : Status Z * list Z * S :=
  match r with
  | (MakeError e, s) => (MakeError e, [], s)
  | (Value data, s) => (Value (i32 len), data, s)
  end.
Definition write_result {S} (len : Z) (r : Status unit * S) : Status Z * list Z * S :=
  match r with
  | (MakeError e, s) => (MakeError e, [], s)
  | (Value _, s) => (Value (i32 len), [], s)
  end.

(** ** mem_server.cc *)

Module MemServer.
Record t := mk { buf_ : memory }.

Definition HandleReadOp (size start_lba : Z) (b : t) : outcome (Status (list Z) * t) :=
  let off := u64 (start_lba * kBlockSizeBytes) in
  require (off <? kCapacityBytes) BugOn;;
  require (u64 (off + size) <? kCapacityBytes) BugOn;;
  Ok (Value (bytes_at off (Z.to_nat size) (buf_ b)), b).

Definition HandleWriteOp (src : list Z) (start_lba : Z) (b : t) : outcome (Status unit * t) :=
  let off := u64 (start_lba * kBlockSizeBytes) in
  require (off <? kCapacityBytes) BugOn;;
  require (u64 (off + Z.of_nat (length src)) <? kCapacityBytes) BugOn;;
  Ok (Value tt, mk (store_at off src (buf_ b))).

Definition MemServer_HandleStorageOp (c : clock) (msg : StorageOpMsg.t) (req_payload : list Z) (resp_size : Z)
    (s : StorageServer.t t) : outcome (Status Z * list Z * StorageServer.t t) :=
  let iod := StorageOpMsg.iod msg in
  let start_lba := IODesc.start_sector iod in
  let len := op_len iod in
  match IODesc.get_op iod with
  | OpType.kRead =>
      require (len =? resp_size) BugOn;;
      r ← hooked_read c (HandleReadOp resp_size start_lba) s;
      Ok (read_result len r)
  | OpType.kWrite =>
      require (len =? Z.of_nat (length req_payload)) BugOn;;
      r ← hooked_write c (HandleWriteOp req_payload start_lba) s;
      Ok (write_result len r)
  | _ => Ok (MakeError EINVAL, [], s)
  end.

#[global] Instance ops : DiskServerOps t := {|
  HandleStorageOp := MemServer_HandleStorageOp;
  HandleDiscardBlocks := fun _ s => Ok (MakeError ENOTSUP, s);
|}.
End MemServer.

(** ** spdk_server.cc *)

Module SPDKServer.
Section SPDK.
Context {D : Type} `{!FlashDevice D}.

Definition SPDKServer_HandleStorageOp (c : clock) (msg : StorageOpMsg.t) (req_payload : list Z) (resp_size : Z)
    (s : StorageServer.t D) : outcome (Status Z * list Z * StorageServer.t D) :=
  let iod := StorageOpMsg.iod msg in
  let start_lba := IODesc.start_sector iod in
  let num_sectors := IODesc.num_sectors iod in
  let len := op_len iod in
  match IODesc.get_op iod with
  | OpType.kRead =>
      require (len =? resp_size) BugOn;;
      r ← hooked_read c (fun d => Ok (Storage.Read resp_size start_lba d)) s;
      Ok (read_result len r)
  | OpType.kWrite =>
      require (len =? Z.of_nat (length req_payload)) BugOn;;
      r ← hooked_write c (fun d => Ok (Storage.Write req_payload start_lba d)) s;
      Ok (write_result len r)
  | OpType.kDiscard =>
      let (r, d) := Storage.Deallocate start_lba num_sectors (StorageServer.backend s) in
      Ok (write_result len (r, s <| StorageServer.backend := d |>))
  | _ => Ok (MakeError EINVAL, [], s)
  end.

(** One block at a time, up to the first that fails. *)
Fixpoint discard_all (blocks : list ServerBlockAddr) (d : D) : Status unit * D :=
  match blocks with
  | [] => (Value tt, d)
  | blk_addr :: blocks =>
      match Storage.Deallocate blk_addr 1 d with
      | (MakeError e, d) => (MakeError e, d)
      | (Value _, d) => discard_all blocks d
      end
  end.

#[global] Instance ops : DiskServerOps D := {|
  HandleStorageOp := SPDKServer_HandleStorageOp;
  HandleDiscardBlocks := fun blocks s =>
    let (r, d) := discard_all blocks (StorageServer.backend s) in Ok (r, s <| StorageServer.backend := d |>);
|}.
End SPDK.
End SPDKServer.

(** ** blk_server.cc *)

(** The calls on the device file besides reading and writing. *)
Class BlockFile (F : Type) `{!PosixFile F} := {
  posix_fdatasync : F -> Z * F;
  posix_fallocate : Z -> Z -> Z -> F -> Z * F;
}.

Definition FALLOC_FL_KEEP_SIZE : Z := 1.
Definition FALLOC_FL_ZERO_RANGE : Z := 16.

Module BlkServer.
Section Blk.
(** [fuel] bounds the calls of a transfer: one per byte is enough. *)
Context {F : Type} `{!PosixFile F, !BlockFile F} (fuel : nat).

Definition Seek (offset : Z) (f : F) : Status unit * F :=
  let (ret, f) := posix_lseek (i64 offset) f in
  if ret =? -1 then (MakeError (posix_errno f), f) else (Value tt, f).

Definition HandleRead (offset len resp_size : Z) (f : F) : outcome (Status (list Z) * F) :=
  require (len <=? resp_size) BugOn;;
  match Seek offset f with
  | (MakeError e, f) => Ok (MakeError e, f)
  | (Value _, f) => ReadFull fuel resp_size f
  end.

Definition HandleWrite (offset len : Z) (req_payload : list Z) (f : F) : outcome (Status unit * F) :=
  require (len <=? Z.of_nat (length req_payload)) BugOn;;
  match Seek offset f with
  | (MakeError e, f) => Ok (MakeError e, f)
  | (Value _, f) => WriteFull fuel req_payload f
  end.

(** These two return the result of the call, not [errno]. *)
Definition HandleFlush (f : F) : Status unit * F :=
  let (ret, f) := posix_fdatasync f in
  if negb (ret =? 0) then (MakeError ret, f) else (Value tt, f).

Definition HandleDiscard (offset len mode : Z) (f : F) : Status unit * F :=
  match Seek offset f with
  | (MakeError e, f) => (MakeError e, f)
  | (Value _, f) =>
      let (ret, f) := posix_fallocate mode (i64 offset) len f in
      if negb (ret =? 0) then (MakeError ret, f) else (Value tt, f)
  end.

Definition BlkServer_HandleStorageOp (c : clock) (msg : StorageOpMsg.t) (req_payload : list Z) (resp_size : Z)
    (s : StorageServer.t F) : outcome (Status Z * list Z * StorageServer.t F) :=
  let iod := StorageOpMsg.iod msg in
  let len := op_len iod in
  let offset := u64 (Z.shiftl (IODesc.start_sector iod) kSectorShift) in
  let discard mode :=
    let (r, f) := HandleDiscard offset len mode (StorageServer.backend s) in
    Ok (write_result 0 (r, s <| StorageServer.backend := f |>)) in
  match IODesc.get_op iod with
  | OpType.kRead => r ← hooked_read c (HandleRead offset len resp_size) s; Ok (read_result len r)
  | OpType.kWrite => r ← hooked_write c (HandleWrite offset len req_payload) s; Ok (write_result len r)
  | OpType.kFlush =>
      let (r, f) := HandleFlush (StorageServer.backend s) in
      Ok (write_result 0 (r, s <| StorageServer.backend := f |>))
  | OpType.kWriteZeroes => discard (Z.lor FALLOC_FL_KEEP_SIZE FALLOC_FL_ZERO_RANGE)
  | OpType.kDiscard => discard FALLOC_FL_KEEP_SIZE
  | _ => Ok (MakeError EINVAL, [], s)
  end.

Definition ops : DiskServerOps F := {|
  HandleStorageOp := BlkServer_HandleStorageOp;
  HandleDiscardBlocks := fun _ s => Ok (MakeError ENOTSUP, s);
|}.
End Blk.
End BlkServer.

(** ** disk_conn_handler.cc *)

Module DiskConnHandler.
Section Handler.
Context {B : Type} `{!DiskServerOps B}.
Abbreviation server := (StorageServer.t B).
Abbreviation reply := (StorageOpReplyMsg.t * list Z)%type.

Definition RejectStorageOp (cpu : nat) (msg : StorageOpMsg.t) (code : StorageOpReplyCode.t) (s : server)
    : outcome (Status reply * server) :=
  s ← StorageServer.HandleRejection cpu (IODesc.get_op (StorageOpMsg.iod msg)) s;
  Ok (Value (StorageOpReplyMsg.mk (StorageOpMsg.iod msg) (StorageOpMsg.req_id msg) code 0, []), s).

(** [now] is the clock of the mode check. *)
Definition DiskConnHandler_HandleStorageOp (now : Z) (c : clock) (msg : StorageOpMsg.t) (payload : list Z) (s : server)
    : outcome (Status reply * server) :=
  let op := IODesc.get_op (StorageOpMsg.iod msg) in
  if (StorageOpMsg.affinity msg =? kInvalidServerID) && bool_decide (op = OpType.kWrite) &&
     negb (StorageServer.IsAllowingWrites now s)
  then RejectStorageOp (cpu c) msg StorageOpReplyCode.kRejectModeMismatch s
  else
    r ← HandleStorageOp c msg payload (StorageServer.GetMsgResponseSize msg) s;
    let '(ret, reply_payload, s) := r in
    match ret with
    | MakeError e => Ok (MakeError e, s)
    | Value res =>
        let code := if StorageServer.IsCongested s then StorageOpReplyCode.kSuccessCongested
                    else StorageOpReplyCode.kSuccess in
        Ok (Value (StorageOpReplyMsg.mk (StorageOpMsg.iod msg) (StorageOpMsg.req_id msg) code res, reply_payload), s)
    end.

(** The range of blocks is taken from an array of [kDiscardBatch]; the result
    is only logged. *)
Definition DiskConnHandler_HandleDiscardBlocks (msg : DiscardBlocksMsg.t) (s : server) : outcome server :=
  require (DiscardBlocksMsg.num_blocks msg <=? kDiscardBatch) Undefined;;
  r ← HandleDiscardBlocks (take (Z.to_nat (DiscardBlocksMsg.num_blocks msg)) (DiscardBlocksMsg.blocks msg)) s;
  Ok (snd r).

(** The reply is empty ([None]) on an error and for messages without one. *)
Definition HandleMsg (now : Z) (c : clock) (m : message) (s : server) : outcome (option message * server) :=
  match m with
  | MStorageOp msg payload =>
      r ← DiskConnHandler_HandleStorageOp now c msg payload s;
      Ok (match fst r with Value (msg, payload) => Some (MStorageOpReply msg payload) | MakeError _ => None end, snd r)
  | MDiscardBlocks msg => s ← DiskConnHandler_HandleDiscardBlocks msg s; Ok (None, s)
  | _ => Ok (None, s)
  end.
End Handler.
End DiskConnHandler.

(** ** What a disk server promises *)

(** A request for one sector of a volume. *)
Definition one_sector (op : OpType.t) (msg : StorageOpMsg.t) : Prop :=
  IODesc.get_op (StorageOpMsg.iod msg) = op /\ IODesc.num_sectors (StorageOpMsg.iod msg) = 1.

Definition lba_of (msg : StorageOpMsg.t) : Z := IODesc.start_sector (StorageOpMsg.iod msg).

(** Requests on one sector act on one block: a write that succeeds stores its
    payload there, a read that succeeds returns what is there, and neither, nor
    one that fails, touches any other block; discarding touches only the blocks
    it names. *)
Class DiskServerLaws (B : Type) `{!DiskServerOps B} := {
  block_of : B -> Z -> list Z;
  read_block c msg s n data s' :
    one_sector OpType.kRead msg -> 0 <= lba_of msg < 2 ^ 51 ->
    HandleStorageOp c msg [] kDeviceAlignment s = Ok (Value n, data, s') ->
    n = kDeviceAlignment /\ data = block_of (StorageServer.backend s) (lba_of msg);
  read_keeps c msg s r data s' :
    one_sector OpType.kRead msg ->
    HandleStorageOp c msg [] kDeviceAlignment s = Ok (r, data, s') ->
    forall b, 0 <= b < 2 ^ 51 -> block_of (StorageServer.backend s') b = block_of (StorageServer.backend s) b;
  write_block c msg payload s n data s' :
    one_sector OpType.kWrite msg -> 0 <= lba_of msg < 2 ^ 51 -> Z.of_nat (length payload) = kDeviceAlignment ->
    HandleStorageOp c msg payload 0 s = Ok (Value n, data, s') ->
    n = kDeviceAlignment /\ block_of (StorageServer.backend s') (lba_of msg) = payload;
  write_keeps c msg payload s r data s' :
    one_sector OpType.kWrite msg -> 0 <= lba_of msg < 2 ^ 51 -> Z.of_nat (length payload) = kDeviceAlignment ->
    HandleStorageOp c msg payload 0 s = Ok (r, data, s') ->
    forall b, 0 <= b < 2 ^ 51 -> b <> lba_of msg ->
      block_of (StorageServer.backend s') b = block_of (StorageServer.backend s) b;
  discard_keeps blocks s r s' :
    HandleDiscardBlocks blocks s = Ok (r, s') -> Forall (fun b => 0 <= b < 2 ^ 51) blocks ->
    forall b, 0 <= b < 2 ^ 51 -> b ∉ blocks ->
      block_of (StorageServer.backend s') b = block_of (StorageServer.backend s) b;
}.

Lemma hooked_read_Ok {A B} c (access : B -> outcome (Status A * B)) s r s' :
  hooked_read c access s = Ok (r, s') -> access (StorageServer.backend s) = Ok (r, StorageServer.backend s').
Proof. intros H. unfold hooked_read in H. do 3 (simplify_outcome; destruct_pairs). by simplify_outcome. Qed.

Lemma hooked_write_Ok {A B} c (access : B -> outcome (Status A * B)) s r s' :
  hooked_write c access s = Ok (r, s') -> access (StorageServer.backend s) = Ok (r, StorageServer.backend s').
Proof. intros H. unfold hooked_write in H. do 3 (simplify_outcome; destruct_pairs). by simplify_outcome. Qed.

Lemma one_sector_len op msg : one_sector op msg -> op_len (StorageOpMsg.iod msg) = kDeviceAlignment.
Proof. intros [_ Hn]. unfold op_len. by rewrite Hn. Qed.

(** *** The memory server *)

Definition mem_block (b : MemServer.t) (lba : Z) : list Z :=
  bytes_at (lba * kBlockSizeBytes) (Z.to_nat kBlockSizeBytes) (MemServer.buf_ b).

Lemma lba_offset lba : 0 <= lba < 2 ^ 51 -> u64 (lba * kBlockSizeBytes) = lba * kBlockSizeBytes.
Proof. intros H. apply wrap_small. unfold kBlockSizeBytes. lia. Qed.

Lemma payload_blocks (payload : list Z) :
  Z.of_nat (length payload) = kDeviceAlignment -> length payload = Z.to_nat kBlockSizeBytes.
Proof. change kDeviceAlignment with 4096. unfold kBlockSizeBytes. lia. Qed.

Lemma read_result_Ok {S} len (r : Status (list Z) * S) n data s' :
  read_result len r = (Value n, data, s') -> r = (Value data, s') /\ n = i32 len.
Proof. destruct r as [[d|e] s]; simpl; intros; by simplify_eq. Qed.

Lemma write_result_Ok {S} len (r : Status unit * S) n data s' :
  write_result len r = (Value n, data, s') -> r = (Value tt, s') /\ n = i32 len.
Proof. destruct r as [[[]|e] s]; simpl; intros; by simplify_eq. Qed.

(** A failed or completed request leaves the state its access left. *)
Lemma read_result_state {S} len (r : Status (list Z) * S) x data s' : read_result len r = (x, data, s') -> snd r = s'.
Proof. destruct r as [[d|e] s]; simpl; intros; by simplify_eq. Qed.

Lemma write_result_state {S} len (r : Status unit * S) x data s' : write_result len r = (x, data, s') -> snd r = s'.
Proof. destruct r as [[[]|e] s]; simpl; intros; by simplify_eq. Qed.

(** A request is dispatched on its operation. *)
Ltac run_op H Hop :=
  let Hl := fresh "Hl" in
  pose proof (one_sector_len _ _ Hop) as Hl; destruct Hop as [Hop _];
  cbn beta zeta in H; rewrite Hop, Hl in H; simplify_outcome.

#[export] Instance MemServer_laws : DiskServerLaws MemServer.t.
Proof.
  refine {| block_of := mem_block |}; unfold HandleStorageOp, MemServer.ops, MemServer.MemServer_HandleStorageOp, lba_of.
  - intros c msg s n data s' Hop Hlba H. run_op H Hop. apply read_result_Ok in H as [-> ->].
    match goal with H : hooked_read _ _ _ = _ |- _ => apply hooked_read_Ok in H end.
    unfold MemServer.HandleReadOp in *. rewrite lba_offset in * by done. simplify_outcome. done.
  - intros c msg s r data s' Hop H. run_op H Hop. apply read_result_state in H. destruct_pairs. simpl in H. subst.
    match goal with H : hooked_read _ _ _ = _ |- _ => apply hooked_read_Ok in H end.
    unfold MemServer.HandleReadOp in *. simplify_outcome. congruence.
  - intros c msg payload s n data s' Hop Hlba Hp H. run_op H Hop. apply write_result_Ok in H as [-> ->].
    match goal with H : hooked_write _ _ _ = _ |- _ => apply hooked_write_Ok in H end.
    unfold MemServer.HandleWriteOp in *. rewrite lba_offset in * by done. simplify_outcome. split; [done|].
    match goal with H : MemServer.mk _ = _ |- _ => rewrite <- H end. unfold mem_block. cbn [MemServer.buf_].
    rewrite <- (payload_blocks payload Hp).
    apply bytes_store_same.
  - intros c msg payload s r data s' Hop Hlba Hp H. run_op H Hop. apply write_result_state in H. destruct_pairs. simpl in H. subst.
    match goal with H : hooked_write _ _ _ = _ |- _ => apply hooked_write_Ok in H end.
    unfold MemServer.HandleWriteOp in *. rewrite lba_offset in * by done. simplify_outcome. intros b Hb Hne.
    match goal with H : MemServer.mk _ = _ |- _ => rewrite <- H end. unfold mem_block. cbn [MemServer.buf_].
    apply bytes_store_other. apply payload_blocks in Hp. unfold kBlockSizeBytes in *. lia.
  - intros blocks s r s' H. simpl in H. by simplify_outcome.
Qed.

(** *** The flash server *)

(** What is documented of the device: blocks of [kDeviceAlignment] bytes, and
    calls that act on the blocks they name. *)
Class FlashLaws (D : Type) `{!FlashDevice D} := {
  flash_block : D -> Z -> list Z;
  flash_block_size : storage_block_size (D := D) = kDeviceAlignment;
  flash_read lba d ret data d' :
    storage_read lba 1 d = (ret, data, d') ->
    (ret = 0 -> data = flash_block d lba) /\ forall b, flash_block d' b = flash_block d b;
  flash_write src lba d ret d' :
    storage_write src lba 1 d = (ret, d') -> Z.of_nat (length src) = kDeviceAlignment ->
    (ret = 0 -> flash_block d' lba = src) /\ forall b, b <> lba -> flash_block d' b = flash_block d b;
  flash_deallocate lba d ret d' :
    storage_deallocate lba 1 d = (ret, d') -> forall b, b <> lba -> flash_block d' b = flash_block d b;
}.

Section SPDKLaws.
Context {D : Type} `{!FlashDevice D, !FlashLaws D}.

Lemma Storage_Read_block lba (d : D) r d' :
  Storage.Read kDeviceAlignment lba d = (r, d') ->
  (forall data, r = Value data -> data = flash_block d lba) /\ forall b, flash_block d' b = flash_block d b.
Proof.
  unfold Storage.Read. rewrite flash_block_size. change (kDeviceAlignment / kDeviceAlignment) with 1.
  destruct (storage_read lba 1 d) as [[ret data] d1] eqn:E. apply flash_read in E as [Hd Hk].
  destruct (Z.eqb_spec ret 0); simpl; intros; simplify_eq; split; naive_solver.
Qed.

Lemma Storage_Write_block src lba (d : D) r d' :
  Z.of_nat (length src) = kDeviceAlignment -> Storage.Write src lba d = (r, d') ->
  (r = Value tt -> flash_block d' lba = src) /\ forall b, b <> lba -> flash_block d' b = flash_block d b.
Proof.
  intros Hs. unfold Storage.Write. rewrite Hs, flash_block_size. change (kDeviceAlignment / kDeviceAlignment) with 1.
  destruct (storage_write src lba 1 d) as [ret d1] eqn:E. apply flash_write in E as [Hd Hk]; [|done].
  destruct (Z.eqb_spec ret 0); simpl; intros; simplify_eq; split; naive_solver.
Qed.

Lemma discard_all_keeps blocks (d : D) r d' b :
  SPDKServer.discard_all blocks d = (r, d') -> b ∉ blocks -> flash_block d' b = flash_block d b.
Proof.
  revert d. induction blocks as [|a blocks IH]; intros d; simpl; [by intros [= <- <-]|].
  unfold Storage.Deallocate. destruct (storage_deallocate a 1 d) as [ret d1] eqn:E.
  pose proof (flash_deallocate _ _ _ _ E b) as Hk. rewrite not_elem_of_cons. intros H [Hne Hnin].
  destruct (negb (ret =? 0)); [simplify_eq; auto|]. rewrite (IH _ H Hnin). auto.
Qed.

#[export] Instance SPDKServer_laws : DiskServerLaws D.
Proof.
  refine {| block_of := flash_block |}; unfold HandleStorageOp, SPDKServer.ops, SPDKServer.SPDKServer_HandleStorageOp, lba_of.
  - intros c msg s n data s' Hop Hlba H. run_op H Hop. apply read_result_Ok in H as [-> ->].
    match goal with H : hooked_read _ _ _ = _ |- _ => apply hooked_read_Ok in H; injection H as H; apply Storage_Read_block in H as [Hv _] end.
    auto.
  - intros c msg s r data s' Hop H. run_op H Hop. apply read_result_state in H. destruct_pairs. simpl in H. subst.
    match goal with H : hooked_read _ _ _ = _ |- _ => apply hooked_read_Ok in H; injection H as H; apply Storage_Read_block in H as [_ Hk] end.
    auto.
  - intros c msg payload s n data s' Hop Hlba Hp H. run_op H Hop. apply write_result_Ok in H as [-> ->].
    match goal with H : hooked_write _ _ _ = _ |- _ => apply hooked_write_Ok in H; injection H as H; apply Storage_Write_block in H as [Hv _] end;
    auto.
  - intros c msg payload s r data s' Hop Hlba Hp H. run_op H Hop. apply write_result_state in H. destruct_pairs. simpl in H. subst.
    match goal with H : hooked_write _ _ _ = _ |- _ => apply hooked_write_Ok in H; injection H as H; apply Storage_Write_block in H as [_ Hk] end;
    auto.
  - intros blocks s r s' H. simpl in H. destruct (SPDKServer.discard_all _ _) as [r0 d] eqn:E. simplify_outcome. intros _ b _ Hb.
    by eapply discard_all_keeps.
Qed.
End SPDKLaws.

(** *** The block device server *)

Section BlkLaws.
Context {F : Type} `{!PosixFile F, !BlockFile F, !PosixLaws F} (fuel : nat).

Definition file_block (f : F) (lba : Z) : list Z :=
  map (file_byte f) (zrange (lba * kBlockSizeBytes) (Z.to_nat kBlockSizeBytes)).

Lemma Seek_spec offset (f : F) r f' :
  BlkServer.Seek offset f = (r, f') -> 0 <= offset < 2 ^ 63 ->
  (forall a, file_byte f' a = file_byte f a) /\ (r = Value tt -> file_offset f' = offset).
Proof.
  unfold BlkServer.Seek. intros H Ho. rewrite swrap_small in H by (change (2 ^ (64 - 1)) with (2 ^ 63); lia).
  destruct (posix_lseek offset f) as [ret f1] eqn:E. apply lseek_law in E as [Hb Hoff].
  destruct (Z.eqb_spec ret (-1)); simplify_eq; split; naive_solver.
Qed.

Lemma file_block_ext (f f' : F) lba :
  (forall a, lba * kBlockSizeBytes <= a < lba * kBlockSizeBytes + kBlockSizeBytes -> file_byte f' a = file_byte f a) ->
  file_block f' lba = file_block f lba.
Proof.
  intros H. apply map_ext_in. intros a Ha%list_elem_of_In%elem_of_zrange. apply H. unfold kBlockSizeBytes in *. lia.
Qed.

Context (Hfuel : kBlockSizeBytes <= Z.of_nat fuel).

Lemma HandleRead_keeps offset (f : F) r f' :
  BlkServer.HandleRead fuel offset kDeviceAlignment kDeviceAlignment f = Ok (r, f') -> forall b, file_block f' b = file_block f b.
Proof.
  intros H b. unfold BlkServer.HandleRead, BlkServer.Seek in H. simpl in H. destruct (posix_lseek _ f) as [ret f1] eqn:E.
  apply lseek_law in E as [Hb _]. apply file_block_ext. intros a _. destruct (ret =? -1); [simplify_outcome; auto|].
  destruct (ReadFull_spec fuel kDeviceAlignment f1) as (r1 & f2 & Hrun & Hb2 & _); [done|]. rewrite Hrun in H. simplify_eq. by rewrite Hb2, Hb.
Qed.

Lemma HandleRead_block lba (f : F) data f' :
  0 <= lba < 2 ^ 51 -> BlkServer.HandleRead fuel (lba * kBlockSizeBytes) kDeviceAlignment kDeviceAlignment f = Ok (Value data, f') ->
  data = file_block f lba.
Proof.
  intros Hl H. unfold BlkServer.HandleRead in H. simpl in H. destruct (BlkServer.Seek _ f) as [[[]|e] f1] eqn:E; [|by simplify_outcome].
  apply Seek_spec in E as [Hb Hoff]; [|unfold kBlockSizeBytes; lia].
  destruct (ReadFull_spec fuel kDeviceAlignment f1) as (r1 & f2 & Hrun & Hb2 & Hv); [done|].
  rewrite Hrun in H. simplify_eq. rewrite (Hv data eq_refl). rewrite Hoff by done. by apply map_ext.
Qed.

Lemma HandleWrite_block lba payload (f : F) r f' :
  0 <= lba < 2 ^ 51 -> Z.of_nat (length payload) = kDeviceAlignment ->
  BlkServer.HandleWrite fuel (lba * kBlockSizeBytes) kDeviceAlignment payload f = Ok (r, f') ->
  (r = Value tt -> file_block f' lba = payload) /\ forall b, b <> lba -> file_block f' b = file_block f b.
Proof.
  intros Hl Hp H. unfold BlkServer.HandleWrite in H. simplify_outcome. apply payload_blocks in Hp.
  destruct (BlkServer.Seek _ f) as [[[]|e] f1] eqn:E; apply Seek_spec in E as [Hb Hoff]; try (unfold kBlockSizeBytes; lia).
  - specialize (Hoff eq_refl). destruct (WriteFull_spec fuel payload f1) as (r1 & f2 & Hw & Hout & Hin); [lia|].
    rewrite Hw in H. simplify_eq. rewrite Hoff, Hp in *. split.
    + intros Hr. unfold file_block. rewrite <- Hp. apply read_back. intros a Ha. apply (proj2 (Hin Hr)). lia.
    + intros b Hne. apply file_block_ext. intros a Ha. rewrite Hout, Hb; [done|]. unfold kBlockSizeBytes in *. lia.
  - simplify_outcome. split; [done|]. intros b _. by apply file_block_ext.
Qed.

Lemma lba_shift lba : 0 <= lba < 2 ^ 51 -> u64 (Z.shiftl lba kSectorShift) = lba * kBlockSizeBytes.
Proof. intros H. rewrite Z.shiftl_mul_pow2 by done. by apply lba_offset. Qed.

(** One request at a time, this server keeps the promise too. *)
Lemma BlkServer_laws : @DiskServerLaws F (BlkServer.ops fuel).
Proof.
  refine {| block_of := file_block |}; unfold HandleStorageOp, BlkServer.ops, BlkServer.BlkServer_HandleStorageOp, lba_of.
  - intros c msg s n data s' Hop Hlba H. rewrite lba_shift in H by done. run_op H Hop. apply read_result_Ok in H as [-> ->].
    match goal with H : hooked_read _ _ _ = _ |- _ => apply hooked_read_Ok, HandleRead_block in H; [|done] end. done.
  - intros c msg s r data s' Hop H. run_op H Hop. apply read_result_state in H. destruct_pairs. simpl in H. subst.
    match goal with H : hooked_read _ _ _ = _ |- _ => apply hooked_read_Ok in H end. intros b _. by eapply HandleRead_keeps.
  - intros c msg payload s n data s' Hop Hlba Hp H. rewrite lba_shift in H by done. run_op H Hop. apply write_result_Ok in H as [-> ->].
    match goal with H : hooked_write _ _ _ = _ |- _ => apply hooked_write_Ok, HandleWrite_block in H as [Hv _]; [|done|done] end. auto.
  - intros c msg payload s r data s' Hop Hlba Hp H. rewrite lba_shift in H by done. run_op H Hop. apply write_result_state in H. destruct_pairs. simpl in H. subst.
    match goal with H : hooked_write _ _ _ = _ |- _ => apply hooked_write_Ok, HandleWrite_block in H as [_ Hk]; [|done|done] end. auto.
  - intros blocks s r s' H. simpl in H. by simplify_outcome.
Qed.

(** The offset of the file belongs to all requests: two writes whose seeks both
    come before their transfers both succeed, but the first one's data is where
    the second one's should be and its own range is as it was. *)
Theorem shared_offset_race off1 off2 data1 data2 (f f1 f2 f3 f4 : F) :
  0 <= off1 < 2 ^ 63 -> 0 <= off2 < 2 ^ 63 ->
  Z.of_nat (length data1) <= kBlockSizeBytes -> Z.of_nat (length data2) <= kBlockSizeBytes ->
  off1 + Z.of_nat (length data1) <= off2 ->
  BlkServer.Seek off1 f = (Value tt, f1) -> BlkServer.Seek off2 f1 = (Value tt, f2) ->
  WriteFull fuel data1 f2 = Ok (Value tt, f3) -> WriteFull fuel data2 f3 = Ok (Value tt, f4) ->
  map (file_byte f4) (zrange off1 (length data1)) = map (file_byte f) (zrange off1 (length data1)) /\
  map (file_byte f4) (zrange off2 (length data1)) = data1.
Proof.
  intros Ho1 Ho2 Hl1 Hl2 Hdis [Hb1 _]%Seek_spec [Hb2 Hoff]%Seek_spec Hw1 Hw2; [|done|done].
  destruct (WriteFull_spec fuel data1 f2) as (r1 & g1 & Hrun1 & Hout1 & Hin1); [lia|]. rewrite Hrun1 in Hw1. simplify_eq.
  destruct (WriteFull_spec fuel data2 f3) as (r2 & g2 & Hrun2 & Hout2 & Hin2); [lia|]. rewrite Hrun2 in Hw2. simplify_eq.
  destruct (Hin1 eq_refl) as [Hend Hdata]. specialize (Hoff eq_refl). rewrite Hend, Hoff in *. split.
  - apply map_ext_in. intros a Ha%list_elem_of_In%elem_of_zrange. rewrite Hout2, Hout1, Hb2, Hb1 by lia. done.
  - apply read_back. intros a Ha. rewrite Hout2 by lia. by apply Hdata.
Qed.
End BlkLaws.

(** A file in memory. *)
Record ram_file := RamFile { ram_bytes : memory; ram_offset : Z }.

#[export] Instance ram_posix : PosixFile ram_file := {|
  posix_read n f := (n, bytes_at (ram_offset f) (Z.to_nat n) (ram_bytes f), RamFile (ram_bytes f) (ram_offset f + n));
  posix_write buf f := (Z.of_nat (length buf),
    RamFile (store_at (ram_offset f) buf (ram_bytes f)) (ram_offset f + Z.of_nat (length buf)));
  posix_lseek off f := (off, RamFile (ram_bytes f) off);
  posix_errno f := 0;
|}.

#[export] Instance ram_laws : PosixLaws ram_file.
Proof.
  refine {| file_offset := ram_offset; file_byte f := byte_at (ram_bytes f) |}; simpl; intros; simplify_eq/=.
  - split; [lia|]. by split.
  - split; [lia|]. split; [lia|]. intros _. split; [done|]. intros a. apply store_at_byte.
  - by split.
Qed.

Definition race_data1 : list Z := [1; 1; 1; 1].
Definition race_data2 : list Z := [2; 2; 2; 2].
Definition race_file : ram_file := RamFile ∅ 0.

Lemma shared_offset_race_witness :
  let f2 := snd (BlkServer.Seek 4096 (snd (BlkServer.Seek 0 race_file))) in
  exists f3 f4, WriteFull 4096 race_data1 f2 = Ok (Value tt, f3) /\ WriteFull 4096 race_data2 f3 = Ok (Value tt, f4) /\
    map (file_byte f4) (zrange 0 (length race_data1)) = map (file_byte race_file) (zrange 0 (length race_data1)) /\
    map (file_byte f4) (zrange 4096 (length race_data1)) = race_data1.
Proof.
  eexists _, _. split; [reflexivity|]. split; [reflexivity|].
  eapply (shared_offset_race 4096 ltac:(done) 0 4096 race_data1 race_data2 race_file);
    [lia|lia|vm_compute; discriminate|vm_compute; discriminate|vm_compute; discriminate|reflexivity..].
Defined.

(** ** Reads return what was written *)

Section Serving.
Context {B : Type} `{!DiskServerOps B, !DiskServerLaws B}.

(** A message to the server: the time of the mode check, where and when it
    runs. *)
Record arrival := Arrival { at_time : Z; at_clock : clock; arrived : message }.

Definition serve (s : StorageServer.t B) (e : arrival) : outcome (StorageServer.t B) :=
  r ← DiskConnHandler.HandleMsg (at_time e) (at_clock e) (arrived e) s; Ok (snd r).

Definition valid_lba (lba : Z) : Prop := 0 <= lba < 2 ^ 51.

Definition discarded (msg : DiscardBlocksMsg.t) : list ServerBlockAddr :=
  take (Z.to_nat (DiscardBlocksMsg.num_blocks msg)) (DiscardBlocksMsg.blocks msg).

(** A message that neither writes nor discards a block. *)
Definition spares (lba : Z) (m : message) : Prop :=
  match m with
  | MStorageOp msg payload =>
      one_sector OpType.kRead msg /\ payload = [] \/
      one_sector OpType.kWrite msg /\ valid_lba (lba_of msg) /\ Z.of_nat (length payload) = kDeviceAlignment /\ lba_of msg <> lba
  | MDiscardBlocks msg => Forall valid_lba (discarded msg) /\ lba ∉ discarded msg
  | _ => True
  end.

Lemma response_size_read msg : one_sector OpType.kRead msg -> StorageServer.GetMsgResponseSize msg = kDeviceAlignment.
Proof. intros [Hop Hn]. unfold StorageServer.GetMsgResponseSize. by rewrite Hop, Hn. Qed.

Lemma response_size_write msg : one_sector OpType.kWrite msg -> StorageServer.GetMsgResponseSize msg = 0.
Proof. intros [Hop Hn]. unfold StorageServer.GetMsgResponseSize. by rewrite Hop. Qed.

Lemma HandleRejection_backend cpu op (s s' : StorageServer.t B) :
  StorageServer.HandleRejection cpu op s = Ok s' -> StorageServer.backend s' = StorageServer.backend s.
Proof. destruct op; simpl; intros; by simplify_outcome. Qed.

(** A request is rejected without reaching the disk, fails, or is executed. *)
Lemma storage_op_cases now c msg payload (s s' : StorageServer.t B) r :
  DiskConnHandler.DiskConnHandler_HandleStorageOp now c msg payload s = Ok (r, s') ->
  (exists rep, r = Value (rep, []) /\ StorageOpReplyMsg.code rep = StorageOpReplyCode.kRejectModeMismatch /\
     IODesc.get_op (StorageOpMsg.iod msg) = OpType.kWrite /\ StorageServer.backend s' = StorageServer.backend s) \/
  (exists x data, HandleStorageOp c msg payload (StorageServer.GetMsgResponseSize msg) s = Ok (x, data, s') /\
     forall rep pl, r = Value (rep, pl) -> pl = data /\ x = Value (StorageOpReplyMsg.res rep) /\
       StorageOpReplyMsg.iod rep = StorageOpMsg.iod msg /\ StorageOpReplyMsg.req_id rep = StorageOpMsg.req_id msg).
Proof.
  unfold DiskConnHandler.DiskConnHandler_HandleStorageOp. destruct (_ && _ && _) eqn:Hrej.
  - intros H. unfold DiskConnHandler.RejectStorageOp in H. simplify_outcome. left. eexists. split; [done|]. split; [done|].
    apply andb_true_iff in Hrej as [[_ Hop%bool_decide_eq_true]%andb_true_iff _]. split; [done|]. by eapply HandleRejection_backend.
  - intros H. right. simplify_outcome. destruct_pairs. destruct (_ : Status Z) as [res|e]; simplify_outcome; eexists _, _; split; try done; naive_solver.
Qed.

Lemma read_not_rejected now c rd payload (s s' : StorageServer.t B) rep pl :
  one_sector OpType.kRead rd ->
  DiskConnHandler.HandleMsg now c (MStorageOp rd payload) s = Ok (Some (MStorageOpReply rep pl), s') ->
  StorageOpReplyMsg.code rep <> StorageOpReplyCode.kRejectModeMismatch.
Proof.
  intros [Hop _] H. cbn [DiskConnHandler.HandleMsg] in H. unfold DiskConnHandler.DiskConnHandler_HandleStorageOp in H.
  rewrite Hop, bool_decide_eq_false_2, andb_false_r in H by done. simpl in H. simplify_outcome. destruct_pairs.
  destruct (_ : Status Z); simplify_outcome. by destruct (StorageServer.IsCongested _).
Qed.

Lemma serve_keeps lba s e s' :
  valid_lba lba -> spares lba (arrived e) -> serve s e = Ok s' ->
  block_of (StorageServer.backend s') lba = block_of (StorageServer.backend s) lba.
Proof.
  intros Hl Hsp H. unfold serve in H. destruct e as [now c m]. cbn [at_time at_clock arrived] in *. simplify_outcome.
  destruct m; cbn [DiskConnHandler.HandleMsg] in *; simplify_outcome; try done; destruct_pairs; cbn [fst snd] in *.
  - match goal with H : DiskConnHandler.DiskConnHandler_HandleStorageOp _ _ _ _ _ = _ |- _ =>
      apply storage_op_cases in H as [(rep & _ & _ & _ & ->)|(x & data & H & _)]; [done|] end.
    destruct Hsp as [[Hop ->]|(Hop & Hv & Hp & Hne)].
    + rewrite response_size_read in * by done. by eapply read_keeps.
    + rewrite response_size_write in * by done. by eapply write_keeps.
  - destruct Hsp as [Hv Hnin]. unfold DiskConnHandler.DiskConnHandler_HandleDiscardBlocks in *. simplify_outcome. destruct_pairs.
    by eapply discard_keeps.
Qed.

Lemma serve_all_keeps lba es s s' :
  valid_lba lba -> Forall (fun e => spares lba (arrived e)) es -> ofold serve s es = Ok s' ->
  block_of (StorageServer.backend s') lba = block_of (StorageServer.backend s) lba.
Proof.
  intros Hl Hes. revert s. induction Hes as [|e es He Hes IH]; intros s H; simpl in H; simplify_outcome; [done|].
  rewrite (IH _ H). by eapply serve_keeps.
Qed.

(** The answer to a storage request that was not rejected. *)
Lemma answered now c msg payload s s' rep pl :
  DiskConnHandler.HandleMsg now c (MStorageOp msg payload) s = Ok (Some (MStorageOpReply rep pl), s') ->
  StorageOpReplyMsg.code rep <> StorageOpReplyCode.kRejectModeMismatch ->
  HandleStorageOp c msg payload (StorageServer.GetMsgResponseSize msg) s = Ok (Value (StorageOpReplyMsg.res rep), pl, s') /\
  StorageOpReplyMsg.iod rep = StorageOpMsg.iod msg /\ StorageOpReplyMsg.req_id rep = StorageOpMsg.req_id msg.
Proof.
  intros H Hcode. cbn [DiskConnHandler.HandleMsg] in H. simplify_outcome. destruct_pairs. cbn [fst snd] in *.
  match goal with H : context [match ?r with Value _ => _ | MakeError _ => _ end] |- _ => destruct r as [[rep' pl']|]; simplify_eq end.
  match goal with H : DiskConnHandler.DiskConnHandler_HandleStorageOp _ _ _ _ _ = _ |- _ =>
    apply storage_op_cases in H as [(? & ? & ? & _)|(x & data & H & Hrep)]; [by simplify_eq|] end.
  destruct (Hrep _ _ eq_refl) as (-> & -> & ? & ?). done.
Qed.

End Serving.

(** A flash device in memory, and requests for its blocks 3 and 4. *)
Record ram_flash := RamFlash { flash_blocks : gmap Z (list Z) }.
Definition zero_block : list Z := replicate 4096 0.

#[export] Instance ram_flash_device : FlashDevice ram_flash := {|
  storage_read lba n d := (0, default zero_block (flash_blocks d !! lba), d);
  storage_write src lba n d := (0, RamFlash (<[lba := src]> (flash_blocks d)));
  storage_deallocate lba n d := (0, RamFlash (delete lba (flash_blocks d)));
  storage_block_size := 4096;
  storage_num_blocks := 1024;
|}.

#[export] Instance ram_flash_laws : FlashLaws ram_flash.
Proof.
  refine {| flash_block d lba := default zero_block (flash_blocks d !! lba) |}; simpl; [done|..]; intros; simplify_eq/=.
  - done.
  - split; [by rewrite lookup_insert_eq|]. intros b Hb. by rewrite lookup_insert_ne.
  - by rewrite lookup_delete_ne.
Qed.

Definition sample_server : StorageServer.t ram_flash :=
  StorageServer.mk "disk" 1 (DiskMonitor.init 1) (RamFlash ∅).
Definition sample_request (op lba : Z) : StorageOpMsg.t := StorageOpMsg.mk (IODesc.mk op 1 lba 0 0 0) (100 + lba) 1.
Definition sample_clock : clock := Clock 0 5 9.
Definition sample_data (b : Z) : list Z := replicate 4096 b.
Definition sample_write (lba : Z) : message := MStorageOp (sample_request 1 lba) (sample_data lba).

Definition sample_reply (op lba res : Z) : StorageOpReplyMsg.t :=
  StorageOpReplyMsg.mk (IODesc.mk op 1 lba 0 0 0) (100 + lba) StorageOpReplyCode.kSuccess res.
Definition state_after {A S} (s : S) (r : outcome (A * S)) : S := match r with Ok (_, s') => s' | Fault _ => s end.

Definition sample_written : StorageServer.t ram_flash :=
  state_after sample_server (DiskConnHandler.HandleMsg 0 sample_clock (sample_write 3) sample_server).
Definition sample_other : StorageServer.t ram_flash :=
  state_after sample_server (DiskConnHandler.HandleMsg 0 sample_clock (sample_write 4) sample_written).
Definition sample_read : StorageServer.t ram_flash :=
  state_after sample_server (DiskConnHandler.HandleMsg 0 sample_clock (MStorageOp (sample_request 0 3) []) sample_other).

Lemma state_after_eq {A S} (s : S) (r : outcome (A * S)) a :
  match r with Ok (a, _) => Some a | Fault _ => None end = Some a -> r = Ok (a, state_after s r).
Proof. destruct r as [[]|]; naive_solver. Qed.

Lemma served {B} `{!DiskServerOps B} (s0 s : StorageServer.t B) e a :
  match DiskConnHandler.HandleMsg (at_time e) (at_clock e) (arrived e) s with Ok (a, _) => Some a | Fault _ => None end = Some a ->
  ofold serve s [e] = Ok (state_after s0 (DiskConnHandler.HandleMsg (at_time e) (at_clock e) (arrived e) s)).
Proof. intros H. simpl. unfold serve. destruct (DiskConnHandler.HandleMsg _ _ _ _) as [[]|]; naive_solver. Qed.

