(* ===== verification/ControlScheduler.v ===== *)
(** * The control-plane scheduler

    [src/sandook/scheduler/control_plane/scheduler.h], [base_scheduler.h] and
    [no_op.h]: the policy chosen by the configuration behind one interface, and
    the periodic [Update] that copies the modes and weights it computes into the
    statistics table. The interface is the class [BaseScheduler]; what [Update]
    needs of a policy is [BaseSchedulerLaws], which every policy of the program
    satisfies. *)

From Stdlib Require Import String.
From S2P Require Import Prelude Float64 FloatInt BaseTypes Telemetry ControlStats DiskModels RwIsolation ProfileGuidedPolicy Configuration.

Local Open Scope Z_scope.

(** What one call sees of the world outside: the content of uninitialised local
    arrays, the successive readings of the clock, and the model files. *)
Record Env := mkEnv {
  junk_modes : ServerModes;
  junk_weights : ServerWeights;
  clock : nat -> Z;
  LoadModel : string -> option (list Z * list Z);
}.

Class BaseScheduler (S : Type) := {
  AddServer : Env -> ServerID -> string -> option DiskModel.t -> S -> outcome (Status unit * S);
  ComputeModes : Env -> ServerStatsList -> SystemLoad -> S -> outcome (Status ServerModes * S);
  ComputeWeights : Env -> ServerStatsList -> OpType.t -> SystemLoad -> S -> outcome (Status ServerWeights);
  GetDiskPeakIOPS : ServerID -> S -> Status DiskPeakIOPS;
}.

Definition env_ok (env : Env) : Prop :=
  length (junk_modes env) = Z.to_nat kNumMaxServers /\
  length (junk_weights env) = Z.to_nat kNumMaxServers.

(** The arrays a policy returns have one entry per possible server. *)
Class BaseSchedulerLaws (S : Type) `{!BaseScheduler S} : Prop := {
  ComputeModes_length env stats load s m s' :
    env_ok env -> ComputeModes env stats load s = Ok (Value m, s') ->
    length m = Z.to_nat kNumMaxServers;
  ComputeWeights_length env stats op load s w :
    env_ok env -> ComputeWeights env stats op load s = Ok (Value w) ->
    length w = Z.to_nat kNumMaxServers;
}.

(** ** The policies *)

Inductive policy :=
| NoOp
| PolicyProfileGuided (s : ProfileGuided.t)
| PolicyRWIsolationStrict (s : RWIsolationBase.t)
| PolicyRWIsolationWeak (s : RWIsolationBase.t)
| PolicyAdaptiveRWIsolationWeak (s : AdaptiveRWIsolation.t)
| PolicyProfileGuidedRWIsolation (s : ProfileGuidedRWIsolation.t).

(** A method run on the state a constructor wraps. *)
Definition on_state {S A} (wrap_ : S -> policy) (r : outcome (A * S)) : outcome (A * policy) :=
  x ← r; Ok (fst x, wrap_ (snd x)).

Definition policy_AddServer (env : Env) (server_id : ServerID) (name : string)
    (model : option DiskModel.t) (p : policy) : outcome (Status unit * policy) :=
  match p with
  | NoOp => Ok (Value tt, NoOp)
  | PolicyProfileGuided s =>
      on_state PolicyProfileGuided (ProfileGuided.AddServer (LoadModel env) server_id name model s)
  | PolicyRWIsolationStrict s => on_state PolicyRWIsolationStrict (Ok (RWIsolationBase.AddServer s))
  | PolicyRWIsolationWeak s => on_state PolicyRWIsolationWeak (Ok (RWIsolationBase.AddServer s))
  | PolicyAdaptiveRWIsolationWeak s =>
      on_state PolicyAdaptiveRWIsolationWeak
        (AdaptiveRWIsolation.AddServer (LoadModel env) server_id name model s)
  | PolicyProfileGuidedRWIsolation s =>
      on_state PolicyProfileGuidedRWIsolation
        (ProfileGuidedRWIsolation.AddServer (LoadModel env) server_id name model s)
  end.

Definition policy_ComputeModes (env : Env) (stats : ServerStatsList) (load : SystemLoad) (p : policy)
    : outcome (Status ServerModes * policy) :=
  let base s := RWIsolationBase.ComputeModes RWIsolationBase.GetPeakIOPS
                  (junk_modes env) (clock env 0) (clock env 1) (clock env 2) stats load s in
  match p with
  | NoOp => Ok (MakeError ENOTSUP, NoOp)
  | PolicyProfileGuided s => Ok (MakeError ENOTSUP, PolicyProfileGuided s)
  | PolicyRWIsolationStrict s => on_state PolicyRWIsolationStrict (base s)
  | PolicyRWIsolationWeak s => on_state PolicyRWIsolationWeak (base s)
  | PolicyAdaptiveRWIsolationWeak s =>
      on_state PolicyAdaptiveRWIsolationWeak
        (AdaptiveRWIsolation.ComputeModes (junk_modes env) (clock env 0) (clock env 1) (clock env 2) stats load s)
  | PolicyProfileGuidedRWIsolation s =>
      on_state PolicyProfileGuidedRWIsolation
        (ProfileGuidedRWIsolation.ComputeModes (junk_modes env) (clock env 0) (clock env 1) (clock env 2) stats load s)
  end.

Definition policy_ComputeWeights (env : Env) (stats : ServerStatsList) (op : OpType.t)
    (load : SystemLoad) (p : policy) : outcome (Status ServerWeights) :=
  match p with
  | NoOp => Ok (MakeError ENOTSUP)
  | PolicyProfileGuided s => ProfileGuided.ComputeWeights stats op load s
  | PolicyRWIsolationStrict _ => RWIsolationStrict.ComputeWeights (junk_weights env) stats op
  | PolicyRWIsolationWeak _ => RWIsolationWeak.ComputeWeights (junk_weights env) stats op
  | PolicyAdaptiveRWIsolationWeak _ => AdaptiveRWIsolation.ComputeWeights (junk_weights env) stats op
  | PolicyProfileGuidedRWIsolation s => ProfileGuidedRWIsolation.ComputeWeights stats op load s
  end.

Definition policy_GetDiskPeakIOPS (server_id : ServerID) (p : policy) : Status DiskPeakIOPS :=
  match p with
  | PolicyProfileGuidedRWIsolation s => ProfileGuidedRWIsolation.GetDiskPeakIOPS server_id s
  | _ => MakeError ENOTSUP
  end.

#[global] Instance policy_scheduler : BaseScheduler policy := {|
  AddServer := policy_AddServer;
  ComputeModes := policy_ComputeModes;
  ComputeWeights := policy_ComputeWeights;
  GetDiskPeakIOPS := policy_GetDiskPeakIOPS;
|}.

(** The constructor's choice of a policy. *)
Definition make_policy (sched_type : Config.ControlPlaneSchedulerType) (time : Z) : policy :=
  match sched_type with
  | Config.kNoOp => NoOp
  | Config.kProfileGuided => PolicyProfileGuided ProfileGuided.init
  | Config.kRWIsolationStrict => PolicyRWIsolationStrict (RWIsolationBase.init time)
  | Config.kRWIsolationWeak => PolicyRWIsolationWeak (RWIsolationBase.init time)
  | Config.kAdaptiveRWIsolationWeak => PolicyAdaptiveRWIsolationWeak (AdaptiveRWIsolation.init time)
  | Config.kProfileGuidedRWIsolation =>
      PolicyProfileGuidedRWIsolation (ProfileGuidedRWIsolation.init time)
  end.

(** ** The scheduler *)

Module Scheduler.
Section Scheduler.
Context {S : Type} `{!BaseScheduler S}.

Record t := mk {
  num_servers_ : Z;
  stats_mgr_ : ServerStatsManager.t;
  sched_ : S;
  telemetry_map_ : list (option (TelemetryStream.t (T := DiskServerTelemetry.t)));
  stop_ : bool;
  freeze_weights_ : bool;
  freeze_modes_ : bool;
}.
#[global] Instance settable : Settable t :=
  settable! mk <num_servers_; stats_mgr_; sched_; telemetry_map_; stop_; freeze_weights_; freeze_modes_>.

Definition init (sched : S) : t :=
  mk 0 ServerStatsManager.init sched (replicate (Z.to_nat kNumMaxServers) None) false false false.

Definition AddServer (env : Env) (server_id : ServerID) (name : string) (model : option DiskModel.t)
    (s : t) : outcome (Status unit * t) :=
  r ← ControlScheduler.AddServer env server_id name model (sched_ s);
  let s1 := s <| sched_ := snd r |> in
  match fst r with
  | MakeError e => Ok (MakeError e, s1)
  | Value _ =>
      mgr ← ServerStatsManager.AddServer server_id (stats_mgr_ s1);
      tel ← at_put (telemetry_map_ s1) server_id (Some TelemetryStream.init);
      Ok (Value tt, s1 <| stats_mgr_ := mgr |> <| telemetry_map_ := tel |>
                       <| num_servers_ := u64 (num_servers_ s1 + 1) |>)
  end.

Definition GetDiskPeakIOPS (server_id : ServerID) (s : t) : Status DiskPeakIOPS :=
  ControlScheduler.GetDiskPeakIOPS server_id (sched_ s).

Definition GetServerStats (s : t) : outcome (Status ServerStatsList) :=
  l ← ServerStatsManager.GetServerStatsList (stats_mgr_ s); Ok (Value l).

Definition GetSystemLoad (s : t) : Status SystemLoad :=
  Value (ServerStatsManager.GetSystemLoad (stats_mgr_ s)).

Definition GetDataPlaneServerStats (server_id : ServerID) (s : t) : outcome (Status DataPlaneServerStats) :=
  d ← ServerStatsManager.GetDataPlaneServerStats server_id (stats_mgr_ s); Ok (Value d).

Definition UpdateServerStats (time : Z) (server_id : ServerID) (stats : ServerStats.t)
    (is_override is_update_system_load : bool) (s : t) : outcome (Status unit * t) :=
  mgr ← ServerStatsManager.UpdateServerStats server_id stats is_override is_update_system_load (stats_mgr_ s);
  p ← at_ (telemetry_map_ s) server_id;
  stream ← deref p;
  stream' ← TelemetryStream.TraceBuffered (DiskServerTelemetry.mk time stats) stream;
  tel ← at_put (telemetry_map_ s) server_id (Some stream');
  Ok (Value tt, s <| stats_mgr_ := mgr |> <| telemetry_map_ := tel |>).

Definition CommitServerMode (server_id : ServerID) (mode : ServerMode.t) (s : t)
    : outcome (Status unit * t) :=
  mgr ← ServerStatsManager.CommitServerMode server_id mode (stats_mgr_ s);
  Ok (Value tt, s <| stats_mgr_ := mgr |>).

Definition Stop (s : t) : t :=
  s <| stats_mgr_ ::= ServerStatsManager.Stop |> <| stop_ := true |>.
Definition FreezeWeights (s : t) : t := s <| freeze_weights_ := true |>.
Definition FreezeModes (s : t) : t := s <| freeze_modes_ := true |>.
Definition FreezeLoad (s : t) : t := s <| stats_mgr_ ::= ServerStatsManager.FreezeLoad |>.

(** The first loop of [Update]: the new modes, for the weight computation. *)
Definition with_modes (modes : ServerModes) (stats : ServerStatsList) : outcome ServerStatsList :=
  ofold (fun acc st =>
    m ← at_ modes (ServerStats.server_id st);
    Ok (acc ++ [st <| ServerStats.mode := m |>])) [] stats.

(** An optional array's entry for a server, the old value without the array. *)
Definition pick {A} (arr : Status (list A)) (server_id : ServerID) (old : A) : outcome A :=
  match arr with Value l => at_ l server_id | MakeError _ => Ok old end.

(** One turn of the second loop. *)
Definition apply_one (modes : Status ServerModes) (r_weights w_weights : Status ServerWeights)
    (mgr : ServerStatsManager.t) (i : Z) : outcome ServerStatsManager.t :=
  let server_id := i + kInvalidServerID + 1 in
  srv_stats ← ServerStatsManager.GetServerStats server_id mgr;
  rw ← pick r_weights server_id (ServerStats.read_weight srv_stats);
  ww ← pick w_weights server_id (ServerStats.write_weight srv_stats);
  m ← pick modes server_id (ServerStats.mode srv_stats);
  let srv_stats' := srv_stats <| ServerStats.read_weight := rw |>
                              <| ServerStats.write_weight := ww |> <| ServerStats.mode := m |> in
  if has_value r_weights || has_value w_weights || has_value modes then
    ServerStatsManager.UpdateServerStats server_id srv_stats' true false mgr
  else Ok mgr.

(** [env_m], [env_r] and [env_w] are what the three calls of the policy see. *)
Definition Update (env_m env_r env_w : Env) (s : t) : outcome t :=
  stats_ret ← GetServerStats s;
  match stats_ret, GetSystemLoad s with
  | MakeError _, _ | _, MakeError _ => Ok s
  | Value stats, Value load =>
      rm ← (if freeze_modes_ s then Ok (MakeError EINVAL, sched_ s)
            else ComputeModes env_m stats load (sched_ s));
      let '(modes, sched) := rm in
      stats' ← match modes with Value m => with_modes m stats | MakeError _ => Ok stats end;
      r_weights ← (if freeze_weights_ s then Ok (MakeError EINVAL)
                   else ComputeWeights env_r stats' OpType.kRead load sched);
      w_weights ← (if freeze_weights_ s then Ok (MakeError EINVAL)
                   else ComputeWeights env_w stats' OpType.kWrite load sched);
      mgr ← ofold (apply_one modes r_weights w_weights) (stats_mgr_ s)
              (zrange 0 (Z.to_nat (num_servers_ s)));
      Ok (s <| sched_ := sched |> <| stats_mgr_ := mgr |>)
  end.

End Scheduler.
Arguments t S : clear implicits.
End Scheduler.

(** ** The policies keep the interface's laws *)

Lemma assign_length n mode l st st' :
  ofold (RWIsolationBase.assign n mode) st l = Ok st' -> length (fst st') = length (fst st).
Proof.
  apply (ofold_ind (fun _ x => length (fst x) = length (fst st))); [done|].
  intros d a r [m i] [m' i'] _ Hm H. unfold RWIsolationBase.assign in H. simplify_outcome.
  by rewrite (at_put_length _ _ _ _ Hrun).
Qed.

Lemma base_modes_length G junk t0 t1 t2 stats load s m s' :
  RWIsolationBase.ComputeModes G junk t0 t1 t2 stats load s = Ok (Value m, s') ->
  length m = length junk.
Proof.
  unfold RWIsolationBase.ComputeModes. destruct (_ <=? kNumReplicas).
  { intros. simplify_outcome. apply length_map. }
  intros H. simplify_outcome. destruct v as [[traffic nr] nw].
  destruct (negb traffic); [done|]. destruct (_ && _); [simplify_outcome; apply length_map|].
  destruct (negb _ && negb _); [done|]. simplify_outcome.
  apply assign_length in Hrun0, Hrun1. simpl in *. congruence.
Qed.

Lemma put_weights_length valid x stats w w' : put_weights valid x stats w = Ok w' -> length w' = length w.
Proof. intros H. by apply ProfileGuided.put_weights_same_outside in H as [? _]. Qed.

Lemma pg_weights_length stats op load s w :
  ProfileGuided.ComputeWeights stats op load s = Ok (Value w) -> length w = Z.to_nat kNumMaxServers.
Proof. by intros [-> _]%ProfileGuided.ComputeWeights_same_outside. Qed.

Lemma on_state_Ok {S A} (f : S -> policy) (r : outcome (A * S)) a p :
  on_state f r = Ok (a, p) -> exists s, r = Ok (a, s) /\ p = f s.
Proof. unfold on_state. intros H. simplify_outcome. destruct v. eauto. Qed.

#[global] Instance policy_laws : BaseSchedulerLaws policy.
Proof.
  split.
  - intros env stats load p m p' [Hm _] H. destruct p as [|s|s|s|s|s]; simpl in H; try done;
      apply on_state_Ok in H as (s' & H & _);
      repeat match goal with
      | H : ProfileGuidedRWIsolation.ComputeModes _ _ _ _ _ _ _ = _ |- _ =>
          unfold ProfileGuidedRWIsolation.ComputeModes in H; simplify_outcome
      | H : AdaptiveRWIsolation.ComputeModes _ _ _ _ _ _ _ = Ok ?v |- _ =>
          unfold AdaptiveRWIsolation.ComputeModes in H; simplify_outcome
      | H : RWIsolationBase.ComputeModes _ _ _ _ _ _ _ _ = Ok ?v |- _ =>
          is_var v; destruct v; simplify_eq/=
      end; rewrite <- Hm; by eapply base_modes_length.
  - intros env stats op load p w [_ Hw] H. destruct p as [|s|s|s|s|s]; simpl in H; try done;
      [by eapply pg_weights_length| | | |].
    + unfold RWIsolationStrict.ComputeWeights in H. simplify_outcome. rewrite <- Hw. by eapply put_weights_length.
    + destruct op; try done; simpl in H; unfold RWIsolationWeak.ComputeReadWeights, RWIsolationWeak.ComputeWriteWeights in H;
        simplify_outcome; rewrite <- Hw; by eapply put_weights_length.
    + destruct op; try done; simpl in H; unfold AdaptiveRWIsolation.ComputeReadWeights, AdaptiveRWIsolation.ComputeWriteWeights in H;
        simplify_outcome; rewrite <- Hw; by eapply put_weights_length.
    + destruct op; try done; simpl in H; unfold ProfileGuidedRWIsolation.ComputeReadWeights, ProfileGuidedRWIsolation.ComputeWriteWeights in H;
        by eapply pg_weights_length.
Qed.

(** ** Update *)

Module SchedulerUpdate.
Section Update.
Context {S : Type} `{!BaseScheduler S} `{!BaseSchedulerLaws S}.

Definition wf (n : nat) (s : Scheduler.t S) : Prop :=
  Scheduler.num_servers_ s = Z.of_nat n /\ ServerStatsManager.wf n (Scheduler.stats_mgr_ s).

(** The entry of a computed array, and the old value when there is none. *)
Definition chosen {A} (arr : Status (list A)) (server_id : ServerID) (old : A) : A :=
  match arr with Value l => default old (l !! Z.to_nat server_id) | MakeError _ => old end.

Definition covers {A} (arr : Status (list A)) : Prop :=
  match arr with Value l => length l = Z.to_nat kNumMaxServers | MakeError _ => True end.

(** What [Update] makes of a server's entry. *)
Definition decided (modes : Status ServerModes) (rw ww : Status ServerWeights) (st : ServerStats.t)
    : ServerStats.t :=
  let id := ServerStats.server_id st in
  st <| ServerStats.read_weight := chosen rw id (ServerStats.read_weight st) |>
     <| ServerStats.write_weight := chosen ww id (ServerStats.write_weight st) |>
     <| ServerStats.mode := chosen modes id (ServerStats.mode st) |>.

Lemma pick_chosen {A} (arr : Status (list A)) i old :
  covers arr -> 0 <= i < kNumMaxServers -> Scheduler.pick arr i old = Ok (chosen arr i old).
Proof.
  unfold kNumMaxServers. intros Hc Hi. destruct arr as [l|e]; [|done]. simpl in *.
  unfold kNumMaxServers in Hc. destruct (lookup_lt_is_Some_2 l (Z.to_nat i)) as [x Hx]; [lia|].
  apply at_Ok. rewrite Hx. split; [lia|done].
Qed.

Lemma decided_nothing modes rw ww st :
  has_value rw || has_value ww || has_value modes = false -> decided modes rw ww st = st.
Proof. destruct rw, ww, modes; try done. by destruct st. Qed.

Lemma apply_one_spec n modes rw ww mgr i :
  ServerStatsManager.wf n mgr -> covers modes -> covers rw -> covers ww -> 0 <= i < Z.of_nat n ->
  exists mgr' st, Scheduler.apply_one modes rw ww mgr i = Ok mgr' /\ ServerStatsManager.wf n mgr' /\
    ServerStatsManager.GetServerStats (i + 1) mgr = Ok st /\
    ServerStatsManager.GetServerStats (i + 1) mgr' = Ok (decided modes rw ww st) /\
    (forall j, j <> i + 1 -> ServerStatsManager.GetServerStats j mgr' = ServerStatsManager.GetServerStats j mgr) /\
    ServerStatsManager.GetSystemLoad mgr' = ServerStatsManager.GetSystemLoad mgr.
Proof.
  intros Hwf Hm Hr Hw Hi. destruct (ServerStatsManager.wf_lookup n mgr (i + 1) Hwf) as (st & Hst & Hid & _); [lia|].
  unfold Scheduler.apply_one, kInvalidServerID. rewrite Z.add_0_r, Hst. simpl.
  assert (Z.of_nat n < kNumMaxServers) as Hn by apply Hwf.
  rewrite !pick_chosen by (done || lia). simpl.
  destruct (has_value rw || has_value ww || has_value modes) eqn:E.
  - destruct (ServerStatsManager.UpdateServerStats_spec n mgr (i + 1) st (decided modes rw ww st) true false)
      as (mgr' & Hrun & Hwf' & Hget & Hne & Hload); [done|lia|by simpl|done|].
    exists mgr', st. rewrite <- Hid in Hrun, Hget, Hst |- *. split_and!; try done.
    intros j Hj. apply Hne. congruence.
  - exists mgr, st. rewrite decided_nothing by done. done.
Qed.

Lemma apply_all_spec n modes rw ww mgr :
  ServerStatsManager.wf n mgr -> covers modes -> covers rw -> covers ww ->
  exists mgr', ofold (Scheduler.apply_one modes rw ww) mgr (zrange 0 n) = Ok mgr' /\
    ServerStatsManager.wf n mgr' /\
    ServerStatsManager.GetSystemLoad mgr' = ServerStatsManager.GetSystemLoad mgr /\
    forall i st, 1 <= i <= Z.of_nat n -> ServerStatsManager.GetServerStats i mgr = Ok st ->
      ServerStatsManager.GetServerStats i mgr' = Ok (decided modes rw ww st).
Proof.
  intros Hwf Hm Hr Hw.
  destruct (ofold_total (fun d m => ServerStatsManager.wf n m /\
      ServerStatsManager.GetSystemLoad m = ServerStatsManager.GetSystemLoad mgr /\
      forall i st, 1 <= i <= Z.of_nat n -> ServerStatsManager.GetServerStats i mgr = Ok st ->
        ServerStatsManager.GetServerStats i m = Ok (if decide (i - 1 ∈ d) then decided modes rw ww st else st))
    (Scheduler.apply_one modes rw ww) (zrange 0 n) mgr) as (mgr' & Hrun & Hwf' & Hl & Hall).
  { split_and!; [done|done|]. intros i st _ Hst. by rewrite decide_False by set_solver. }
  { intros d i rest m Heq (Hwfm & Hlm & Hall).
    assert (i ∈ zrange 0 n /\ i ∉ d) as [Hin Hnew].
    { rewrite Heq. split; [set_solver|]. pose proof (zrange_NoDup 0 n) as Hnd. rewrite Heq in Hnd.
      apply NoDup_app in Hnd as (_ & Hdis & _). intros Hd. apply (Hdis i Hd). by left. }
    apply elem_of_zrange in Hin.
    destruct (apply_one_spec n modes rw ww m i) as (m' & st & Hrun & Hwf' & Hst & Hget & Hne & Hl'); [done..|lia|].
    exists m'. split; [done|]. split_and!; [done|congruence|]. intros j st0 Hj Hst0.
    destruct (decide (j = i + 1)) as [->|Hji].
    - rewrite decide_True by (replace (i + 1 - 1) with i by lia; set_solver).
      specialize (Hall _ _ Hj Hst0). rewrite decide_False in Hall by (by replace (i + 1 - 1) with i by lia).
      rewrite Hall in Hst. simplify_outcome. done.
    - rewrite Hne by done. rewrite (Hall _ _ Hj Hst0). f_equal.
      destruct (decide (j - 1 ∈ d)), (decide (j - 1 ∈ d ++ [i])) as [Hd|Hd]; try done; exfalso; [set_solver|].
      apply elem_of_app in Hd as [|Hd%list_elem_of_singleton]; [done|lia]. }
  exists mgr'. split_and!; [done|done|done|]. intros i st Hi Hst.
  rewrite (Hall _ _ Hi Hst), decide_True; [done|]. apply elem_of_zrange. lia.
Qed.

Lemma with_modes_loop m stats acc :
  Forall (fun st => 0 <= ServerStats.server_id st < Z.of_nat (length m)) stats ->
  ofold (fun acc st =>
    m ← at_ m (ServerStats.server_id st);
    Ok (acc ++ [st <| ServerStats.mode := m |>])) acc stats =
  Ok (acc ++ ((fun st => st <| ServerStats.mode :=
    chosen (Value m) (ServerStats.server_id st) (ServerStats.mode st) |>) <$> stats)).
Proof.
  intros Hr. revert acc. induction Hr as [|st stats Hst _ IH]; intros acc; [by rewrite app_nil_r|].
  destruct (lookup_lt_is_Some_2 m (Z.to_nat (ServerStats.server_id st))) as [x Hx]; [lia|].
  rewrite fmap_cons. cbn [ofold]. rewrite (proj2 (at_Ok m _ x)) by (split; [lia|done]).
  cbn [mbind outcome_bind]. rewrite IH, <- app_assoc. simpl. by rewrite Hx.
Qed.

Lemma with_modes_spec m stats :
  length m = Z.to_nat kNumMaxServers -> ids_ok stats ->
  Scheduler.with_modes m stats =
    Ok ((fun st => st <| ServerStats.mode := chosen (Value m) (ServerStats.server_id st) (ServerStats.mode st) |>) <$> stats).
Proof.
  intros Hm Hids. apply (with_modes_loop m stats []).
  destruct (ids_ok_put stats (replicate (Z.to_nat kNumMaxServers) (of_int 0)) Hids) as [_ Hr];
    [by rewrite length_replicate|]. by rewrite length_replicate, <- Hm in Hr.
Qed.

(** The statistics the weight computations see: the new modes filled in. *)
Definition seen (modes : Status ServerModes) (stats : ServerStatsList) : ServerStatsList :=
  match modes with
  | Value m => (fun st => st <| ServerStats.mode :=
      chosen (Value m) (ServerStats.server_id st) (ServerStats.mode st) |>) <$> stats
  | MakeError _ => stats
  end.

(** C9: One round of the scheduler: the policy computes modes from the reported
    statistics and the load, then the weights of reads and of writes from the
    statistics with the new modes; every registered server's entry gets exactly
    the mode and weights computed for it, an array that was not computed leaves
    the old values, every other field of every entry and the load stay. *)
Theorem Update_applies n env_m env_r env_w (s : Scheduler.t S) stats modes sched' rw ww :
  wf n s -> env_ok env_m -> env_ok env_r -> env_ok env_w ->
  Scheduler.freeze_modes_ s = false -> Scheduler.freeze_weights_ s = false ->
  ServerStatsManager.GetServerStatsList (Scheduler.stats_mgr_ s) = Ok stats ->
  let load := ServerStatsManager.GetSystemLoad (Scheduler.stats_mgr_ s) in
  ComputeModes env_m stats load (Scheduler.sched_ s) = Ok (modes, sched') ->
  ComputeWeights env_r (seen modes stats) OpType.kRead load sched' = Ok rw ->
  ComputeWeights env_w (seen modes stats) OpType.kWrite load sched' = Ok ww ->
  exists s', Scheduler.Update env_m env_r env_w s = Ok s' /\ wf n s' /\
    Scheduler.sched_ s' = sched' /\
    ServerStatsManager.GetSystemLoad (Scheduler.stats_mgr_ s') = load /\
    forall i st, 1 <= i <= Z.of_nat n ->
      ServerStatsManager.GetServerStats i (Scheduler.stats_mgr_ s) = Ok st ->
      ServerStatsManager.GetServerStats i (Scheduler.stats_mgr_ s') = Ok (decided modes rw ww st).
Proof.
  intros [Hn Hwf] Hm Hr Hw Hfm Hfw Hstats load Hmodes Hrw Hww.
  assert (covers modes /\ covers rw /\ covers ww) as (Cm & Cr & Cw).
  { split_and!.
    - destruct modes; [|done]. eapply (ComputeModes_length env_m); eassumption.
    - destruct rw; [|done]. eapply (ComputeWeights_length env_r); eassumption.
    - destruct ww; [|done]. eapply (ComputeWeights_length env_w); eassumption. }
  assert (ids_ok stats) as Hids.
  { destruct (ServerStatsManager.GetServerStatsList_wf n _ Hwf) as (l & Hl & Hid & _).
    rewrite Hl in Hstats. simplify_outcome. exists n. split; [done|]. apply Hwf. }
  destruct (apply_all_spec n modes rw ww _ Hwf Cm Cr Cw) as (mgr' & Hrun & Hwf' & Hl' & Hall).
  exists (s <| Scheduler.sched_ := sched' |> <| Scheduler.stats_mgr_ := mgr' |>).
  split; [|by split_and!].
  unfold Scheduler.Update, Scheduler.GetServerStats. rewrite Hstats, Hfm, Hfw. simpl. fold load.
  rewrite Hmodes. simpl.
  assert (match modes with Value m => Scheduler.with_modes m stats | MakeError _ => Ok stats end
          = Ok (seen modes stats)) as ->.
  { destruct modes as [m|e]; [|done]. by apply with_modes_spec. }
  simpl. rewrite Hrw. simpl. rewrite Hww. simpl. rewrite Hn, Nat2Z.id. by rewrite Hrun.
Qed.

End Update.

(** Three servers under strict isolation, with reads and writes. *)
Definition sample_env (time : Z) : Env :=
  mkEnv RWIsolationBase.sample_junk sample_weights (fun _ => time) (fun _ => None).

Definition sample : Scheduler.t policy :=
  let add id (s : Scheduler.t policy) :=
    match Scheduler.AddServer (sample_env 0) id "d" None s with Ok r => snd r | Fault _ => s end in
  let s := add 3 (add 2 (add 1 (Scheduler.init (make_policy Config.kRWIsolationStrict 0)))) in
  s <| Scheduler.stats_mgr_ := Scheduler.stats_mgr_ s
         <| ServerStatsManager.read_ops_ := 300000 |> <| ServerStatsManager.write_ops_ := 100000 |> |>.

Lemma sample_scheduler_wf : wf 3 sample.
Proof.
  split; [done|]. split_and!; try done. intros i Hi.
  assert (i = 1 \/ i = 2 \/ i = 3) as [->|[->| ->]] by lia; by eexists.
Qed.

Definition modes_after (s : outcome (Scheduler.t policy)) : outcome (list ServerMode.t) :=
  match s with
  | Ok s' => l ← ServerStatsManager.GetServerStatsList (Scheduler.stats_mgr_ s'); Ok (map ServerStats.mode l)
  | Fault f => Fault f
  end.

Lemma Update_applies_witness :
  let env := sample_env 400000 in
  modes_after (Scheduler.Update env env env sample)
    = Ok [ServerMode.kWrite; ServerMode.kWrite; ServerMode.kRead] /\
  exists s' modes rw ww, Scheduler.Update env env env sample = Ok s' /\ wf 3 s' /\
    forall i st, 1 <= i <= 3 ->
      ServerStatsManager.GetServerStats i (Scheduler.stats_mgr_ sample) = Ok st ->
      ServerStatsManager.GetServerStats i (Scheduler.stats_mgr_ s') = Ok (decided modes rw ww st).
Proof.
  intros env. split; [vm_compute; reflexivity|].
  edestruct (Update_applies 3 env env env sample) as (s' & Hrun & Hwf & _ & _ & Hall);
    [apply sample_scheduler_wf|done|done|done|done|done|vm_compute; reflexivity|vm_compute; reflexivity
    |vm_compute; reflexivity|vm_compute; reflexivity|].
  exists s'. eexists _, _, _. split; [exact Hrun|]. split; [exact Hwf|exact Hall].
Defined.

End SchedulerUpdate.
