(* ===== verification/Controller.v ===== *)
(** * The controller

    [src/sandook/controller]: [block_allocator.h] hands out blocks of a disk
    server, [server_desc.h] and [volume_desc.h] describe what has registered,
    and [controller_agent.cc] ties them to the control-plane scheduler. Blocks
    of registered servers are never handed out twice: that is the theorem at the
    end. The assertions, which a Release build leaves out, are left out. *)

From Stdlib Require Import String.
From stdpp Require Import relations.
From S2P Require Import Prelude Float64 FloatInt BaseTypes Telemetry ControlStats DiskModels RwIsolation ProfileGuidedPolicy ControlScheduler.

Local Open Scope Z_scope.

Module BlockAllocator.

(** [allocation_map] is resized and never written: its size is all there is. *)
Record ServerAllocation := mkAlloc { allocation_map_size : Z; next_allocation : Z }.
#[global] Instance alloc_settable : Settable ServerAllocation :=
  settable! mkAlloc <allocation_map_size; next_allocation>.

Record t := mk { srv_allocs_ : list ServerAllocation }.
#[global] Instance settable : Settable t := settable! mk <srv_allocs_>.

Definition init : t := mk (replicate (Z.to_nat kNumMaxServers) (mkAlloc 0 0)).

Definition AddServer (server_id : ServerID) (nsectors : Z) (s : t) : outcome (Status unit * t) :=
  _ ← at_ (srv_allocs_ s) server_id;
  l ← at_put (srv_allocs_ s) server_id (mkAlloc nsectors 0);
  Ok (Value tt, s <| srv_allocs_ := l |>).

(** A negative count is a request for a vector too large to allocate. *)
Definition AllocateBlocks (server_id : ServerID) (n : Z) (s : t)
    : outcome (Status (list ServerBlockInfo.t) * t) :=
  server ← at_ (srv_allocs_ s) server_id;
  require (0 <=? n) SystemError;;
  let start_idx := next_allocation server in
  l ← at_put (srv_allocs_ s) server_id (server <| next_allocation := u64 (start_idx + n) |>);
  let allocs := map (fun i => ServerBlockInfo.mk server_id (u64 (start_idx + i)))
                  (zrange 0 (Z.to_nat n)) in
  Ok (Value allocs, s <| srv_allocs_ := l |>).

Definition next_of (s : t) (server_id : ServerID) : Z :=
  match at_ (srv_allocs_ s) server_id with Ok a => next_allocation a | Fault _ => 0 end.

Lemma AllocateBlocks_spec id n s blks s' :
  AllocateBlocks id n s = Ok (Value blks, s') ->
  0 <= n /\ length (srv_allocs_ s') = length (srv_allocs_ s) /\
  blks = map (fun i => ServerBlockInfo.mk id (u64 (next_of s id + i))) (zrange 0 (Z.to_nat n)) /\
  next_of s' id = u64 (next_of s id + n) /\
  forall j, j <> id -> next_of s' j = next_of s j.
Proof.
  unfold AllocateBlocks, next_of. intros H. simplify_outcome. rewrite Hrun.
  apply Z.leb_le in Hrun0. split_and!; [lia|by eapply at_put_length|done| |].
  - by rewrite (at_put_eq _ _ _ _ Hrun1).
  - intros j Hj. by rewrite (at_put_ne _ _ _ _ _ Hrun1) by done.
Qed.

Lemma AddServer_spec id nsectors s r s' :
  AddServer id nsectors s = Ok (r, s') ->
  r = Value tt /\ 0 <= id < Z.of_nat (length (srv_allocs_ s)) /\
  length (srv_allocs_ s') = length (srv_allocs_ s) /\
  next_of s' id = 0 /\ forall j, j <> id -> next_of s' j = next_of s j.
Proof.
  unfold AddServer, next_of. intros H. simplify_outcome.
  pose proof (proj1 (at_put_Ok _ _ _ _) Hrun0) as [Hr _].
  split_and!; [done|lia|lia|by eapply at_put_length| |].
  - by rewrite (at_put_eq _ _ _ _ Hrun0).
  - intros j Hj. by rewrite (at_put_ne _ _ _ _ _ Hrun0) by done.
Qed.

End BlockAllocator.

Module ServerDesc.
Record t := mk { id_ : Z; ip_ : list Z; name_ : list Z; port_ : Z; nsectors_ : Z }.
End ServerDesc.

Module VolumeDesc.
Record t := mk { id_ : Z; ip_ : list Z; port_ : Z; nsectors_ : Z }.
End VolumeDesc.

Module ControllerAgent.
Section Agent.
Context {S : Type} `{!BaseScheduler S}.
(** A disk's name, as the string the model files are looked up with. *)
Variable to_string : list Z -> string.

Record t := mk {
  next_server_id_ : Z;
  servers_ : gmap Z ServerDesc.t;
  vol_id_ : Z;
  vols_ : gmap Z VolumeDesc.t;
  blk_alloc_ : BlockAllocator.t;
  sched_ : Scheduler.t S;
}.
#[global] Instance settable : Settable t :=
  settable! mk <next_server_id_; servers_; vol_id_; vols_; blk_alloc_; sched_>.

Definition init (sched : S) : t :=
  mk (kInvalidServerID + 1) ∅ (kInvalidVolumeID + 1) ∅ BlockAllocator.init (Scheduler.init sched).

Definition RegisterServer (env : Env) (ip : list Z) (port : Z) (name : list Z) (n_sectors : Z) (s : t)
    : outcome (Status ServerID * t) :=
  let server_id := next_server_id_ s in
  let s := s <| next_server_id_ := u32 (server_id + 1) |> in
  ba ← BlockAllocator.AddServer server_id n_sectors (blk_alloc_ s);
  let s := s <| blk_alloc_ := snd ba |> in
  if negb (has_value (fst ba)) then Ok (MakeError EINVAL, s)
  else
    sa ← Scheduler.AddServer env server_id (to_string name) None (sched_ s);
    let s := s <| sched_ := snd sa |> in
    if negb (has_value (fst sa)) then Ok (MakeError EINVAL, s)
    else
      match servers_ s !! server_id with
      | Some _ => Ok (MakeError EINVAL, s)
      | None => Ok (Value server_id,
                    s <| servers_ := <[server_id := ServerDesc.mk server_id ip name port n_sectors]> (servers_ s) |>)
      end.

Definition GetDiskPeakIOPS (server_id : ServerID) (s : t) : Status DiskPeakIOPS :=
  Scheduler.GetDiskPeakIOPS server_id (sched_ s).

Definition RegisterVolume (ip : list Z) (port : Z) (n_sectors : Z) (s : t) : Status VolumeID * t :=
  let vol_id := vol_id_ s in
  let s := s <| vol_id_ := u32 (vol_id + 1) |> in
  match vols_ s !! vol_id with
  | Some _ => (MakeError EINVAL, s)
  | None => (Value vol_id, s <| vols_ := <[vol_id := VolumeDesc.mk vol_id ip port n_sectors]> (vols_ s) |>)
  end.

Definition UpdateServerStats (time : Z) (server_id : ServerID) (stats : ServerStats.t) (s : t)
    : outcome (Status unit * t) :=
  r ← Scheduler.UpdateServerStats time server_id stats false true (sched_ s);
  Ok (fst r, s <| sched_ := snd r |>).

Definition CommitServerMode (server_id : ServerID) (mode : ServerMode.t) (s : t)
    : outcome (Status unit * t) :=
  r ← Scheduler.CommitServerMode server_id mode (sched_ s);
  Ok (fst r, s <| sched_ := snd r |>).

Definition GetServerStats (s : t) : outcome (Status ServerStatsList) :=
  Scheduler.GetServerStats (sched_ s).

Definition GetDataPlaneServerStats (server_id : ServerID) (s : t) : outcome (Status DataPlaneServerStats) :=
  Scheduler.GetDataPlaneServerStats server_id (sched_ s).

(** The result array is zero-initialised and filled in order. *)
Definition AllocateBlocks (server_id : ServerID) (s : t)
    : outcome (Status (list ServerBlockInfo.t) * t) :=
  let server_blks := replicate (Z.to_nat kAllocationBatch) (ServerBlockInfo.mk 0 0) in
  r ← BlockAllocator.AllocateBlocks server_id (Z.of_nat (length server_blks)) (blk_alloc_ s);
  let s := s <| blk_alloc_ := snd r |> in
  match fst r with
  | MakeError e => Ok (MakeError e, s)
  | Value blks =>
      st ← ofold (fun '(arr, next_blk) blk =>
             arr' ← at_put arr next_blk blk; Ok (arr', next_blk + 1)) (server_blks, 0) blks;
      Ok (Value (fst st), s)
  end.

Definition StopScheduler (s : t) : t := s <| sched_ ::= Scheduler.Stop |>.

End Agent.
Arguments t S : clear implicits.
End ControllerAgent.

(** ** No block is handed out twice *)

Module Allocation.

Lemma kAllocationBatch_range : 0 < kAllocationBatch < 2 ^ 32.
Proof. done. Qed.
#[local] Opaque kAllocationBatch.

Lemma fill_spec (arr0 arr1 blks : list ServerBlockInfo.t) :
  length arr1 = length blks ->
  ofold (fun '(arr, next_blk) blk => arr' ← at_put arr next_blk blk; Ok (arr', next_blk + 1))
    (arr0 ++ arr1, Z.of_nat (length arr0)) blks
  = Ok (arr0 ++ blks, Z.of_nat (length arr0 + length blks)).
Proof.
  revert arr0 arr1. induction blks as [|b blks IH]; intros arr0 arr1 Hlen.
  { destruct arr1; [|done]. simpl. by rewrite Nat.add_0_r. }
  destruct arr1 as [|a arr1]; [done|]. simpl in Hlen. simpl.
  rewrite at_put_in_range by (rewrite length_app; simpl; lia). simpl.
  rewrite Nat2Z.id, insert_app_r_alt, Nat.sub_diag by lia. simpl.
  specialize (IH (arr0 ++ [b]) arr1 ltac:(lia)).
  rewrite <- !app_assoc, length_app in IH. simpl in IH.
  replace (Z.of_nat (length arr0) + 1) with (Z.of_nat (length arr0 + 1)) by lia.
  rewrite IH. do 2 f_equal. lia.
Qed.

Section Allocation.
Context {S : Type} `{!BaseScheduler S} (to_string : list Z -> string).

(** The controller with every block it has handed out so far, in order. *)
Record sys := Sys { agent : ControllerAgent.t S; given : list ServerBlockInfo.t }.

(** The requests the controller serves. A volume asks for blocks only of a
    server the controller has told it about. *)
Inductive step : sys -> sys -> Prop :=
| step_register s env ip port name n r a' :
    ControllerAgent.RegisterServer to_string env ip port name n (agent s) = Ok (r, a') ->
    step s (Sys a' (given s))
| step_volume s ip port n r a' :
    ControllerAgent.RegisterVolume ip port n (agent s) = (r, a') ->
    step s (Sys a' (given s))
| step_stats s time id st r a' :
    ControllerAgent.UpdateServerStats time id st (agent s) = Ok (r, a') ->
    step s (Sys a' (given s))
| step_mode s id m r a' :
    ControllerAgent.CommitServerMode id m (agent s) = Ok (r, a') ->
    step s (Sys a' (given s))
| step_allocate s id blks a' :
    id < ControllerAgent.next_server_id_ (agent s) ->
    ControllerAgent.AllocateBlocks id (agent s) = Ok (Value blks, a') ->
    step s (Sys a' (given s ++ blks)).

Definition blocks_of (id : ServerID) (l : list ServerBlockInfo.t) : list ServerBlockInfo.t :=
  List.filter (fun b => ServerBlockInfo.server_id b =? id) l.

Definition consecutive (id : ServerID) (from : Z) (n : nat) : list ServerBlockInfo.t :=
  map (ServerBlockInfo.mk id) (zrange from n).

Lemma consecutive_app id n m :
  consecutive id 0 n ++ consecutive id (Z.of_nat n) m = consecutive id 0 (n + m).
Proof.
  unfold consecutive. rewrite <- map_app. f_equal. unfold zrange.
  rewrite Nat2Z.inj_add, seqZ_app by lia. done.
Qed.

Lemma blocks_of_consecutive id j from n :
  blocks_of id (consecutive j from n) = if j =? id then consecutive j from n else [].
Proof.
  unfold blocks_of, consecutive. induction (zrange from n) as [|x l IH]; simpl; [by destruct (j =? id)|].
  destruct (j =? id) eqn:E; simpl; by rewrite IH.
Qed.

Definition nslots (a : ControllerAgent.t S) : nat :=
  length (BlockAllocator.srv_allocs_ (ControllerAgent.blk_alloc_ a)).

(** Every server's blocks have been handed out in order from zero up to its
    allocation pointer, and unregistered servers have none. *)
Definition inv (s : sys) : Prop :=
  1 <= ControllerAgent.next_server_id_ (agent s) /\
  nslots (agent s) = Z.to_nat kNumMaxServers /\
  forall id, exists n : nat,
    blocks_of id (given s) = consecutive id 0 n /\
    (ControllerAgent.next_server_id_ (agent s) <= id -> n = 0%nat) /\
    (id < ControllerAgent.next_server_id_ (agent s) ->
       BlockAllocator.next_of (ControllerAgent.blk_alloc_ (agent s)) id = Z.of_nat n).

Lemma AllocateBlocks_agent id (a a' : ControllerAgent.t S) blks :
  ControllerAgent.AllocateBlocks id a = Ok (Value blks, a') ->
  let next := BlockAllocator.next_of (ControllerAgent.blk_alloc_ a) in
  blks = map (fun i => ServerBlockInfo.mk id (u64 (next id + i))) (zrange 0 (Z.to_nat kAllocationBatch)) /\
  ControllerAgent.next_server_id_ a' = ControllerAgent.next_server_id_ a /\
  nslots a' = nslots a /\
  BlockAllocator.next_of (ControllerAgent.blk_alloc_ a') id = u64 (next id + kAllocationBatch) /\
  forall j, j <> id -> BlockAllocator.next_of (ControllerAgent.blk_alloc_ a') j = next j.
Proof.
  pose proof kAllocationBatch_range. unfold ControllerAgent.AllocateBlocks.
  rewrite length_replicate, Z2Nat.id by lia. intros H'. simplify_outcome.
  destruct v as [[b|e] ba']; [|done]. simpl in H'. simplify_outcome.
  apply BlockAllocator.AllocateBlocks_spec in Hrun as (_ & Hlen & -> & Hn & Hne).
  set (blks := map _ _) in *.
  pose proof (fill_spec [] (replicate (Z.to_nat kAllocationBatch) (ServerBlockInfo.mk 0 0)) blks) as Hfill.
  rewrite length_replicate in Hfill. simpl app in Hfill. change (Z.of_nat (length [])) with 0 in Hfill.
  rewrite Hfill in Hrun0 by (unfold blks; rewrite length_map, zrange_length; done).
  simplify_outcome. split; [reflexivity|]. split; [reflexivity|].
  split; [exact Hlen|]. by split.
Qed.

Lemma RegisterServer_alloc env ip port name n (a a' : ControllerAgent.t S) r :
  ControllerAgent.RegisterServer to_string env ip port name n a = Ok (r, a') ->
  let id := ControllerAgent.next_server_id_ a in
  id < Z.of_nat (nslots a) /\ nslots a' = nslots a /\ ControllerAgent.next_server_id_ a' = u32 (id + 1) /\
  BlockAllocator.next_of (ControllerAgent.blk_alloc_ a') id = 0 /\
  forall j, j <> id -> BlockAllocator.next_of (ControllerAgent.blk_alloc_ a') j =
    BlockAllocator.next_of (ControllerAgent.blk_alloc_ a) j.
Proof.
  unfold ControllerAgent.RegisterServer. intros H. simplify_outcome. destruct v as [ra ba].
  apply BlockAllocator.AddServer_spec in Hrun as (-> & Hid & Hlen & H0 & Hne). simpl in H. simplify_outcome.
  destruct v as [rs sc]. simpl in H. destruct (negb (has_value rs)); [|destruct (_ !! _)]; simplify_outcome;
    (split_and!; [apply Hid|done|done|done|done]).
Qed.

(** Requests that neither register a server nor allocate leave the allocator
    alone. *)
Lemma step_cases (s s' : sys) :
  step s s' ->
  (ControllerAgent.next_server_id_ (agent s') = ControllerAgent.next_server_id_ (agent s) /\
   ControllerAgent.blk_alloc_ (agent s') = ControllerAgent.blk_alloc_ (agent s) /\ given s' = given s) \/
  (exists env ip port name n r, given s' = given s /\
     ControllerAgent.RegisterServer to_string env ip port name n (agent s) = Ok (r, agent s')) \/
  (exists id blks, given s' = given s ++ blks /\ id < ControllerAgent.next_server_id_ (agent s) /\
     ControllerAgent.AllocateBlocks id (agent s) = Ok (Value blks, agent s')).
Proof.
  intros H. destruct H as [s env ip port name n r a' H|s ip port n r a' H|s time id st r a' H|s id m r a' H|s id blks a' Hid H].
  - right. left. by exists env, ip, port, name, n, r.
  - left. unfold ControllerAgent.RegisterVolume in H. destruct (_ !! _); by simplify_eq/=.
  - left. unfold ControllerAgent.UpdateServerStats in H. by simplify_outcome.
  - left. unfold ControllerAgent.CommitServerMode in H. by simplify_outcome.
  - right. right. by exists id, blks.
Qed.

Lemma alloc_step_inv (s s' : sys) :
  step s s' -> Z.of_nat (length (given s')) < 2 ^ 64 -> inv s -> inv s'.
Proof.
  intros Hstep Hmax (Hpos & Hslots & Hinv). unfold kNumMaxServers in Hslots.
  destruct (step_cases _ _ Hstep)
    as [(Hn & Hb & Hg)|[(env & ip & port & name & n & r & Hg & H)|(id & blks & Hg & Hid & H)]].
  - unfold inv, nslots. rewrite Hn, Hb, Hg. done.
  - apply RegisterServer_alloc in H as (Hid & Hs & Hn & H0 & Hne).
    rewrite wrap_small in Hn by lia. unfold inv. rewrite Hn, Hg, Hs. split_and!; [lia|done|].
    intros id. destruct (Hinv id) as (k & Hk & Hun & Hreg). exists k. split; [done|].
    destruct (decide (id = ControllerAgent.next_server_id_ (agent s))) as [->|Hneq].
    + rewrite H0, (Hun ltac:(lia)). split; [done|done].
    + rewrite Hne by done. split; [intros; apply Hun; lia|intros; apply Hreg; lia].
  - pose proof kAllocationBatch_range as Hbatch.
    apply AllocateBlocks_agent in H as (-> & Hn & Hs & Hnext & Hne).
    unfold inv. rewrite Hn, Hs, Hg. split_and!; [done|done|].
    destruct (Hinv id) as (k & Hk & Hun & Hreg). specialize (Hreg Hid).
    assert (Z.of_nat k + kAllocationBatch < 2 ^ 64) as Hlt.
    { rewrite Hg, length_app, length_map, zrange_length in Hmax.
      assert (length (blocks_of id (given s)) <= length (given s))%nat as Hle by apply filter_length_le.
      rewrite Hk in Hle. unfold consecutive in Hle. rewrite length_map, zrange_length in Hle. lia. }
    set (batch := map _ _).
    assert (batch = consecutive id (Z.of_nat k) (Z.to_nat kAllocationBatch)) as ->.
    { unfold batch, consecutive. rewrite Hreg, <- (zrange_shift (Z.of_nat k)), map_map. apply map_ext_in.
      intros i Hi. apply list_elem_of_In, elem_of_zrange in Hi. rewrite wrap_small by lia. done. }
    intros j. unfold blocks_of at 1. rewrite List.filter_app. fold (blocks_of j (given s)).
    fold (blocks_of j (consecutive id (Z.of_nat k) (Z.to_nat kAllocationBatch))).
    rewrite blocks_of_consecutive. destruct (Z.eqb_spec id j) as [<-|Hne'].
    + exists (k + Z.to_nat kAllocationBatch)%nat. rewrite Hk, consecutive_app. split_and!; [done|lia|].
      intros _. rewrite Hnext, Hreg, wrap_small by lia. lia.
    + rewrite app_nil_r, Hne by done. apply Hinv.
Qed.

Lemma alloc_inv_init sched : inv (Sys (ControllerAgent.init sched) []).
Proof.
  unfold inv. split_and!; [done|done|]. intros id. exists 0%nat. split_and!; [done|done|]. intros _.
  unfold BlockAllocator.next_of. destruct (at_ _ id) as [a|f] eqn:E; [|done].
  apply at_Ok in E as [_ E]. by apply lookup_replicate in E as [-> _].
Qed.

Lemma NoDup_by_server l : (forall id, NoDup (blocks_of id l)) -> NoDup l.
Proof.
  induction l as [|b l IH]; intros H; [constructor|]. apply NoDup_cons. split.
  - specialize (H (ServerBlockInfo.server_id b)). unfold blocks_of in H. simpl in H.
    rewrite Z.eqb_refl in H. apply NoDup_cons in H as [H _]. intros Hin. apply H.
    apply list_elem_of_In, filter_In. rewrite Z.eqb_refl. split; [by apply list_elem_of_In|done].
  - apply IH. intros id. specialize (H id). unfold blocks_of in *. simpl in H.
    destruct (_ =? id); [by apply NoDup_cons in H as [_ H]|done].
Qed.

Lemma given_grows (s s' : sys) : step s s' -> (length (given s) <= length (given s'))%nat.
Proof.
  intros [(_ & _ & ->)|[(? & ? & ? & ? & ? & ? & -> & _)|(? & ? & -> & _)]]%step_cases; [done|done|].
  rewrite length_app. lia.
Qed.

(** C3: Whatever servers and volumes register and report, and in whatever order
    blocks are requested of servers that have registered, the blocks of a server
    are handed out consecutively from zero, and no block is ever handed out
    twice. A request that names a server before it registers is outside this:
    the registration starts its blocks again from zero. *)
Theorem blocks_unique sched (s : sys) :
  rtc step (Sys (ControllerAgent.init sched) []) s -> Z.of_nat (length (given s)) < 2 ^ 64 ->
  (forall id, exists n, blocks_of id (given s) = consecutive id 0 n) /\ NoDup (given s).
Proof.
  intros Hsteps Hmax. assert (inv s) as (_ & _ & Hinv).
  { revert s Hsteps Hmax. apply (rtc_ind_r (fun s => Z.of_nat (length (given s)) < 2 ^ 64 -> inv s)).
    - intros _. apply alloc_inv_init.
    - intros s1 s2 _ Hstep IH Hmax. apply (alloc_step_inv s1); [done|done|]. apply IH.
      apply given_grows in Hstep. lia. }
  split; [intros id; destruct (Hinv id) as (n & Hn & _); by exists n|].
  apply NoDup_by_server. intros id. destruct (Hinv id) as (n & -> & _).
  apply NoDup_fmap_2; [intros ? ?; congruence|apply zrange_NoDup].
Qed.

End Allocation.

(** A run with the no-op policy: registrations and allocations. *)
Definition sample_env : Env := mkEnv RWIsolationBase.sample_junk sample_weights (fun _ => 0) (fun _ => None).

Definition exec1 (s : sys (S := policy)) (r : option ServerID) : outcome (sys (S := policy)) :=
  match r with
  | None =>
      x ← ControllerAgent.RegisterServer (fun _ => EmptyString) sample_env [] 0 [] 1024 (agent s);
      Ok (Sys (snd x) (given s))
  | Some id =>
      x ← ControllerAgent.AllocateBlocks id (agent s);
      match fst x with
      | Value blks => if id <? ControllerAgent.next_server_id_ (agent s)
                      then Ok (Sys (snd x) (given s ++ blks)) else Fault Undefined
      | MakeError _ => Fault Undefined
      end
  end.

Lemma alloc_exec_steps l s s' : ofold exec1 s l = Ok s' -> rtc (step (fun _ => EmptyString)) s s'.
Proof.
  revert s. induction l as [|r l IH]; intros s H; simpl in H; simplify_outcome; [done|].
  apply rtc_l with v; [|by apply IH]. destruct r as [id|]; simpl in Hrun; simplify_outcome.
  - destruct v0 as [[b|e] a']; simpl in Hrun; [|done].
    destruct (Z.ltb_spec id (ControllerAgent.next_server_id_ (agent s))); simplify_outcome. by apply step_allocate with id.
  - destruct v0 as [r a']. by eapply step_register.
Qed.

Definition sample_run : outcome (sys (S := policy)) :=
  ofold exec1 (Sys (ControllerAgent.init NoOp) []) [None; None; Some 1; Some 2; Some 1].

Definition given_length (r : outcome (sys (S := policy))) : Z :=
  match r with Ok s => Z.of_nat (length (given s)) | Fault _ => 0 end.

Lemma blocks_unique_witness :
  match sample_run with
  | Ok s => Z.of_nat (length (given s)) = 6144 /\
      (forall id, exists n, blocks_of id (given s) = consecutive id 0 n) /\ NoDup (given s)
  | Fault _ => False
  end.
Proof.
  assert (given_length sample_run = 6144) as Hlen by (vm_compute; reflexivity).
  destruct sample_run as [s|f] eqn:E; [|discriminate Hlen]. simpl in Hlen. split; [exact Hlen|].
  apply (blocks_unique (fun _ => EmptyString) NoOp s); [|lia]. exact (alloc_exec_steps _ _ _ E).
Defined.

End Allocation.
