(* ===== verification/ControllerConnHandler.v ===== *)
(** * The controller's connections

    [src/sandook/controller/controller_conn_handler.cc]: the messages of disk
    servers and volumes, handled by the controller's agent. The theorem is about
    the directory the controller keeps: a volume that registers is told exactly
    the servers whose registration was answered. *)

From Stdlib Require Import String.
From S2P Require Import Prelude Float64 FloatInt BaseTypes Telemetry ControlStats DiskModels RwIsolation ProfileGuidedPolicy Configuration Messages ControlScheduler Controller.

Local Open Scope Z_scope.

Module ControllerConnHandler.

(** [std::isalnum] of the "C" locale; it is undefined for a negative [char]. *)
Definition isalnum (c : Z) : bool :=
  ((48 <=? c) && (c <=? 57)) || ((65 <=? c) && (c <=? 90)) || ((97 <=? c) && (c <=? 122)).

(** A character array as a string: there must be a terminator. *)
Definition read_c_string (arr : list Z) : outcome (list Z) :=
  require (existsb (fun c => c =? 0) arr) Undefined;; Ok (c_string arr).

Definition clean_name (name : list Z) : outcome (list Z) :=
  require (forallb (fun c => c <? 128) name) Undefined;;
  let name := List.filter isalnum name in
  Ok (List.filter (fun c => negb (c =? 32)) name).

(** [ServerDesc::info]: the strings are copied into zeroed arrays. *)
Definition copy_string (n : Z) (s : list Z) : outcome (list Z) :=
  require (Z.of_nat (length s) <=? n) Undefined;;
  Ok (strncpy s (length s) ++ replicate (Z.to_nat n - length s) 0).

Definition info (d : ServerDesc.t) : outcome ServerInfo.t :=
  ip ← copy_string kIPAddrStrLen (ServerDesc.ip_ d);
  name ← copy_string kNameStrLen (ServerDesc.name_ d);
  Ok (ServerInfo.mk ip (ServerDesc.port_ d) name (ServerDesc.id_ d)).

Section Handler.
Context {S : Type} `{!BaseScheduler S} (to_string : list Z -> string) (cfg : Config.t).
(** The order in which the library walks an [unordered_map]. *)
Context (iterate : gmap Z ServerDesc.t -> list ServerDesc.t).
Abbreviation agent := (ControllerAgent.t S).

Definition HandleAllocateBlocks (msg : AllocateBlocksMsg.t) (s : agent) : outcome (Status message * agent) :=
  r ← ControllerAgent.AllocateBlocks (AllocateBlocksMsg.server_id msg) s;
  let '(server_blks, s) := r in
  match server_blks with
  | MakeError _ => Fault Undefined
  | Value server_blks => Ok (Value (MAllocateBlocksReply (AllocateBlocksReplyMsg.mk server_blks)), s)
  end.

Definition HandleRegisterServer (env : Env) (msg : RegisterServerMsg.t) (s : agent) : outcome (Status message * agent) :=
  name ← read_c_string (RegisterServerMsg.name msg);
  name ← clean_name name;
  ip ← read_c_string (RegisterServerMsg.ip msg);
  r ← ControllerAgent.RegisterServer to_string env ip (RegisterServerMsg.port msg) name (RegisterServerMsg.nsectors msg) s;
  let '(id, s) := r in
  match id with
  | MakeError e => Ok (MakeError e, s)
  | Value id => Ok (Value (MRegisterServerReply (RegisterServerReplyMsg.mk id (Config.kDiskServerRejections cfg))), s)
  end.

(** The reply's table has [kNumMaxServers] entries. *)
Definition add_entry {A} (l : list A) (x : A) : outcome (list A) :=
  require (Z.of_nat (length l) <? kNumMaxServers) OutOfRange;; Ok (l ++ [x]).

Definition HandleRegisterVolume (msg : RegisterVolumeMsg.t) (s : agent) : outcome (Status message * agent) :=
  ip ← read_c_string (RegisterVolumeMsg.ip msg);
  let '(id, s) := ControllerAgent.RegisterVolume ip (RegisterVolumeMsg.port msg) (RegisterVolumeMsg.nsectors msg) s in
  match id with
  | MakeError e => Ok (MakeError e, s)
  | Value id =>
      servers ← ofold (fun l d => i ← info d; add_entry l i) [] (iterate (ControllerAgent.servers_ s));
      Ok (Value (MRegisterVolumeReply (RegisterVolumeReplyMsg.mk servers id (Config.kDataPlaneSchedulerType cfg))), s)
  end.

Definition HandleUpdateServerStats (time : Z) (msg : UpdateServerStatsMsg.t) (s : agent) : outcome (Status message * agent) :=
  let id := UpdateServerStatsMsg.server_id msg in
  r ← ControllerAgent.UpdateServerStats time id (UpdateServerStatsMsg.stats msg) s;
  let '(ret, s) := r in
  match ret with
  | MakeError e => Ok (MakeError e, s)
  | Value _ =>
      stats ← ControllerAgent.GetDataPlaneServerStats id s;
      match stats with
      | MakeError _ => Fault RuntimeError
      | Value (mode, c_state, read_weight, write_weight) =>
          Ok (Value (MUpdateServerStatsReply (UpdateServerStatsReplyMsg.mk id mode c_state read_weight write_weight)), s)
      end
  end.

(** A success has no reply. *)
Definition HandleCommitServerMode (msg : CommitServerModeMsg.t) (s : agent) : outcome (Status unit * agent) :=
  ControllerAgent.CommitServerMode (CommitServerModeMsg.server_id msg) (CommitServerModeMsg.mode msg) s.

Definition HandleGetServerStats (msg : GetServerStatsMsg.t) (s : agent) : outcome (Status message * agent) :=
  server_stats ← ControllerAgent.GetServerStats s;
  match server_stats with
  | MakeError e => Ok (MakeError e, s)
  | Value server_stats =>
      servers ← ofold add_entry [] server_stats;
      Ok (Value (MGetServerStatsReply (GetServerStatsReplyMsg.mk (GetServerStatsMsg.vol_id msg) servers)), s)
  end.

Definition HandleGetControllerTime (microtime : Z) (s : agent) : outcome (Status message * agent) :=
  Ok (Value (MGetControllerTimeReply (GetControllerTimeReplyMsg.mk microtime)), s).

Definition value_or_empty {T} (r : Status message * T) : option message * T :=
  (match fst r with Value m => Some m | MakeError _ => None end, snd r).

(** A message of another type, and an error, have an empty reply. *)
Definition HandleMsg (env : Env) (time : Z) (m : message) (s : agent) : outcome (option message * agent) :=
  match m with
  | MAllocateBlocks msg => r ← HandleAllocateBlocks msg s; Ok (value_or_empty r)
  | MUpdateServerStats msg => r ← HandleUpdateServerStats time msg s; Ok (value_or_empty r)
  | MGetServerStats msg => r ← HandleGetServerStats msg s; Ok (value_or_empty r)
  | MCommitServerMode msg => r ← HandleCommitServerMode msg s; Ok (None, snd r)
  | MGetControllerTime => r ← HandleGetControllerTime time s; Ok (value_or_empty r)
  | MRegisterServer msg => r ← HandleRegisterServer env msg s; Ok (value_or_empty r)
  | MRegisterVolume msg => r ← HandleRegisterVolume msg s; Ok (value_or_empty r)
  | _ => Ok (None, s)
  end.
End Handler.

(** ** The directory *)

Section Directory.
#[local] Opaque kAllocationBatch.
Context {S : Type} `{!BaseScheduler S} (to_string : list Z -> string) (cfg : Config.t).
Context (iterate : gmap Z ServerDesc.t -> list ServerDesc.t).
Abbreviation agent := (ControllerAgent.t S).
Abbreviation handle_msg := (HandleMsg to_string cfg iterate).

(** A request, with what the controller reads when it handles it. *)
Record request := Request { on_env : Env; at_time : Z; asks : message }.

(** Requests handled in order, with their replies. *)
Definition handle (st : list (option message) * agent) (q : request) : outcome (list (option message) * agent) :=
  r ← handle_msg (on_env q) (at_time q) (asks q) (snd st);
  Ok (fst st ++ [fst r], snd r).

Definition handle_all (s : agent) (qs : list request) : outcome (list (option message) * agent) := ofold handle ([], s) qs.

(** The servers the replies told their identifier. *)
Definition told (r : option message) : option ServerID :=
  match r with Some (MRegisterServerReply m) => Some (RegisterServerReplyMsg.server_id m) | _ => None end.
Definition told_volume (r : option message) : option VolumeID :=
  match r with Some (MRegisterVolumeReply m) => Some (RegisterVolumeReplyMsg.vol_id m) | _ => None end.

(** The directory holds the servers whose registration was answered, under
    identifiers below the next one. *)
Record directory (replies : list (option message)) (s : agent) : Prop := {
  dir_ids id : id ∈ omap told replies <-> is_Some (ControllerAgent.servers_ s !! id);
  dir_nodup : NoDup (omap told replies);
  dir_range id : id ∈ omap told replies -> 1 <= id < ControllerAgent.next_server_id_ s;
  dir_next : 1 <= ControllerAgent.next_server_id_ s <= kNumMaxServers;
  dir_slots : Allocation.nslots s = Z.to_nat kNumMaxServers;
  dir_desc id d : ControllerAgent.servers_ s !! id = Some d -> ServerDesc.id_ d = id;
  dir_vols id : id ∈ omap told_volume replies -> is_Some (ControllerAgent.vols_ s !! id);
  dir_vols_nodup : NoDup (omap told_volume replies);
}.

Lemma directory_quiet replies r (s s' : agent) :
  told r = None -> told_volume r = None -> ControllerAgent.vols_ s' = ControllerAgent.vols_ s -> ControllerAgent.servers_ s' = ControllerAgent.servers_ s ->
  ControllerAgent.next_server_id_ s' = ControllerAgent.next_server_id_ s -> Allocation.nslots s' = Allocation.nslots s ->
  directory replies s -> directory (replies ++ [r]) s'.
Proof.
  intros Hr Hrv Hv Hs Hn Hl [H1 H2 H3 H4 H5 H6 H7 H8]. assert (omap told (replies ++ [r]) = omap told replies) as Heq.
  { rewrite omap_app. simpl. rewrite Hr. by rewrite app_nil_r. }
  assert (omap told_volume (replies ++ [r]) = omap told_volume replies) as Heqv.
  { rewrite omap_app. simpl. rewrite Hrv. by rewrite app_nil_r. }
  constructor; rewrite ?Heq, ?Heqv, ?Hs, ?Hv, ?Hn, ?Hl; done.
Qed.

Lemma directory_init sched : directory [] (ControllerAgent.init sched : agent).
Proof.
  assert (forall x : Z, x ∉ @nil Z) as Hnil by (intros x Hx; by apply not_elem_of_nil in Hx).
  constructor; simpl; [|constructor|intros id Hid; by apply Hnil in Hid|done|done| |intros id Hid; by apply Hnil in Hid|constructor].
  - intros id. rewrite lookup_empty. split; [intros Hid; by apply Hnil in Hid|by intros []].
  - intros id d. by rewrite lookup_empty.
Qed.

(** A registration: an error leaves the directory, a success adds the server. *)
Lemma RegisterServer_directory env ip port name n (s s' : agent) r :
  ControllerAgent.RegisterServer to_string env ip port name n s = Ok (r, s') ->
  ControllerAgent.vols_ s' = ControllerAgent.vols_ s /\
  match r with
  | MakeError _ => ControllerAgent.servers_ s' = ControllerAgent.servers_ s
  | Value id => id = ControllerAgent.next_server_id_ s /\ ControllerAgent.servers_ s !! id = None /\
      ControllerAgent.servers_ s' = <[id := ServerDesc.mk id ip name port n]> (ControllerAgent.servers_ s)
  end.
Proof.
  unfold ControllerAgent.RegisterServer. intros H. simplify_outcome. destruct_pairs. cbn [fst snd] in H. destruct (negb _); simplify_outcome; [done|].
  destruct_pairs. cbn [fst snd] in H. destruct (negb _); simplify_outcome; [done|]. cbn [ControllerAgent.servers_] in *.
  match goal with H : context [ControllerAgent.servers_ ?s !! _] |- _ => destruct (ControllerAgent.servers_ s !! _) eqn:Hs end; by simplify_outcome.
Qed.

Lemma AllocateBlocks_directory id (s s' : agent) r :
  ControllerAgent.AllocateBlocks id s = Ok (r, s') ->
  ControllerAgent.vols_ s' = ControllerAgent.vols_ s /\ ControllerAgent.servers_ s' = ControllerAgent.servers_ s /\
  ControllerAgent.next_server_id_ s' = ControllerAgent.next_server_id_ s /\ Allocation.nslots s' = Allocation.nslots s.
Proof.
  unfold ControllerAgent.AllocateBlocks. intros H. apply bind_Ok in H as ([r0 ba] & Hba & H). cbn [fst snd] in H.
  assert (length (BlockAllocator.srv_allocs_ ba) = length (BlockAllocator.srv_allocs_ (ControllerAgent.blk_alloc_ s))) as Hlen.
  { revert Hba. generalize (Z.of_nat (length (replicate (Z.to_nat kAllocationBatch) (ServerBlockInfo.mk 0 0)))) as n. clear. intros n Hba.
    unfold BlockAllocator.AllocateBlocks in Hba. simplify_outcome. by eapply at_put_length. }
  destruct r0; [apply bind_Ok in H as (st & _ & [= <- <-])|injection H as <- <-]; done.
Qed.

Lemma handle_directory replies (s s' : agent) q r :
  handle_msg (on_env q) (at_time q) (asks q) s = Ok (r, s') -> directory replies s -> directory (replies ++ [r]) s'.
Proof.
  intros H Hd. destruct q as [env time m]. cbn [on_env at_time asks] in H. destruct m; cbn [HandleMsg] in H;
    try (injection H as <- <-; by apply (directory_quiet _ _ s)).
  - unfold HandleAllocateBlocks in H. simplify_outcome. destruct_pairs.
    match goal with H : ControllerAgent.AllocateBlocks _ _ = _ |- _ => apply AllocateBlocks_directory in H as (Hv & Hs & Hn & Hl) end.
    destruct (_ : Status (list ServerBlockInfo.t)); simplify_outcome. by apply (directory_quiet _ _ s).
  - unfold HandleRegisterServer in H. simplify_outcome. destruct_pairs.
    match goal with H : ControllerAgent.RegisterServer _ _ _ _ _ _ _ = _ |- _ =>
      pose proof H as (Hv & Hdir)%RegisterServer_directory; apply Allocation.RegisterServer_alloc in H as (Hlt & Hl & Hn & _) end.
    destruct Hd as [H1 H2 H3 H4 H5 H6 H7 H8]. rewrite H5 in Hlt. unfold kNumMaxServers in Hlt, H4. rewrite wrap_small in Hn by lia.
    destruct (_ : Status ServerID) as [id|e]; simplify_outcome; cbn [value_or_empty fst snd].
    + destruct Hdir as (-> & Hnone & Hs). set (id := ControllerAgent.next_server_id_ s) in *.
      assert (id ∉ omap told replies) as Hnew by (intros Hid%H3; lia).
      constructor; rewrite ?omap_app, ?Hs, ?Hn, ?Hv; simpl; rewrite ?app_nil_r; try done.
      * intros x. rewrite elem_of_app, list_elem_of_singleton, H1, lookup_insert_is_Some. destruct (decide (x = id)); naive_solver.
      * apply NoDup_app. split_and!; [done| |apply NoDup_singleton]. intros x Hx Heq%list_elem_of_singleton. by subst.
      * intros x. rewrite elem_of_app, list_elem_of_singleton. intros [Hx%H3| ->]; lia.
      * unfold kNumMaxServers. lia.
      * by rewrite Hl.
      * intros x d. rewrite lookup_insert_Some. intros [[<- <-]|[_ Hx]]; [done|by apply H6].
    + constructor; rewrite ?omap_app, ?Hdir, ?Hn, ?Hv; simpl; rewrite ?app_nil_r; try done; unfold kNumMaxServers; try lia; [|by rewrite Hl].
      intros x Hx%H3. lia.
  - unfold HandleRegisterVolume, ControllerAgent.RegisterVolume in H. apply bind_Ok in H as ([r0 s0] & H & [= <- <-]).
    apply bind_Ok in H as (ip & _ & H). simpl in H. destruct (ControllerAgent.vols_ s !! _) eqn:Hvol; [simplify_outcome; by apply (directory_quiet _ _ s)|].
    apply bind_Ok in H as (servers & _ & [= <- <-]). destruct Hd as [H1 H2 H3 H4 H5 H6 H7 H8]. set (id := ControllerAgent.vol_id_ s) in *.
    constructor; rewrite ?omap_app; simpl; rewrite ?app_nil_r; try done.
    + intros x. rewrite elem_of_app, list_elem_of_singleton, lookup_insert_is_Some. destruct (decide (x = id)); naive_solver.
    + apply NoDup_app. split_and!; [done| |apply NoDup_singleton]. intros x Hx Heq%list_elem_of_singleton. subst x.
      destruct (H7 _ Hx) as [? Hx']. congruence.
  - apply bind_Ok in H as ([r0 s0] & H & [= <- <-]). unfold HandleUpdateServerStats in H. apply bind_Ok in H as ([ret s1] & Hup & H).
    unfold ControllerAgent.UpdateServerStats in Hup. apply bind_Ok in Hup as ([ret' sc] & _ & [= <- <-]).
    destruct ret' as [[]|]; [|injection H as <- <-; by apply (directory_quiet _ _ s)].
    apply bind_Ok in H as ([[[[mode cs] rw] ww]|] & _ & H); [|done]. injection H as <- <-. by apply (directory_quiet _ _ s).
  - unfold HandleCommitServerMode, ControllerAgent.CommitServerMode in H. simplify_outcome. by apply (directory_quiet _ _ s).
  - unfold HandleGetServerStats in H. simplify_outcome. destruct (_ : Status ServerStatsList); simplify_outcome; by apply (directory_quiet _ _ s).
Qed.

Lemma handle_all_directory sched qs replies (s : agent) :
  handle_all (ControllerAgent.init sched) qs = Ok (replies, s) -> directory replies s.
Proof.
  intros H. unfold handle_all in H. revert H. apply (ofold_ind (fun _ st => directory (fst st) (snd st))); [apply directory_init|].
  intros seen q rest [l s0] [l1 s1] _ Hd H1. unfold handle in H1. simplify_outcome. destruct_pairs. by eapply handle_directory.
Qed.

Lemma table_ids ds l0 l :
  ofold (fun l d => i ← info d; add_entry l i) l0 ds = Ok l -> map ServerInfo.id l = map ServerInfo.id l0 ++ map ServerDesc.id_ ds.
Proof.
  revert l0. induction ds as [|d ds IH]; intros l0 H; simpl in H; [injection H as <-; by rewrite app_nil_r|].
  apply bind_Ok in H as (l1 & H1 & H). unfold add_entry, info in H1. simplify_outcome. rewrite (IH _ H), map_app. simpl. by rewrite <- app_assoc.
Qed.

Lemma RegisterVolume_ids env time msg (s s' : agent) rep :
  handle_msg env time (MRegisterVolume msg) s = Ok (Some (MRegisterVolumeReply rep), s') ->
  map ServerInfo.id (RegisterVolumeReplyMsg.servers rep) = map ServerDesc.id_ (iterate (ControllerAgent.servers_ s)) /\
  ControllerAgent.servers_ s' = ControllerAgent.servers_ s /\ ControllerAgent.vols_ s !! RegisterVolumeReplyMsg.vol_id rep = None.
Proof.
  intros H. cbn [HandleMsg] in H. apply bind_Ok in H as ([r0 s0] & H & [= Hr <-]).
  unfold HandleRegisterVolume, ControllerAgent.RegisterVolume in H. apply bind_Ok in H as (ip & _ & H). simpl in H.
  destruct (ControllerAgent.vols_ s !! _) eqn:Hv; [by simplify_outcome|]. apply bind_Ok in H as (servers & Hs & [= <- <-]).
  cbn in Hr. injection Hr as <-. cbn [RegisterVolumeReplyMsg.servers RegisterVolumeReplyMsg.vol_id]. by rewrite (table_ids _ _ _ Hs).
Qed.

Context (iterate_all : forall m, iterate m ≡ₚ map snd (map_to_list m)).

Lemma directory_ids replies (s : agent) :
  directory replies s -> map ServerDesc.id_ (iterate (ControllerAgent.servers_ s)) ≡ₚ omap told replies.
Proof.
  intros Hd. rewrite iterate_all, map_map.
  assert (map (fun x => ServerDesc.id_ x.2) (map_to_list (ControllerAgent.servers_ s)) = map fst (map_to_list (ControllerAgent.servers_ s))) as ->.
  { apply map_ext_in. intros [id d] Hin. apply list_elem_of_In, elem_of_map_to_list in Hin. by apply Hd. }
  apply NoDup_Permutation; [apply NoDup_fst_map_to_list|apply Hd|]. intros id. rewrite (dir_ids _ _ Hd), <- elem_of_dom, list_elem_of_fmap. split.
  - intros ([id' d] & -> & Hin%elem_of_map_to_list). by apply elem_of_dom_2 in Hin.
  - intros [d Hdm]%elem_of_dom. exists (id, d). split; [done|]. by apply elem_of_map_to_list.
Qed.

(** C19: After any requests of servers and volumes, a volume that registers is
    told the identifiers of exactly the servers whose registration was
    answered, once each; they are distinct, positive and below the number of
    servers the system can have; and the volume's own identifier is new. *)
Theorem volume_sees_servers sched qs replies (s : agent) env time msg rep s' :
  handle_all (ControllerAgent.init sched) qs = Ok (replies, s) ->
  handle_msg env time (MRegisterVolume msg) s = Ok (Some (MRegisterVolumeReply rep), s') ->
  map ServerInfo.id (RegisterVolumeReplyMsg.servers rep) ≡ₚ omap told replies /\
  NoDup (omap told replies) /\ Forall (fun id => 1 <= id < kNumMaxServers) (omap told replies) /\
  RegisterVolumeReplyMsg.vol_id rep ∉ omap told_volume replies.
Proof.
  intros Hall H. pose proof (handle_all_directory _ _ _ _ Hall) as Hd. destruct (RegisterVolume_ids _ _ _ _ _ _ H) as (Hids & _ & Hv). split_and!.
  - rewrite Hids. by apply directory_ids.
  - apply Hd.
  - apply Forall_forall. intros id Hid. pose proof (dir_next _ _ Hd). apply (dir_range _ _ Hd) in Hid. lia.
  - intros Hid. destruct (dir_vols _ _ Hd _ Hid) as [? Hx]. congruence.
Qed.
End Directory.

(** Two servers and a volume register. *)
Definition sample_cfg : Config.t :=
  Config.mk Config.kRemote "10.0.0.1" 5000 0 "10.0.0.2" 5001 "models" true "10.0.0.3" 5002 Config.kNoOp Config.kWeightedReadWrite Config.kMemory.
Definition by_key (m : gmap Z ServerDesc.t) : list ServerDesc.t := map snd (map_to_list m).
Definition padded (n : Z) (l : list Z) : list Z := l ++ replicate (Z.to_nat n - length l) 0.
Definition sample_requests : list request :=
  let server c := MRegisterServer (RegisterServerMsg.mk (padded kIPAddrStrLen [49; 48]) 5002 (padded kNameStrLen [115; 95; c]) 1024) in
  [Request Allocation.sample_env 0 (server 49); Request Allocation.sample_env 1 (server 50)].
Definition sample_volume : message := MRegisterVolume (RegisterVolumeMsg.mk (padded kIPAddrStrLen [49; 48]) 5000 64).

(** The requests, and then another that is answered. *)
Definition asked_then (qs : list request) (m : message)
    : option (list (option message) * ControllerAgent.t policy * RegisterVolumeReplyMsg.t * ControllerAgent.t policy) :=
  match handle_all (fun _ => EmptyString) sample_cfg by_key (ControllerAgent.init NoOp) qs with
  | Ok (replies, s) =>
      match HandleMsg (fun _ => EmptyString) sample_cfg by_key Allocation.sample_env 2 m s with
      | Ok (Some (MRegisterVolumeReply rep), s') => Some (replies, s, rep, s')
      | _ => None
      end
  | Fault _ => None
  end.

Definition ids_of {A B C} (r : option (list (option message) * A * B * C)) : list ServerID :=
  match r with Some (replies, _, _, _) => omap told replies | None => [] end.

Lemma asked_then_some qs m replies s rep s' :
  asked_then qs m = Some (replies, s, rep, s') ->
  handle_all (fun _ => EmptyString) sample_cfg by_key (ControllerAgent.init NoOp) qs = Ok (replies, s) /\
  HandleMsg (fun _ => EmptyString) sample_cfg by_key Allocation.sample_env 2 m s = Ok (Some (MRegisterVolumeReply rep), s').
Proof.
  unfold asked_then. destruct (handle_all _ _ _ _ _) as [[l t]|]; [|done].
  destruct (HandleMsg _ _ _ _ _ _ _) as [[[[]|] t']|] eqn:E; intros H; simplify_eq. done.
Qed.

Lemma volume_sees_servers_witness :
  exists replies s rep s', asked_then sample_requests sample_volume = Some (replies, s, rep, s') /\ omap told replies = [1; 2] /\
    map ServerInfo.id (RegisterVolumeReplyMsg.servers rep) ≡ₚ omap told replies /\
    NoDup (omap told replies) /\ Forall (fun id => 1 <= id < kNumMaxServers) (omap told replies) /\
    RegisterVolumeReplyMsg.vol_id rep ∉ omap told_volume replies.
Proof.
  assert (ids_of (asked_then sample_requests sample_volume) = [1; 2]) as Hids by (vm_compute; reflexivity).
  destruct (asked_then sample_requests sample_volume) as [[[[replies s] rep] s']|] eqn:H; [|discriminate Hids].
  exists replies, s, rep, s'. split; [reflexivity|]. split; [exact Hids|]. apply asked_then_some in H as [Hall Hv].
  apply (volume_sees_servers (fun _ => EmptyString) sample_cfg by_key (fun _ => reflexivity _) NoOp sample_requests replies s Allocation.sample_env 2
    (RegisterVolumeMsg.mk (padded kIPAddrStrLen [49; 48]) 5000 64) rep s'); [exact Hall|exact Hv].
Defined.
End ControllerConnHandler.
