(* ===== verification/Congestion.v ===== *)
(** * Congestion control of the data plane

    [src/sandook/scheduler/data_plane/congestion_control.h]: per server a
    congestion state, the times of the last signal and of the last reaction,
    and a rate limit between [kBestCongestedRateLimit] and
    [kBestUncongestedRateLimit], halved on congestion and increased by a
    constant otherwise. A call is given the readings of the clocks it makes. *)

From S2P Require Import Prelude Float64 FloatInt FloatBound FloatOrder BaseTypes Telemetry.

Local Open Scope Z_scope.

Definition kBestCongestedRateLimit : RateLimit := dlit 1 1000.
Definition kBestUncongestedRateLimit : RateLimit := of_int 1.
Definition kMultiplicativeDecreaseDelta : double := dlit 1 2.
Definition kAdditiveIncreaseDelta : double := dlit 5 100.

Module CongestionControl.

Abbreviation Telemetry := (TelemetryStream.t (T := CongestionControlTelemetry.t)).

Record t := mk {
  vol_id_ : VolumeID;
  servers_ : ServerSet;
  states_ : list ServerCongestionState.t;
  congested_at_ : list Z;
  congestion_responded_at_ : list Z;
  cc_rate_limits_ : list RateLimit;
  telemetry_map_ : list (option Telemetry);
  stop_ : bool;
}.
#[global] Instance settable : Settable t :=
  settable! mk <vol_id_; servers_; states_; congested_at_; congestion_responded_at_;
    cc_rate_limits_; telemetry_map_; stop_>.

Definition n_slots : nat := Z.to_nat kNumMaxServers.

Definition init (vol_id : VolumeID) : t :=
  mk vol_id []
    (replicate n_slots ServerCongestionState.kUnCongested)
    (replicate n_slots 0) (replicate n_slots 0)
    (replicate n_slots kBestUncongestedRateLimit)
    (replicate n_slots None) false.

(** [telemetry_map_.at(server_id)->TraceBuffered(...)]. *)
Definition trace (server_id : ServerID) (obj : CongestionControlTelemetry.t) (s : t) : outcome t :=
  p ← at_ (telemetry_map_ s) server_id;
  stream ← deref p;
  stream' ← TelemetryStream.TraceBuffered obj stream;
  m ← at_put (telemetry_map_ s) server_id (Some stream');
  Ok (s <| telemetry_map_ := m |>).

Definition AddServer (calibrated_time : Z) (server_id : ServerID) (s : t) : outcome (Status unit * t) :=
  m ← at_put (telemetry_map_ s) server_id (Some TelemetryStream.init);
  s1 ← trace server_id
         (CongestionControlTelemetry.mk calibrated_time ServerCongestionState.kUnCongested
            kBestUncongestedRateLimit) (s <| telemetry_map_ := m |>);
  if decide (server_id ∈ servers_ s1) then Ok (MakeError EALREADY, s1)
  else Ok (Value tt, s1 <| servers_ := set_insert server_id (servers_ s1) |>).

(** The two branches that raise the limit. *)
Definition increase (cc_rate_limit : RateLimit) : RateLimit :=
  if (cc_rate_limit =? kBestUncongestedRateLimit)%double then cc_rate_limit
  else dmin kBestUncongestedRateLimit (cc_rate_limit + kAdditiveIncreaseDelta)%double.

(** The branch of a congested server: the new limit, and whether it reacted. *)
Definition decrease (last_reaction congested_since : Z) (cc_rate_limit : RateLimit) : RateLimit * bool :=
  if (cc_rate_limit =? kBestCongestedRateLimit)%double then (cc_rate_limit, false)
  else if congested_since <=? last_reaction then (cc_rate_limit, false)
  else if u64 (congested_since - last_reaction) <? kCongestionControlWindowUs then (cc_rate_limit, false)
  else (dmax kBestCongestedRateLimit (cc_rate_limit * kMultiplicativeDecreaseDelta)%double, true).

(** The switch on the state. *)
Definition react (micro_time : Z) (server_id : ServerID) (state : ServerCongestionState.t)
    (cc_rate_limit : RateLimit) (s : t) : outcome (RateLimit * t) :=
  match state with
  | ServerCongestionState.kUnCongested | ServerCongestionState.kCongestedUnstable =>
      Ok (increase cc_rate_limit, s)
  | ServerCongestionState.kCongested =>
      last_reaction ← at_ (congestion_responded_at_ s) server_id;
      congested_since ← at_ (congested_at_ s) server_id;
      let '(rate, reacted) := decrease last_reaction congested_since cc_rate_limit in
      if (reacted : bool) then
        responded ← at_put (congestion_responded_at_ s) server_id micro_time;
        Ok (rate, s <| congestion_responded_at_ := responded |>)
      else Ok (rate, s)
  | _ => Ok (cc_rate_limit, s)
  end.

Definition UpdateServerRateLimit (micro_time calibrated_time : Z) (server_id : ServerID) (s : t) : outcome t :=
  state ← at_ (states_ s) server_id;
  cc_rate_limit ← at_ (cc_rate_limits_ s) server_id;
  r ← react micro_time server_id state cc_rate_limit s;
  let '(cc_rate_limit, s) := r in
  s ← trace server_id (CongestionControlTelemetry.mk calibrated_time state cc_rate_limit) s;
  rates ← at_put (cc_rate_limits_ s) server_id cc_rate_limit;
  Ok (s <| cc_rate_limits_ := rates |>).

Definition set_congested (now : Z) (server_id : ServerID) (s : t) : outcome t :=
  states ← at_put (states_ s) server_id ServerCongestionState.kCongested;
  times ← at_put (congested_at_ s) server_id now;
  Ok (s <| states_ := states |> <| congested_at_ := times |>).

(** The signal's time is [now]; the reaction reads the clocks again. The state
    is read before and again under the lock: [before] is the first reading. *)
Definition SignalCongested_after (before : ServerCongestionState.t) (now micro_time calibrated_time : Z)
    (server_id : ServerID) (s : t) : outcome t :=
  if decide (before = ServerCongestionState.kUnCongested) then
    cur_state ← at_ (states_ s) server_id;
    if decide (cur_state = ServerCongestionState.kUnCongested) then
      s ← set_congested now server_id s;
      UpdateServerRateLimit micro_time calibrated_time server_id s
    else Ok s
  else set_congested now server_id s.

Definition SignalCongested (now micro_time calibrated_time : Z) (server_id : ServerID) (s : t) : outcome t :=
  before ← at_ (states_ s) server_id;
  SignalCongested_after before now micro_time calibrated_time server_id s.

Definition SetCongestionState (server_id : ServerID) (state : ServerCongestionState.t) (s : t) : outcome t :=
  cur_state ← at_ (states_ s) server_id;
  if decide (cur_state <> ServerCongestionState.kInvalid) then Ok s
  else
    states ← at_put (states_ s) server_id state;
    Ok (s <| states_ := states |>).

Definition GetRateLimit (server_id : ServerID) (s : t) : outcome RateLimit :=
  at_ (cc_rate_limits_ s) server_id.

(** One pass of the periodic thread; the clocks are read once per server. *)
Definition UpdateAllServers (clock : ServerID -> Z * Z) (s : t) : outcome t :=
  ofold (fun s server_id =>
    s ← UpdateServerRateLimit (fst (clock server_id)) (snd (clock server_id)) server_id s;
    states ← at_put (states_ s) server_id ServerCongestionState.kInvalid;
    Ok (s <| states_ := states |>)) s (servers_ s).

(** ** The bounds of the limits *)

Definition rate_ok (r : RateLimit) : Prop :=
  regular r /\ dle kBestCongestedRateLimit r = true /\ dle r kBestUncongestedRateLimit = true.

Lemma regular_congested : regular kBestCongestedRateLimit.
Proof. apply is_regular_sound. vm_compute. reflexivity. Qed.
Lemma regular_uncongested : regular kBestUncongestedRateLimit.
Proof. apply is_regular_sound. vm_compute. reflexivity. Qed.
Lemma regular_delta : regular kAdditiveIncreaseDelta.
Proof. apply is_regular_sound. vm_compute. reflexivity. Qed.
Lemma half_delta : kMultiplicativeDecreaseDelta = S754_finite false (2 ^ 52) (-53).
Proof. vm_compute. reflexivity. Qed.
Lemma rate_ok_uncongested : rate_ok kBestUncongestedRateLimit.
Proof. vm_compute. split_and!; (reflexivity || discriminate). Qed.
Lemma rate_ok_congested : rate_ok kBestCongestedRateLimit.
Proof. vm_compute. split_and!; (reflexivity || discriminate). Qed.

#[local] Opaque kBestCongestedRateLimit kBestUncongestedRateLimit kAdditiveIncreaseDelta
  kMultiplicativeDecreaseDelta regular scaled.
#[local] Hint Resolve regular_congested regular_uncongested regular_delta : core.

Lemma rate_ok_scaled r :
  rate_ok r <-> regular r /\ scaled kBestCongestedRateLimit <= scaled r <= scaled kBestUncongestedRateLimit.
Proof.
  unfold rate_ok. split; intros (Hr & H1 & H2); split_and!; try assumption; apply dle_regular; auto.
Qed.

(** Raising the limit: capped above, otherwise above every double below the
    exact sum. *)
Lemma increase_ge r z :
  rate_ok r -> regular z -> scaled z <= scaled r + scaled kAdditiveIncreaseDelta ->
  rate_ok (increase r) /\ Z.min (scaled kBestUncongestedRateLimit) (scaled z) <= scaled (increase r).
Proof.
  intros Hr Hz Hle. pose proof (proj1 (rate_ok_scaled r) Hr) as (Hreg & Hlo & Hhi). unfold increase.
  destruct (r =? kBestUncongestedRateLimit)%double eqn:E.
  { apply deq_regular in E; [|auto..]. subst r. split; [assumption|lia]. }
  destruct (dadd_ge r kAdditiveIncreaseDelta z) as [->|[Hreg' Hge]]; [auto..| |].
  { rewrite dmin_infinity by auto. split; [apply rate_ok_uncongested|lia]. }
  destruct (dadd_ge r kAdditiveIncreaseDelta r) as [Ei|[_ Hge']]; [auto..| | |].
  { pose proof (scaled_nonneg kAdditiveIncreaseDelta). lia. }
  { by rewrite Ei in Hreg'. }
  destruct (dmin_regular kBestUncongestedRateLimit (r + kAdditiveIncreaseDelta)%double) as [Hm Hv]; [auto..|].
  rewrite rate_ok_scaled, Hv. split_and!; [assumption|lia..].
Qed.

Lemma increase_ok r : rate_ok r -> rate_ok (increase r).
Proof.
  intros Hr. apply (increase_ge r kAdditiveIncreaseDelta); [auto..|].
  pose proof (scaled_nonneg r). lia.
Qed.

Lemma decrease_ok last since r : rate_ok r -> rate_ok (fst (decrease last since r)).
Proof.
  intros Hr. pose proof (proj1 (rate_ok_scaled r) Hr) as (Hreg & Hlo & Hhi). unfold decrease.
  repeat case_match; try exact Hr. unfold fst.
  rewrite half_delta.
  destruct (dmul_le r (2 ^ 52) (-53)) as [Hx|[Hreg' Hle]]; [auto|lia|vm_compute; discriminate..| |].
  - rewrite Hx, dmax_zero by auto. apply rate_ok_congested.
  - set (x := (r * _)%double) in *.
    destruct (dmax_regular kBestCongestedRateLimit x) as [Hm Hv]; [auto..|].
    rewrite rate_ok_scaled, Hv. pose proof (proj1 (rate_ok_scaled _) rate_ok_congested). split; [assumption|lia].
Qed.

(** ** Well-formed states *)

Definition stream_ok (p : option Telemetry) : Prop :=
  match p with Some st => 0 <= TelemetryStream.buf_idx_ st <= kMaxBufferEntries | None => True end.

Definition registered (s : t) (id : ServerID) : Prop :=
  0 <= id < kNumMaxServers /\ exists st, at_ (telemetry_map_ s) id = Ok (Some st).

Record wf (s : t) : Prop := {
  wf_states : length (states_ s) = n_slots;
  wf_congested : length (congested_at_ s) = n_slots;
  wf_responded : length (congestion_responded_at_ s) = n_slots;
  wf_rates : length (cc_rate_limits_ s) = n_slots;
  wf_telemetry : length (telemetry_map_ s) = n_slots;
  wf_streams : Forall stream_ok (telemetry_map_ s);
  wf_bounded : Forall rate_ok (cc_rate_limits_ s);
  wf_servers : Forall (registered s) (servers_ s);
  wf_sorted : StronglySorted Z.lt (servers_ s);
}.

Lemma cc_wf_init vol_id : wf (init vol_id).
Proof.
  constructor; cbn [init states_ congested_at_ congestion_responded_at_ cc_rate_limits_
    telemetry_map_ servers_]; try apply length_replicate.
  - by apply Forall_replicate.
  - apply Forall_replicate, rate_ok_uncongested.
  - constructor.
  - constructor.
Qed.

(** A server's slot in the four tables. *)
Definition slot (s : t) (id : ServerID) (state : ServerCongestionState.t) (last since : Z) (r : RateLimit) : Prop :=
  at_ (states_ s) id = Ok state /\ at_ (congestion_responded_at_ s) id = Ok last /\
  at_ (congested_at_ s) id = Ok since /\ at_ (cc_rate_limits_ s) id = Ok r.

(** What a call on one server leaves of the others. *)
Definition same_but (s s' : t) (id : ServerID) : Prop :=
  servers_ s' = servers_ s /\
  (forall j state last since r, j <> id -> slot s j state last since r -> slot s' j state last since r) /\
  (forall j, registered s j -> registered s' j).

Lemma trace_total id obj s :
  wf s -> registered s id ->
  exists m, trace id obj s = Ok (s <| telemetry_map_ := m |>) /\
    wf (s <| telemetry_map_ := m |>) /\
    forall j, registered s j -> registered (s <| telemetry_map_ := m |>) j.
Proof.
  intros Hwf (Hid & st & Hst). unfold trace. rewrite Hst. simpl.
  pose proof (wf_streams s Hwf) as Hall. pose proof (proj1 (at_Ok _ _ _) Hst) as (_ & Hl).
  pose proof (Forall_lookup_1 _ _ _ _ Hall Hl) as Hok. simpl in Hok.
  destruct (TelemetryStream.TraceBuffered_total obj st Hok) as (st' & -> & Hok'). simpl.
  pose proof (wf_telemetry s Hwf) as Hlen. unfold n_slots in Hlen.
  destruct (at_put (telemetry_map_ s) id (Some st')) as [m|] eqn:Em.
  2:{ exfalso. rewrite at_put_in_range in Em by lia. done. }
  exists m. simpl. split; [done|].
  assert (forall j, registered s j -> registered (s <| telemetry_map_ := m |>) j) as Hreg.
  { intros j (Hj & stj & Hstj). split; [done|]. simpl. destruct (decide (j = id)) as [->|Hne].
    - exists st'. by eapply at_put_eq.
    - exists stj. by rewrite (at_put_ne _ _ _ _ _ Em). }
  split; [|done]. destruct Hwf. constructor; simpl; try assumption.
  - by rewrite (at_put_length _ _ _ _ Em).
  - apply at_put_Ok in Em as (_ & ->). by apply Forall_insert.
  - eapply Forall_impl; [eassumption|done].
Qed.

(** The rule: the limit a server's state and times give it. *)
Definition new_rate (state : ServerCongestionState.t) (last since : Z) (r : RateLimit) : RateLimit :=
  match state with
  | ServerCongestionState.kUnCongested | ServerCongestionState.kCongestedUnstable => increase r
  | ServerCongestionState.kCongested => fst (decrease last since r)
  | _ => r
  end.

Definition reacts (state : ServerCongestionState.t) (last since : Z) (r : RateLimit) : bool :=
  match state with ServerCongestionState.kCongested => snd (decrease last since r) | _ => false end.

Lemma new_rate_ok state last since r : rate_ok r -> rate_ok (new_rate state last since r).
Proof. intros. destruct state; simpl; auto using increase_ok, decrease_ok. Qed.

Lemma in_slots {A} (l : list A) id :
  length l = n_slots -> 0 <= id < kNumMaxServers -> 0 <= id < Z.of_nat (length l).
Proof. intros ->. unfold n_slots. lia. Qed.

Lemma wf_put_rates s id r rates :
  wf s -> rate_ok r -> at_put (cc_rate_limits_ s) id r = Ok rates -> wf (s <| cc_rate_limits_ := rates |>).
Proof.
  intros [] Hr Hp. constructor; simpl; try assumption.
  - by rewrite (at_put_length _ _ _ _ Hp).
  - apply at_put_Ok in Hp as (_ & ->). by apply Forall_insert.
Qed.

Lemma wf_put_states s id x states :
  wf s -> at_put (states_ s) id x = Ok states -> wf (s <| states_ := states |>).
Proof.
  intros [] Hp. constructor; simpl; try assumption. by rewrite (at_put_length _ _ _ _ Hp).
Qed.

Lemma wf_put_responded s id x l :
  wf s -> at_put (congestion_responded_at_ s) id x = Ok l -> wf (s <| congestion_responded_at_ := l |>).
Proof.
  intros [] Hp. constructor; simpl; try assumption. by rewrite (at_put_length _ _ _ _ Hp).
Qed.

Lemma wf_put_congested s id x l :
  wf s -> at_put (congested_at_ s) id x = Ok l -> wf (s <| congested_at_ := l |>).
Proof.
  intros [] Hp. constructor; simpl; try assumption. by rewrite (at_put_length _ _ _ _ Hp).
Qed.

Lemma slot_exists s id :
  wf s -> 0 <= id < kNumMaxServers -> exists state last since r, slot s id state last since r /\ rate_ok r.
Proof.
  intros Hwf Hid. destruct Hwf as [H1 H2 H3 H4 _ _ Hr _].
  destruct (at_in_range (states_ s) id) as [state ?]; [by apply in_slots|].
  destruct (at_in_range (congestion_responded_at_ s) id) as [last ?]; [by apply in_slots|].
  destruct (at_in_range (congested_at_ s) id) as [since ?]; [by apply in_slots|].
  destruct (at_in_range (cc_rate_limits_ s) id) as [r Hat]; [by apply in_slots|].
  exists state, last, since, r. split; [by split_and!|].
  apply at_Ok in Hat as (_ & Hl). by apply (Forall_lookup_1 _ _ _ _ Hr Hl).
Qed.

Lemma slot_inj s id st la si r st' la' si' r' :
  slot s id st la si r -> slot s id st' la' si' r' -> st = st' /\ la = la' /\ si = si' /\ r = r'.
Proof. unfold slot. intros (-> & -> & -> & ->) (? & ? & ? & ?). by simplify_eq. Qed.

Lemma put_slot {A} (l : list A) id a :
  length l = n_slots -> 0 <= id < kNumMaxServers -> exists l', at_put l id a = Ok l'.
Proof. intros H Hid. eexists. apply at_put_in_range. by apply in_slots. Qed.

Lemma react_spec mt id s state last since r :
  wf s -> 0 <= id < kNumMaxServers -> slot s id state last since r ->
  exists l, let s1 := s <| congestion_responded_at_ := l |> in
    react mt id state r s = Ok (new_rate state last since r, s1) /\ wf s1 /\
    at_ l id = Ok (if reacts state last since r then mt else last) /\
    (forall j, j <> id -> at_ l j = at_ (congestion_responded_at_ s) j).
Proof.
  intros Hwf Hid (_ & Hl & Hc & _).
  unfold react, new_rate, reacts.
  destruct state; try (exists (congestion_responded_at_ s); by destruct s).
  rewrite Hl, Hc. simpl. destruct (decrease last since r) as [rate [|]] eqn:Ed; simpl.
  - destruct (put_slot (congestion_responded_at_ s) id mt) as [l Hp]; [apply Hwf|done|].
    exists l. rewrite Hp. split; [done|]. split; [by eapply wf_put_responded|].
    split; [by eapply at_put_eq|]. intros j ?. by apply (at_put_ne _ _ _ _ _ Hp).
  - exists (congestion_responded_at_ s). by destruct s.
Qed.

Lemma UpdateServerRateLimit_spec mt cal id s state last since r :
  wf s -> registered s id -> slot s id state last since r -> rate_ok r ->
  exists s', UpdateServerRateLimit mt cal id s = Ok s' /\ wf s' /\ same_but s s' id /\
    states_ s' = states_ s /\ congested_at_ s' = congested_at_ s /\
    slot s' id state (if reacts state last since r then mt else last) since (new_rate state last since r).
Proof.
  intros Hwf Hreg Hslot Hok. pose proof Hreg as [Hid _]. pose proof Hslot as (Hs & _ & Hc & Hr).
  destruct (react_spec mt id s state last since r) as (l & Hreact & Hwf1 & Hl1 & Hlne); [done..|].
  set (s1 := s <| congestion_responded_at_ := l |>) in *. set (rate' := new_rate state last since r) in *.
  destruct (trace_total id (CongestionControlTelemetry.mk cal state rate') s1) as (m & Htr & Hwf2 & Hreg2);
    [done..|].
  set (s2 := s1 <| telemetry_map_ := m |>) in *.
  destruct (put_slot (cc_rate_limits_ s2) id rate') as [rates Hp]; [apply Hwf2|done|].
  assert (wf (s2 <| cc_rate_limits_ := rates |>)) as Hwf3.
  { eapply wf_put_rates; [done| |done]. by apply new_rate_ok. }
  exists (s2 <| cc_rate_limits_ := rates |>).
  unfold UpdateServerRateLimit. rewrite Hs, Hr. simpl. rewrite Hreact. simpl. rewrite Htr. simpl.
  split; [unfold s2, s1 in Hp; simpl in Hp; by rewrite Hp|].
  split; [done|]. clear Hwf1 Hwf2 Hwf3. subst s2 s1. simpl in *. split_and!; try done.
  - split_and!; try done. intros j st' la' si' r' Hj (? & ? & ? & ?). split_and!; simpl; try done.
    + by rewrite Hlne.
    + by rewrite (at_put_ne _ _ _ _ _ Hp).
  - split_and!; simpl; try done. by eapply at_put_eq.
Qed.

(** ** The periodic pass *)

Lemma UpdateAllServers_slots clock s :
  wf s ->
  exists s', UpdateAllServers clock s = Ok s' /\ wf s' /\ servers_ s' = servers_ s /\
  (forall j, registered s j -> registered s' j) /\
  forall id state last since r, slot s id state last since r ->
    if decide (id ∈ servers_ s)
    then slot s' id ServerCongestionState.kInvalid
           (if reacts state last since r then fst (clock id) else last) since
           (new_rate state last since r)
    else slot s' id state last since r.
Proof.
  intros Hwf. pose proof (sorted_NoDup _ (wf_sorted s Hwf)) as Hnd.
  set (P := fun (seen : list ServerID) s' => wf s' /\ servers_ s' = servers_ s /\
    (forall j, registered s j -> registered s' j) /\
    forall id state last since r, slot s id state last since r ->
    if decide (id ∈ seen)
    then slot s' id ServerCongestionState.kInvalid
           (if reacts state last since r then fst (clock id) else last) since
           (new_rate state last since r)
    else slot s' id state last since r).
  destruct (ofold_total P (fun s server_id =>
    s ← UpdateServerRateLimit (fst (clock server_id)) (snd (clock server_id)) server_id s;
    states ← at_put (states_ s) server_id ServerCongestionState.kInvalid;
    Ok (s <| states_ := states |>)) (servers_ s) s) as (s' & Hrun & HP); [| |by exists s'].
  { by split_and!. }
  intros seen id rest s1 Heq (Hwf1 & Hsv & Hreg1 & Hslots).
  assert (id ∉ seen) as Hnew.
  { rewrite Heq in Hnd. apply NoDup_app in Hnd as (_ & Hd & _). intros Hin. apply (Hd id Hin). by left. }
  assert (registered s id) as Hreg.
  { pose proof (wf_servers s Hwf) as Hall. rewrite Forall_forall in Hall. apply Hall. rewrite Heq. set_solver. }
  destruct (slot_exists s id Hwf) as (state & last & since & r & Hsl & Hrok); [apply Hreg|].
  pose proof (Hslots _ _ _ _ _ Hsl) as Hsl1. rewrite decide_False in Hsl1 by done.
  destruct (UpdateServerRateLimit_spec (fst (clock id)) (snd (clock id)) id s1 state last since r)
    as (s2 & -> & Hwf2 & (Hsv2 & Hoth & Hreg2) & Hst2 & _ & Hsl2); [auto..|]. simpl.
  destruct (put_slot (states_ s2) id ServerCongestionState.kInvalid) as [states Hp]; [apply Hwf2|apply Hreg|].
  rewrite Hp. simpl. eexists. split; [done|].
  split; [by eapply (wf_put_states s2)|]. split_and!; simpl; [congruence|intros j Hj; exact (Hreg2 j (Hreg1 j Hj))|].
  intros j st la si rr Hj. destruct (decide (j = id)) as [->|Hne].
  - rewrite decide_True by set_solver. destruct (slot_inj _ _ _ _ _ _ _ _ _ _ Hsl Hj) as (-> & -> & -> & ->).
    destruct Hsl2 as (_ & C2 & C3 & C4).
    split; [by eapply at_put_eq|by split_and!].
  - specialize (Hslots _ _ _ _ _ Hj).
    destruct (decide (j ∈ seen)) as [Hin|Hnin]; [rewrite decide_True by set_solver|rewrite decide_False by set_solver];
      apply (Hoth _ _ _ _ _ Hne) in Hslots as (C1 & C2 & C3 & C4); split_and!; try done;
      simpl; by rewrite (at_put_ne _ _ _ _ _ Hp).
Qed.

(** ** Runs

    The calls of all threads, in the order of their effects. A signal is two
    steps of the code: the state it read before taking the lock may be any. *)
Inductive event :=
| EAddServer (server_id : ServerID) (calibrated_time : Z)
| ESignal (before : ServerCongestionState.t) (server_id : ServerID) (now micro_time calibrated_time : Z)
| ESetState (server_id : ServerID) (state : ServerCongestionState.t)
| ETick (clock : ServerID -> Z * Z).

Definition exec (s : t) (e : event) : outcome t :=
  match e with
  | EAddServer id cal => r ← AddServer cal id s; Ok (snd r)
  | ESignal before id now mt cal => SignalCongested_after before now mt cal id s
  | ESetState id state => SetCongestionState id state s
  | ETick clock => UpdateAllServers clock s
  end.

Lemma cc_AddServer_wf cal id s r s' : wf s -> AddServer cal id s = Ok (r, s') -> wf s'.
Proof.
  intros Hwf H. unfold AddServer in H. simplify_outcome.
  pose proof (at_put_length _ _ _ _ Hrun) as Hlen. pose proof (at_put_eq _ _ _ _ Hrun) as Hat.
  pose proof Hrun as (Hid & Hm)%at_put_Ok.
  assert (forall j, registered s j -> registered (s <| telemetry_map_ := v |>) j) as Hmono.
  { intros j (Hj & st & Hst). split; [done|]. simpl. destruct (decide (j = id)) as [->|Hne].
    - by exists TelemetryStream.init.
    - exists st. by rewrite (at_put_ne _ _ _ _ _ Hrun) by congruence. }
  assert (wf (s <| telemetry_map_ := v |>)) as Hwf1.
  { destruct Hwf. constructor; simpl; try done; [congruence| |].
    - subst v. apply Forall_insert; [done|]. by split; vm_compute.
    - eapply Forall_impl; [eassumption|exact Hmono]. }
  assert (registered (s <| telemetry_map_ := v |>) id) as Hreg.
  { split; [|by exists TelemetryStream.init]. pose proof (wf_telemetry s Hwf). unfold n_slots in *. lia. }
  destruct (trace_total id (CongestionControlTelemetry.mk cal ServerCongestionState.kUnCongested
    kBestUncongestedRateLimit) _ Hwf1 Hreg) as (m & Htr & Hwf2 & Hreg2).
  simpl in Htr, Hwf2, Hreg2. rewrite Htr in Hrun0. simplify_eq. case_decide; simplify_outcome; [done|].
  destruct Hwf2. constructor; simpl in *; try done.
  - rewrite Forall_forall in *. intros j [->|Hj]%elem_of_set_insert; [exact (Hreg2 _ Hreg)|].
    exact (wf_servers0 j Hj).
  - by apply set_insert_sorted.
Qed.

Lemma set_congested_wf now id s s' : wf s -> set_congested now id s = Ok s' -> wf s' /\ servers_ s' = servers_ s.
Proof.
  intros Hwf H. unfold set_congested in H. simplify_outcome. split; [|done].
  pose proof (wf_put_states _ _ _ _ Hwf Hrun) as H1.
  by apply (wf_put_congested _ _ _ _ H1) in Hrun0.
Qed.

(** An update that returned is one of a server with a stream. *)
Lemma UpdateServerRateLimit_wf mt cal id s s' :
  wf s -> UpdateServerRateLimit mt cal id s = Ok s' -> wf s'.
Proof.
  intros Hwf H. assert (registered s id) as Hreg.
  { unfold UpdateServerRateLimit in H. simplify_outcome. apply at_Ok in Hrun as (Hid & Hl).
    apply lookup_lt_Some in Hl. rewrite (wf_states s Hwf) in Hl. unfold n_slots in Hl.
    split; [lia|]. destruct v1 as [rate s1]. simplify_outcome. unfold trace in *. simplify_outcome.
    rewrite deref_Ok in *. subst.
    match goal with Ht : at_ (telemetry_map_ s1) id = Ok (Some ?x) |- _ => exists x; rewrite <- Ht end. f_equal.
    unfold react in *. repeat case_match; simplify_outcome; try done; by repeat case_match; simplify_outcome. }
  destruct (slot_exists s id Hwf) as (st & la & si & r & Hsl & Hok); [apply Hreg|].
  destruct (UpdateServerRateLimit_spec mt cal id s st la si r) as (s2 & E & Hwf2 & _); [done..|].
  rewrite E in H. by simplify_eq.
Qed.

Lemma cc_exec_wf s e s' : wf s -> exec s e = Ok s' -> wf s'.
Proof.
  intros Hwf H. destruct e as [id cal|before id now mt cal|id state|clock]; simpl in H.
  - simplify_outcome. destruct v as [r s1]. by eapply cc_AddServer_wf.
  - unfold SignalCongested_after in H.
    case_decide; [|by eapply set_congested_wf]. simplify_outcome. case_decide; simplify_outcome; [|done].
    eapply UpdateServerRateLimit_wf; [|done]. by eapply set_congested_wf.
  - unfold SetCongestionState in H. simplify_outcome. case_decide; simplify_outcome; [done|].
    by eapply wf_put_states.
  - destruct (UpdateAllServers_slots clock s Hwf) as (s2 & E & Hwf2 & _).
    rewrite E in H. by simplify_eq.
Qed.

Lemma cc_run_wf es s s' : wf s -> ofold exec s es = Ok s' -> wf s'.
Proof.
  intros Hwf. apply (ofold_ind (fun _ => wf) exec es s s'); [done|].
  intros. by eapply cc_exec_wf.
Qed.

(** ** Properties *)

(** C6: Whatever the order of registrations, signals, reports and periodic passes,
    every rate limit stays between [kBestCongestedRateLimit] and
    [kBestUncongestedRateLimit], in IEEE arithmetic. *)
Theorem rate_limits_bounded vol_id es s id r :
  ofold exec (init vol_id) es = Ok s -> GetRateLimit id s = Ok r ->
  dle kBestCongestedRateLimit r = true /\ dle r kBestUncongestedRateLimit = true.
Proof.
  intros Hrun Hr. pose proof (cc_run_wf _ _ _ (cc_wf_init vol_id) Hrun) as Hwf.
  apply at_Ok in Hr as (_ & Hl). by destruct (Forall_lookup_1 _ _ _ _ (wf_bounded s Hwf) Hl) as (_ & ? & ?).
Qed.

(** C24: On a state reached by such a run, the periodic pass returns; it applies
    the rule once to every registered server and invalidates its state, so that
    the next report sets it, and leaves the servers that are not registered. *)
Theorem UpdateAllServers_spec vol_id es s clock :
  ofold exec (init vol_id) es = Ok s ->
  exists s', UpdateAllServers clock s = Ok s' /\ servers_ s' = servers_ s /\
  forall id state last since r, slot s id state last since r ->
    if decide (id ∈ servers_ s)
    then slot s' id ServerCongestionState.kInvalid
           (if reacts state last since r then fst (clock id) else last) since
           (new_rate state last since r)
    else slot s' id state last since r.
Proof.
  intros Hrun. destruct (UpdateAllServers_slots clock s) as (s' & E & _ & Hsv & _ & Hsl);
    [by eapply cc_run_wf; [apply cc_wf_init|]|]. by exists s'.
Qed.

(** The doubles [3k/64], which the limit passes one by one. *)
Definition milestone (k : Z) : double := dlit (3 * k) 64.

Lemma milestones :
  forallb (fun k => is_regular (milestone k) && (scaled (milestone k) =? k * scaled (milestone 1)))
    (zrange 1 21) = true.
Proof. vm_compute. reflexivity. Qed.

Lemma milestone_delta : scaled (milestone 1) <= scaled kAdditiveIncreaseDelta.
Proof. vm_compute. discriminate. Qed.

Lemma milestone_last : scaled kBestUncongestedRateLimit <= 21 * scaled (milestone 1) + scaled (milestone 1).
Proof. vm_compute. discriminate. Qed.

#[local] Opaque milestone.

Lemma milestone_reached k r :
  (k <= 21)%nat -> rate_ok r ->
  rate_ok (Nat.iter k increase r) /\
  Z.min (scaled kBestUncongestedRateLimit) (Z.of_nat k * scaled (milestone 1)) <= scaled (Nat.iter k increase r).
Proof.
  intros Hk Hr. induction k as [|k IH].
  { split; [exact Hr|]. pose proof (scaled_nonneg r). simpl Nat.iter. lia. }
  destruct IH as [Hok Hge]; [lia|]. rewrite Nat.iter_succ.
  pose proof (proj1 (forallb_forall _ _) milestones (Z.of_nat (S k))) as Hms.
  rewrite <- list_elem_of_In, elem_of_zrange, andb_true_iff, Z.eqb_eq in Hms.
  destruct (Hms ltac:(lia)) as [Hreg%is_regular_sound Hval].
  set (x := Nat.iter k increase r) in *. pose proof milestone_delta.
  destruct (decide (scaled kBestUncongestedRateLimit <= scaled x)) as [Hcap|Hlt].
  - destruct (increase_ge x x) as [Hok' Hge']; [auto..|apply Hok| |].
    { pose proof (scaled_nonneg kAdditiveIncreaseDelta). lia. }
    split; [exact Hok'|lia].
  - destruct (increase_ge x (milestone (Z.of_nat (S k)))) as [Hok' Hge']; [auto..| |].
    { rewrite Hval. lia. }
    split; [exact Hok'|]. rewrite <- Hval. exact Hge'.
Qed.

Lemma iter_uncongested n last since r :
  Nat.iter n (new_rate ServerCongestionState.kUnCongested last since) r = Nat.iter n increase r.
Proof. induction n as [|n IH]; [reflexivity|]. rewrite !Nat.iter_succ, IH. reflexivity. Qed.


(** A server registers, is signalled twice and is updated. *)
Definition sample_run : list event :=
  [EAddServer 1 5; EAddServer 2 6;
   ESignal ServerCongestionState.kUnCongested 1 60000 60001 60002;
   ETick (fun _ => (70000, 70001));
   ESetState 1 ServerCongestionState.kCongested;
   ESignal ServerCongestionState.kCongested 1 120000 120001 120002;
   ETick (fun _ => (130000, 130001))].

Lemma rate_limits_bounded_witness :
  exists s r, ofold exec (init 7) sample_run = Ok s /\ GetRateLimit 1 s = Ok r /\ r = dlit 1 4 /\
    dle kBestCongestedRateLimit r = true /\ dle r kBestUncongestedRateLimit = true.
Proof.
  eexists _, _. split; [vm_compute; reflexivity|]. split; [vm_compute; reflexivity|].
  split; [vm_compute; reflexivity|].
  eapply (rate_limits_bounded 7 sample_run _ 1); vm_compute; reflexivity.
Defined.

Lemma UpdateAllServers_spec_witness :
  exists s s', ofold exec (init 7) sample_run = Ok s /\
    UpdateAllServers (fun _ => (200000, 200001)) s = Ok s' /\ servers_ s' = servers_ s.
Proof.
  eexists. assert (Hrun : ofold exec (init 7) sample_run = Ok _) by (vm_compute; reflexivity).
  destruct (UpdateAllServers_spec 7 sample_run _ (fun _ => (200000, 200001)) Hrun) as (s' & H1 & H2 & _).
  exists s'. split; [exact Hrun|]. split; [exact H1|exact H2].
Defined.


End CongestionControl.
