(* ===== verification/DataPlane.v ===== *)
(** * The data-plane scheduler

    [src/sandook/scheduler/data_plane]: [common.h], [server_stats_manager.h],
    the read policies [random_read.h] and [weighted_read.h], the write policies
    [random_write.h], [weighted_write.h] and [hash_write.h], their combinations
    and [scheduler.h]. What a scheduler needs of a policy is the classes
    [BaseReadScheduler] and [BaseWriteScheduler] with their laws; every policy
    is an instance. The engines and distributions of [<random>] are a class
    with the laws the C++ standard gives them. The
    assertions, which a Release build leaves out, are left out. *)

From S2P Require Import Prelude Float64 FloatInt FloatBound FloatOrder BaseTypes Telemetry Configuration Congestion.

Local Open Scope Z_scope.

(** ** Random choices

    [G] is the state of an engine. A distribution over weights needs weights
    that are finite, not negative and not all zero. *)

Class RandomSource (G : Type) := {
  uniform_int : Z -> Z -> G -> Z * G;
  discrete : list double -> G -> Z * G;
  sample : list Z -> nat -> G -> list Z * G;
}.

(** [std::hash<uint64_t>]. *)
Class StdHash := std_hash : Z -> Z.

Definition weight_ok (w : double) : bool := is_finite w && (of_int 0 <=? w)%double.
Definition weights_ok (ws : list double) : bool :=
  forallb weight_ok ws && existsb (fun w => (of_int 0 <? w)%double) ws.

Class RandomLaws (G : Type) `{!RandomSource G} : Prop := {
  uniform_int_range a b g : a <= b -> a <= fst (uniform_int a b g) <= b;
  discrete_range ws g : weights_ok ws = true -> 0 <= fst (discrete ws g) < Z.of_nat (length ws);
  sample_sublist l n g : fst (sample l n g) `sublist_of` l;
  sample_length l n g : length (fst (sample l n g)) = Nat.min n (length l);
}.

(** [std::discrete_distribution<> dist(ws.begin(), ws.end()); dist(gen)]. *)
Definition draw {G} `{!RandomSource G} (ws : list double) (g : G) : outcome (Z * G) :=
  require (weights_ok ws) Undefined;; Ok (discrete ws g).

(** ** common.h *)

Definition GetValidServers (weights : ServerWeights) : outcome ServerSet :=
  ofold (fun valid_servers i =>
    w ← at_ weights i;
    Ok (if (w =? kInvalidServerWeight)%double then valid_servers else set_insert i valid_servers))
    [] (zrange (kInvalidServerID + 1) (Z.to_nat (Z.of_nat (length weights) - (kInvalidServerID + 1)))).

(** [std::ranges::set_intersection] of two increasing sequences. *)
Fixpoint set_intersection (l1 : list Z) : list Z -> list Z :=
  match l1 with
  | [] => fun _ => []
  | x :: l1' =>
      fix go l2 :=
        match l2 with
        | [] => []
        | y :: l2' =>
            if x <? y then set_intersection l1' l2
            else if y <? x then go l2'
            else x :: set_intersection l1' l2'
        end
  end.

(** [std::set::erase] of the element at an iterator. *)
Definition erase_at (l : list Z) (i : nat) : list Z := take i l ++ drop (S i) l.

(** [*std::next(s.begin(), i)]: undefined at or past the end. *)
Definition set_at (l : list Z) (i : Z) : outcome Z := deref (l !! Z.to_nat i).

(** [std::fill] from an index to the end. *)
Definition fill_from {A} (l : list A) (n : nat) (a : A) : list A := take n l ++ replicate (length l - n) a.

(** [std::copy] onto the beginning of an array: undefined past its end. *)
Definition copy_to {A} (src dst : list A) : outcome (list A) :=
  require (Nat.leb (length src) (length dst)) Undefined;;
  Ok (src ++ drop (length src) dst).

(** A value-initialised [ServerReplicaList]. *)
Definition no_replicas : ServerReplicaList := replicate (Z.to_nat kNumReplicas) kInvalidServerID.

(** ** The interfaces *)

Class BaseReadScheduler (R : Type) :=
  SelectReadServer : ServerWeights -> ServerSet -> VolumeID -> IODesc.t -> R -> outcome (Status ServerID * R).

Class BaseWriteScheduler (W : Type) :=
  SelectWriteReplicas : ServerWeights -> VolumeID -> IODesc.t -> W -> outcome (Status ServerReplicaList * W).

(** The weights of chosen servers, in their order. *)
Definition weights_of (weights : ServerWeights) (choices : list ServerID) : outcome (list double) :=
  ofold (fun acc choice => w ← at_ weights choice; Ok (acc ++ [w])) [] choices.

(** ** The read policies *)

Module RandomRead.
Record t (G : Type) := mk { rand_gen_ : G }.
Arguments mk {G} rand_gen_.
Arguments rand_gen_ {G} _.

Definition select {G} `{!RandomSource G} (weights : ServerWeights) (subset : ServerSet)
    (vol_id : VolumeID) (iod : IODesc.t) (s : t G) : outcome (Status ServerID * t G) :=
  servers ← GetValidServers weights;
  let choices := set_intersection servers subset in
  if decide (choices = []) then Ok (MakeError ENOENT, s)
  else
    let n_choices := Z.of_nat (length choices) in
    let '(idx, g) := uniform_int 0 (n_choices - 1) (rand_gen_ s) in
    chosen ← at_ choices idx;
    Ok (Value chosen, mk g).

#[global] Instance scheduler {G} `{!RandomSource G} : BaseReadScheduler (t G) := select.
End RandomRead.

Module WeightedRead.
Record t (G : Type) := mk { rand_gen_ : G }.
Arguments mk {G} rand_gen_.
Arguments rand_gen_ {G} _.

Definition select {G} `{!RandomSource G} (weights : ServerWeights) (subset : ServerSet)
    (vol_id : VolumeID) (iod : IODesc.t) (s : t G) : outcome (Status ServerID * t G) :=
  servers ← GetValidServers weights;
  let choices := set_intersection servers subset in
  if decide (choices = []) then Ok (MakeError ENOENT, s)
  else
    t_weights ← weights_of weights choices;
    d ← draw t_weights (rand_gen_ s);
    let '(idx, g) := d in
    chosen ← at_ choices idx;
    Ok (Value chosen, mk g).

#[global] Instance scheduler {G} `{!RandomSource G} : BaseReadScheduler (t G) := select.
End WeightedRead.

(** ** The write policies *)

Module RandomWrite.
Record t (G : Type) := mk { rand_gen_ : G }.
Arguments mk {G} rand_gen_.
Arguments rand_gen_ {G} _.

(** The sample, and the first server again where there are too few. *)
Definition sample_or_default {G} `{!RandomSource G} (servers : ServerSet) (n_samples : nat) (g : G)
    : outcome (ServerReplicaList * G) :=
  let '(picked, g') := sample servers n_samples g in
  replicas ← copy_to picked no_replicas;
  if Nat.ltb n_samples (Z.to_nat kNumReplicas) then
    def ← at_ replicas 0;
    Ok (fill_from replicas n_samples def, g')
  else Ok (replicas, g').

Definition select {G} `{!RandomSource G} (weights : ServerWeights)
    (vol_id : VolumeID) (iod : IODesc.t) (s : t G) : outcome (Status ServerReplicaList * t G) :=
  servers ← GetValidServers weights;
  if decide (length servers = Z.to_nat kNumReplicas) then
    replicas ← copy_to servers no_replicas;
    Ok (Value replicas, s)
  else
    let n_samples := Nat.min (length servers) (Z.to_nat kNumReplicas) in
    r ← sample_or_default servers n_samples (rand_gen_ s);
    let '(replicas, g) := r in
    Ok (Value replicas, mk g).

#[global] Instance scheduler {G} `{!RandomSource G} : BaseWriteScheduler (t G) := select.
End RandomWrite.

Module WeightedWrite.
Record t (G : Type) := mk { rand_gen_ : G }.
Arguments mk {G} rand_gen_.
Arguments rand_gen_ {G} _.

(** The loop body: draw a server that is left, by weight, and take it out. *)
Definition pick {G} `{!RandomSource G} (weights : ServerWeights)
    (st : ServerReplicaList * ServerSet * G) (i : Z) : outcome (ServerReplicaList * ServerSet * G) :=
  let '(replicas, unique_servers, g) := st in
  t_weights ← weights_of weights unique_servers;
  d ← draw t_weights g;
  let '(idx, g') := d in
  choice ← set_at unique_servers idx;
  replicas' ← at_put replicas i choice;
  Ok (replicas', erase_at unique_servers (Z.to_nat idx), g').

Definition select {G} `{!RandomSource G} (weights : ServerWeights)
    (vol_id : VolumeID) (iod : IODesc.t) (s : t G) : outcome (Status ServerReplicaList * t G) :=
  servers ← GetValidServers weights;
  let n_servers := length servers in
  if decide (n_servers = Z.to_nat kNumReplicas) then
    replicas ← copy_to servers no_replicas;
    Ok (Value replicas, s)
  else if decide (n_servers < Z.to_nat kNumReplicas)%nat then
    r ← RandomWrite.sample_or_default servers (Nat.min n_servers (Z.to_nat kNumReplicas)) (rand_gen_ s);
    let '(replicas, g) := r in
    Ok (Value replicas, mk g)
  else
    r ← ofold (pick weights) (no_replicas, servers, rand_gen_ s) (zrange 0 (Z.to_nat kNumReplicas));
    let '(replicas, _, g) := r in
    Ok (Value replicas, mk g).

#[global] Instance scheduler {G} `{!RandomSource G} : BaseWriteScheduler (t G) := select.
End WeightedWrite.

Module HashWrite.
(** The engine is seeded and never used. *)
Record t (G : Type) := mk { rand_gen_ : G }.
Arguments mk {G} rand_gen_.
Arguments rand_gen_ {G} _.

Section Hashed.
Context `{!StdHash}.

Definition pick (h : Z) (st : ServerReplicaList * ServerSet) (i : Z) : outcome (ServerReplicaList * ServerSet) :=
  let '(replicas, choices) := st in
  let idx := h mod Z.of_nat (length choices) in
  choice ← set_at choices idx;
  replicas' ← at_put replicas i choice;
  Ok (replicas', erase_at choices (Z.to_nat idx)).

Definition select {G} (weights : ServerWeights)
    (vol_id : VolumeID) (iod : IODesc.t) (s : t G) : outcome (Status ServerReplicaList * t G) :=
  servers ← GetValidServers weights;
  if decide (length servers = Z.to_nat kNumReplicas) then
    replicas ← copy_to servers no_replicas;
    Ok (Value replicas, s)
  else
    let n_options := Nat.min (length servers) (Z.to_nat kNumReplicas) in
    r ← ofold (pick (Hash std_hash vol_id (IODesc.start_sector iod))) (no_replicas, servers) (zrange 0 n_options);
    let '(replicas, _) := r in
    if Nat.ltb n_options (Z.to_nat kNumReplicas) then
      def ← at_ replicas 0;
      Ok (Value (fill_from replicas n_options def), s)
    else Ok (Value replicas, s).
End Hashed.

#[global] Instance scheduler {G} `{!StdHash} : BaseWriteScheduler (t G) := select.
End HashWrite.

(** ** Pairs of policies and the configured one *)

Record read_write (R W : Type) := ReadWrite { read_sched_ : R; write_sched_ : W }.
Arguments ReadWrite {R W} _ _.
Arguments read_sched_ {R W} _.
Arguments write_sched_ {R W} _.

Definition rw_read {R W} `{!BaseReadScheduler R} (weights : ServerWeights) (subset : ServerSet)
    (vol_id : VolumeID) (iod : IODesc.t) (s : read_write R W) : outcome (Status ServerID * read_write R W) :=
  r ← SelectReadServer weights subset vol_id iod (read_sched_ s);
  Ok (fst r, ReadWrite (snd r) (write_sched_ s)).

Definition rw_write {R W} `{!BaseWriteScheduler W} (weights : ServerWeights)
    (vol_id : VolumeID) (iod : IODesc.t) (s : read_write R W)
    : outcome (Status ServerReplicaList * read_write R W) :=
  r ← SelectWriteReplicas weights vol_id iod (write_sched_ s);
  Ok (fst r, ReadWrite (read_sched_ s) (snd r)).

#[global] Instance read_write_read {R W} `{!BaseReadScheduler R} : BaseReadScheduler (read_write R W) := rw_read.
#[global] Instance read_write_write {R W} `{!BaseWriteScheduler W} : BaseWriteScheduler (read_write R W) := rw_write.

Abbreviation WeightedReadWrite G := (read_write (WeightedRead.t G) (WeightedWrite.t G)).
Abbreviation RandomReadWrite G := (read_write (RandomRead.t G) (RandomWrite.t G)).
Abbreviation WeightedReadHashWrite G := (read_write (WeightedRead.t G) (HashWrite.t G)).
Abbreviation RandomReadHashWrite G := (read_write (RandomRead.t G) (HashWrite.t G)).

(** ** server_stats_manager.h *)

Definition kMinReadServers : Z := 1.

Module DPServerStatsManager.

Record t := mk {
  vol_id_ : VolumeID;
  servers_ : ServerSet;
  modes_ : ServerModes;
  read_weights_ : ServerWeights;
  write_weights_ : ServerWeights;
  cc_ : CongestionControl.t;
  stop_ : bool;
}.
#[global] Instance settable : Settable t :=
  settable! mk <vol_id_; servers_; modes_; read_weights_; write_weights_; cc_; stop_>.

(** [modes_] is not initialised: it starts as whatever [junk] is. *)
Definition init (vol_id : VolumeID) (junk : ServerModes) : t :=
  let weights := InitServerWeights (replicate (Z.to_nat kNumMaxServers) (of_int 0)) in
  mk vol_id [] junk weights weights (CongestionControl.init vol_id) false.

Definition AddServer (calibrated_time : Z) (server_id : ServerID) (s : t) : outcome (Status unit * t) :=
  if decide (server_id ∈ servers_ s) then Ok (MakeError EALREADY, s)
  else
    let s := s <| servers_ := set_insert server_id (servers_ s) |> in
    r ← CongestionControl.AddServer calibrated_time server_id (cc_ s);
    Ok (fst r, s <| cc_ := snd r |>).

Definition SignalCongested (now micro_time calibrated_time : Z) (server_id : ServerID) (s : t) : outcome t :=
  cc ← CongestionControl.SignalCongested now micro_time calibrated_time server_id (cc_ s);
  Ok (s <| cc_ := cc |>).

Definition SetCongestionState (server_id : ServerID) (state : ServerCongestionState.t) (s : t) : outcome t :=
  cc ← CongestionControl.SetCongestionState server_id state (cc_ s);
  Ok (s <| cc_ := cc |>).

Definition set_one (s : t) (srv : ServerStats.t) : outcome t :=
  modes ← at_put (modes_ s) (ServerStats.server_id srv) (ServerStats.committed_mode srv);
  reads ← at_put (read_weights_ s) (ServerStats.server_id srv) (ServerStats.read_weight srv);
  writes ← at_put (write_weights_ s) (ServerStats.server_id srv) (ServerStats.write_weight srv);
  SetCongestionState (ServerStats.server_id srv) (ServerStats.congestion_state srv)
    (s <| modes_ := modes |> <| read_weights_ := reads |> <| write_weights_ := writes |>).

Definition SetServerStats (servers : ServerStatsList) (s : t) : outcome t := ofold set_one s servers.

(** [weights] with the weight of every server scaled by its rate limit. *)
Definition rate_limited (weights : ServerWeights) (s : t) : outcome ServerWeights :=
  ofold (fun ws server_id =>
    w ← at_ ws server_id;
    rate ← CongestionControl.GetRateLimit server_id (cc_ s);
    at_put ws server_id (w * rate)%double) weights (servers_ s).

Definition GetRateLimitedReadWeights (s : t) : outcome ServerWeights := rate_limited (read_weights_ s) s.
Definition GetRateLimitedWriteWeights (s : t) : outcome ServerWeights := rate_limited (write_weights_ s) s.

(** The servers whose mode satisfies [keep], and how many they are. *)
Definition filter_weights (keep : ServerMode.t -> bool) (all_weights : ServerWeights) (s : t)
    : outcome (nat * ServerWeights) :=
  ofold (fun '(n_found, filtered) server_id =>
    mode ← at_ (modes_ s) server_id;
    if keep mode then
      w ← at_ all_weights server_id;
      filtered' ← at_put filtered server_id w;
      Ok (S n_found, filtered')
    else Ok (n_found, filtered)) (0%nat, InitServerWeights all_weights) (servers_ s).

Definition GetReadOnlyWeights (s : t) : outcome (Status ServerWeights) :=
  all_read_weights ← GetRateLimitedReadWeights s;
  r ← filter_weights (fun m => bool_decide (m = ServerMode.kRead)) all_read_weights s;
  let '(n_found, filtered) := r in
  Ok (Value (if kMinReadServers <=? Z.of_nat n_found then filtered else all_read_weights)).

Definition GetAllReadWeights (s : t) : outcome (Status ServerWeights) :=
  ws ← GetRateLimitedReadWeights s; Ok (Value ws).

Definition GetWriteWeights (s : t) : outcome (Status ServerWeights) :=
  all_write_weights ← GetRateLimitedWriteWeights s;
  r ← filter_weights (fun m => negb (bool_decide (m = ServerMode.kRead))) all_write_weights s;
  let '(n_found, filtered) := r in
  Ok (Value (if kNumReplicas <=? Z.of_nat n_found then filtered else all_write_weights)).

End DPServerStatsManager.

(** ** scheduler.h *)

Module DPScheduler.
Section Scheduler.
Context {G : Type} `{!RandomSource G} `{!StdHash}.

Inductive policy :=
| PolicyWeightedReadWrite (s : WeightedReadWrite G)
| PolicyRandomReadWrite (s : RandomReadWrite G)
| PolicyWeightedReadHashWrite (s : WeightedReadHashWrite G)
| PolicyRandomReadHashWrite (s : RandomReadHashWrite G).

Definition lift {A S} (f : S -> policy) (m : outcome (A * S)) : outcome (A * policy) :=
  r ← m; Ok (fst r, f (snd r)).

Definition policy_read (weights : ServerWeights) (subset : ServerSet) (vol_id : VolumeID)
    (iod : IODesc.t) (p : policy) : outcome (Status ServerID * policy) :=
  match p with
  | PolicyWeightedReadWrite s => lift PolicyWeightedReadWrite (SelectReadServer weights subset vol_id iod s)
  | PolicyRandomReadWrite s => lift PolicyRandomReadWrite (SelectReadServer weights subset vol_id iod s)
  | PolicyWeightedReadHashWrite s => lift PolicyWeightedReadHashWrite (SelectReadServer weights subset vol_id iod s)
  | PolicyRandomReadHashWrite s => lift PolicyRandomReadHashWrite (SelectReadServer weights subset vol_id iod s)
  end.

Definition policy_write (weights : ServerWeights) (vol_id : VolumeID)
    (iod : IODesc.t) (p : policy) : outcome (Status ServerReplicaList * policy) :=
  match p with
  | PolicyWeightedReadWrite s => lift PolicyWeightedReadWrite (SelectWriteReplicas weights vol_id iod s)
  | PolicyRandomReadWrite s => lift PolicyRandomReadWrite (SelectWriteReplicas weights vol_id iod s)
  | PolicyWeightedReadHashWrite s => lift PolicyWeightedReadHashWrite (SelectWriteReplicas weights vol_id iod s)
  | PolicyRandomReadHashWrite s => lift PolicyRandomReadHashWrite (SelectWriteReplicas weights vol_id iod s)
  end.

#[global] Instance policy_reads : BaseReadScheduler policy := policy_read.
#[global] Instance policy_writes : BaseWriteScheduler policy := policy_write.

(** [g1] and [g2] are the seeded engines of the two policies. *)
Definition make_policy (sched_type : Config.DataPlaneSchedulerType) (g1 g2 : G) : policy :=
  match sched_type with
  | Config.kWeightedReadWrite => PolicyWeightedReadWrite (ReadWrite (WeightedRead.mk g1) (WeightedWrite.mk g2))
  | Config.kRandomReadWrite => PolicyRandomReadWrite (ReadWrite (RandomRead.mk g1) (RandomWrite.mk g2))
  | Config.kWeightedReadHashWrite => PolicyWeightedReadHashWrite (ReadWrite (WeightedRead.mk g1) (HashWrite.mk g2))
  | Config.kRandomReadHashWrite => PolicyRandomReadHashWrite (ReadWrite (RandomRead.mk g1) (HashWrite.mk g2))
  end.
End Scheduler.

Section Operations.
Context {P : Type} `{!BaseReadScheduler P} `{!BaseWriteScheduler P}.

Record t := mk {
  stats_mgr_ : DPServerStatsManager.t;
  sched_ : P;
  vol_id_ : VolumeID;
}.
#[global] Instance settable : Settable t := settable! mk <stats_mgr_; sched_; vol_id_>.

Definition init (sched : P) (vol_id : VolumeID) (junk : ServerModes) : t :=
  mk (DPServerStatsManager.init vol_id junk) sched vol_id.

Definition AddServer (calibrated_time : Z) (server_id : ServerID) (s : t) : outcome (Status unit * t) :=
  r ← DPServerStatsManager.AddServer calibrated_time server_id (stats_mgr_ s);
  Ok (fst r, s <| stats_mgr_ := snd r |>).

Definition SetServerStats (servers : ServerStatsList) (s : t) : outcome (Status unit * t) :=
  m ← DPServerStatsManager.SetServerStats servers (stats_mgr_ s);
  Ok (Value tt, s <| stats_mgr_ := m |>).

Definition SignalCongested (now micro_time calibrated_time : Z) (server_id : ServerID) (s : t) : outcome t :=
  m ← DPServerStatsManager.SignalCongested now micro_time calibrated_time server_id (stats_mgr_ s);
  Ok (s <| stats_mgr_ := m |>).

(** Among all servers, when the read-only ones do not do. *)
Definition select_among_all (subset : ServerSet) (vol_id : VolumeID) (iod : IODesc.t) (s : t)
    : outcome (Status ServerID * t) :=
  weights ← DPServerStatsManager.GetAllReadWeights (stats_mgr_ s);
  match weights with
  | MakeError c => Ok (MakeError c, s)
  | Value weights =>
      r ← SelectReadServer weights subset vol_id iod (sched_ s);
      Ok (fst r, s <| sched_ := snd r |>)
  end.

Definition Scheduler_SelectReadServer (subset : ServerSet) (vol_id : VolumeID) (iod : IODesc.t) (s : t)
    : outcome (Status ServerID * t) :=
  weights ← DPServerStatsManager.GetReadOnlyWeights (stats_mgr_ s);
  match weights with
  | Value weights =>
      r ← SelectReadServer weights subset vol_id iod (sched_ s);
      let '(srv, sched) := r in
      let s := s <| sched_ := sched |> in
      match srv with
      | Value srv => Ok (Value srv, s)
      | MakeError _ => select_among_all subset vol_id iod s
      end
  | MakeError _ => select_among_all subset vol_id iod s
  end.

Definition Scheduler_SelectWriteReplicas (vol_id : VolumeID) (iod : IODesc.t) (s : t)
    : outcome (Status ServerReplicaList * t) :=
  weights ← DPServerStatsManager.GetWriteWeights (stats_mgr_ s);
  match weights with
  | MakeError c => Ok (MakeError c, s)
  | Value weights =>
      r ← SelectWriteReplicas weights vol_id iod (sched_ s);
      Ok (fst r, s <| sched_ := snd r |>)
  end.
End Operations.
End DPScheduler.
