(* ===== verification/DataPlaneLaws.v ===== *)
(** * What the data-plane scheduler promises

    The laws of the read and write policies, stated once on the interfaces of
    [DataPlane] and proved of every policy, and what the scheduler built on
    them guarantees: a read goes to a server that holds the block, to one in
    read mode whenever there is one, and a write goes to distinct servers. *)

From S2P Require Import Prelude Float64 FloatInt FloatBound FloatOrder BaseTypes Telemetry Configuration Congestion DataPlane.

Local Open Scope Z_scope.

(** ** Valid servers *)

Definition valid (weights : ServerWeights) (x : ServerID) : Prop :=
  kInvalidServerID < x /\ exists w, at_ weights x = Ok w /\ (w =? kInvalidServerWeight)%double = false.

Lemma GetValidServers_spec weights :
  exists servers, GetValidServers weights = Ok servers /\ StronglySorted Z.lt servers /\
    forall x, x ∈ servers <-> valid weights x.
Proof.
  unfold GetValidServers. set (n := Z.to_nat _).
  destruct (ofold_total (fun seen acc => StronglySorted Z.lt acc /\
      forall x, x ∈ acc <-> x ∈ seen /\ valid weights x)
    (fun valid_servers i => w ← at_ weights i;
       Ok (if (w =? kInvalidServerWeight)%double then valid_servers else set_insert i valid_servers))
    (zrange (kInvalidServerID + 1) n) []) as (servers & Hrun & Hs & Hin).
  - split; [constructor|]. set_solver.
  - intros seen i rest acc Heq (Hs & Hin).
    assert (kInvalidServerID + 1 <= i < Z.of_nat (length weights)) as Hi.
    { assert (i ∈ zrange (kInvalidServerID + 1) n) as Hi by (rewrite Heq; set_solver).
      apply elem_of_zrange in Hi. unfold n, kInvalidServerID in *. lia. }
    destruct (at_in_range weights i) as [w Hw]; [unfold kInvalidServerID in *; lia|]. rewrite Hw. simpl.
    eexists. split; [done|].
    assert (valid weights i <-> (w =? kInvalidServerWeight)%double = false) as Hv.
    { unfold valid. rewrite Hw. split; [naive_solver|]. intros. split; [lia|eauto]. }
    destruct (w =? kInvalidServerWeight)%double eqn:E.
    + split; [done|]. intros x. rewrite Hin, elem_of_app, list_elem_of_singleton.
      split; [naive_solver|]. intros [[?| ->] ?]; [done|]. naive_solver.
    + split; [by apply set_insert_sorted|]. intros x.
      rewrite elem_of_set_insert, Hin, elem_of_app, list_elem_of_singleton. naive_solver.
  - exists servers. split_and!; [done..|]. intros x. rewrite Hin, elem_of_zrange. split; [naive_solver|].
    intros Hv. split; [|done]. destruct Hv as (Hx & w & (_ & Hl%lookup_lt_Some)%at_Ok & _).
    unfold n, kInvalidServerID in *. lia.
Qed.

Lemma set_intersection_cons a l1 b l2 :
  set_intersection (a :: l1) (b :: l2) =
    if a <? b then set_intersection l1 (b :: l2)
    else if b <? a then set_intersection (a :: l1) l2
    else a :: set_intersection l1 l2.
Proof. reflexivity. Qed.

Lemma elem_of_set_intersection l1 l2 x :
  StronglySorted Z.lt l1 -> StronglySorted Z.lt l2 -> x ∈ set_intersection l1 l2 <-> x ∈ l1 /\ x ∈ l2.
Proof.
  intros H1. revert l2. induction H1 as [|a l1 Hl1 IH1 Ha]; intros l2 H2; [set_solver|].
  rewrite Forall_forall in Ha.
  induction H2 as [|b l2 Hl2 IH2 Hb]; [set_solver|]. rewrite Forall_forall in Hb. rewrite set_intersection_cons.
  destruct (Z.ltb_spec a b) as [Hab|Hab]; [|destruct (Z.ltb_spec b a) as [Hba|Hba]].
  - rewrite IH1 by (constructor; [done|by rewrite Forall_forall]). split; [set_solver|].
    intros [[->|Hx]%elem_of_cons Hy]; [|done].
    apply elem_of_cons in Hy as [->|Hy]; [lia|]. specialize (Hb _ Hy). lia.
  - rewrite IH2. split; [set_solver|].
    intros [Hx [->|Hy]%elem_of_cons]; [|done].
    apply elem_of_cons in Hx as [->|Hx]; [lia|]. specialize (Ha _ Hx). lia.
  - assert (a = b) as -> by lia. rewrite elem_of_cons, IH1 by done. split; [set_solver|].
    intros [Hx Hy]. apply elem_of_cons in Hx as [->|Hx]; [by left|].
    apply elem_of_cons in Hy as [->|Hy]; [by left|]. by right.
Qed.

Lemma weights_of_acc (weights : ServerWeights) l acc r :
  ofold (fun acc choice => w ← at_ weights choice; Ok (acc ++ [w])) acc l = Ok r <->
  exists ws, r = acc ++ ws /\ Forall2 (fun c w => at_ weights c = Ok w) l ws.
Proof.
  revert acc. induction l as [|c l IH]; intros acc; simpl.
  - split; [intros; simplify_outcome; exists []; by rewrite app_nil_r|].
    intros (ws & -> & H). inversion H; subst. by rewrite app_nil_r.
  - destruct (at_ weights c) as [w|] eqn:Ew; simpl.
    + rewrite IH. split.
      * intros (ws & -> & H). exists (w :: ws). rewrite <- app_assoc. split; [done|by constructor].
      * intros (ws & -> & H). inversion H as [|? w' ? ws' Hw]; subst. rewrite Ew in Hw. simplify_eq.
        exists ws'. by rewrite <- app_assoc.
    + split; [done|]. intros (ws & _ & H). inversion H. congruence.
Qed.

Lemma weights_of_Ok weights l ws :
  weights_of weights l = Ok ws <-> Forall2 (fun c w => at_ weights c = Ok w) l ws.
Proof.
  unfold weights_of. rewrite weights_of_acc. split; [by intros (? & -> & ?)|by exists ws].
Qed.

(** ** The laws of the interfaces *)

(** A weight a distribution can draw with. *)
Definition drawable (weights : ServerWeights) (x : ServerID) : Prop :=
  forall w, at_ weights x = Ok w -> is_finite w = true /\ dlt (of_int 0) w = true.

Definition read_spec (weights : ServerWeights) (subset : ServerSet) (r : Status ServerID) : Prop :=
  match r with
  | Value x => x ∈ subset /\ valid weights x
  | MakeError c => c = ENOENT /\ forall x, x ∈ subset -> ~ valid weights x
  end.

Class BaseReadSchedulerLaws (R : Type) `{!BaseReadScheduler R} : Prop := {
  read_sound weights subset vol_id iod s r s' :
    StronglySorted Z.lt subset ->
    SelectReadServer weights subset vol_id iod s = Ok (r, s') -> read_spec weights subset r;
  read_total weights subset vol_id iod s :
    StronglySorted Z.lt subset ->
    (forall x, x ∈ subset -> valid weights x -> drawable weights x) ->
    exists r s', SelectReadServer weights subset vol_id iod s = Ok (r, s');
}.

(** Two distinct valid servers where there are two, the one valid server twice
    where there is one, and no server where there is none. *)
Definition write_spec (weights : ServerWeights) (r : Status ServerReplicaList) : Prop :=
  exists a b, r = Value [a; b] /\
    ((valid weights a /\ valid weights b /\ a <> b) \/
     (valid weights a /\ b = a /\ forall x, valid weights x -> x = a) \/
     (a = kInvalidServerID /\ b = kInvalidServerID /\ forall x, ~ valid weights x)).

Class BaseWriteSchedulerLaws (W : Type) `{!BaseWriteScheduler W} : Prop := {
  write_sound weights vol_id iod s r s' :
    SelectWriteReplicas weights vol_id iod s = Ok (r, s') -> write_spec weights r;
  write_total weights vol_id iod s :
    (forall x, valid weights x -> drawable weights x) ->
    exists r s', SelectWriteReplicas weights vol_id iod s = Ok (r, s');
}.

(** ** The read policies *)

Lemma choices_spec weights subset servers :
  GetValidServers weights = Ok servers -> StronglySorted Z.lt subset ->
  forall x, x ∈ set_intersection servers subset <-> x ∈ subset /\ valid weights x.
Proof.
  intros Hv Hs x. destruct (GetValidServers_spec weights) as (servers' & Hv' & Hs' & Hin).
  rewrite Hv' in Hv. simplify_eq. rewrite elem_of_set_intersection, Hin by done. tauto.
Qed.

Lemma choices_empty weights subset servers :
  GetValidServers weights = Ok servers -> StronglySorted Z.lt subset ->
  set_intersection servers subset = [] -> read_spec weights subset (MakeError ENOENT).
Proof.
  intros Hv Hs He. split; [done|]. intros x Hx Hvx.
  assert (x ∈ set_intersection servers subset) as Hin by by apply (choices_spec weights).
  rewrite He in Hin. by apply elem_of_nil in Hin.
Qed.

Lemma chosen_spec weights subset servers idx x :
  GetValidServers weights = Ok servers -> StronglySorted Z.lt subset ->
  at_ (set_intersection servers subset) idx = Ok x -> read_spec weights subset (Value x).
Proof.
  intros Hv Hs (_ & Hl)%at_Ok. apply (choices_spec weights _ servers); [done..|].
  by eapply list_elem_of_lookup_2.
Qed.

Section Laws.
Context {G : Type} `{!RandomSource G} `{!RandomLaws G} `{!StdHash}.

#[global] Instance random_read_laws : BaseReadSchedulerLaws (RandomRead.t G).
Proof.
  constructor; unfold SelectReadServer, RandomRead.scheduler, RandomRead.select.
  - intros weights subset vol_id iod s r s' Hs Hsel. simplify_outcome.
    case_decide; simplify_outcome; [by eapply choices_empty|].
    destruct (uniform_int _ _ _) as [idx g]. simplify_outcome. by eapply chosen_spec.
  - intros weights subset vol_id iod s Hs _.
    destruct (GetValidServers_spec weights) as (servers & -> & _). simpl.
    case_decide as He; [eauto|]. set (choices := set_intersection servers subset) in *.
    pose proof (uniform_int_range 0 (Z.of_nat (length choices) - 1) (RandomRead.rand_gen_ s)) as Hr.
    destruct (uniform_int _ _ _) as [idx g]. simpl in Hr.
    assert (length choices <> 0%nat) by by destruct choices.
    destruct (at_in_range choices idx) as [x ->]; [lia|]. simpl. eauto.
Qed.

Lemma drawable_weights weights l ws :
  l <> [] -> (forall x, x ∈ l -> drawable weights x) -> weights_of weights l = Ok ws ->
  weights_ok ws = true /\ length ws = length l.
Proof.
  intros Hne Hd HF%weights_of_Ok. split; [|symmetry; by eapply Forall2_length].
  assert (forall w, w ∈ ws -> is_finite w = true /\ dlt (of_int 0) w = true) as Hall.
  { intros w (i & Hi)%list_elem_of_lookup. destruct (Forall2_lookup_r _ _ _ _ _ HF Hi) as (c & Hc & Hat).
    apply (Hd c); [by eapply list_elem_of_lookup_2|done]. }
  unfold weights_ok. apply andb_true_iff. split.
  - apply forallb_forall. intros w Hw%list_elem_of_In. destruct (Hall w Hw) as [H1 H2].
    unfold weight_ok. apply andb_true_iff. split; [done|]. by apply dlt_dle.
  - destruct HF as [|c w l ws]; [done|]. simpl. apply orb_true_iff. left. apply Hall. by left.
Qed.

Lemma weights_of_total weights l : (forall x, x ∈ l -> valid weights x) -> exists ws, weights_of weights l = Ok ws.
Proof.
  intros Hv. assert (exists ws, Forall2 (fun c w => at_ weights c = Ok w) l ws) as [ws Hws].
  { induction l as [|c l IH]; [exists []; constructor|].
    destruct IH as [ws Hws]; [set_solver|]. destruct (Hv c) as (_ & w & Hw & _); [set_solver|].
    exists (w :: ws). by constructor. }
  exists ws. by apply weights_of_Ok.
Qed.

(** Drawing from servers with drawable weights gives the index of one. *)
Lemma draw_total weights l (g : G) :
  l <> [] -> (forall x, x ∈ l -> valid weights x /\ drawable weights x) ->
  exists ws idx g', weights_of weights l = Ok ws /\ draw ws g = Ok (idx, g') /\ 0 <= idx < Z.of_nat (length l).
Proof.
  intros Hne Hl. destruct (weights_of_total weights l) as [ws Hws]; [by intros x [? _]%Hl|].
  destruct (drawable_weights weights l ws) as [Hok Hlen]; [done|by intros x [_ ?]%Hl|done|].
  pose proof (discrete_range ws g Hok) as Hr. destruct (discrete ws g) as [idx g'] eqn:E.
  exists ws, idx, g'. simpl in Hr. unfold draw. rewrite Hok, <- Hlen. simpl. by rewrite E.
Qed.

#[global] Instance weighted_read_laws : BaseReadSchedulerLaws (WeightedRead.t G).
Proof.
  constructor; unfold SelectReadServer, WeightedRead.scheduler, WeightedRead.select.
  - intros weights subset vol_id iod s r s' Hs Hsel. simplify_outcome.
    case_decide; simplify_outcome; [by eapply choices_empty|].
    destruct v1 as [idx g]. simplify_outcome. by eapply chosen_spec.
  - intros weights subset vol_id iod s Hs Hd.
    destruct (GetValidServers_spec weights) as (servers & Hv & _). rewrite Hv. simpl.
    case_decide as He; [eauto|]. set (choices := set_intersection servers subset) in *.
    destruct (draw_total weights choices (WeightedRead.rand_gen_ s)) as (ws & idx & g & Hws & Hdr & Hidx);
      [done| |].
    { intros x [? ?]%(choices_spec weights _ _ Hv Hs). auto. }
    rewrite Hws. simpl. rewrite Hdr. simpl. destruct (at_in_range choices idx) as [x ->]; [lia|]. simpl. eauto.
Qed.
(** ** The write policies *)

Definition replicas_of (servers : ServerSet) (replicas : ServerReplicaList) : Prop :=
  exists a b, replicas = [a; b] /\
    ((a ∈ servers /\ b ∈ servers /\ a <> b) \/ (servers = [a] /\ b = a) \/
     (servers = [] /\ a = kInvalidServerID /\ b = kInvalidServerID)).

Lemma replicas_of_spec weights servers replicas :
  GetValidServers weights = Ok servers -> replicas_of servers replicas -> write_spec weights (Value replicas).
Proof.
  intros Hv (a & b & -> & Hab). destruct (GetValidServers_spec weights) as (servers' & Hv' & _ & Hin).
  rewrite Hv' in Hv. simplify_eq. exists a, b. split; [done|].
  destruct Hab as [(Ha & Hb & Hne)|[(-> & ->)|(-> & -> & ->)]].
  - left. by rewrite <- !Hin.
  - right; left. split; [apply Hin; by left|]. split; [done|]. intros x Hx%Hin. set_solver.
  - right; right. split_and!; [done..|]. intros x Hx%Hin. by apply elem_of_nil in Hx.
Qed.

Lemma valid_sorted weights servers : GetValidServers weights = Ok servers -> StronglySorted Z.lt servers.
Proof. intros Hv. destruct (GetValidServers_spec weights) as (? & Hv' & ? & _). rewrite Hv' in Hv. by simplify_eq. Qed.

Lemma copy_two servers :
  StronglySorted Z.lt servers -> length servers = Z.to_nat kNumReplicas ->
  exists replicas, copy_to servers no_replicas = Ok replicas /\ replicas_of servers replicas.
Proof.
  intros Hs Hl. destruct servers as [|a [|b [|? ?]]]; try done.
  exists [a; b]. split; [done|]. exists a, b. split; [done|]. left.
  split_and!; [set_solver..|]. apply StronglySorted_inv in Hs as [_ Hab]. inversion Hab. lia.
Qed.

Lemma sample_or_default_spec servers (g : G) :
  StronglySorted Z.lt servers ->
  exists replicas g', RandomWrite.sample_or_default servers (Nat.min (length servers) (Z.to_nat kNumReplicas)) g
    = Ok (replicas, g') /\ replicas_of servers replicas.
Proof.
  intros Hs. pose proof (sorted_NoDup _ Hs) as Hnd. set (n := Nat.min _ _).
  unfold RandomWrite.sample_or_default. pose proof (sample_sublist servers n g) as Hsub.
  pose proof (sample_length servers n g) as Hlen. destruct (sample servers n g) as [picked g']. simpl in *.
  assert (length picked = n) as Hl by lia. clear Hlen. subst n.
  change (Z.to_nat kNumReplicas) with 2%nat in *. destruct servers as [|a [|b servers]].
  - destruct picked; [|done]. eexists _, _. split; [done|]. exists kInvalidServerID, kInvalidServerID. split; [done|].
    by right; right.
  - destruct picked as [|x [|? ?]]; [done| |done]. eexists _, _. split; [done|].
    apply singleton_sublist_l, list_elem_of_singleton in Hsub as ->.
    exists a, a. split; [done|]. by right; left.
  - replace (Nat.min (length (a :: b :: servers)) 2) with 2%nat in * by (simpl; lia).
    destruct picked as [|x [|y [|? ?]]]; try done. eexists _, _. split; [done|]. exists x, y. split; [done|].
    left. pose proof (sublist_NoDup _ _ Hnd Hsub) as Hnd2. inversion Hnd2 as [|? ? Hx _]; subst.
    split_and!; [eapply elem_of_sublist; [|exact Hsub]; set_solver..|set_solver].
Qed.

#[global] Instance random_write_laws : BaseWriteSchedulerLaws (RandomWrite.t G).
Proof.
  assert (forall weights vol_id iod (s : RandomWrite.t G), exists replicas s',
    SelectWriteReplicas weights vol_id iod s = Ok (Value replicas, s') /\ write_spec weights (Value replicas)) as Hall.
  { intros weights vol_id iod s. unfold SelectWriteReplicas, RandomWrite.scheduler, RandomWrite.select.
    destruct (GetValidServers_spec weights) as (servers & Hv & Hs & _). rewrite Hv. simpl. case_decide as Hl.
    - destruct (copy_two servers Hs Hl) as (replicas & -> & Hr). eexists _, _. split; [done|].
      by eapply replicas_of_spec.
    - destruct (sample_or_default_spec servers (RandomWrite.rand_gen_ s) Hs) as (replicas & g' & -> & Hr).
      eexists _, _. split; [done|]. by eapply replicas_of_spec. }
  constructor; intros weights vol_id iod s.
  - intros r s' Hsel. destruct (Hall weights vol_id iod s) as (replicas & s2 & E & Hw).
    rewrite E in Hsel. by simplify_eq.
  - intros _. destruct (Hall weights vol_id iod s) as (replicas & s2 & E & Hw). eauto.
Qed.
(** Two picks, the first taken out before the second. *)
Lemma erase_at_spec l i a :
  NoDup l -> l !! i = Some a ->
  NoDup (erase_at l i) /\ (forall x, x ∈ erase_at l i <-> x ∈ l /\ x <> a) /\
  S (length (erase_at l i)) = length l.
Proof.
  intros Hnd Hi. pose proof (take_drop_middle _ _ _ Hi) as Heq.
  assert (l ≡ₚ a :: erase_at l i) as Hp by (rewrite <- Heq at 1; symmetry; apply Permutation_middle).
  set (l' := erase_at l i) in *. clearbody l'. clear Heq.
  rewrite Hp in Hnd. apply NoDup_cons in Hnd as [Hn Hnd]. split_and!; [done| |by rewrite Hp].
  intros x. rewrite Hp, elem_of_cons. split; [|naive_solver]. intros Hx. split; [by right|]. by intros ->.
Qed.

Lemma two_picks servers i j a b r1 r2 :
  NoDup servers -> servers !! i = Some a -> erase_at servers i !! j = Some b ->
  at_put no_replicas 0 a = Ok r1 -> at_put r1 1 b = Ok r2 -> replicas_of servers r2.
Proof.
  intros Hnd Hi Hj H1 H2. apply at_put_Ok in H1 as (_ & ->). apply at_put_Ok in H2 as (_ & ->).
  exists a, b. split; [done|]. left. destruct (erase_at_spec servers i a Hnd Hi) as (_ & Hin & _).
  apply list_elem_of_lookup_2, Hin in Hj as [? ?]. split_and!; [by eapply list_elem_of_lookup_2|done|done].
Qed.

Lemma put_replica (replicas : ServerReplicaList) i x :
  length replicas = Z.to_nat kNumReplicas -> 0 <= i < kNumReplicas ->
  exists r, at_put replicas i x = Ok r /\ length r = Z.to_nat kNumReplicas.
Proof.
  intros Hl Hi. eexists. split; [apply at_put_in_range; rewrite Hl; unfold kNumReplicas in *; lia|].
  by rewrite length_insert.
Qed.

Lemma weighted_pick_total weights replicas servers (g : G) i :
  length replicas = Z.to_nat kNumReplicas -> 0 <= i < kNumReplicas -> servers <> [] ->
  (forall x, x ∈ servers -> valid weights x /\ drawable weights x) ->
  exists replicas' idx a g', WeightedWrite.pick weights (replicas, servers, g) i
      = Ok (replicas', erase_at servers idx, g') /\ servers !! idx = Some a /\
    at_put replicas i a = Ok replicas' /\ length replicas' = Z.to_nat kNumReplicas.
Proof.
  intros Hl Hi Hne Hd. unfold WeightedWrite.pick.
  destruct (draw_total weights servers g Hne Hd) as (ws & idx & g' & -> & Hdr & Hidx). simpl.
  rewrite Hdr. simpl. destruct (lookup_lt_is_Some_2 servers (Z.to_nat idx)) as [a Ha]; [lia|].
  destruct (put_replica replicas i a Hl Hi) as (r & Hp & Hr). unfold set_at. rewrite Ha. simpl. rewrite Hp. simpl.
  exists r, (Z.to_nat idx), a, g'. done.
Qed.

#[global] Instance weighted_write_laws : BaseWriteSchedulerLaws (WeightedWrite.t G).
Proof.
  constructor; unfold SelectWriteReplicas, WeightedWrite.scheduler, WeightedWrite.select;
    intros weights vol_id iod s; destruct (GetValidServers_spec weights) as (servers & Hv & Hs & Hin);
    rewrite Hv; cbn [mbind outcome_bind];
    destruct (decide (length servers = Z.to_nat kNumReplicas)) as [Hl|Hl].
  - destruct (copy_two servers Hs Hl) as (replicas & -> & Hr). intros r s' Hsel. simplify_outcome.
    by eapply replicas_of_spec.
  - intros r s' Hsel. case_decide as Hlt.
    + destruct (sample_or_default_spec servers (WeightedWrite.rand_gen_ s) Hs) as (replicas & g' & E & Hr).
      rewrite E in Hsel. simplify_outcome. by eapply replicas_of_spec.
    + simplify_outcome. unfold WeightedWrite.pick, set_at in *.
      repeat (simplify_outcome; case_match; subst). simplify_outcome. rewrite deref_Ok in *.
      eapply replicas_of_spec; [done|]. by eapply two_picks; [apply sorted_NoDup| | | |].
  - destruct (copy_two servers Hs Hl) as (replicas & -> & Hr). intros _. simpl. eauto.
  - intros Hd. case_decide as Hlt.
    + destruct (sample_or_default_spec servers (WeightedWrite.rand_gen_ s) Hs) as (replicas & g' & -> & Hr).
      simpl. eauto.
    + change (zrange 0 (Z.to_nat kNumReplicas)) with [0; 1]. cbn [ofold].
      destruct (weighted_pick_total weights no_replicas servers (WeightedWrite.rand_gen_ s) 0)
        as (r1 & i1 & a1 & g1 & -> & H1 & _ & Hr1); [done|done|intros ->; apply Hlt; unfold kNumReplicas; simpl; lia|intros x Hx%Hin; auto|].
      cbn [mbind outcome_bind].
      pose proof (erase_at_spec _ _ _ (sorted_NoDup _ Hs) H1) as (_ & He & Hlen).
      destruct (weighted_pick_total weights r1 (erase_at servers i1) g1 1)
        as (r2 & i2 & a2 & g2 & -> & _); [done|done| |intros x [Hx%Hin _]%He; auto|simpl; eauto].
      intros E. rewrite E in Hlen. change (Z.to_nat kNumReplicas) with 2%nat in *. simpl in Hlen. lia.
Qed.
Lemma hash_pick_total h replicas servers i :
  length replicas = Z.to_nat kNumReplicas -> 0 <= i < kNumReplicas -> servers <> [] ->
  exists replicas' idx a, HashWrite.pick h (replicas, servers) i = Ok (replicas', erase_at servers idx) /\
    servers !! idx = Some a /\ at_put replicas i a = Ok replicas' /\ length replicas' = Z.to_nat kNumReplicas.
Proof.
  intros Hl Hi Hne. unfold HashWrite.pick, set_at.
  assert (0 < Z.of_nat (length servers)) as Hpos by (destruct servers; [done|simpl; lia]).
  pose proof (Z.mod_pos_bound h _ Hpos). set (idx := h mod _) in *.
  destruct (lookup_lt_is_Some_2 servers (Z.to_nat idx)) as [a Ha]; [lia|]. rewrite Ha. simpl.
  destruct (put_replica replicas i a Hl Hi) as (r & Hp & Hr). rewrite Hp. simpl.
  by exists r, (Z.to_nat idx), a.
Qed.

Lemma hash_write_total weights vol_id iod (s : HashWrite.t G) :
  exists replicas, SelectWriteReplicas weights vol_id iod s = Ok (Value replicas, s) /\
    write_spec weights (Value replicas).
Proof.
  unfold SelectWriteReplicas, HashWrite.scheduler, HashWrite.select. set (h := Hash _ _ _).
  destruct (GetValidServers_spec weights) as (servers & Hv & Hs & _). rewrite Hv. cbn [mbind outcome_bind].
  case_decide as Hl.
  { destruct (copy_two servers Hs Hl) as (replicas & -> & Hr). eexists. split; [done|]. by eapply replicas_of_spec. }
  pose proof (sorted_NoDup _ Hs) as Hnd. change (Z.to_nat kNumReplicas) with 2%nat in *.
  destruct servers as [|a [|b servers]].
  - eexists. split; [done|]. eapply replicas_of_spec; [done|]. exists kInvalidServerID, kInvalidServerID.
    split; [done|]. by right; right.
  - exists [a; a]. split.
    + destruct (hash_pick_total h no_replicas [a] 0) as (r1 & i1 & a1 & E & H1 & P1 & _); [done..|].
      apply list_lookup_singleton_Some in H1 as [-> <-]. apply at_put_Ok in P1 as (_ & ->).
      change (zrange 0 (Nat.min (length [a]) 2)) with [0]. cbn [ofold]. by rewrite E.
    + eapply replicas_of_spec; [done|]. exists a, a. split; [done|]. by right; left.
  - replace (Nat.min (length (a :: b :: servers)) 2) with 2%nat by (simpl; lia).
    set (l := a :: b :: servers) in *. change (zrange 0 2) with [0; 1]. cbn [ofold].
    destruct (hash_pick_total h no_replicas l 0) as (r1 & i1 & a1 & -> & H1 & P1 & Hr1); [done..|].
    cbn [mbind outcome_bind]. pose proof (erase_at_spec _ _ _ Hnd H1) as (_ & _ & Hlen).
    destruct (hash_pick_total h r1 (erase_at l i1) 1) as (r2 & i2 & a2 & -> & H2 & P2 & Hr2); [done|done| |].
    { intros E. rewrite E in Hlen. done. }
    eexists. split; [done|]. eapply replicas_of_spec; [done|]. by eapply two_picks.
Qed.

#[global] Instance hash_write_laws : BaseWriteSchedulerLaws (HashWrite.t G).
Proof.
  constructor; intros weights vol_id iod s; destruct (hash_write_total weights vol_id iod s) as (replicas & E & Hw).
  - intros r s' Hsel. rewrite E in Hsel. by simplify_eq.
  - intros _. eauto.
Qed.

(** ** Pairs and the configured policy *)

#[global] Instance read_write_read_laws {R W} `{!BaseReadScheduler R} `{!BaseReadSchedulerLaws R} :
  BaseReadSchedulerLaws (read_write R W).
Proof.
  constructor; unfold SelectReadServer at 1, read_write_read, rw_read.
  - intros weights subset vol_id iod s r s' Hs Hsel. simplify_outcome. destruct v as [r' s1]. by eapply read_sound.
  - intros weights subset vol_id iod s Hs Hd.
    destruct (read_total weights subset vol_id iod (read_sched_ s) Hs Hd) as (r & s' & ->). simpl. eauto.
Qed.

#[global] Instance read_write_write_laws {R W} `{!BaseWriteScheduler W} `{!BaseWriteSchedulerLaws W} :
  BaseWriteSchedulerLaws (read_write R W).
Proof.
  constructor; unfold SelectWriteReplicas at 1, read_write_write, rw_write.
  - intros weights vol_id iod s r s' Hsel. simplify_outcome. destruct v as [r' s1]. by eapply write_sound.
  - intros weights vol_id iod s Hd.
    destruct (write_total weights vol_id iod (write_sched_ s) Hd) as (r & s' & ->). simpl. eauto.
Qed.

Lemma lift_read_sound {S} `{!BaseReadScheduler S} `{!BaseReadSchedulerLaws S} (f : S -> DPScheduler.policy (G := G))
    weights subset vol_id iod s r s' :
  StronglySorted Z.lt subset ->
  DPScheduler.lift f (SelectReadServer weights subset vol_id iod s) = Ok (r, s') -> read_spec weights subset r.
Proof.
  unfold DPScheduler.lift. intros Hs Hsel. simplify_outcome. destruct v as [r' s1].
  exact (read_sound _ _ _ _ _ _ _ Hs Hrun).
Qed.

Lemma lift_read_total {S} `{!BaseReadScheduler S} `{!BaseReadSchedulerLaws S} (f : S -> DPScheduler.policy (G := G))
    weights subset vol_id iod s :
  StronglySorted Z.lt subset -> (forall x, x ∈ subset -> valid weights x -> drawable weights x) ->
  exists r s', DPScheduler.lift f (SelectReadServer weights subset vol_id iod s) = Ok (r, s').
Proof.
  intros Hs Hd. destruct (read_total weights subset vol_id iod s Hs Hd) as (r & s' & E).
  unfold DPScheduler.lift. rewrite E. simpl. eauto.
Qed.

Lemma lift_write_sound {S} `{!BaseWriteScheduler S} `{!BaseWriteSchedulerLaws S} (f : S -> DPScheduler.policy (G := G))
    weights vol_id iod s r s' :
  DPScheduler.lift f (SelectWriteReplicas weights vol_id iod s) = Ok (r, s') -> write_spec weights r.
Proof.
  unfold DPScheduler.lift. intros Hsel. simplify_outcome. destruct v as [r' s1].
  exact (write_sound _ _ _ _ _ _ Hrun).
Qed.

Lemma lift_write_total {S} `{!BaseWriteScheduler S} `{!BaseWriteSchedulerLaws S} (f : S -> DPScheduler.policy (G := G))
    weights vol_id iod s :
  (forall x, valid weights x -> drawable weights x) ->
  exists r s', DPScheduler.lift f (SelectWriteReplicas weights vol_id iod s) = Ok (r, s').
Proof.
  intros Hd. destruct (write_total weights vol_id iod s Hd) as (r & s' & E).
  unfold DPScheduler.lift. rewrite E. simpl. eauto.
Qed.

#[global] Instance policy_read_laws : BaseReadSchedulerLaws (DPScheduler.policy (G := G)).
Proof.
  constructor.
  - intros weights subset vol_id iod p r s' Hs.
    destruct p as [s|s|s|s]; [
      exact (lift_read_sound DPScheduler.PolicyWeightedReadWrite weights subset vol_id iod s r s' Hs)|
      exact (lift_read_sound DPScheduler.PolicyRandomReadWrite weights subset vol_id iod s r s' Hs)|
      exact (lift_read_sound DPScheduler.PolicyWeightedReadHashWrite weights subset vol_id iod s r s' Hs)|
      exact (lift_read_sound DPScheduler.PolicyRandomReadHashWrite weights subset vol_id iod s r s' Hs)].
  - intros weights subset vol_id iod p Hs Hd.
    destruct p as [s|s|s|s]; [
      exact (lift_read_total DPScheduler.PolicyWeightedReadWrite weights subset vol_id iod s Hs Hd)|
      exact (lift_read_total DPScheduler.PolicyRandomReadWrite weights subset vol_id iod s Hs Hd)|
      exact (lift_read_total DPScheduler.PolicyWeightedReadHashWrite weights subset vol_id iod s Hs Hd)|
      exact (lift_read_total DPScheduler.PolicyRandomReadHashWrite weights subset vol_id iod s Hs Hd)].
Qed.

#[global] Instance policy_write_laws : BaseWriteSchedulerLaws (DPScheduler.policy (G := G)).
Proof.
  constructor.
  - intros weights vol_id iod p r s'.
    destruct p as [s|s|s|s]; [
      exact (lift_write_sound DPScheduler.PolicyWeightedReadWrite weights vol_id iod s r s')|
      exact (lift_write_sound DPScheduler.PolicyRandomReadWrite weights vol_id iod s r s')|
      exact (lift_write_sound DPScheduler.PolicyWeightedReadHashWrite weights vol_id iod s r s')|
      exact (lift_write_sound DPScheduler.PolicyRandomReadHashWrite weights vol_id iod s r s')].
  - intros weights vol_id iod p Hd.
    destruct p as [s|s|s|s]; [
      exact (lift_write_total DPScheduler.PolicyWeightedReadWrite weights vol_id iod s Hd)|
      exact (lift_write_total DPScheduler.PolicyRandomReadWrite weights vol_id iod s Hd)|
      exact (lift_write_total DPScheduler.PolicyWeightedReadHashWrite weights vol_id iod s Hd)|
      exact (lift_write_total DPScheduler.PolicyRandomReadHashWrite weights vol_id iod s Hd)].
Qed.
End Laws.
