(* ===== verification/DataPlaneScheduler.v ===== *)
(** * The data-plane scheduler over its whole life

    The invariant of the statistics manager under registrations, reports,
    congestion signals and periodic passes, and what the scheduler's two
    selections guarantee on every state such a run reaches, whatever policy the
    interfaces are instantiated with. *)

From S2P Require Import Prelude Float64 FloatInt FloatBound FloatOrder BaseTypes Telemetry Configuration Congestion DataPlane DataPlaneLaws.

Local Open Scope Z_scope.

Module StatsLife.
Import DPServerStatsManager.

Abbreviation n_slots := CongestionControl.n_slots.

Record wf (s : t) : Prop := {
  wf_modes : length (modes_ s) = n_slots;
  wf_reads : length (read_weights_ s) = n_slots;
  wf_writes : length (write_weights_ s) = n_slots;
  wf_cc : CongestionControl.wf (cc_ s);
  wf_servers : Forall (fun id => 0 <= id < kNumMaxServers) (servers_ s);
  wf_sorted : StronglySorted Z.lt (servers_ s);
}.

(** The weight of a server as the policies see it: scaled by its rate limit if
    it is registered. *)
Definition scaled_in (servers : ServerSet) (weights : ServerWeights) (s : t) (id : ServerID)
    (w : ServerWeight) : Prop :=
  exists w0, at_ weights id = Ok w0 /\
    if bool_decide (id ∈ servers)
    then exists rate, CongestionControl.GetRateLimit id (cc_ s) = Ok rate /\ w = (w0 * rate)%double
    else w = w0.
Definition scaled_weight (weights : ServerWeights) (s : t) : ServerID -> ServerWeight -> Prop :=
  scaled_in (servers_ s) weights s.

Lemma rate_limited_spec weights s :
  wf s -> length weights = n_slots ->
  exists ws, rate_limited weights s = Ok ws /\ length ws = n_slots /\
    forall id w, at_ ws id = Ok w <-> scaled_weight weights s id w.
Proof.
  intros Hwf Hlen. pose proof (sorted_NoDup _ (wf_sorted s Hwf)) as Hnd.
  unfold rate_limited, scaled_weight. set (Q := fun seen => scaled_in seen weights s).
  destruct (ofold_total (fun seen ws => length ws = n_slots /\ forall id w, at_ ws id = Ok w <-> Q seen id w)
    (fun ws server_id => w ← at_ ws server_id; rate ← CongestionControl.GetRateLimit server_id (cc_ s);
       at_put ws server_id (w * rate)%double) (servers_ s) weights) as (ws & Hrun & Hl & Hw); [| |by exists ws].
  { split; [done|]. intros id w. unfold Q, scaled_in. rewrite bool_decide_eq_false_2 by set_solver. naive_solver. }
  intros seen id rest ws Heq (Hl & Hw).
  assert (0 <= id < kNumMaxServers) as Hid.
  { pose proof (wf_servers s Hwf) as Hall. rewrite Forall_forall in Hall. apply Hall. rewrite Heq. set_solver. }
  assert (id ∉ seen) as Hnew.
  { rewrite Heq in Hnd. apply NoDup_app in Hnd as (_ & Hd & _). intros Hin. apply (Hd id Hin). by left. }
  destruct (at_in_range ws id) as [w Hat]; [by apply CongestionControl.in_slots|].
  destruct (CongestionControl.slot_exists (cc_ s) id (wf_cc s Hwf) Hid) as (st & la & si & rate & (_ & _ & _ & Hr) & _).
  destruct (CongestionControl.put_slot ws id (w * rate)%double Hl Hid) as [ws' Hp].
  exists ws'. rewrite Hat. simpl. unfold CongestionControl.GetRateLimit in *. rewrite Hr. simpl. split; [done|].
  split; [by rewrite (at_put_length _ _ _ _ Hp)|]. intros j v. destruct (decide (j = id)) as [->|Hne].
  - rewrite (at_put_eq _ _ _ _ Hp). pose proof (proj1 (Hw _ _) Hat) as (w0 & H0 & H1).
    rewrite bool_decide_eq_false_2 in H1 by done. subst w0. unfold Q, scaled_in, CongestionControl.GetRateLimit.
    rewrite H0, Hr, bool_decide_eq_true_2 by set_solver.
    split; [naive_solver|]. intros (? & ? & ? & ? & ->). by simplify_eq.
  - rewrite (at_put_ne _ _ _ _ _ Hp), Hw by done. unfold Q, scaled_in.
    by replace (bool_decide (j ∈ seen ++ [id])) with (bool_decide (j ∈ seen)) by (apply bool_decide_ext; set_solver).
Qed.

(** The registered servers whose mode satisfies [keep]. *)
Definition in_mode (keep : ServerMode.t -> bool) (s : t) (id : ServerID) : bool :=
  match at_ (modes_ s) id with Ok m => keep m | Fault _ => false end.
Definition kept (keep : ServerMode.t -> bool) (s : t) : list ServerID := List.filter (in_mode keep s) (servers_ s).

Definition is_reader (s : t) : list ServerID := kept (fun m => bool_decide (m = ServerMode.kRead)) s.
Definition not_reader (s : t) : list ServerID := kept (fun m => negb (bool_decide (m = ServerMode.kRead))) s.

Lemma registered_slot s id : wf s -> id ∈ servers_ s -> 0 <= id < kNumMaxServers.
Proof. intros Hwf Hin. pose proof (wf_servers s Hwf) as Hall. rewrite Forall_forall in Hall. auto. Qed.

Lemma init_weights_at (all : ServerWeights) id w0 :
  at_ all id = Ok w0 -> at_ (InitServerWeights all) id = Ok kInvalidServerWeight.
Proof. intros (Hid & Hl)%at_Ok. apply at_Ok. split; [done|]. unfold InitServerWeights. rewrite list_lookup_fmap, Hl. done. Qed.

Lemma at_same_length {A B} (l : list A) (l' : list B) id a :
  length l = length l' -> at_ l id = Ok a -> exists b, at_ l' id = Ok b.
Proof. intros Hl (Hid & Hlk%lookup_lt_Some)%at_Ok. apply at_in_range. lia. Qed.

Lemma filter_weights_spec keep all s :
  wf s -> length all = n_slots ->
  exists ws, filter_weights keep all s = Ok (length (kept keep s), ws) /\ length ws = n_slots /\
    forall id w, at_ ws id = Ok w <->
      exists w0, at_ all id = Ok w0 /\ w = if bool_decide (id ∈ kept keep s) then w0 else kInvalidServerWeight.
Proof.
  intros Hwf Hlen. unfold filter_weights, kept.
  set (P := fun (seen : list ServerID) '((n, ws) : nat * ServerWeights) =>
    n = length (List.filter (in_mode keep s) seen) /\ length ws = n_slots /\ forall id w, at_ ws id = Ok w <->
    exists w0, at_ all id = Ok w0 /\
      w = if bool_decide (id ∈ List.filter (in_mode keep s) seen) then w0 else kInvalidServerWeight).
  match goal with |- context [ofold ?f ?a ?l] => destruct (ofold_total P f l a) as ([n ws] & Hrun & HP) end.
  - split; [done|]. split; [unfold InitServerWeights; by rewrite length_map|]. intros id w. split.
    + intros Hat. destruct (at_same_length (InitServerWeights all) all id w) as [w0 H0];
        [unfold InitServerWeights; by rewrite length_map|done|].
      exists w0. split; [done|]. apply init_weights_at in H0. rewrite H0 in Hat. by simplify_eq.
    + intros (w0 & H0 & ->). by apply (init_weights_at _ _ w0).
  - intros seen id rest [n ws] Heq (Hn & Hl & Hw).
    assert (0 <= id < kNumMaxServers) as Hid by (apply (registered_slot s); [done|rewrite Heq; set_solver]).
    destruct (at_in_range (modes_ s) id) as [mode Hm]; [apply CongestionControl.in_slots; [apply Hwf|done]|].
    rewrite Hm. simpl. destruct (keep mode) eqn:Hk.
    + assert (in_mode keep s id = true) as Him by (unfold in_mode; by rewrite Hm).
      destruct (at_in_range all id) as [w0 H0]; [by apply CongestionControl.in_slots|]. rewrite H0. simpl.
      destruct (CongestionControl.put_slot ws id w0 Hl Hid) as [ws' Hp]. rewrite Hp. simpl.
      eexists. split; [done|]. unfold P. rewrite List.filter_app. simpl. rewrite Him, length_app. simpl.
      split; [lia|]. split; [by rewrite (at_put_length _ _ _ _ Hp)|]. intros j w.
      destruct (decide (j = id)) as [->|Hne].
      * rewrite (at_put_eq _ _ _ _ Hp), H0, bool_decide_eq_true_2 by set_solver.
        split; [naive_solver|]. intros (? & ? & ->). by simplify_eq.
      * rewrite (at_put_ne _ _ _ _ _ Hp), Hw by done.
        by replace (bool_decide (j ∈ List.filter (in_mode keep s) seen ++ [id])) with
          (bool_decide (j ∈ List.filter (in_mode keep s) seen)) by (apply bool_decide_ext; set_solver).
    + assert (in_mode keep s id = false) as Him by (unfold in_mode; by rewrite Hm).
      eexists. split; [done|]. unfold P. rewrite List.filter_app. simpl. by rewrite Him, app_nil_r.
  - exists ws. rewrite Hrun. destruct HP as (-> & ? & ?). done.
Qed.

(** ** Runs of the manager *)

Inductive event :=
| EAddServer (calibrated_time : Z) (server_id : ServerID)
| ESetStats (servers : ServerStatsList)
| ESignal (now micro_time calibrated_time : Z) (server_id : ServerID)
| ETick (clock : ServerID -> Z * Z).

Definition exec (s : t) (e : event) : outcome t :=
  match e with
  | EAddServer cal id => r ← AddServer cal id s; Ok (snd r)
  | ESetStats servers => SetServerStats servers s
  | ESignal now mt cal id => SignalCongested now mt cal id s
  | ETick clock => cc ← CongestionControl.UpdateAllServers clock (cc_ s); Ok (s <| cc_ := cc |>)
  end.

Lemma dp_wf_init vol_id junk : length junk = n_slots -> wf (init vol_id junk).
Proof.
  intros Hj. constructor; simpl; try done; [apply CongestionControl.cc_wf_init|constructor..].
Qed.

Lemma wf_set_cc s cc : wf s -> CongestionControl.wf cc -> wf (s <| cc_ := cc |>).
Proof. intros [] Hcc. by constructor. Qed.

Lemma dp_AddServer_wf cal id s r s' : wf s -> AddServer cal id s = Ok (r, s') -> wf s'.
Proof.
  intros Hwf Hadd. unfold AddServer in Hadd. case_decide as Hin; simplify_outcome; [done|].
  destruct v as [r cc]. pose proof (CongestionControl.cc_AddServer_wf _ _ _ _ _ (wf_cc s Hwf) Hrun) as Hcc.
  assert (0 <= id < kNumMaxServers) as Hid.
  { unfold CongestionControl.AddServer in Hrun. simplify_outcome. apply at_put_Ok in Hrun0 as (Hid & _).
    rewrite (CongestionControl.wf_telemetry _ (wf_cc s Hwf)) in Hid. unfold CongestionControl.n_slots in Hid. lia. }
  destruct Hwf. constructor; simpl; try done.
  - rewrite Forall_forall in *. intros j [->|Hj]%elem_of_set_insert; auto.
  - by apply set_insert_sorted.
Qed.

Lemma set_one_wf s srv s' : wf s -> set_one s srv = Ok s' -> wf s'.
Proof.
  intros Hwf Hset. unfold set_one, SetCongestionState in Hset. simplify_outcome.
  pose proof (CongestionControl.cc_exec_wf (cc_ s) (CongestionControl.ESetState _ _) _ (wf_cc s Hwf) Hrun2) as Hcc.
  destruct Hwf. constructor; simpl; try done; by erewrite at_put_length by done.
Qed.

Lemma dp_exec_wf s e s' : wf s -> exec s e = Ok s' -> wf s'.
Proof.
  intros Hwf Hex. destruct e as [cal id|servers|now mt cal id|clock]; simpl in Hex.
  - simplify_outcome. destruct v as [r s1]. by eapply dp_AddServer_wf.
  - unfold SetServerStats in Hex. revert Hex. apply (ofold_ind (fun _ => wf)); [done|].
    intros. by eapply set_one_wf.
  - unfold SignalCongested, CongestionControl.SignalCongested in Hex. simplify_outcome.
    apply (wf_set_cc s); [done|].
    by apply (CongestionControl.cc_exec_wf (cc_ s) (CongestionControl.ESignal v0 id now mt cal) _ (wf_cc s Hwf)).
  - simplify_outcome. apply (wf_set_cc s); [done|].
    by apply (CongestionControl.cc_exec_wf (cc_ s) (CongestionControl.ETick clock) _ (wf_cc s Hwf)).
Qed.

Lemma dp_run_wf vol_id junk es s :
  length junk = n_slots -> ofold exec (init vol_id junk) es = Ok s -> wf s.
Proof.
  intros Hj. apply (ofold_ind (fun _ => wf) exec es); [by apply dp_wf_init|]. intros. by eapply dp_exec_wf.
Qed.

(** ** The weights the policies get *)

Lemma invalid_eq : (kInvalidServerWeight =? kInvalidServerWeight)%double = true.
Proof. reflexivity. Qed.

(** The filtered weights: valid exactly on the kept servers that were valid. *)
Lemma filtered_valid keep all s ws :
  (forall id w, at_ ws id = Ok w <->
     exists w0, at_ all id = Ok w0 /\ w = if bool_decide (id ∈ kept keep s) then w0 else kInvalidServerWeight) ->
  (forall x, valid ws x <-> x ∈ kept keep s /\ valid all x) /\
  (forall x, valid ws x -> drawable all x -> drawable ws x).
Proof.
  intros Hws. split.
  2:{ intros x (_ & w' & Hw' & Hne) Hd w Hw. rewrite Hw in Hw'. simplify_eq.
      apply Hws in Hw as (w0 & H0 & ->). case_bool_decide; [by apply Hd|]. by rewrite invalid_eq in Hne. }
  intros x. unfold valid. split.
  - intros (Hx & w & (w0 & H0 & ->)%Hws & Hne). destruct (bool_decide (x ∈ kept keep s)) eqn:Ek.
    + apply bool_decide_eq_true_1 in Ek. naive_solver.
    + by rewrite invalid_eq in Hne.
  - intros (Hk & Hx & w & Hw & Hne). split; [done|]. exists w. split; [|done]. apply Hws.
    exists w. by rewrite bool_decide_eq_true_2.
Qed.

Lemma GetReadOnlyWeights_spec s :
  wf s ->
  exists all ws, GetAllReadWeights s = Ok (Value all) /\ GetReadOnlyWeights s = Ok (Value ws) /\
  (forall x, valid ws x -> drawable all x -> drawable ws x) /\
  ((forall x, valid ws x <-> valid all x) /\ is_reader s = [] \/
   (forall x, valid ws x <-> x ∈ is_reader s /\ valid all x)).
Proof.
  intros Hwf. unfold GetAllReadWeights, GetReadOnlyWeights, GetRateLimitedReadWeights.
  destruct (rate_limited_spec (read_weights_ s) s Hwf (wf_reads s Hwf)) as (all & -> & Hl & _). simpl.
  unfold is_reader. set (keep := fun m => bool_decide (m = ServerMode.kRead)).
  destruct (filter_weights_spec keep all s Hwf Hl) as (ws & -> & _ & Hws). simpl.
  exists all. destruct (Z.leb_spec kMinReadServers (Z.of_nat (length (kept keep s)))) as [Hge|Hlt].
  - destruct (filtered_valid keep all s ws Hws) as [Hv Hd]. exists ws. split_and!; try done. by right.
  - exists all. split_and!; try done. left. split; [done|].
    destruct (kept keep s); [done|]. unfold kMinReadServers in Hlt. simpl in Hlt. lia.
Qed.

Lemma GetWriteWeights_spec s :
  wf s ->
  exists all ws, GetRateLimitedWriteWeights s = Ok all /\ GetWriteWeights s = Ok (Value ws) /\
  (forall x, valid ws x -> drawable all x -> drawable ws x) /\
  ((forall x, valid ws x <-> valid all x) /\ Z.of_nat (length (not_reader s)) < kNumReplicas \/
   (forall x, valid ws x <-> x ∈ not_reader s /\ valid all x)).
Proof.
  intros Hwf. unfold GetWriteWeights, GetRateLimitedWriteWeights.
  destruct (rate_limited_spec (write_weights_ s) s Hwf (wf_writes s Hwf)) as (all & -> & Hl & _). simpl.
  unfold not_reader. set (keep := fun m => negb (bool_decide (m = ServerMode.kRead))).
  destruct (filter_weights_spec keep all s Hwf Hl) as (ws & -> & _ & Hws). simpl.
  exists all. destruct (Z.leb_spec kNumReplicas (Z.of_nat (length (kept keep s)))) as [Hge|Hlt].
  - destruct (filtered_valid keep all s ws Hws) as [Hv Hd]. exists ws. split_and!; try done. by right.
  - exists all. split_and!; try done. by left.
Qed.

Lemma two_elements (l : list Z) a b : a ∈ l -> b ∈ l -> a <> b -> kNumReplicas <= Z.of_nat (length l).
Proof.
  intros Ha Hb Hne. unfold kNumReplicas. destruct l as [|x [|y l]]; [set_solver|set_solver|simpl; lia].
Qed.

End StatsLife.

Module Selection.
Import DPScheduler StatsLife.

Section Selection.
Context {P : Type} `{!BaseReadScheduler P} `{!BaseWriteScheduler P}
  `{!BaseReadSchedulerLaws P} `{!BaseWriteSchedulerLaws P}.

(** C12: On every state a run reaches, the server selected for a read is one of the
    subset asked for, with a valid weight; it is one in read mode whenever the
    subset has a registered one in read mode with a valid weight; and the
    selection fails, with [ENOENT], only if no server of the subset has a
    valid weight. *)
Theorem read_goes_to_holder vol_id junk es (s s' : DPScheduler.t (P := P)) subset v iod r :
  length junk = n_slots ->
  ofold exec (DPServerStatsManager.init vol_id junk) es = Ok (stats_mgr_ s) ->
  StronglySorted Z.lt subset ->
  Scheduler_SelectReadServer subset v iod s = Ok (r, s') ->
  exists weights, DPServerStatsManager.GetAllReadWeights (stats_mgr_ s) = Ok (Value weights) /\
    read_spec weights subset r /\
    ((exists y, y ∈ subset /\ y ∈ is_reader (stats_mgr_ s) /\ valid weights y) ->
     exists x, r = Value x /\ x ∈ is_reader (stats_mgr_ s)).
Proof.
  intros Hj Hrun Hs Hsel. pose proof (dp_run_wf _ _ _ _ Hj Hrun) as Hwf.
  destruct (GetReadOnlyWeights_spec _ Hwf) as (all & ws & Hall & Hro & _ & Hcases).
  exists all. split; [done|]. unfold Scheduler_SelectReadServer, select_among_all in Hsel.
  rewrite Hro in Hsel. simplify_outcome. destruct v0 as [srv sched].
  pose proof (read_sound _ _ _ _ _ _ _ Hs Hrun0) as Hspec. destruct srv as [x|c].
  - simplify_outcome. destruct Hspec as [Hx Hv]. destruct Hcases as [[Heq Hnone]|Heq].
    + split; [split; [done|by apply Heq]|]. intros (y & _ & Hy & _).
      rewrite Hnone in Hy. by apply elem_of_nil in Hy.
    + apply Heq in Hv as [Hk Hv]. split; [done|]. eauto.
  - simpl in Hsel. rewrite Hall in Hsel. simplify_outcome. destruct v0 as [r' sched'].
    pose proof (read_sound _ _ _ _ _ _ _ Hs Hrun1) as Hspec'. split; [done|].
    intros (y & Hy & Hky & Hvy). exfalso. destruct Hspec as [_ Hno]. apply (Hno y Hy).
    destruct Hcases as [[Heq Hnone]|Heq]; apply Heq; [done|]. by split.
Qed.


(** C33: When every valid weight is finite and positive, both selections return:
    no distribution is asked for an impossible draw and no table is indexed
    outside its bounds. *)
Theorem selections_return vol_id junk es (s : DPScheduler.t (P := P)) subset v iod reads writes :
  length junk = n_slots ->
  ofold exec (DPServerStatsManager.init vol_id junk) es = Ok (stats_mgr_ s) ->
  StronglySorted Z.lt subset ->
  DPServerStatsManager.GetRateLimitedReadWeights (stats_mgr_ s) = Ok reads ->
  DPServerStatsManager.GetRateLimitedWriteWeights (stats_mgr_ s) = Ok writes ->
  (forall x, valid reads x -> drawable reads x) -> (forall x, valid writes x -> drawable writes x) ->
  (exists r s', Scheduler_SelectReadServer subset v iod s = Ok (r, s')) /\
  (exists r s', Scheduler_SelectWriteReplicas v iod s = Ok (r, s')).
Proof.
  intros Hj Hrun Hs Hr Hw Hdr Hdw. pose proof (dp_run_wf _ _ _ _ Hj Hrun) as Hwf. split.
  - destruct (GetReadOnlyWeights_spec _ Hwf) as (all & ws & Hall & Hro & Hd & Hcases).
    assert (all = reads) as ->.
    { unfold DPServerStatsManager.GetAllReadWeights in Hall. rewrite Hr in Hall. by simplify_outcome. }
    unfold Scheduler_SelectReadServer, select_among_all. rewrite Hro. simpl.
    destruct (read_total ws subset v iod (sched_ s) Hs) as (r1 & s1 & ->).
    { intros x _ Hx. apply Hd; [done|]. apply Hdr. destruct Hcases as [[Heq _]|Heq]; apply Heq in Hx; tauto. }
    simpl. destruct r1 as [x|c]; [eauto|]. rewrite Hall. simpl.
    destruct (read_total reads subset v iod s1 Hs) as (r2 & s2 & ->); [auto|]. simpl. eauto.
  - destruct (GetWriteWeights_spec _ Hwf) as (all & ws & Hall & Hww & Hd & Hcases).
    rewrite Hw in Hall. simplify_eq. unfold Scheduler_SelectWriteReplicas. rewrite Hww. simpl.
    destruct (write_total ws v iod (sched_ s)) as (r & s' & ->); [|simpl; eauto].
    intros x Hx. apply Hd; [done|]. apply Hdw. destruct Hcases as [[Heq _]|Heq]; apply Heq in Hx; tauto.
Qed.
End Selection.

(** ** A concrete engine

    A linear congruential engine with the simplest distributions that satisfy
    the laws. *)
Definition lcg (g : Z) : Z := (g * 1103515245 + 12345) mod 2 ^ 31.

#[export] Instance lcg_source : RandomSource Z := {|
  uniform_int a b g := (a + g mod (b - a + 1), lcg g);
  discrete ws g := (g mod Z.of_nat (length ws), lcg g);
  sample l n g := (take n l, lcg g);
|}.

#[export] Instance lcg_laws : RandomLaws Z.
Proof.
  constructor; simpl.
  - intros a b g Hab. pose proof (Z.mod_pos_bound g (b - a + 1)). lia.
  - intros ws g Hok. apply Z.mod_pos_bound. destruct ws; [by vm_compute in Hok|simpl; lia].
  - intros. apply sublist_take.
  - intros. apply length_take.
Qed.

#[export] Instance id_hash : StdHash := fun x => x.

(** Three servers register and report: one in read mode, two in write mode. *)
Definition report (id : ServerID) (mode : ServerMode.t) (r w : Z) : ServerStats.t :=
  ServerStats.zero <| ServerStats.server_id := id |> <| ServerStats.committed_mode := mode |>
    <| ServerStats.read_weight := of_int r |> <| ServerStats.write_weight := of_int w |>
    <| ServerStats.congestion_state := ServerCongestionState.kUnCongested |>.

Definition junk_modes : ServerModes := replicate n_slots ServerMode.kMix.

Definition sample_events : list event :=
  [EAddServer 1 1; EAddServer 2 2; EAddServer 3 3;
   ESetStats [report 1 ServerMode.kRead 3 1; report 2 ServerMode.kWrite 2 5; report 3 ServerMode.kWrite 1 4];
   ETick (fun _ => (9, 9))].

Definition sample_iod : IODesc.t := IODesc.mk 0 1 17 0 0 0.

Definition sample_scheduler (type : Config.DataPlaneSchedulerType) (es : list event)
    : outcome (DPScheduler.t (P := DPScheduler.policy (G := Z))) :=
  m ← ofold exec (DPServerStatsManager.init 7 junk_modes) es;
  Ok (DPScheduler.mk m (make_policy type 42 43) 7).

Lemma read_goes_to_holder_witness :
  exists s r s', sample_scheduler Config.kWeightedReadWrite sample_events = Ok s /\
    Scheduler_SelectReadServer [1; 2] 7 sample_iod s = Ok (r, s') /\ r = Value 1 /\
    exists weights, DPServerStatsManager.GetAllReadWeights (stats_mgr_ s) = Ok (Value weights) /\
      read_spec weights [1; 2] r /\
      ((exists y, y ∈ [1; 2] /\ y ∈ is_reader (stats_mgr_ s) /\ valid weights y) ->
       exists x, r = Value x /\ x ∈ is_reader (stats_mgr_ s)).
Proof.
  eexists _, _, _. split; [vm_compute; reflexivity|]. split; [vm_compute; reflexivity|]. split; [reflexivity|].
  eapply (read_goes_to_holder 7 junk_modes sample_events _ _ [1; 2] 7 sample_iod);
    [reflexivity|vm_compute; reflexivity|repeat constructor; lia|vm_compute; reflexivity].
Defined.


(** Deciding the hypothesis of [selections_return] of a table. *)
Definition all_drawable (ws : ServerWeights) : bool :=
  forallb (fun w => (w =? kInvalidServerWeight)%double || (is_finite w && dlt (of_int 0) w)) ws.

Lemma all_drawable_sound ws : all_drawable ws = true -> forall x, valid ws x -> drawable ws x.
Proof.
  intros Hall x (_ & w & Hw & Hne) w' Hw'. rewrite Hw in Hw'. simplify_eq.
  apply at_Ok in Hw as (_ & Hl%list_elem_of_lookup_2%list_elem_of_In).
  pose proof (proj1 (forallb_forall _ _) Hall _ Hl) as Hok. cbv beta in Hok. rewrite Hne in Hok.
  by apply andb_true_iff in Hok.
Qed.

Lemma selections_return_witness :
  exists s, sample_scheduler Config.kWeightedReadWrite sample_events = Ok s /\
    (exists r s', Scheduler_SelectReadServer [2; 3] 7 sample_iod s = Ok (r, s')) /\
    (exists r s', Scheduler_SelectWriteReplicas 7 sample_iod s = Ok (r, s')).
Proof.
  eexists. split; [vm_compute; reflexivity|].
  eapply (selections_return 7 junk_modes sample_events _ [2; 3] 7 sample_iod);
    [reflexivity|vm_compute; reflexivity|repeat constructor; lia|vm_compute; reflexivity|vm_compute; reflexivity
    |apply all_drawable_sound; vm_compute; reflexivity|apply all_drawable_sound; vm_compute; reflexivity].
Defined.

(** ** Writes when every server is a reader *)

Definition readers_events : list event :=
  [EAddServer 1 1; EAddServer 2 2; EAddServer 3 3;
   ESetStats [report 1 ServerMode.kRead 1 0; report 2 ServerMode.kRead 1 0; report 3 ServerMode.kRead 1 0]].


End Selection.
