(* ===== verification/BlockResolver.v ===== *)
(** * Block resolver

    [src/sandook/virtual_disk/block_resolver.h]: where each sector of a
    virtual disk is stored, and the blocks earlier writes left behind. Each
    entry is an atomic pointer and the discard list has a lock, so that the
    two halves of [AddMapping] are separate atomic steps. *)

From S2P Require Import Prelude BaseTypes.

Local Open Scope Z_scope.

Module BlockResolver.

Record t := mk {
  nsectors_ : Z;
  blk_map_ : list ServerReplicaBlockInfoList;
  discard_list_ : list ServerReplicaBlockInfoList;
}.
#[global] Instance settable : Settable t := settable! mk <nsectors_; blk_map_; discard_list_>.

(** The array's first element is given, the others are zero. *)
Definition unmapped : ServerReplicaBlockInfoList :=
  (ServerBlockInfo.mk kInvalidServerID 0, false) ::
  replicate (Z.to_nat kNumReplicas - 1) (ServerBlockInfo.mk 0 0, false).

Definition init (nsectors : Z) : t := mk nsectors (replicate (Z.to_nat nsectors) unmapped) [].

Definition entry (s : t) (blk_addr : VolumeBlockAddr) : outcome ServerReplicaBlockInfoList :=
  deref (blk_map_ s !! Z.to_nat blk_addr).

Definition DiscardExistingBlocks (blk_addr : VolumeBlockAddr) (s : t) : outcome t :=
  blocks ← entry s blk_addr;
  '(info, is_dirty) ← deref (head blocks);
  Ok (if is_dirty && negb (ServerBlockInfo.server_id info =? kInvalidServerID)
      then s <| discard_list_ ::= fun l => l ++ [blocks] |> else s).

(** The assertion and the first half of [AddMapping], and its second half. *)
Definition begin_mapping (blk_addr : VolumeBlockAddr) (s : t) : outcome t :=
  require (blk_addr <? nsectors_ s) BugOn;;
  DiscardExistingBlocks blk_addr s.

Definition store_mapping (blk_addr : VolumeBlockAddr) (srv_blk : ServerReplicaBlockInfoList) (s : t) : t :=
  s <| blk_map_ := <[Z.to_nat blk_addr := srv_blk]> (blk_map_ s) |>.

Definition AddMapping (blk_addr : VolumeBlockAddr) (srv_blk : ServerReplicaBlockInfoList) (s : t) : outcome t :=
  s ← begin_mapping blk_addr s;
  Ok (store_mapping blk_addr srv_blk s).

Definition ResolveBlock (blk_addr : VolumeBlockAddr) (s : t) : outcome (Status ServerReplicaBlockInfoList) :=
  require (blk_addr <? nsectors_ s) BugOn;;
  blocks ← entry s blk_addr;
  '(info, _) ← deref (head blocks);
  Ok (if ServerBlockInfo.server_id info =? kInvalidServerID then MakeError ENOENT else Value blocks).

Definition GetAndResetDiscardedBlocks (s : t) : Status (list ServerReplicaBlockInfoList) * t :=
  match discard_list_ s with
  | [] => (MakeError ENOENT, s)
  | ret_list => (Value ret_list, s <| discard_list_ := [] |>)
  end.

(** The blocks of an entry, none when it is not mapped. *)
Definition blocks_in (blocks : ServerReplicaBlockInfoList) : list ServerBlockInfo.t :=
  match blocks with
  | (info, _) :: _ => if ServerBlockInfo.server_id info =? kInvalidServerID then [] else map fst blocks
  | [] => []
  end.

Definition mapped (s : t) : list ServerBlockInfo.t := concat (map blocks_in (blk_map_ s)).
Definition mapped_at (s : t) (blk_addr : VolumeBlockAddr) : list ServerBlockInfo.t :=
  match blk_map_ s !! Z.to_nat blk_addr with Some blocks => blocks_in blocks | None => [] end.

Lemma mapped_init n : mapped (init n) = [].
Proof. unfold mapped, init. simpl. induction (Z.to_nat n); [done|]. simpl. done. Qed.

Lemma mapped_at_mapped s v b : b ∈ mapped_at s v -> b ∈ mapped s.
Proof.
  unfold mapped_at, mapped. destruct (blk_map_ s !! Z.to_nat v) eqn:E; [|set_solver]. intros Hb.
  apply elem_of_concat_map. exists l. split; [by eapply list_elem_of_lookup_2|done].
Qed.

(** What the two halves do to the blocks. *)
Lemma begin_mapping_Ok v s s' :
  begin_mapping v s = Ok s' ->
  0 <= v -> nsectors_ s = Z.of_nat (length (blk_map_ s)) ->
  v < nsectors_ s /\ nsectors_ s' = nsectors_ s /\ blk_map_ s' = blk_map_ s /\
  forall b, b ∈ map fst (concat (discard_list_ s')) -> b ∈ map fst (concat (discard_list_ s)) \/ b ∈ mapped_at s v.
Proof.
  unfold begin_mapping, DiscardExistingBlocks, entry, mapped_at. intros H Hv Hn. simplify_outcome. destruct_pairs.
  apply Z.ltb_lt in Hrun. apply deref_Ok in Hrun0, Hrun1. rewrite Hrun0. split; [done|].
  destruct v1 as [|[info dirty] l]; [done|]. simpl in Hrun1. simplify_eq.
  destruct (_ && _) eqn:E; simplify_outcome; split_and!; try done; [|by left].
  apply andb_true_iff in E as [_ E%negb_true_iff]. unfold blocks_in. rewrite E.
  intros x. rewrite concat_app, map_app, elem_of_app. simpl. rewrite app_nil_r. done.
Qed.

Lemma store_mapping_blocks v blks s :
  0 <= v < Z.of_nat (length (blk_map_ s)) ->
  mapped (store_mapping v blks s) ++ mapped_at s v ≡ₚ mapped s ++ blocks_in blks /\
  mapped_at (store_mapping v blks s) v = blocks_in blks /\
  forall v', 0 <= v' -> v' <> v -> mapped_at (store_mapping v blks s) v' = mapped_at s v'.
Proof.
  intros Hv. destruct (lookup_lt_is_Some_2 (blk_map_ s) (Z.to_nat v)) as [old Hold]; [lia|].
  unfold mapped, mapped_at, store_mapping. simpl. rewrite Hold. split_and!.
  - by apply concat_insert_perm.
  - rewrite list_lookup_insert_eq by lia. done.
  - intros v' Hv' Hne. rewrite list_lookup_insert_ne by lia. done.
Qed.

Lemma ResolveBlock_Ok v s r :
  ResolveBlock v s = Ok r ->
  match r with
  | Value blks => map fst blks = mapped_at s v /\ mapped_at s v <> []
  | MakeError e => e = ENOENT /\ mapped_at s v = []
  end.
Proof.
  unfold ResolveBlock, entry, mapped_at. intros H. simplify_outcome. apply deref_Ok in Hrun0. rewrite Hrun0.
  destruct v1 as [|[info dirty] l]; [done|]. simpl in Hrun1. simplify_outcome. unfold blocks_in. by destruct (_ =? _).
Qed.
End BlockResolver.
