(* ===== verification/VirtualDiskRemote.v ===== *)
(** * The remote virtual disk

    [src/sandook/virtual_disk/virtual_disk_remote.cc] and [.h]: sectors are
    stored in blocks of remote disk servers, a fresh pair of blocks for every
    write. Each request runs in threads of its own, so the model is a machine
    whose tasks advance one atomic step at a time, in any order: looking a
    sector up, taking blocks from the caches, either half of [AddMapping], a
    call to a server, the handling of its reply. A write has one thread per
    replica, and a failed attempt starts another inside one of its threads: the
    frames of a task are its nested attempts, innermost first.

    The caller's buffer belongs to the request until it completes, so a task
    carries its contents. Sleeping has no effect on the state. Taking blocks
    from the caches is one step here: [CoreLocalCache] shows that its sections
    keep every block in one place under any interleaving. *)

From S2P Require Import Prelude Float64 BaseTypes Counter CoreLocalCache Configuration Messages StorageServer Congestion DataPlane DataPlaneLaws DataPlaneScheduler BlockResolver.

Local Open Scope Z_scope.

Definition EBUSY : Z := 16.
Definition EROFS : Z := 30.
Definition kPerCoreCachedBlocks : Z := kAllocationBatch.

(** The controller as the disk uses it: the reply to an allocation request,
    [None] when it is empty. *)
Class ControllerRPC (C : Type) := {
  allocate_rpc : VolumeID -> ServerID -> C -> option (list ServerBlockInfo.t) * C;
}.

Module VirtualDiskRemote.

Abbreviation cache := (CoreLocalCache.t (A := ServerBlockInfo.t)).
Abbreviation counter := ThreadSafeCounter.t.

Section Disk.
Context {P : Type} `{!BaseReadScheduler P} `{!BaseWriteScheduler P}.
Context {C : Type} `{!ControllerRPC C}.
(** [fuel] bounds the calls of [AllocateBlocks] in one [reserve]. *)
Context (fuel : nat).

(** The connections are known by the identifiers of their servers. *)
Record t := mk {
  sched_ : DPScheduler.t (P := P);
  servers_ : list ServerID;
  affinity_ : ServerID;
  vol_id_ : VolumeID;
  blk_res_ : BlockResolver.t;
  blk_caches_ : list (option cache);
  num_read_rejections_ : counter;
  num_write_rejections_ : counter;
  num_read_retries_ : counter;
  num_write_retries_ : counter;
  num_reads_submitted_ : counter;
  num_writes_submitted_ : counter;
  n_disk_blocks_gc_ : Z;
}.
#[global] Instance settable : Settable t :=
  settable! mk <sched_; servers_; affinity_; vol_id_; blk_res_; blk_caches_; num_read_rejections_;
    num_write_rejections_; num_read_retries_; num_write_retries_; num_reads_submitted_;
    num_writes_submitted_; n_disk_blocks_gc_>.

Definition inc (f : t -> counter) `{!FieldSetter f} (cpu : nat) (s : t) : outcome t :=
  c ← ThreadSafeCounter.inc_local cpu 1 (f s); Ok (s <| f := c |>).

(** *** Blocks *)

Definition HandleAllocateBlocksReply (payload : option (list ServerBlockInfo.t)) : Status (list ServerBlockInfo.t) :=
  match payload with
  | None => MakeError EINVAL
  | Some server_blks => Value server_blks
  end.

Definition AllocateBlocks (vol_id : VolumeID) (server_id : ServerID) (c : C) : outcome (list ServerBlockInfo.t * C) :=
  let (resp, c) := allocate_rpc vol_id server_id c in
  Ok (match HandleAllocateBlocksReply resp with MakeError _ => [] | Value blks => blks end, c).

(** [blk_caches_.at(server)->get()]. *)
Definition get_block (cpus : list nat) (server : ServerID) (s : t) (c : C) : outcome (ServerBlockInfo.t * t * C) :=
  slot ← at_ (blk_caches_ s) server;
  cache ← deref slot;
  r ← CoreLocalCache.get (AllocateBlocks (vol_id_ s) server) fuel cpus cache c;
  let '(blk, cache, c) := r in
  l ← at_put (blk_caches_ s) server (Some cache);
  Ok (blk, s <| blk_caches_ := l |>, c).

Fixpoint get_each (cpus : nat -> list nat) (set_dirty : bool) (servers : list ServerID) (s : t) (c : C)
    : outcome (ServerReplicaBlockInfoList * t * C) :=
  match servers with
  | [] => Ok ([], s, c)
  | server :: servers =>
      r ← get_block (cpus (length servers)) server s c;
      let '(blk, s, c) := r in
      r ← get_each cpus set_dirty servers s c;
      let '(blks, s, c) := r in
      Ok ((blk, set_dirty) :: blks, s, c)
  end.

Definition GetBlocksWithAffinity (cpus : nat -> list nat) (set_dirty : bool) (s : t) (c : C)
    : outcome (Status ServerReplicaBlockInfoList * t * C) :=
  r ← get_each cpus set_dirty (replicate (Z.to_nat kNumReplicas) (affinity_ s)) s c;
  let '(blks, s, c) := r in Ok (Value blks, s, c).

Definition GetBlocks (cpus : nat -> list nat) (iod : IODesc.t) (set_dirty : bool) (s : t) (c : C)
    : outcome (Status ServerReplicaBlockInfoList * t * C) :=
  if negb (affinity_ s =? kInvalidServerID) then GetBlocksWithAffinity cpus set_dirty s c
  else
    r ← DPScheduler.Scheduler_SelectWriteReplicas (vol_id_ s) iod (sched_ s);
    let '(servers, sched) := r in
    let s := s <| sched_ := sched |> in
    match servers with
    | MakeError e => Ok (MakeError e, s, c)
    | Value servers =>
        r ← get_each cpus set_dirty servers s c;
        let '(blks, s, c) := r in Ok (Value blks, s, c)
    end.

(** *** Requests to the servers *)

Definition GetRPCClientForServer (server_id : ServerID) (s : t) : outcome ServerID :=
  require (bool_decide (server_id ∈ servers_ s)) BugOn;; Ok server_id.

(** The message for a server; [data] is the buffer of the request. *)
Definition ProcessStorageOp (cpu : nat) (iod : IODesc.t) (data : list Z) (req_id : Z) (s : t) : outcome (message * t) :=
  match IODesc.get_op iod with
  | OpType.kWrite =>
      s ← inc num_writes_submitted_ cpu s;
      let payload_len := u32 (Z.shiftl (IODesc.num_sectors iod) kSectorShift) in
      require (payload_len <=? Z.of_nat (length data)) Undefined;;
      Ok (MStorageOp (StorageOpMsg.mk iod req_id (affinity_ s)) (take (Z.to_nat payload_len) data), s)
  | _ =>
      s ← inc num_reads_submitted_ cpu s;
      Ok (MStorageOp (StorageOpMsg.mk iod req_id (affinity_ s)) [], s)
  end.

(** The clocks a congestion signal reads. *)
Record signal_times := SignalTimes { now : Z; micro_time : Z; calibrated_time : Z }.

Definition signal (ts : signal_times) (server_id : ServerID) (s : t) : outcome t :=
  if negb (server_id =? affinity_ s) then
    sched ← DPScheduler.SignalCongested (now ts) (micro_time ts) (calibrated_time ts) server_id (sched_ s);
    Ok (s <| sched_ := sched |>)
  else Ok s.

(** What is copied into the buffer of a read: the payload, when the request
    has a length and a buffer. *)
Definition read_payload (iod : IODesc.t) (payload : list Z) : outcome (option (list Z)) :=
  let len := u32 (Z.shiftl (IODesc.num_sectors iod) kSectorShift) in
  if (0 <? len) && negb (IODesc.addr iod =? 0) then
    require (len <=? Z.of_nat (length payload)) Undefined;;
    Ok (Some (take (Z.to_nat len) payload))
  else Ok None.

(** An empty reply is [None]. The result comes with what a read copied. *)
Definition HandleStorageOpReply (ts : signal_times) (payload : option message) (server_id : ServerID) (s : t)
    : outcome (Status Z * option (list Z) * t) :=
  match payload with
  | Some (MStorageOpReply msg data) =>
      let iod := StorageOpReplyMsg.iod msg in
      let code := StorageOpReplyMsg.code msg in
      s ← (if bool_decide (code = StorageOpReplyCode.kSuccessCongested) then signal ts server_id s else Ok s);
      let success := bool_decide (code = StorageOpReplyCode.kSuccess) || bool_decide (code = StorageOpReplyCode.kSuccessCongested) in
      match IODesc.get_op iod with
      | OpType.kRead =>
          if success then
            copied ← read_payload iod data; Ok (Value (StorageOpReplyMsg.res msg), copied, s)
          else match code with
          | StorageOpReplyCode.kRejectDeviceBusy => s ← signal ts server_id s; Ok (MakeError EBUSY, None, s)
          | StorageOpReplyCode.kFailure => Ok (MakeError EINVAL, None, s)
          | _ => Fault RuntimeError
          end
      | OpType.kWrite =>
          if success then Ok (Value (StorageOpReplyMsg.res msg), None, s)
          else match code with
          | StorageOpReplyCode.kRejectDeviceBusy => s ← signal ts server_id s; Ok (MakeError EBUSY, None, s)
          | StorageOpReplyCode.kRejectModeMismatch => Ok (MakeError EROFS, None, s)
          | StorageOpReplyCode.kFailure => Ok (MakeError EINVAL, None, s)
          | _ => Fault RuntimeError
          end
      | _ => Fault RuntimeError
      end
  | _ => Ok (MakeError EINVAL, None, s)
  end.

(** *** Registration and statistics *)

(** The scheduler is made for the volume and told each server of the reply. *)
Definition register_server (cal : ServerID -> Z) (st : list ServerID * DPScheduler.t (P := P)) (id : ServerID)
    : outcome (list ServerID * DPScheduler.t (P := P)) :=
  let (servers, sched) := st in
  require (bool_decide (id ∉ servers)) RuntimeError;;
  r ← DPScheduler.AddServer (cal id) id sched;
  let '(add, sched) := r in
  match add with
  | MakeError _ => Fault RuntimeError
  | Value _ => Ok (servers ++ [id], sched)
  end.

(** [policy] is the policy of the reply's type; a reply that is too short is
    [None]. *)
Definition HandleRegisterVolumeReply (policy : Config.DataPlaneSchedulerType -> P) (junk : ServerModes)
    (cal : ServerID -> Z) (payload : option RegisterVolumeReplyMsg.t)
    : outcome (Status (VolumeID * list ServerID * DPScheduler.t (P := P))) :=
  match payload with
  | None => Ok (MakeError EINVAL)
  | Some msg =>
      let vol_id := RegisterVolumeReplyMsg.vol_id msg in
      let sched := DPScheduler.init (policy (RegisterVolumeReplyMsg.sched_type msg)) vol_id junk in
      r ← ofold (register_server cal) ([], sched) (map ServerInfo.id (RegisterVolumeReplyMsg.servers msg));
      Ok (Value (vol_id, fst r, snd r))
  end.

(** The caches of the constructor: one per server, or only that of the server
    the disk has an affinity to, each filled for [max_cores] cores. *)
Definition make_cache (kMaxNumCores max_cores : nat) (affinity : ServerID) (vol_id : VolumeID)
    (st : list (option cache) * C) (server_id : ServerID) : outcome (list (option cache) * C) :=
  let (caches, c) := st in
  if negb (affinity =? kInvalidServerID) && negb (server_id =? affinity) then Ok st
  else
    r ← CoreLocalCache.reserve (AllocateBlocks vol_id server_id) fuel (Z.of_nat max_cores * kPerCoreCachedBlocks)
          (CoreLocalCache.init kMaxNumCores kPerCoreCachedBlocks) c;
    l ← at_put caches server_id (Some (fst r));
    Ok (l, snd r).

(** The constructor: [Register], then the caches. *)
Definition create (policy : Config.DataPlaneSchedulerType -> P) (junk : ServerModes) (cal : ServerID -> Z)
    (kMaxNumCores max_cores : nat) (n_sectors : Z) (affinity : ServerID) (reply : option RegisterVolumeReplyMsg.t) (c : C)
    : outcome (t * C) :=
  r ← HandleRegisterVolumeReply policy junk cal reply;
  match r with
  | MakeError _ => Fault RuntimeError
  | Value (vol_id, servers, sched) =>
      r ← ofold (make_cache kMaxNumCores max_cores affinity vol_id) (replicate (Z.to_nat kNumMaxServers) None, c) servers;
      let zero := ThreadSafeCounter.init kMaxNumCores in
      Ok (mk sched servers affinity vol_id (BlockResolver.init n_sectors) (fst r) zero zero zero zero zero zero 0, snd r)
  end.

Definition HandleGetServerStatsReply (payload : option GetServerStatsReplyMsg.t) (s : t) : outcome (Status unit * t) :=
  match payload with
  | None => Ok (MakeError EINVAL, s)
  | Some msg =>
      let servers := GetServerStatsReplyMsg.servers msg in
      require (Z.of_nat (length servers) <=? kNumMaxServers) BugOn;;
      r ← DPScheduler.SetServerStats servers (sched_ s);
      Ok (fst r, s <| sched_ := snd r |>)
  end.

(** *** Requests *)

(** A replica's thread in [ProcessWriteOp]: before its call, before it handles
    the reply, in the retry it has started, and at its end. *)
Inductive thread :=
| TSend (srv_info : ServerBlockInfo.t)
| TReply (srv_info : ServerBlockInfo.t) (reply : option message)
| TRetry
| TDone.

(** An activation of [ProcessRequest] for a write: before [GetBlocks], in
    [AddMapping], before its store, and waiting for its threads. *)
Inductive frame :=
| FGet
| FDiscard (blks : ServerReplicaBlockInfoList)
| FMap (blks : ServerReplicaBlockInfoList)
| FJoin (is_retrying : bool) (threads : list thread).

Record write_task := WriteTask {
  w_iod : IODesc.t;
  w_data : list Z;
  frames : list frame;
  w_ret : option (Status Z);
}.
#[global] Instance write_settable : Settable write_task :=
  settable! WriteTask <w_iod; w_data; frames; w_ret>.

(** A read: before [ResolveBlock], before a server is selected, before the
    call to it, before its reply is handled, and at its end. *)
Inductive read_pc :=
| RResolve
| RSelect (servers : ServerReplicaBlockInfoList) (server_ids : ServerSet)
| RSend (servers : ServerReplicaBlockInfoList) (server_ids : ServerSet) (server_id : ServerID)
| RReply (servers : ServerReplicaBlockInfoList) (server_ids : ServerSet) (server_id : ServerID) (reply : option message)
| RDone (ret : Status Z).

Record read_task := ReadTask { r_iod : IODesc.t; r_buf : list Z; r_pc : read_pc }.
#[global] Instance read_settable : Settable read_task := settable! ReadTask <r_iod; r_buf; r_pc>.

(** An allocation, at sector [a_sector] of its loop. *)
Inductive alloc_pc :=
| ANext
| ADiscard (blks : ServerReplicaBlockInfoList)
| AMap (blks : ServerReplicaBlockInfoList)
| ADone (ret : Status Z).

Record alloc_task := AllocTask { a_iod : IODesc.t; a_sector : Z; a_pc : alloc_pc }.
#[global] Instance alloc_task_settable : Settable alloc_task := settable! AllocTask <a_iod; a_sector; a_pc>.

Inductive task :=
| TRead (r : read_task)
| TWrite (w : write_task)
| TAlloc (a : alloc_task).

(** *** The whole system *)

Context {B : Type} `{!DiskServerOps B}.

Record sys := Sys {
  disk : t;
  ctrl : C;
  srvs : gmap ServerID (StorageServer.t B);
  tasks : list task;
  gc_queue : list (ServerID * list ServerBlockAddr);
}.
#[global] Instance sys_settable : Settable sys := settable! Sys <disk; ctrl; srvs; tasks; gc_queue>.

(** A request or its reply can be lost with the connection. The caller then waits
    for ever, which in the machine is a thread that takes no further step; it
    may also be given an empty reply, as by a server that fails. *)
Inductive delivery := Delivered | RequestLost | ReplyLost.

(** What a step takes from outside: the cores it runs on, the clocks, and what
    becomes of a call. *)
Record ambient := Ambient {
  on_cpu : nat;
  on_cpus : nat -> list nat;
  times : signal_times;
  server_time : Z;
  server_clock : clock;
  call_is : delivery;
}.

Definition call (o : ambient) (id : ServerID) (m : message) (servers : gmap ServerID (StorageServer.t B))
    : outcome (option message * gmap ServerID (StorageServer.t B)) :=
  match call_is o, servers !! id with
  | RequestLost, _ | _, None => Ok (None, servers)
  | lost, Some srv =>
      r ← DiskConnHandler.HandleMsg (server_time o) (server_clock o) m srv;
      Ok (match lost with ReplyLost => None | _ => fst r end, <[id := snd r]> servers)
  end.

(** [GetRPCClientForServer] and the call of [ProcessStorageOp] for a block. *)
Definition send (o : ambient) (iod : IODesc.t) (data : list Z) (blk : ServerBlockInfo.t) (s : sys)
    : outcome (option message * sys) :=
  id ← GetRPCClientForServer (ServerBlockInfo.server_id blk) (disk s);
  r ← ProcessStorageOp (on_cpu o) (iod <| IODesc.start_sector := ServerBlockInfo.block_addr blk |>) data 0 (disk s);
  let '(m, d) := r in
  r ← call o id m (srvs s);
  Ok (fst r, s <| disk := d |> <| srvs := snd r |>).

Definition set_task (i : nat) (tk : task) (s : sys) : sys := s <| tasks := <[i := tk]> (tasks s) |>.

(** **** Reads *)

Definition server_set (servers : ServerReplicaBlockInfoList) : ServerSet :=
  foldr set_insert [] (map (fun blk => ServerBlockInfo.server_id (fst blk)) servers).

(** [server_ids.erase]. *)
Definition set_erase (x : Z) (l : list Z) : list Z := List.filter (fun y => negb (y =? x)) l.

(** The first block on the chosen server. *)
Definition block_on (server_id : ServerID) (servers : ServerReplicaBlockInfoList) : outcome ServerBlockInfo.t :=
  deref (fst <$> List.find (fun blk => ServerBlockInfo.server_id (fst blk) =? server_id) servers).

Definition read_step (o : ambient) (i : nat) (r : read_task) (s : sys) : outcome sys :=
  let iod := r_iod r in
  let goto d pc := set_task i (TRead (r <| r_pc := pc |>)) (s <| disk := d |>) in
  match r_pc r with
  | RResolve =>
      ret ← BlockResolver.ResolveBlock (IODesc.start_sector iod) (blk_res_ (disk s));
      Ok (goto (disk s) match ret with
          | MakeError e => RDone (MakeError e)
          | Value servers => RSelect servers (server_set servers)
          end)
  | RSelect servers [] => Ok (goto (disk s) (RSelect servers (server_set servers)))
  | RSelect servers server_ids =>
      sel ← DPScheduler.Scheduler_SelectReadServer server_ids (vol_id_ (disk s)) iod (sched_ (disk s));
      let '(server_id, sched) := sel in
      let d := disk s <| sched_ := sched |> in
      match server_id with
      | MakeError _ => Ok (goto d RResolve)
      | Value server_id => Ok (goto d (RSend servers server_ids server_id))
      end
  | RSend servers server_ids server_id =>
      blk ← block_on server_id servers;
      sent ← send o iod (r_buf r) (ServerBlockInfo.mk server_id (ServerBlockInfo.block_addr blk)) s;
      let '(reply, s) := sent in
      Ok (set_task i (TRead (r <| r_pc := RReply servers server_ids server_id reply |>)) s)
  | RReply servers server_ids server_id reply =>
      h ← HandleStorageOpReply (times o) reply server_id (disk s);
      let '(res, copied, d) := h in
      let r := r <| r_buf := default (r_buf r) copied |> in
      match res with
      | Value res => Ok (set_task i (TRead (r <| r_pc := RDone (Value res) |>)) (s <| disk := d |>))
      | MakeError e =>
          d ← (if e =? EBUSY then inc num_read_rejections_ (on_cpu o) d else inc num_read_retries_ (on_cpu o) d);
          Ok (set_task i (TRead (r <| r_pc := RSelect servers (set_erase server_id server_ids) |>)) (s <| disk := d |>))
      end
  | RDone _ => Ok s
  end.

(** **** Writes *)

(** The innermost activation returns [ret]: to the thread that started it,
    which drops it, or to the caller. *)
Definition resume (th : thread) : thread := match th with TRetry => TDone | _ => th end.

Definition leave (ret : Status Z) (rest : list frame) (w : write_task) : write_task :=
  match rest with
  | [] => w <| frames := [] |> <| w_ret := Some ret |>
  | FJoin is_retrying threads :: outer =>
      w <| frames := FJoin is_retrying (map resume threads) :: outer |>
  | _ => w <| frames := rest |>
  end.

Definition finished (th : thread) : bool := match th with TDone => true | _ => false end.

Definition write_step (o : ambient) (i : nat) (w : write_task) (s : sys) : outcome sys :=
  let iod := w_iod w in
  let sector := IODesc.start_sector iod in
  match frames w with
  | [] => Ok s
  | FGet :: rest =>
      r ← GetBlocks (on_cpus o) iod true (disk s) (ctrl s);
      let '(blks, d, c) := r in
      let s := s <| disk := d |> <| ctrl := c |> in
      Ok (set_task i (TWrite match blks with
          | MakeError e => leave (MakeError e) rest w
          | Value blks => w <| frames := FDiscard blks :: rest |>
          end) s)
  | FDiscard blks :: rest =>
      b ← BlockResolver.begin_mapping sector (blk_res_ (disk s));
      Ok (set_task i (TWrite (w <| frames := FMap blks :: rest |>)) (s <| disk ::= fun d => d <| blk_res_ := b |> |>))
  | FMap blks :: rest =>
      Ok (set_task i (TWrite (w <| frames := FJoin false (map (fun srv => TSend (fst srv)) blks) :: rest |>))
            (s <| disk ::= fun d => d <| blk_res_ ::= BlockResolver.store_mapping sector blks |> |>))
  | FJoin _ threads :: rest =>
      Ok (if forallb finished threads
          then set_task i (TWrite (leave (Value (i32 (Z.shiftl (i32 (IODesc.num_sectors iod)) kSectorShift))) rest w)) s
          else s)
  end.

(** The thread [j] of the activation [k]. *)
Definition thread_step (o : ambient) (i k j : nat) (w : write_task) (s : sys) : outcome sys :=
  match frames w !! k with
  | Some (FJoin is_retrying threads) =>
      let put flag th s :=
        set_task i (TWrite (w <| frames := <[k := FJoin flag (<[j := th]> threads)]> (frames w) |>)) s in
      match threads !! j with
      | Some (TSend srv_info) =>
          r ← send o (w_iod w) (w_data w) srv_info s;
          let '(reply, s) := r in
          Ok (put is_retrying (TReply srv_info reply) s)
      | Some (TReply srv_info reply) =>
          h ← HandleStorageOpReply (times o) reply (ServerBlockInfo.server_id srv_info) (disk s);
          let '(res, _, d) := h in
          match res with
          | Value _ => Ok (put is_retrying TDone (s <| disk := d |>))
          | MakeError e =>
              d ← (if e =? EROFS then inc num_write_rejections_ (on_cpu o) d else inc num_write_retries_ (on_cpu o) d);
              let s := s <| disk := d |> in
              if is_retrying then Ok (put true TDone s)
              else Ok (set_task i (TWrite (w <| frames := FGet :: <[k := FJoin true (<[j := TRetry]> threads)]> (frames w) |>)) s)
          end
      | _ => Ok s
      end
  | _ => Ok s
  end.

(** **** Allocations *)

Definition alloc_step (o : ambient) (i : nat) (a : alloc_task) (s : sys) : outcome sys :=
  let iod := a_iod a in
  let last := u64 (IODesc.start_sector iod + IODesc.num_sectors iod) in
  match a_pc a with
  | ANext =>
      if a_sector a <? last then
        r ← GetBlocks (on_cpus o) (iod <| IODesc.start_sector := a_sector a |>) false (disk s) (ctrl s);
        let '(blks, d, c) := r in
        let s := s <| disk := d |> <| ctrl := c |> in
        Ok (set_task i (TAlloc (a <| a_pc := match blks with MakeError e => ADone (MakeError e) | Value blks => ADiscard blks end |>)) s)
      else Ok (set_task i (TAlloc (a <| a_pc := ADone (Value 0) |>)) s)
  | ADiscard blks =>
      b ← BlockResolver.begin_mapping (a_sector a) (blk_res_ (disk s));
      Ok (set_task i (TAlloc (a <| a_pc := AMap blks |>)) (s <| disk ::= fun d => d <| blk_res_ := b |> |>))
  | AMap blks =>
      Ok (set_task i (TAlloc (AllocTask iod (u64 (a_sector a + 1)) ANext))
            (s <| disk ::= fun d => d <| blk_res_ ::= BlockResolver.store_mapping (a_sector a) blks |> |>))
  | ADone _ => Ok s
  end.

(** **** Garbage collection *)

(** The discarded blocks of each server, in the order they were discarded. *)
Definition add_block (l : list (ServerID * list ServerBlockAddr)) (b : ServerBlockInfo.t)
    : list (ServerID * list ServerBlockAddr) :=
  let id := ServerBlockInfo.server_id b in
  match list_find (fun e => fst e = id) l with
  | Some (j, (_, blks)) => <[j := (id, blks ++ [ServerBlockInfo.block_addr b])]> l
  | None => l ++ [(id, [ServerBlockInfo.block_addr b])]
  end.

Definition gc_begin (s : sys) : sys :=
  match BlockResolver.GetAndResetDiscardedBlocks (blk_res_ (disk s)) with
  | (MakeError _, _) => s
  | (Value discarded_blks, b) =>
      s <| disk ::= fun d => d <| blk_res_ := b |> |>
        <| gc_queue := fold_left add_block (map fst (concat discarded_blks)) [] |>
  end.

(** The next batch for the [j]th server of the map, whose order is the
    library's; [junk] is what the unused part of the array holds. *)
Definition gc_send (o : ambient) (j : nat) (junk : Z) (s : sys) : outcome sys :=
  match gc_queue s !! j with
  | None => Ok s
  | Some (server_id, blks) =>
      id ← GetRPCClientForServer server_id (disk s);
      let n := Z.min (Z.of_nat (length blks)) kDiscardBatch in
      let batch := take (Z.to_nat n) blks in
      let blocks := batch ++ replicate (Z.to_nat (kDiscardBatch - n)) junk in
      r ← call o id (MDiscardBlocks (DiscardBlocksMsg.mk blocks n)) (srvs s);
      let rest := drop (Z.to_nat n) blks in
      Ok (s <| srvs := snd r |> <| gc_queue := match rest with [] => delete j (gc_queue s) | _ => <[j := (server_id, rest)]> (gc_queue s) end |>
            <| disk ::= fun d => d <| n_disk_blocks_gc_ ::= fun g => u64 (g + n) |> |>)
  end.

(** *** Runs *)

Inductive event :=
| ESubmit (tk : task)
| ETask (i : nat) (o : ambient)
| EThread (i k j : nat) (o : ambient)
| EStats (reply : option GetServerStatsReplyMsg.t)
| ETick (ticks : ServerID -> Z * Z)
| EGcBegin
| EGcSend (j : nat) (junk : Z) (o : ambient)
| EServer (id : ServerID) (srv : StorageServer.t B)
| EController (c : C).

Definition new_read (iod : IODesc.t) (buf : list Z) : task := TRead (ReadTask iod buf RResolve).
Definition new_write (iod : IODesc.t) (data : list Z) : task := TWrite (WriteTask iod data [FGet] None).
Definition new_alloc (iod : IODesc.t) : task := TAlloc (AllocTask iod (IODesc.start_sector iod) ANext).

(** [ProcessRequest] on each of its operations; besides requests, the threads
    that pull statistics and collect garbage, the congestion controller, and
    what the servers and the controller do for others. *)
Definition exec (s : sys) (e : event) : outcome sys :=
  match e with
  | ESubmit tk => Ok (s <| tasks ::= fun l => l ++ [tk] |>)
  | ETask i o =>
      match tasks s !! i with
      | Some (TRead r) => read_step o i r s
      | Some (TWrite w) => write_step o i w s
      | Some (TAlloc a) => alloc_step o i a s
      | None => Ok s
      end
  | EThread i k j o =>
      match tasks s !! i with
      | Some (TWrite w) => thread_step o i k j w s
      | _ => Ok s
      end
  | EStats reply => r ← HandleGetServerStatsReply reply (disk s); Ok (s <| disk := snd r |>)
  | ETick ticks =>
      m ← StatsLife.exec (DPScheduler.stats_mgr_ (sched_ (disk s))) (StatsLife.ETick ticks);
      Ok (s <| disk ::= fun d => d <| sched_ ::= fun sc => sc <| DPScheduler.stats_mgr_ := m |> |> |>)
  | EGcBegin => Ok (match gc_queue s with [] => gc_begin s | _ => s end)
  | EGcSend j junk o => gc_send o j junk s
  | EServer id srv => Ok (s <| srvs ::= <[id := srv]> |>)
  | EController c => Ok (s <| ctrl := c |>)
  end.
End Disk.
End VirtualDiskRemote.
