(* ===== verification/VirtualDiskRemoteLaws.v ===== *)
(** * Every block of a remote disk is in one place

    The invariant of the machine of [VirtualDiskRemote.v]: every block the
    controller has given out is in one place - a cache, a write that has not
    mapped it yet, or the mapping of one sector - and blocks that were mapped
    once and replaced never come back, whatever other requests, garbage
    collection, lost messages and rejections happen meanwhile. *)

From S2P Require Import Prelude Float64 BaseTypes Counter CoreLocalCache Configuration Messages StorageServer Congestion DataPlane DataPlaneLaws DataPlaneScheduler BlockResolver VirtualDiskRemote.

Local Open Scope Z_scope.

Abbreviation block := ServerBlockInfo.t.

(** What the controller promises a disk that asks for blocks of servers it has
    been told about ([registered]): a state it reaches ([good]) gives out blocks
    it has not given out yet ([fresh]), once, for the server asked for, with
    addresses in range, as long as it stays [within] its capacity. *)
Class ControllerLaws (C : Type) `{!ControllerRPC C} := {
  good : C -> Prop;
  within : C -> Prop;
  registered : C -> ServerID -> Prop;
  fresh : C -> block -> Prop;
  registered_valid c id : registered c id -> id <> kInvalidServerID;
  allocate_within vol id c reply c' : allocate_rpc vol id c = (reply, c') -> within c' -> within c;
  allocate_registered vol id c reply c' id' : allocate_rpc vol id c = (reply, c') -> registered c id' -> registered c' id';
  allocate_fresh vol id c reply c' :
    allocate_rpc vol id c = (reply, c') -> good c -> registered c id -> within c' ->
    let blks := default [] reply in
    good c' /\ NoDup blks /\
    (forall b, b ∈ blks -> fresh c b /\ ServerBlockInfo.server_id b = id /\ valid_lba (ServerBlockInfo.block_addr b)) /\
    (forall b, fresh c' b -> fresh c b /\ b ∉ blks);
}.

Import VirtualDiskRemote.

Section Laws.
Context {P : Type} `{!BaseReadScheduler P} `{!BaseWriteScheduler P}.
Context {C : Type} `{!ControllerRPC C, !ControllerLaws C} (fuel : nat).
Context {B : Type} `{!DiskServerOps B, !DiskServerLaws B}.
Abbreviation disk_t := (VirtualDiskRemote.t (P := P)).
Abbreviation sys := (VirtualDiskRemote.sys (P := P) (C := C) (B := B)).
Abbreviation exec := (VirtualDiskRemote.exec (P := P) (C := C) (B := B) fuel).

(** ** Where blocks are *)

Definition cache_blocks (slot : option cache) : list block :=
  match slot with Some c => CoreLocalCache.held c | None => [] end.
Definition cached (d : disk_t) : list block := concat (map cache_blocks (blk_caches_ d)).

(** Taken by a request that has not mapped them yet. *)
Definition pending_frame (f : frame) : list block :=
  match f with FDiscard blks | FMap blks => map fst blks | _ => [] end.
Definition pending_task (tk : task) : list block :=
  match tk with
  | TWrite w => concat (map pending_frame (frames w))
  | TAlloc a => match a_pc a with ADiscard blks | AMap blks => map fst blks | _ => [] end
  | TRead _ => []
  end.
Definition pending (l : list task) : list block := concat (map pending_task l).

Definition owned (s : sys) : list block := cached (disk s) ++ pending (tasks s) ++ BlockResolver.mapped (blk_res_ (disk s)).

(** Those a thread is still going to write. *)
Definition unsent_thread (th : thread) : option block := match th with TSend b => Some b | _ => None end.
Definition unsent_frame (f : frame) : list block :=
  match f with FJoin _ ths => omap unsent_thread ths | _ => [] end.
Definition unsent (tk : task) : list block :=
  match tk with TWrite w => concat (map unsent_frame (frames w)) | _ => [] end.

(** Those the garbage collector is still going to discard. *)
Definition queued (e : ServerID * list ServerBlockAddr) : list block := map (ServerBlockInfo.mk (fst e)) (snd e).
Definition trash (s : sys) : list block :=
  map fst (concat (BlockResolver.discard_list_ (blk_res_ (disk s)))) ++ concat (map queued (gc_queue s)).

(** The sector a request writes next, and whether it is about to map it. *)
Definition sector (tk : task) : Z :=
  match tk with
  | TRead r => IODesc.start_sector (r_iod r)
  | TWrite w => IODesc.start_sector (w_iod w)
  | TAlloc a => a_sector a
  end.
Definition mapping (tk : task) : Prop :=
  match tk with
  | TRead _ => False
  | TWrite w => exists blks, FMap blks ∈ frames w
  | TAlloc a => exists blks, a_pc a = AMap blks
  end.

Definition alloc_last (a : alloc_task) : Z := u64 (IODesc.start_sector (a_iod a) + IODesc.num_sectors (a_iod a)).

Definition task_wf (n : Z) (tk : task) : Prop :=
  0 <= sector tk /\ (mapping tk -> sector tk < n) /\
  match tk with
  | TAlloc a => match a_pc a with ADiscard _ | AMap _ => a_sector a < alloc_last a | _ => True end
  | _ => True
  end.

Abbreviation mapped_at s v := (BlockResolver.mapped_at (blk_res_ (disk s)) v).
Abbreviation sectors s := (BlockResolver.nsectors_ (blk_res_ (disk s))).

(** Only servers the controller knows have a cache. *)
Definition slots (c : C) (d : disk_t) : Prop := forall id x, at_ (blk_caches_ d) id = Ok (Some x) -> registered c id.

Record inv (s : sys) : Prop := {
  inv_nodup : NoDup (owned s);
  inv_fresh b : fresh (ctrl s) b -> b ∉ owned s /\ b ∉ trash s /\ Forall (fun tk => b ∉ unsent tk) (tasks s);
  inv_ids : Forall (fun b => ServerBlockInfo.server_id b <> kInvalidServerID) (owned s);
  inv_usable b : b ∈ owned s \/ b ∈ trash s \/ Exists (fun tk => b ∈ unsent tk) (tasks s) -> valid_lba (ServerBlockInfo.block_addr b);
  inv_unsent tk b : tk ∈ tasks s -> b ∈ unsent tk -> b ∈ owned s -> b ∈ mapped_at s (sector tk);
  inv_trash b : b ∈ trash s -> b ∈ owned s ->
    exists tk, tk ∈ tasks s /\ mapping tk /\ b ∈ mapped_at s (sector tk);
  inv_tasks : Forall (task_wf (sectors s)) (tasks s);
  inv_map : sectors s = Z.of_nat (length (BlockResolver.blk_map_ (blk_res_ (disk s))));
  inv_slots : slots (ctrl s) (disk s);
  inv_good : good (ctrl s);
}.

(** ** Taking blocks *)

(** The blocks [l] the controller has given out between two of its states. *)
Definition granted (c : C) (l : list block) (c' : C) : Prop :=
  good c' /\ NoDup l /\ (forall b, b ∈ l -> fresh c b /\ ServerBlockInfo.server_id b <> kInvalidServerID /\ valid_lba (ServerBlockInfo.block_addr b)) /\
  (forall b, fresh c' b -> fresh c b /\ b ∉ l).
Definition grants (c : C) (l : list block) (c' : C) : Prop :=
  (within c' -> within c) /\ (forall id, registered c id -> registered c' id) /\ (good c -> within c' -> granted c l c').

Lemma grants_nil c : grants c [] c.
Proof. split_and!; [done..|]. intros. split_and!; [done|constructor|set_solver|set_solver]. Qed.

Lemma grants_app c l c1 l' c2 : grants c l c1 -> grants c1 l' c2 -> grants c (l ++ l') c2.
Proof.
  intros (Hw & Hr & Hg) (Hw' & Hr' & Hg'). split_and!; [auto..|]. intros Hc Hw2.
  destruct (Hg Hc (Hw' Hw2)) as (Hc1 & Hn & Hb & Hf). destruct (Hg' Hc1 Hw2) as (Hc2 & Hn' & Hb' & Hf'). split_and!.
  - done.
  - apply NoDup_app. split_and!; [done| |done]. intros b Hin Hin'. apply Hb' in Hin' as (Hfr & _). by apply Hf in Hfr as [_ ?].
  - intros b [Hin|Hin]%elem_of_app; [by apply Hb|apply Hb' in Hin as (Hfr & ? & ?); apply Hf in Hfr as [? _]; done].
  - intros b Hfr. apply Hf' in Hfr as [Hfr ?]. apply Hf in Hfr as [? ?]. rewrite elem_of_app. naive_solver.
Qed.

Lemma news_grants vol id c l c' :
  registered c id -> CoreLocalCache.news (AllocateBlocks vol id) c l c' -> grants c l c'.
Proof.
  intros Hreg. induction 1 as [c|c l c1 l' c2 Hnew _ IH]; [apply grants_nil|].
  unfold AllocateBlocks in Hnew. destruct (allocate_rpc vol id c) as [reply c0] eqn:E. simplify_outcome.
  replace (match _ with MakeError _ => [] | Value blks => blks end) with (default [] reply) by by destruct reply.
  eapply grants_app; [|apply IH; by eapply allocate_registered]. split_and!; [by eapply allocate_within|intros id'; by eapply allocate_registered|].
  intros Hc Hw. destruct (allocate_fresh _ _ _ _ _ E Hc Hreg Hw) as (? & Hn & Hb & Hf). split_and!; [done..| |done].
  intros b Hin. destruct (Hb b Hin) as (? & -> & ?). split_and!; [done|by eapply registered_valid|done].
Qed.

(** What a disk keeps while it takes blocks. *)
Definition same_disk (d d' : disk_t) : Prop :=
  blk_res_ d' = blk_res_ d /\ servers_ d' = servers_ d /\ affinity_ d' = affinity_ d /\ vol_id_ d' = vol_id_ d.

Definition gives (d : disk_t) (c : C) (blks : list block) (d' : disk_t) (c' : C) : Prop :=
  exists l, grants c l c' /\ cached d ++ l ≡ₚ blks ++ cached d' /\ same_disk d d' /\
    slots c' d'.

Lemma get_block_gives cpus id d c b d' c' :
  slots c d ->
  get_block fuel cpus id d c = Ok (b, d', c') -> gives d c [b] d' c'.
Proof.
  intros H0 H. unfold get_block in H. simplify_outcome. destruct_pairs. simplify_outcome. apply deref_Ok in Hrun0. subst.
  assert (registered c id) as Hid by (by eapply H0).
  match goal with H : CoreLocalCache.get _ _ _ _ _ = _ |- _ => apply CoreLocalCache.get_spec in H as (l & Hn & Hp & _) end.
  assert (grants c l c') as Hg by (by eapply news_grants). exists l. split; [done|]. split_and!; [|done..|].
  - match goal with H : at_put _ _ _ = _ |- _ => rename H into Hput end.
    apply at_Ok in Hrun as [_ Hl]. apply at_put_Ok in Hput as [_ ->]. unfold cached. cbn [blk_caches_].
    match goal with Hp : CoreLocalCache.held ?old ++ l ≡ₚ b :: CoreLocalCache.held ?new |- _ =>
      pose proof (concat_insert_perm cache_blocks _ _ _ (Some new) Hl) as Hc; simpl in Hc;
      apply (Permutation_app_inv_r (CoreLocalCache.held old)); rewrite <- !app_assoc, (Permutation_app_comm l), Hp, Hc end.
    solve_Permutation.
  - intros id' x Hx. simpl in Hx. match goal with H : at_put _ _ _ = _ |- _ => rename H into Hput end. apply Hg.
    destruct (decide (id' = id)) as [->|Hne]; [done|]. rewrite (at_put_ne _ _ _ _ _ Hput) in Hx by done. by eapply H0.
Qed.

Lemma gives_nil d c : slots c d -> gives d c [] d c.
Proof. intros H. exists []. split; [apply grants_nil|]. rewrite app_nil_r. done. Qed.

Lemma gives_app d c l d1 c1 l' d2 c2 : gives d c l d1 c1 -> gives d1 c1 l' d2 c2 -> gives d c (l ++ l') d2 c2.
Proof.
  intros (n & Hg & Hp & (H1 & H2 & H3 & H4) & _) (n' & Hg' & Hp' & (H1' & H2' & H3' & H4') & H0). exists (n ++ n').
  split; [by eapply grants_app|]. unfold same_disk; split_and!; [|congruence..|done].
  rewrite app_assoc, Hp, <- app_assoc, Hp'. by rewrite app_assoc.
Qed.

Lemma get_each_gives cpus dirty ids d c blks d' c' :
  slots c d ->
  get_each fuel cpus dirty ids d c = Ok (blks, d', c') -> gives d c (map fst blks) d' c'.
Proof.
  revert d c blks. induction ids as [|id ids IH]; intros d c blks H0 H; simpl in H.
  - simplify_outcome. by apply gives_nil.
  - simplify_outcome. destruct_pairs. simplify_outcome. destruct_pairs. simplify_outcome.
    match goal with H : get_block _ _ _ _ _ = _ |- _ => apply get_block_gives in H; [|done]; rename H into Hg end.
    match goal with H : get_each _ _ _ _ _ _ = _ |- _ => apply IH in H; [|by destruct Hg as (? & _ & _ & _ & ?)] end.
    by apply (gives_app _ _ [_] _ _ _ _ _ Hg).
Qed.

(** The blocks of a result. *)
Definition got (r : Status ServerReplicaBlockInfoList) : list block :=
  match r with Value blks => map fst blks | MakeError _ => [] end.

Lemma GetBlocks_gives cpus iod dirty d c r d' c' :
  slots c d ->
  GetBlocks fuel cpus iod dirty d c = Ok (r, d', c') -> gives d c (got r) d' c'.
Proof.
  intros H0 H. unfold GetBlocks, GetBlocksWithAffinity in H. destruct (negb _).
  - apply bind_Ok in H as ([[blks d1] c1] & Hrun & [= <- <- <-]). by eapply get_each_gives.
  - simplify_outcome. destruct_pairs. destruct (_ : Status ServerReplicaList); simplify_outcome.
    + destruct_pairs. simplify_outcome. match goal with H : get_each _ _ _ _ _ _ = _ |- _ => by apply get_each_gives in H end.
    + by apply (gives_nil d).
Qed.

(** ** Steps keep the invariant *)

Abbreviation bmap d := (BlockResolver.blk_map_ (blk_res_ d)).

Lemma mapped_at_map (d d' : disk_t) v : bmap d' = bmap d -> BlockResolver.mapped_at (blk_res_ d') v = BlockResolver.mapped_at (blk_res_ d) v.
Proof. unfold BlockResolver.mapped_at. by intros ->. Qed.

Lemma mapped_owned (s : sys) v b : b ∈ mapped_at s v -> b ∈ owned s.
Proof. intros Hb%BlockResolver.mapped_at_mapped. unfold owned. rewrite !elem_of_app. auto. Qed.

(** After a step, while the controller is within its capacity: the invariant,
    and no block that had been given out has come back. *)
Definition inv_after (s s' : sys) : Prop :=
  within (ctrl s') -> inv s' /\ forall b, b ∈ owned s' -> b ∈ owned s \/ fresh (ctrl s) b.

Lemma after_refl s : inv s -> inv_after s s.
Proof. intros H _. auto. Qed.

(** A step that maps nothing: the blocks owned grow by what the controller
    gave out, and what is newly discarded is being replaced. *)
Lemma inv_grow (s s' : sys) l :
  inv s -> grants (ctrl s) l (ctrl s') -> owned s' ≡ₚ owned s ++ l ->
  bmap (disk s') = bmap (disk s) -> sectors s' = sectors s ->
  (forall b, b ∈ trash s' -> b ∈ trash s \/ exists tk', tk' ∈ tasks s' /\ mapping tk' /\ b ∈ mapped_at s (sector tk')) ->
  (forall tk' b, tk' ∈ tasks s' -> b ∈ unsent tk' -> exists tk, tk ∈ tasks s /\ b ∈ unsent tk /\ sector tk = sector tk') ->
  (forall tk, tk ∈ tasks s -> mapping tk -> exists tk', tk' ∈ tasks s' /\ mapping tk' /\ sector tk' = sector tk) ->
  Forall (task_wf (sectors s)) (tasks s') ->
  slots (ctrl s') (disk s') ->
  inv_after s s'.
Proof.
  intros Hinv (_ & _ & Hgr) Hown Hbm Hsec Htr Hun Hmap Hwf Hslot Hwi'.
  destruct (Hgr (inv_good s Hinv) Hwi') as (Hgood & Hnd & Hl & Hf). split.
  2:{ intros b. rewrite Hown, elem_of_app. intros [?|Hb]; [by left|]. right. by apply Hl in Hb as [? _]. }
  constructor.
  - rewrite Hown. apply NoDup_app. split_and!; [apply Hinv| |done]. intros b Hb Hb'. apply Hl in Hb' as (Hfr & _). by apply Hinv in Hfr as [? _].
  - intros b [Hfr Hnl]%Hf. apply Hinv in Hfr as (Ho & Ht & Hu). rewrite Hown, elem_of_app. split_and!; [naive_solver| |].
    { intros [?|(tk' & _ & _ & Hb%mapped_owned)]%Htr; done. }
    rewrite Forall_forall in *. intros tk' Htk' Hb. destruct (Hun _ _ Htk' Hb) as (tk & Htk & Hb' & _). by apply (Hu tk).
  - rewrite Hown, Forall_app. split; [apply Hinv|]. apply Forall_forall. intros b Hb. apply Hl in Hb. naive_solver.
  - intros b Hb. destruct Hb as [Hb|Hb]; [rewrite Hown, elem_of_app in Hb; destruct Hb as [Hb|Hb]|].
    + apply (inv_usable s Hinv b); auto.
    + by apply Hl in Hb as (_ & _ & ?).
    + apply (inv_usable s Hinv b). destruct Hb as [[?|(tk' & _ & _ & ?%mapped_owned)]%Htr|Hb]; [auto|auto|]. right. right.
      rewrite Exists_exists in *. destruct Hb as (tk' & Htk' & Hb). destruct (Hun _ _ Htk' Hb) as (tk & ? & ? & _). eauto.
  - intros tk' b Htk' Hb Ho. destruct (Hun _ _ Htk' Hb) as (tk & Htk & Hb' & <-). rewrite (mapped_at_map _ _ _ Hbm).
    apply (inv_unsent s Hinv tk b Htk Hb'). rewrite Hown, elem_of_app in Ho. destruct Ho as [?|Ho]; [done|].
    apply Hl in Ho as (Hfr & _). apply Hinv in Hfr as (_ & _ & Hfr). rewrite Forall_forall in Hfr. by apply Hfr in Htk.
  - intros b Hb Ho. apply Htr in Hb as [Hb|(tk' & Htk' & Hm & Hb)].
    2:{ exists tk'. by rewrite (mapped_at_map _ _ _ Hbm). }
    rewrite Hown, elem_of_app in Ho. destruct Ho as [Ho|Ho].
    + destruct (inv_trash s Hinv b Hb Ho) as (tk & Htk & Hm & Hat). destruct (Hmap tk Htk Hm) as (tk' & ? & ? & Hs).
      exists tk'. rewrite Hs, (mapped_at_map _ _ _ Hbm). done.
    + apply Hl in Ho as (Hfr & _). apply Hinv in Hfr as (_ & Hfr & _). done.
  - by rewrite Hsec.
  - rewrite Hsec, Hbm. apply Hinv.
  - done.
  - done.
Qed.

Lemma pending_insert (l : list task) i tk tk' blks :
  l !! i = Some tk -> pending_task tk' ≡ₚ blks ++ pending_task tk -> pending (<[i := tk']> l) ≡ₚ pending l ++ blks.
Proof.
  intros Hl Hp. unfold pending. apply (Permutation_app_inv_r (pending_task tk)). rewrite (concat_insert_perm pending_task _ _ _ tk' Hl), Hp.
  by rewrite <- app_assoc.
Qed.

Lemma owned_insert (s : sys) d' c' sv i tk tk' blks gc l :
  tasks s !! i = Some tk -> pending_task tk' ≡ₚ blks ++ pending_task tk ->
  cached (disk s) ++ l ≡ₚ blks ++ cached d' -> bmap d' = bmap (disk s) ->
  owned (Sys d' c' sv (<[i := tk']> (tasks s)) gc) ≡ₚ owned s ++ l.
Proof.
  intros Hi Hp Hc Hbm. unfold owned. cbn [disk tasks]. rewrite (pending_insert _ _ _ _ _ Hi Hp).
  unfold BlockResolver.mapped. rewrite Hbm. rewrite <- !app_assoc. rewrite (Permutation_app_comm (pending _)).
  transitivity ((blks ++ cached d') ++ concat (map BlockResolver.blocks_in (bmap (disk s))) ++ pending (tasks s)); [solve_Permutation|].
  rewrite <- Hc. solve_Permutation.
Qed.

Lemma elem_of_insert {A} (l : list A) i x y : y ∈ <[i := x]> l -> y = x \/ y ∈ l.
Proof.
  intros [j Hj]%list_elem_of_lookup_1. destruct (decide (j = i)) as [->|Hne].
  - apply list_lookup_insert_Some in Hj as [[? [-> _]]|[? ?]]; [by left|done].
  - rewrite list_lookup_insert_ne in Hj by done. right. by eapply list_elem_of_lookup_2.
Qed.

Lemma elem_of_insert_keep {A} (l : list A) i x x' y :
  l !! i = Some x -> y ∈ l -> (y = x /\ x' ∈ <[i := x']> l) \/ y ∈ <[i := x']> l.
Proof.
  intros Hi [j Hj]%list_elem_of_lookup_1. destruct (decide (j = i)) as [->|Hne].
  - left. split; [congruence|]. apply (list_elem_of_lookup_2 _ i). apply list_lookup_insert_eq. by eapply lookup_lt_Some.
  - right. apply (list_elem_of_lookup_2 _ j). by rewrite list_lookup_insert_ne.
Qed.

(** A task that takes blocks, or none, and maps nothing. *)
Lemma inv_task (s : sys) i tk tk' d' c' sv blks gc :
  inv s -> tasks s !! i = Some tk -> gives (disk s) (ctrl s) blks d' c' ->
  pending_task tk' ≡ₚ blks ++ pending_task tk ->
  unsent tk' ⊆ unsent tk -> sector tk' = sector tk -> (mapping tk -> mapping tk') -> task_wf (sectors s) tk' ->
  (forall b, b ∈ concat (map queued gc) -> b ∈ concat (map queued (gc_queue s))) ->
  inv_after s (Sys d' c' sv (<[i := tk']> (tasks s)) gc).
Proof.
  intros Hinv Hi (l & Hg & Hc & (Hres & _) & Hslot) Hp Hun Hsec Hm Hwf Hgc.
  pose proof (list_elem_of_lookup_2 _ _ _ Hi) as Htk.
  apply (inv_grow s _ l); cbn [disk ctrl tasks]; try done; try by rewrite Hres.
  - apply (owned_insert s _ _ _ _ tk _ blks); [done..|by rewrite Hres].
  - intros b. unfold trash. cbn [disk gc_queue]. rewrite Hres, !elem_of_app. naive_solver.
  - intros tk1 b [->|Hin]%elem_of_insert Hb; [exists tk; split_and!; [done|by apply Hun|done]|eauto].
  - intros tk1 Hin Hm1. destruct (elem_of_insert_keep _ _ _ tk' _ Hi Hin) as [[-> ?]|?]; [exists tk'|exists tk1]; auto.
  - apply Forall_insert; [apply Hinv|done].
Qed.

(** The first half of a mapping. *)
Lemma inv_begin (s : sys) i tk tk' b sv :
  inv s -> tasks s !! i = Some tk -> BlockResolver.begin_mapping (sector tk) (blk_res_ (disk s)) = Ok b ->
  pending_task tk' = pending_task tk -> unsent tk' ⊆ unsent tk -> sector tk' = sector tk -> mapping tk' ->
  (sector tk < sectors s -> task_wf (sectors s) tk') ->
  inv_after s (Sys (disk s <| blk_res_ := b |>) (ctrl s) sv (<[i := tk']> (tasks s)) (gc_queue s)).
Proof.
  intros Hinv Hi Hb Hp Hun Hsec Hm Hwf. pose proof (list_elem_of_lookup_2 _ _ _ Hi) as Htk.
  pose proof (proj1 (Forall_forall _ _) (inv_tasks s Hinv) _ Htk) as (Hs0 & _).
  apply BlockResolver.begin_mapping_Ok in Hb as (Hlt & Hn & Hbm & Hdis); [|done|apply Hinv].
  apply (inv_grow s _ []); cbn [disk ctrl tasks blk_res_ blk_caches_]; try done; try apply grants_nil.
  - rewrite (owned_insert s _ _ _ _ tk _ [] _ []); [done..|by rewrite Hp|by rewrite app_nil_r|done].
  - intros x. unfold trash. cbn [disk gc_queue blk_res_]. rewrite !elem_of_app. intros [[?|?]%Hdis|?]; [auto| |auto].
    right. exists tk'. rewrite Hsec. split_and!; [|done..]. apply (list_elem_of_lookup_2 _ i). apply list_lookup_insert_eq. by eapply lookup_lt_Some.
  - intros tk1 x [->|Hin]%elem_of_insert Hx; [exists tk; split_and!; [done|by apply Hun|done]|eauto].
  - intros tk1 Hin Hm1. destruct (elem_of_insert_keep _ _ _ tk' _ Hi Hin) as [[-> ?]|?]; [exists tk'|exists tk1]; auto.
  - apply Forall_insert; [apply Hinv|auto].
  - apply Hinv.
Qed.

Lemma blocks_in_valid (blks : ServerReplicaBlockInfoList) :
  Forall (fun b => ServerBlockInfo.server_id b <> kInvalidServerID) (map fst blks) -> BlockResolver.blocks_in blks = map fst blks.
Proof.
  destruct blks as [|[b dirty] blks]; [done|]. intros [Hb _]%Forall_cons. unfold BlockResolver.blocks_in. simpl in Hb.
  by rewrite (proj2 (Z.eqb_neq _ _) Hb).
Qed.

(** The second half: the blocks of the entry it replaces are never owned
    again. *)
Lemma store_owned (s : sys) i tk tk' blks sv :
  inv s -> tasks s !! i = Some tk -> mapping tk -> pending_task tk ≡ₚ map fst blks ++ pending_task tk' ->
  let s' := Sys (disk s <| blk_res_ ::= BlockResolver.store_mapping (sector tk) blks |>) (ctrl s) sv (<[i := tk']> (tasks s)) (gc_queue s) in
  owned s' ++ mapped_at s (sector tk) ≡ₚ owned s /\ mapped_at s' (sector tk) = map fst blks /\
  (forall v, 0 <= v -> v <> sector tk -> mapped_at s' v = mapped_at s v) /\ (forall b, b ∈ map fst blks -> b ∈ owned s).
Proof.
  intros Hinv Hi Hm Hp s'. pose proof (list_elem_of_lookup_2 _ _ _ Hi) as Htk.
  pose proof (proj1 (Forall_forall _ _) (inv_tasks s Hinv) _ Htk) as (Hs0 & Hlt & _). specialize (Hlt Hm). rewrite (inv_map s Hinv) in Hlt.
  destruct (BlockResolver.store_mapping_blocks (sector tk) blks (blk_res_ (disk s)) (conj Hs0 Hlt)) as (Hst & Hat & Hoth).
  assert (pending (<[i := tk']> (tasks s)) ++ map fst blks ≡ₚ pending (tasks s)) as Hpend.
  { unfold pending. apply (Permutation_app_inv_r (pending_task tk')).
    rewrite <- (concat_insert_perm pending_task _ _ _ tk' Hi), Hp. by rewrite <- app_assoc. }
  assert (forall b, b ∈ map fst blks -> b ∈ owned s) as Hblks.
  { intros b Hb. unfold owned. rewrite <- Hpend, !elem_of_app. auto. }
  assert (BlockResolver.blocks_in blks = map fst blks) as Hin.
  { apply blocks_in_valid, Forall_forall. intros b Hb%Hblks. revert b Hb. apply Forall_forall, Hinv. }
  rewrite Hin in *. split_and!; [|done|done|done]. subst s'. unfold owned, cached. cbn [disk tasks blk_caches_ blk_res_].
  rewrite <- Hpend, <- !app_assoc, Hst. solve_Permutation.
Qed.

Lemma inv_store (s : sys) i tk tk' blks sv :
  inv s -> tasks s !! i = Some tk -> mapping tk -> pending_task tk ≡ₚ map fst blks ++ pending_task tk' ->
  (forall b, b ∈ unsent tk' -> sector tk' = sector tk /\ (b ∈ unsent tk \/ b ∈ map fst blks)) ->
  task_wf (sectors s) tk' ->
  inv_after s (Sys (disk s <| blk_res_ ::= BlockResolver.store_mapping (sector tk) blks |>) (ctrl s) sv (<[i := tk']> (tasks s)) (gc_queue s)).
Proof.
  intros Hinv Hi Hm Hp Hun Hwf. pose proof (list_elem_of_lookup_2 _ _ _ Hi) as Htk.
  destruct (store_owned s i tk tk' blks sv Hinv Hi Hm Hp) as (Hown & Hat & Hoth & Hblks).
  set (s' := Sys _ _ _ _ _) in *. change (inv_after s s').
  assert (forall b, b ∈ owned s' -> b ∈ owned s /\ b ∉ mapped_at s (sector tk)) as Hold.
  { intros b Hb. rewrite <- Hown, elem_of_app. split; [by left|]. intros Hb'. pose proof (inv_nodup s Hinv) as Hnd.
    rewrite <- Hown in Hnd. apply NoDup_app in Hnd as (_ & Hd & _). by apply (Hd b). }
  assert (trash s' = trash s) as Htr by done.
  assert (forall tk1 b, tk1 ∈ tasks s' -> b ∈ unsent tk1 -> (tk1 = tk' /\ b ∈ map fst blks /\ sector tk' = sector tk) \/ exists tk0, tk0 ∈ tasks s /\ sector tk0 = sector tk1 /\ b ∈ unsent tk0) as Hunt.
  { intros tk1 b [->|Hin]%elem_of_insert Hb; [|eauto]. destruct (Hun b Hb) as [Hs [?|?]]; [right|by left]. exists tk. auto. }
  intros _. split; [|intros b [? _]%Hold; by left]. constructor.
  - pose proof (inv_nodup s Hinv) as Hnd. rewrite <- Hown in Hnd. by apply NoDup_app in Hnd as (? & _).
  - intros b Hfr. apply (inv_fresh s Hinv) in Hfr as (Ho & Ht & Hu). rewrite Forall_forall in Hu. split_and!; [by intros [? _]%Hold|by rewrite Htr|].
    apply Forall_forall. intros tk1 Htk1 Hb. destruct (Hunt _ _ Htk1 Hb) as [(_ & ?%Hblks & _)|(tk0 & Htk0 & _ & ?)]; [done|by apply (Hu tk0)].
  - pose proof (inv_ids s Hinv) as Hid. rewrite <- Hown, Forall_app in Hid. by destruct Hid.
  - intros b Hb. apply (inv_usable s Hinv b). destruct Hb as [[? _]%Hold|[?|Hb]]; [auto|auto|]. apply Exists_exists in Hb as (tk1 & Htk1 & Hb).
    destruct (Hunt _ _ Htk1 Hb) as [(_ & ?%Hblks & _)|(tk0 & ? & _ & ?)]; [auto|]. right. right. apply Exists_exists. eauto.
  - intros tk1 b Htk1 Hb Ho. apply Hold in Ho as [Ho Hno]. destruct (Hunt _ _ Htk1 Hb) as [(-> & ? & Hs)|(tk0 & Htk0 & <- & Hb0)].
    + rewrite Hs. by rewrite Hat.
    + pose proof (inv_unsent s Hinv tk0 b Htk0 Hb0 Ho) as Hm0. pose proof (proj1 (Forall_forall _ _) (inv_tasks s Hinv) _ Htk0) as (Hs0 & _).
      rewrite Hoth; [done|done|]. intros Heq. by rewrite Heq in Hm0.
  - intros b Hb Ho. apply Hold in Ho as [Ho Hno]. destruct (inv_trash s Hinv b Hb Ho) as (tk0 & Htk0 & Hm0 & Hb0).
    assert (sector tk0 <> sector tk) as Hne by (intros Heq; by rewrite Heq in Hb0).
    pose proof (proj1 (Forall_forall _ _) (inv_tasks s Hinv) _ Htk0) as (Hs0 & _). exists tk0. rewrite Hoth by done. split_and!; [|done..].
    destruct (elem_of_insert_keep _ _ _ tk' _ Hi Htk0) as [[-> _]|?]; [done|done].
  - apply Forall_insert; [apply Hinv|done].
  - subst s'. cbn [disk blk_res_]. unfold BlockResolver.store_mapping. simpl. rewrite length_insert. apply Hinv.
  - apply Hinv.
  - apply Hinv.
Qed.

(** *** What the pieces of a step leave alone *)

Definition keeps (d d' : disk_t) : Prop := same_disk d d' /\ blk_caches_ d' = blk_caches_ d.

Lemma keeps_refl d : keeps d d.
Proof. done. Qed.

Lemma keeps_trans d1 d2 d3 : keeps d1 d2 -> keeps d2 d3 -> keeps d1 d3.
Proof. unfold keeps, same_disk. intuition congruence. Qed.

Lemma keeps_gives d c d' : slots c d -> keeps d d' -> gives d c [] d' c.
Proof.
  intros H0 [Hs Hc]. exists []. split; [apply grants_nil|]. unfold cached, slots. rewrite Hc, app_nil_r. done.
Qed.

Ltac keeps_tac := repeat match goal with
  | H : inc _ _ _ = Ok _ |- _ => unfold inc in H; simplify_outcome
  | |- keeps _ _ => by repeat split
  end.

Lemma signal_keeps ts id d d' : signal ts id d = Ok d' -> keeps d d'.
Proof. unfold signal. destruct (negb _); intros; simplify_outcome; keeps_tac. Qed.

Lemma HandleStorageOpReply_keeps ts reply id d r d' : HandleStorageOpReply ts reply id d = Ok (r, d') -> keeps d d'.
Proof.
  unfold HandleStorageOpReply. intros H. destruct reply as [[]|]; simplify_outcome; try apply keeps_refl.
  match goal with Hs : (if ?b then signal _ _ _ else Ok _) = Ok ?d1 |- _ =>
    assert (keeps d d1) as Hk by (destruct b; [by eapply signal_keeps|by simplify_outcome]); clear Hs end.
  assert (forall d1 d2, signal ts id d1 = Ok d2 -> keeps d d1 -> keeps d d2) as Hsig
    by (intros; eapply keeps_trans; [done|by eapply signal_keeps]).
  destruct (IODesc.get_op _); try done; destruct (_ || _); simplify_outcome; try done;
    destruct (StorageOpReplyMsg.code _); simplify_outcome; eauto.
Qed.

Lemma ProcessStorageOp_keeps cpu iod data id d m d' : ProcessStorageOp cpu iod data id d = Ok (m, d') -> keeps d d'.
Proof. unfold ProcessStorageOp. intros H. destruct (IODesc.get_op iod); simplify_outcome; keeps_tac. Qed.

Lemma send_keeps o iod data b (s s' : sys) r :
  send o iod data b s = Ok (r, s') ->
  exists d' sv, s' = Sys d' (ctrl s) sv (tasks s) (gc_queue s) /\ keeps (disk s) d'.
Proof.
  unfold send. intros H. simplify_outcome. destruct_pairs. simplify_outcome. eexists _, _. split; [done|]. by eapply ProcessStorageOp_keeps.
Qed.

(** A step of task [i] that takes no blocks. *)
Lemma inv_quiet (s : sys) i tk tk' d' sv :
  inv s -> tasks s !! i = Some tk -> keeps (disk s) d' -> pending_task tk' = pending_task tk ->
  unsent tk' ⊆ unsent tk -> sector tk' = sector tk -> (mapping tk -> mapping tk') -> task_wf (sectors s) tk' ->
  inv_after s (Sys d' (ctrl s) sv (<[i := tk']> (tasks s)) (gc_queue s)).
Proof.
  intros Hinv Hi Hk Hp Hun Hs Hm Hwf. apply (inv_task s i tk tk' d' (ctrl s) sv []); try done.
  - apply keeps_gives; [apply Hinv|done].
  - by rewrite Hp.
Qed.

Lemma wf_at (s : sys) i tk : inv s -> tasks s !! i = Some tk -> task_wf (sectors s) tk.
Proof. intros Hinv Hi. eapply Forall_forall; [apply (inv_tasks s Hinv)|by eapply list_elem_of_lookup_2]. Qed.

Lemma inv_read o i r (s s' : sys) :
  inv s -> tasks s !! i = Some (TRead r) -> read_step o i r s = Ok s' -> inv_after s s'.
Proof.
  intros Hinv Hi H. pose proof (wf_at s i _ Hinv Hi) as (Hs0 & _).
  assert (forall d' sv r', keeps (disk s) d' -> r_iod r' = r_iod r ->
    inv_after s (Sys d' (ctrl s) sv (<[i := TRead r']> (tasks s)) (gc_queue s))) as Hq.
  { intros d' sv r' Hk Hr. apply (inv_quiet s i (TRead r)); try done; [simpl; by rewrite Hr|]. split; [simpl; by rewrite Hr|done]. }
  unfold read_step in H. destruct (r_pc r) as [|servers ids|servers ids id|servers ids id reply|ret].
  - simplify_outcome. by apply Hq.
  - destruct ids; simplify_outcome; [by apply Hq|]. destruct_pairs. destruct (_ : Status ServerID); simplify_outcome; by apply Hq.
  - simplify_outcome. destruct_pairs. match goal with H : send _ _ _ _ _ = _ |- _ => apply send_keeps in H as (d' & sv & -> & Hk) end.
    simplify_outcome. by apply Hq.
  - simplify_outcome. destruct_pairs. match goal with H : HandleStorageOpReply _ _ _ _ = _ |- _ => apply HandleStorageOpReply_keeps in H as Hk end.
    destruct (_ : Status Z); simplify_outcome; [by apply Hq|]. apply Hq; [|done]. eapply keeps_trans; [done|].
    match goal with H : (if ?b then _ else _) = Ok _ |- _ => destruct b end; keeps_tac.
  - simplify_outcome; by apply after_refl.
Qed.

Lemma unsent_resume ths : omap unsent_thread (map resume ths) = omap unsent_thread ths.
Proof. induction ths as [|[] ths IH]; [done|csimpl; by rewrite IH..]. Qed.

Lemma leave_spec ret rest w :
  w_iod (leave ret rest w) = w_iod w /\
  concat (map pending_frame (frames (leave ret rest w))) = concat (map pending_frame rest) /\
  concat (map unsent_frame (frames (leave ret rest w))) = concat (map unsent_frame rest) /\
  (forall blks, FMap blks ∈ rest -> FMap blks ∈ frames (leave ret rest w)).
Proof.
  destruct rest as [|[|blks|blks|flag ths] rest]; simpl; try done. rewrite unsent_resume. split_and!; try done.
  intros blks. rewrite !elem_of_cons. naive_solver.
Qed.

Lemma inv_write o i w (s s' : sys) :
  inv s -> tasks s !! i = Some (TWrite w) -> write_step fuel o i w s = Ok s' -> inv_after s s'.
Proof.
  intros Hinv Hi H. pose proof (wf_at s i _ Hinv Hi) as (Hs0 & Hmap & _). unfold write_step in H.
  destruct (frames w) as [|[|blks|blks|flag ths] rest] eqn:Hf.
  - simplify_outcome; by apply after_refl.
  - apply bind_Ok in H as ([[r d'] c'] & Hget & [= <-]). apply GetBlocks_gives in Hget; [|apply Hinv].
    apply (inv_task s i (TWrite w) _ d' c' (srvs s) (got r)); try done.
    + destruct r as [blks|e]; simpl; rewrite ?Hf; [done|]. destruct (leave_spec (MakeError e) rest w) as (_ & -> & _). done.
    + destruct r as [blks|e]; simpl; rewrite ?Hf; [done|]. destruct (leave_spec (MakeError e) rest w) as (_ & _ & -> & _). done.
    + destruct r as [blks|e]; simpl; [done|]. by destruct (leave_spec (MakeError e) rest w) as (-> & _).
    + intros [bl Hbl]. rewrite Hf, elem_of_cons in Hbl. destruct Hbl as [?|Hbl]; [done|]. destruct r as [blks|e].
      * exists bl. simpl. rewrite !elem_of_cons. auto.
      * exists bl. by apply leave_spec.
    + destruct r as [blks|e].
      * split_and!; [done| |done]. intros [bl Hbl]. apply Hmap. exists bl. rewrite Hf. simpl in Hbl. rewrite !elem_of_cons in *. naive_solver.
      * destruct (leave_spec (MakeError e) rest w) as (Hiod & _ & _ & _). unfold task_wf. cbn [sector]. rewrite Hiod. split_and!; [done| |done]. intros [bl Hbl]. apply Hmap.
        exists bl. rewrite Hf, elem_of_cons. right. destruct rest as [|[] ?]; simpl in Hbl; set_solver.
  - simplify_outcome. apply (inv_begin s i (TWrite w)); try done.
    + simpl. by rewrite Hf.
    + simpl. by rewrite Hf.
    + exists blks. simpl. by left.
  - simplify_outcome. apply (inv_store s i (TWrite w)); try done.
    + exists blks. rewrite Hf. by left.
    + simpl. by rewrite Hf.
    + simpl. rewrite Hf. intros b. simpl. rewrite elem_of_app. intros [Hb|Hb]; [|by auto]. split; [done|]. right.
      apply list_elem_of_omap in Hb as (th & Hth & Hb). apply list_elem_of_fmap in Hth as (x & -> & Hx). simpl in Hb. simplify_eq.
      by apply list_elem_of_fmap_2.
    + split_and!; [done| |done]. intros [bl Hbl]. apply Hmap. exists bl. rewrite Hf. simpl in Hbl. rewrite !elem_of_cons in *. naive_solver.
  - simplify_outcome. case_match; [|by apply after_refl]. set (ret := Value _). destruct (leave_spec ret rest w) as (Hiod & Hp & Hu & Hm).
    apply (inv_quiet s i (TWrite w)); simpl; rewrite ?Hiod; try done; try apply keeps_refl.
    + by rewrite Hp, Hf.
    + rewrite Hu, Hf. simpl. intros b. rewrite elem_of_app. auto.
    + intros [bl Hbl]. rewrite Hf, elem_of_cons in Hbl. destruct Hbl as [?|?]; [done|]. exists bl. auto.
    + split_and!; [simpl; by rewrite Hiod| |done]. intros [bl Hbl]. simpl. rewrite Hiod. apply Hmap. exists bl. rewrite Hf, elem_of_cons. right.
      destruct rest as [|[] ?]; simpl in Hbl; set_solver.
Qed.

(** Replacing one activation by another that is waiting for its threads. *)
Lemma frames_insert (l : list frame) k flag ths flag' ths' :
  l !! k = Some (FJoin flag ths) -> omap unsent_thread ths' ⊆ omap unsent_thread ths ->
  concat (map pending_frame (<[k := FJoin flag' ths']> l)) = concat (map pending_frame l) /\
  concat (map unsent_frame (<[k := FJoin flag' ths']> l)) ⊆ concat (map unsent_frame l) /\
  (forall blks, FMap blks ∈ <[k := FJoin flag' ths']> l <-> FMap blks ∈ l).
Proof.
  intros Hk Hun. revert k Hk. induction l as [|f l IH]; intros [|k] Hk; simplify_eq/=.
  - split_and!; [done| |]. { intros b. rewrite !elem_of_app. naive_solver. } intros blks. rewrite !elem_of_cons. naive_solver.
  - destruct (IH k Hk) as (-> & Hu & Hm). split_and!; [done| |].
    { intros b. rewrite !elem_of_app. naive_solver. } intros blks. rewrite !elem_of_cons, Hm. done.
Qed.

Lemma unsent_insert (ths : list thread) j th :
  unsent_thread th = None -> omap unsent_thread (<[j := th]> ths) ⊆ omap unsent_thread ths.
Proof.
  intros Hth b (x & Hx & Hb)%list_elem_of_omap. apply elem_of_insert in Hx as [->|Hx]; [congruence|]. apply list_elem_of_omap. eauto.
Qed.

Lemma inv_thread o i k j w (s s' : sys) :
  inv s -> tasks s !! i = Some (TWrite w) -> thread_step o i k j w s = Ok s' -> inv_after s s'.
Proof.
  intros Hinv Hi H. pose proof (wf_at s i _ Hinv Hi) as (Hs0 & Hmap & _). unfold thread_step in H.
  destruct (frames w !! k) as [[| | |flag ths]|] eqn:Hk; try (simplify_outcome; by apply after_refl).
  assert (forall d' sv flag' th push, keeps (disk s) d' -> unsent_thread th = None -> push = [] \/ push = [FGet] ->
    inv_after s (Sys d' (ctrl s) sv (<[i := TWrite (w <| frames := push ++ <[k := FJoin flag' (<[j := th]> ths)]> (frames w) |>)]> (tasks s)) (gc_queue s))) as Hq.
  { intros d' sv flag' th push Hkeep Hth Hpush.
    destruct (frames_insert (frames w) k flag ths flag' (<[j := th]> ths) Hk (unsent_insert ths j th Hth)) as (Hp & Hu & Hm).
    apply (inv_quiet s i (TWrite w)); try done.
    - by destruct Hpush as [-> | ->].
    - by destruct Hpush as [-> | ->].
    - intros [bl Hbl]. exists bl. destruct Hpush as [-> | ->]; simpl; rewrite ?elem_of_cons, Hm; auto.
    - split_and!; [done| |done]. intros [bl Hbl]. apply Hmap. exists bl. destruct Hpush as [-> | ->]; simpl in Hbl; [by apply Hm|].
      apply elem_of_cons in Hbl as [?|?]; [done|by apply Hm]. }
  destruct (ths !! j) as [[b|b reply| |]|]; try (simplify_outcome; by apply after_refl).
  - simplify_outcome. destruct_pairs. match goal with H : send _ _ _ _ _ = _ |- _ => apply send_keeps in H as (d' & sv & -> & Hkeep) end.
    simplify_outcome. apply (Hq d' sv flag (TReply b _) []); auto.
  - simplify_outcome. destruct_pairs. match goal with H : HandleStorageOpReply _ _ _ _ = _ |- _ => apply HandleStorageOpReply_keeps in H as Hkeep end.
    destruct (_ : Status Z); simplify_outcome; [by apply (Hq _ _ flag TDone []); auto|].
    match goal with H : (if ?b then inc _ _ ?d1 else _) = Ok ?d2 |- _ => assert (keeps (disk s) d2) as Hkeep2 by
      (eapply keeps_trans; [done|]; destruct b; keeps_tac) end.
    destruct flag; simplify_outcome; [by apply (Hq _ _ true TDone []); auto|by apply (Hq _ _ true TRetry [FGet]); auto].
Qed.

Lemma inv_alloc o i a (s s' : sys) :
  inv s -> tasks s !! i = Some (TAlloc a) -> alloc_step fuel o i a s = Ok s' -> inv_after s s'.
Proof.
  intros Hinv Hi H. pose proof (wf_at s i _ Hinv Hi) as (Hs0 & Hmap & Hlast). unfold alloc_step in H. fold (alloc_last a) in H.
  destruct (a_pc a) as [|blks|blks|ret] eqn:Hpc.
  - destruct (Z.ltb_spec (a_sector a) (alloc_last a)) as [Hlt|Hge].
    + apply bind_Ok in H as ([[r d'] c'] & Hget & [= <-]). apply GetBlocks_gives in Hget; [|apply Hinv].
      apply (inv_task s i (TAlloc a) _ d' c' (srvs s) (got r)); try done; simpl; rewrite ?Hpc.
      * destruct r; simpl; [by rewrite app_nil_r|done].
      * by intros [? ?].
      * destruct r; split_and!; simpl; try done; by intros [? ?].
    + simplify_outcome. apply (inv_quiet s i (TAlloc a)); simpl; rewrite ?Hpc; try done; [by intros [? ?]|].
      split_and!; simpl; try done; by intros [? ?].
  - simplify_outcome. apply (inv_begin s i (TAlloc a)); simpl; rewrite ?Hpc; try done; eauto.
  - simplify_outcome. apply (inv_store s i (TAlloc a)); simpl; rewrite ?Hpc; try done; eauto.
    + by rewrite app_nil_r.
    + set_solver.
    + split_and!; simpl; [|by intros [? ?]|done]. apply wrap_range. lia.
  - simplify_outcome; by apply after_refl.
Qed.

(** *** Garbage collection *)

Lemma add_block_queued l x b : b ∈ concat (map queued (add_block l x)) -> b = x \/ b ∈ concat (map queued l).
Proof.
  unfold add_block. destruct (list_find _ l) as [[j [id blks]]|] eqn:E.
  - apply list_find_Some in E as (Hj & Hid & _). simpl in Hid. subst. intros (e & He & Hb)%elem_of_concat_map.
    apply elem_of_insert in He as [->|He]; [|right; apply elem_of_concat_map; eauto].
    unfold queued in Hb. simpl in Hb. rewrite map_app, elem_of_app in Hb. destruct Hb as [Hb|Hb].
    + right. apply elem_of_concat_map. eexists. split; [by eapply list_elem_of_lookup_2|done].
    + simpl in Hb. apply list_elem_of_singleton in Hb. left. subst. by destruct x.
  - rewrite map_app, concat_app, elem_of_app. intros [?|Hb]; [by right|]. left. simpl in Hb. apply list_elem_of_singleton in Hb. subst. by destruct x.
Qed.

Lemma add_blocks_queued bs l b : b ∈ concat (map queued (fold_left add_block bs l)) -> b ∈ bs \/ b ∈ concat (map queued l).
Proof.
  revert l. induction bs as [|x bs IH]; intros l Hb; simpl in Hb; [by right|].
  apply IH in Hb as [?|[->|?]%add_block_queued]; [left; by right|left; by left|by right].
Qed.

(** The parts of the state only the garbage collector and the environment
    change. *)
Lemma inv_env (s : sys) d' c' sv gc :
  inv s -> grants (ctrl s) [] c' -> bmap d' = bmap (disk s) -> BlockResolver.nsectors_ (blk_res_ d') = sectors s ->
  blk_caches_ d' = blk_caches_ (disk s) ->
  (forall b, b ∈ trash (Sys d' c' sv (tasks s) gc) -> b ∈ trash s) -> inv_after s (Sys d' c' sv (tasks s) gc).
Proof.
  intros Hinv Hg Hbm Hn Hc Htr. apply (inv_grow s _ []); cbn [disk ctrl tasks]; try done; eauto.
  - unfold owned, cached, BlockResolver.mapped. cbn [disk tasks]. by rewrite Hbm, Hc, app_nil_r.
  - apply Hinv.
  - intros id x. rewrite Hc. intros Hx. by apply Hg, (inv_slots s Hinv id x).
Qed.

Lemma inv_gc_begin (s : sys) : gc_queue s = [] -> inv s -> inv_after s (gc_begin s).
Proof.
  intros Hq Hinv. unfold gc_begin, BlockResolver.GetAndResetDiscardedBlocks.
  destruct (BlockResolver.discard_list_ (blk_res_ (disk s))) as [|x l] eqn:E; [by apply after_refl|].
  apply (inv_env s); try done; [apply grants_nil|]. intros b. unfold trash. cbn [disk gc_queue blk_res_ BlockResolver.discard_list_]. simpl (map fst (concat [])).
  rewrite app_nil_l, E, elem_of_app. intros [?|?]%add_blocks_queued; [by left|set_solver].
Qed.

Lemma inv_gc_send o j junk (s s' : sys) : inv s -> gc_send o j junk s = Ok s' -> inv_after s s'.
Proof.
  intros Hinv H. unfold gc_send in H. destruct (gc_queue s !! j) as [[id blks]|] eqn:Hj; simplify_outcome; [|by apply after_refl].
  set (n := Z.to_nat _). apply (inv_env s); try done; [apply grants_nil|]. intros b. unfold trash. cbn [disk gc_queue blk_res_].
  rewrite !elem_of_app. intros [?|Hb]; [by left|right]. assert (forall e, e ∈ gc_queue s -> b ∈ queued e -> b ∈ concat (map queued (gc_queue s))) as Hin.
  { intros e He Hb'. apply elem_of_concat_map. eauto. }
  destruct (drop n blks) as [|y rest] eqn:Hd; apply elem_of_concat_map in Hb as (e & He & Hb).
  - apply (Hin e); [|done]. by eapply list_subseteq_delete.
  - apply elem_of_insert in He as [->|He]; [|eauto]. eapply Hin; [by eapply list_elem_of_lookup_2|]. unfold queued in *. simpl in *.
    rewrite <- (take_drop n blks), Hd, map_app, elem_of_app. by right.
Qed.

(** ** Runs *)

Definition content (s : sys) (b : block) : option (list Z) :=
  (fun srv => block_of (StorageServer.backend srv) (ServerBlockInfo.block_addr b)) <$> srvs s !! ServerBlockInfo.server_id b.

Definition one_sector_iod (op : OpType.t) (iod : IODesc.t) : Prop :=
  IODesc.get_op iod = op /\ IODesc.num_sectors iod = 1 /\ 0 <= IODesc.start_sector iod.

(** Requests as the sharding makes them: one sector each, with a buffer. *)
Definition request (tk : task) : Prop :=
  match tk with
  | TRead r => r_pc r = RResolve /\ one_sector_iod OpType.kRead (r_iod r) /\ IODesc.addr (r_iod r) <> 0
  | TWrite w => w = WriteTask (w_iod w) (w_data w) [FGet] None /\ one_sector_iod OpType.kWrite (w_iod w) /\
      Z.of_nat (length (w_data w)) = kDeviceAlignment
  | TAlloc a => a = AllocTask (a_iod a) (IODesc.start_sector (a_iod a)) ANext /\ 0 <= IODesc.start_sector (a_iod a)
  end.

(** What a server does for others leaves the blocks of this disk alone; the
    controller takes back nothing it has given out. *)
Definition allowed (s : sys) (e : event) : Prop :=
  match e with
  | ESubmit tk => request tk
  | EServer id srv => forall b, b ∈ owned s -> ServerBlockInfo.server_id b = id -> content s b <> None ->
      content s b = Some (block_of (StorageServer.backend srv) (ServerBlockInfo.block_addr b))
  | EController c => grants (ctrl s) [] c
  | _ => True
  end.

(** While the controller is within its capacity. *)
Inductive run : sys -> list event -> sys -> Prop :=
| run_nil s : run s [] s
| run_cons s e s1 es s2 : allowed s e -> exec s e = Ok s1 -> within (ctrl s1) -> run s1 es s2 -> run s (e :: es) s2.

Lemma request_quiet tk :
  request tk -> pending_task tk = [] /\ unsent tk = [] /\ (forall n, task_wf n tk).
Proof.
  destruct tk as [r|w|a]; simpl.
  - intros (Hpc & (_ & _ & Hs) & _). split_and!; [done..|]. intros n. done.
  - intros (-> & (_ & _ & Hs) & _). split_and!; [done..|]. intros n. split_and!; [done| |done]. intros [bl Hbl]. simpl in Hbl. set_solver.
  - intros (-> & Hs). split_and!; [done..|]. intros n. split_and!; [done| |done]. by intros [? ?].
Qed.

Lemma inv_submit (s : sys) tk : inv s -> request tk -> inv_after s (s <| tasks ::= fun l => l ++ [tk] |>).
Proof.
  intros Hinv (Hp & Hu & Hwf)%request_quiet.
  change (inv_after s (Sys (disk s) (ctrl s) (srvs s) (tasks s ++ [tk]) (gc_queue s))). apply (inv_grow s _ []); cbn [disk ctrl tasks]; try done.
  - apply grants_nil.
  - unfold owned, pending. cbn [disk tasks]. rewrite map_app, concat_app. simpl. by rewrite Hp, !app_nil_r.
  - by left.
  - intros tk' b [Hin|Heq%list_elem_of_singleton]%elem_of_app Hb; [eauto|]. subst. rewrite Hu in Hb. set_solver.
  - intros tk0 Hin Hm. exists tk0. rewrite elem_of_app. auto.
  - apply Forall_app. split; [apply Hinv|]. by apply Forall_singleton.
  - apply Hinv.
Qed.

Lemma inv_exec (s : sys) e s' : inv s -> allowed s e -> exec s e = Ok s' -> inv_after s s'.
Proof.
  intros Hinv Hal H. destruct e as [tk|i o|i k j o|reply|ticks| |j junk o|id srv|c]; simpl in H.
  - injection H as <-. by apply inv_submit.
  - destruct (tasks s !! i) as [[r|w|a]|] eqn:Hi; [by eapply inv_read|by eapply inv_write|by eapply inv_alloc|].
    simplify_outcome; by apply after_refl.
  - destruct (tasks s !! i) as [[r|w|a]|] eqn:Hi; try (simplify_outcome; by apply after_refl). by eapply inv_thread.
  - unfold HandleGetServerStatsReply in H. destruct reply; simplify_outcome; (apply (inv_env s); try done; apply grants_nil).
  - apply bind_Ok in H as (m & _ & [= <-]). apply (inv_env s); try done. apply grants_nil.
  - injection H as <-. destruct (gc_queue s) eqn:Hq; [by apply inv_gc_begin|by apply after_refl].
  - by eapply inv_gc_send.
  - injection H as <-. apply (inv_env s); try done. apply grants_nil.
  - injection H as <-. by apply (inv_env s).
Qed.

Lemma run_inv s es s' : run s es s' -> inv s -> inv s'.
Proof. induction 1 as [s|s e s1 es s2 Hal He Hw Hr IH]; intros Hinv; [done|]. by apply IH, (inv_exec s e s1 Hinv Hal He). Qed.

Lemma run_app s es1 s1 es2 s2 : run s es1 s1 -> run s1 es2 s2 -> run s (es1 ++ es2) s2.
Proof. induction 1; intros; simpl; [done|]. econstructor; eauto. Qed.

(** *** The constructor *)

Lemma make_cache_gives kc mc aff vol c0 (caches : list (option cache)) c id caches' c' l :
  registered c0 id -> grants c0 l c -> concat (map cache_blocks caches) ⊆+ l ->
  (forall id x, at_ caches id = Ok (Some x) -> registered c0 id) ->
  make_cache fuel kc mc aff vol (caches, c) id = Ok (caches', c') ->
  exists l', grants c0 l' c' /\ concat (map cache_blocks caches') ⊆+ l' /\ (forall id x, at_ caches' id = Ok (Some x) -> registered c0 id).
Proof.
  intros Hid Hg Hsub H0 H. unfold make_cache in H. destruct (_ && _); [simplify_outcome; eauto|].
  unfold CoreLocalCache.reserve in H. simplify_outcome. destruct_pairs.
  match goal with H : CoreLocalCache.collect _ _ _ _ _ = _ |- _ => apply CoreLocalCache.collect_news in H as (items & -> & Hn & _) end.
  simpl in *. match goal with H : at_put _ _ _ = _ |- _ => rename H into Hput end.
  exists (l ++ items). split_and!; [eapply grants_app; [done|eapply news_grants; [by apply Hg|done]]| |].
  2:{ intros id' x Hx. destruct (decide (id' = id)) as [->|Hne]; [done|]. rewrite (at_put_ne _ _ _ _ _ Hput) in Hx by done. by eapply H0. }
  apply at_put_Ok in Hput as [Hr ->]. destruct (lookup_lt_is_Some_2 caches (Z.to_nat id)) as [old Hold]; [lia|].
  etrans; [apply (submseteq_inserts_r (cache_blocks old)); done|].
  rewrite (concat_insert_perm cache_blocks _ _ _ _ Hold). simpl. rewrite CoreLocalCache.push_all_held.
  unfold CoreLocalCache.held, CoreLocalCache.init. simpl. rewrite app_nil_r.
  replace (concat (replicate kc [])) with (@nil block) by (induction kc; done).
  by apply submseteq_app.
Qed.

Lemma registered_servers policy junk cal (m : RegisterVolumeReplyMsg.t) vol servers (sched : DPScheduler.t (P := P)) :
  HandleRegisterVolumeReply policy junk cal (Some m) = Ok (Value (vol, servers, sched)) ->
  forall id, id ∈ servers -> id ∈ map ServerInfo.id (RegisterVolumeReplyMsg.servers m).
Proof.
  intros Hreg. unfold HandleRegisterVolumeReply in Hreg. apply bind_Ok in Hreg as ([ids sc] & Hreg & [= <- <- <-]).
  revert Hreg. apply (ofold_ind (fun _ st => forall id, id ∈ fst st -> id ∈ map ServerInfo.id (RegisterVolumeReplyMsg.servers m))); [set_solver|].
  intros seen id rest [ids0 sc0] [ids1 sc1] Heq Hall H1. unfold register_server in H1. simplify_outcome. destruct_pairs.
  destruct (_ : Status unit); simplify_outcome. intros id'. rewrite elem_of_app, list_elem_of_singleton. intros [?|Heq']; [auto|subst id'].
  rewrite Heq, elem_of_app, elem_of_cons. auto.
Qed.

Lemma create_inv policy junk cal kc mc n aff reply c d c' sv :
  0 <= n -> good c -> (forall m, reply = Some m -> Forall (fun i => registered c (ServerInfo.id i)) (RegisterVolumeReplyMsg.servers m)) ->
  create fuel policy junk cal kc mc n aff reply c = Ok (d, c') -> within c' -> inv (Sys d c' sv [] []).
Proof.
  intros Hn Hgood Hids H Hwi. unfold create in H. apply bind_Ok in H as ([[[vol servers] sched]|e] & Hreg & H); [|done].
  apply bind_Ok in H as ([caches c1] & Hfold & [= <- <-]). destruct reply as [m|]; [|done].
  assert (forall id, id ∈ servers -> registered c id) as Hsrv.
  { intros id Hid. apply (registered_servers _ _ _ _ _ _ _ Hreg) in Hid. apply list_elem_of_fmap in Hid as (x & -> & Hx).
    specialize (Hids m eq_refl). rewrite Forall_forall in Hids. auto. }
  set (slotted := fun cs : list (option cache) => forall id x, at_ cs id = Ok (Some x) -> registered c id).
  assert (exists l, grants c l c1 /\ concat (map cache_blocks caches) ⊆+ l /\ slotted caches) as (l & Hg & Hsub & H0).
  { revert Hfold. apply (ofold_ind (fun _ st => exists l, grants c l (snd st) /\ concat (map cache_blocks (fst st)) ⊆+ l /\ slotted (fst st))).
    - exists []. split; [apply grants_nil|]. split; [simpl; done|]. intros id x [_ Hx]%at_Ok. apply lookup_replicate in Hx as [? _]. done.
    - intros seen id rest [cs0 c0] [cs1 c1'] Heq (l & Hg & Hsub & H0) H1. eapply make_cache_gives; [|done..].
      apply Hsrv. rewrite Heq, elem_of_app, elem_of_cons. auto. }
  destruct Hg as (_ & Hr & Hg). destruct (Hg Hgood Hwi) as (Hgood1 & Hnd & Hl & Hf).
  assert (forall b, b ∈ concat (map cache_blocks caches) -> b ∈ l) as Hin by (intros b Hb; by eapply elem_of_submseteq).
  constructor; unfold owned, trash, cached; cbn [disk ctrl tasks blk_res_ blk_caches_ gc_queue pending map concat BlockResolver.discard_list_ BlockResolver.init];
    rewrite ?BlockResolver.mapped_init, ?app_nil_r; try done.
  - apply submseteq_Permutation in Hsub as [k Hk]. rewrite Hk in Hnd. by apply NoDup_app in Hnd as [? _].
  - intros b [_ Hb]%Hf. split_and!; [auto|set_solver|constructor].
  - apply Forall_forall. intros b Hb%Hin. by apply Hl.
  - intros b [Hb|[Hb|Hb]]; [by apply Hl, Hin|set_solver|by apply Exists_nil in Hb].
  - set_solver.
  - set_solver.
  - simpl. rewrite length_replicate. lia.
  - intros id x Hx. simpl in Hx. by eapply Hr, H0.
Qed.
End Laws.
