(* ===== verification/ReadYourWrites.v ===== *)
(** * Read your writes

    What a completed write of the remote disk promises the reads that start
    after it, and what a read that overlaps a write can see. *)

From S2P Require Import Prelude Float64 BaseTypes Counter CoreLocalCache Configuration Messages StorageServer Congestion DataPlane DataPlaneLaws DataPlaneScheduler BlockResolver VirtualDiskRemote VirtualDiskRemoteLaws.

Local Open Scope Z_scope.

Import VirtualDiskRemote.

Section ReadYourWrites.
Context {P : Type} `{!BaseReadScheduler P} `{!BaseWriteScheduler P, !BaseWriteSchedulerLaws P}.
Context {C : Type} `{!ControllerRPC C, !ControllerLaws C} (fuel : nat).
Context {B : Type} `{!DiskServerOps B, !DiskServerLaws B}.
Abbreviation sys := (VirtualDiskRemote.sys (P := P) (C := C) (B := B)).
Abbreviation exec := (VirtualDiskRemote.exec (P := P) (C := C) (B := B) fuel).
Abbreviation mapped_at s v := (BlockResolver.mapped_at (blk_res_ (disk s)) v).
Abbreviation bmap d := (BlockResolver.blk_map_ (blk_res_ d)).
Abbreviation addr_of := ServerBlockInfo.block_addr.

(** ** Calls and the blocks of the servers *)

Definition stored (sv : gmap ServerID (StorageServer.t B)) (b : block) : option (list Z) :=
  (fun srv => block_of (StorageServer.backend srv) (addr_of b)) <$> sv !! ServerBlockInfo.server_id b.

Lemma content_stored (s : sys) b : content s b = stored (srvs s) b.
Proof. done. Qed.

(** A call is lost, or handled by its server with a reply that may be lost. *)
Lemma call_cases o id m sv r sv' :
  call o id m sv = Ok (r, sv') ->
  (r = None /\ sv' = sv) \/
  exists srv r0 srv', sv !! id = Some srv /\ (r = None \/ r = r0) /\ sv' = <[id := srv']> sv /\
    DiskConnHandler.HandleMsg (server_time o) (server_clock o) m srv = Ok (r0, srv').
Proof.
  unfold call. intros H. destruct (call_is o), (sv !! id) as [srv|] eqn:Hs; simplify_outcome; try (by left);
    destruct_pairs; right; eexists _, _, _; (split_and!; [done| |done|done]); auto.
Qed.

Lemma call_keeps o id m sv r sv' b :
  valid_lba (addr_of b) -> (ServerBlockInfo.server_id b = id -> spares (addr_of b) m) ->
  call o id m sv = Ok (r, sv') -> stored sv' b = stored sv b.
Proof.
  intros Hv Hsp [[-> ->]|(srv & r0 & srv' & Hs & _ & -> & Hm)]%call_cases; [done|]. unfold stored.
  destruct (decide (ServerBlockInfo.server_id b = id)) as [<-|Hne]; [|by rewrite lookup_insert_ne].
  rewrite lookup_insert_eq, Hs. simpl. f_equal. eapply (serve_keeps _ srv (Arrival (server_time o) (server_clock o) m)); [done|by apply Hsp|].
  unfold serve. cbn [at_time at_clock arrived]. by rewrite Hm.
Qed.

Lemma iod_one_sector op iod a msg :
  one_sector_iod op iod -> StorageOpMsg.iod msg = iod <| IODesc.start_sector := a |> -> one_sector op msg /\ lba_of msg = a.
Proof. intros (Hop & Hn & _) Hm. unfold one_sector, lba_of. rewrite Hm. simpl. by split_and!. Qed.

Lemma payload_all (data : list Z) : Z.of_nat (length data) = kDeviceAlignment ->
  take (Z.to_nat (u32 (Z.shiftl 1 kSectorShift))) data = data.
Proof. intros H. change (u32 (Z.shiftl 1 kSectorShift)) with kDeviceAlignment. apply take_ge. lia. Qed.

(** The reply to a request that the server did not turn down. *)
Definition accepted (r : option message) (rep : StorageOpReplyMsg.t) (pl : list Z) : Prop :=
  r = Some (MStorageOpReply rep pl) /\ StorageOpReplyMsg.code rep <> StorageOpReplyCode.kRejectModeMismatch.

Lemma send_write o iod data b (s s' : sys) r :
  one_sector_iod OpType.kWrite iod -> Z.of_nat (length data) = kDeviceAlignment -> valid_lba (addr_of b) ->
  send o iod data b s = Ok (r, s') ->
  (forall b', valid_lba (addr_of b') -> b' <> b -> content s' b' = content s b') /\
  (forall rep pl, accepted r rep pl -> content s' b = Some data).
Proof.
  intros Hiod Hd Hv H. unfold send in H. simplify_outcome. destruct_pairs. simplify_outcome. destruct_pairs.
  match goal with H : GetRPCClientForServer _ _ = _ |- _ => unfold GetRPCClientForServer in H; simplify_outcome end.
  match goal with H : ProcessStorageOp _ _ _ _ _ = _ |- _ => rename H into Hp end.
  match goal with H : call _ _ _ _ = _ |- _ => rename H into Hcall end.
  pose proof Hiod as (Hop & Hn & _). unfold ProcessStorageOp in Hp.
  replace (IODesc.get_op _) with OpType.kWrite in Hp by (symmetry; exact Hop). simplify_outcome.
  assert (take (Z.to_nat (u32 (Z.shiftl (IODesc.num_sectors iod) kSectorShift))) data = data) as Htake by (rewrite Hn; by apply payload_all).
  rewrite Htake in Hcall.
  set (msg := StorageOpMsg.mk _ _ _) in Hcall. destruct (iod_one_sector _ iod (addr_of b) msg Hiod eq_refl) as [Hone Hlba].
  split.
  - intros b' Hv' Hne. rewrite !content_stored. cbn [srvs fst snd]. eapply call_keeps; [done| |done]. intros Hid. right. rewrite Hlba. split_and!; [done..|]. intros Ha. apply Hne. destruct b, b'. simpl in *. congruence.
  - intros rep pl [-> Hcode]. rewrite content_stored. cbn [srvs fst snd].
    apply call_cases in Hcall as [[? _]|(srv & r0 & srv' & Hs & [?|<-] & -> & Hm)]; [done|done|].
    apply answered in Hm as (Hm & _); [|done]. rewrite response_size_write in Hm by done.
    apply write_block in Hm as [_ Hb]; [|done|by rewrite Hlba|done]. unfold stored. rewrite lookup_insert_eq. simpl. by rewrite <- Hlba, Hb.
Qed.

Lemma send_read o iod data b (s s' : sys) r :
  one_sector_iod OpType.kRead iod -> send o iod data b s = Ok (r, s') ->
  (forall b', valid_lba (addr_of b') -> content s' b' = content s b') /\
  (forall rep pl, valid_lba (addr_of b) -> r = Some (MStorageOpReply rep pl) ->
     content s b = Some pl /\ StorageOpReplyMsg.res rep = kDeviceAlignment /\
     StorageOpReplyMsg.iod rep = iod <| IODesc.start_sector := addr_of b |>).
Proof.
  intros Hiod H. unfold send in H. simplify_outcome. destruct_pairs. simplify_outcome. destruct_pairs.
  match goal with H : GetRPCClientForServer _ _ = _ |- _ => unfold GetRPCClientForServer in H; simplify_outcome end.
  match goal with H : ProcessStorageOp _ _ _ _ _ = _ |- _ => rename H into Hp end.
  match goal with H : call _ _ _ _ = _ |- _ => rename H into Hcall end.
  pose proof Hiod as (Hop & Hn & _). unfold ProcessStorageOp in Hp.
  replace (IODesc.get_op _) with OpType.kRead in Hp by (symmetry; exact Hop). simplify_outcome.
  set (msg := StorageOpMsg.mk _ _ _) in Hcall. destruct (iod_one_sector _ iod (addr_of b) msg Hiod eq_refl) as [Hone Hlba].
  split.
  - intros b' Hv'. rewrite !content_stored. cbn [srvs fst snd]. eapply call_keeps; [done| |done]. intros Hid. by left.
  - intros rep pl Hv ->. rewrite content_stored. cbn [srvs fst snd].
    apply call_cases in Hcall as [[? _]|(srv & r0 & srv' & Hs & [?|<-] & -> & Hm)]; [done|done|].
    pose proof (read_not_rejected _ _ _ _ _ _ _ _ Hone Hm) as Hcode. apply answered in Hm as (Hm & Hi & _); [|done].
    rewrite response_size_read in Hm by done. apply read_block in Hm as [Hres ->]; [|done|by rewrite Hlba].
    unfold stored. rewrite Hs. simpl. by rewrite Hlba.
Qed.

(** ** What one step changes *)

Definition same_request (tk tk' : task) : Prop :=
  match tk, tk' with
  | TRead r, TRead r' => r_iod r' = r_iod r
  | TWrite w, TWrite w' => w_iod w' = w_iod w /\ w_data w' = w_data w
  | TAlloc a, TAlloc a' => a_iod a' = a_iod a
  | _, _ => False
  end.

Definition advances (i : nat) (tk : task) (s s' : sys) : Prop :=
  tasks s' = tasks s \/ exists tk', tasks s' = <[i := tk']> (tasks s) /\ same_request tk tk'.

Definition entry_at (s : sys) (v : Z) : option ServerReplicaBlockInfoList := bmap (disk s) !! Z.to_nat v.

Lemma mapped_at_entry (s s' : sys) v : entry_at s' v = entry_at s v -> mapped_at s' v = mapped_at s v.
Proof. unfold entry_at, BlockResolver.mapped_at. by intros ->. Qed.

Lemma keeps_entry (s s' : sys) v : keeps (disk s) (disk s') -> entry_at s' v = entry_at s v.
Proof. intros [(Hr & _) _]. unfold entry_at. by rewrite Hr. Qed.

Lemma send_state o iod data b (s s' : sys) r :
  send o iod data b s = Ok (r, s') -> keeps (disk s) (disk s') /\ tasks s' = tasks s.
Proof. intros (d' & sv & -> & Hk)%send_keeps. done. Qed.

Lemma read_effect o i r (s s' : sys) :
  read_step o i r s = Ok s' ->
  advances i (TRead r) s s' /\ keeps (disk s) (disk s') /\
  (one_sector_iod OpType.kRead (r_iod r) -> forall b, valid_lba (addr_of b) -> content s' b = content s b).
Proof.
  intros H. unfold advances. unfold read_step in H. destruct (r_pc r) as [|servers ids|servers ids id|servers ids id reply|ret].
  - simplify_outcome. split_and!; [right; eexists; by split|done|done].
  - destruct ids; simplify_outcome; [split_and!; [right; eexists; by split|done|done]|]. destruct_pairs.
    destruct (_ : Status ServerID); simplify_outcome; (split_and!; [right; eexists; by split|done|done]).
  - simplify_outcome. destruct_pairs. match goal with H : send _ _ _ _ _ = Ok (_, ?x) |- _ => rename H into Hsend, x into s1 end.
    simplify_outcome. destruct (send_state _ _ _ _ _ _ _ Hsend) as [Hk Ht]. cbn [set_task tasks disk].
    split_and!; [right; eexists; split; [by rewrite <- Ht|done]|done|]. intros Hiod b Hb.
    destruct (send_read _ _ _ _ _ _ _ Hiod Hsend) as [Hc _]. by apply Hc.
  - simplify_outcome. destruct_pairs. match goal with H : HandleStorageOpReply _ _ _ _ = _ |- _ => apply HandleStorageOpReply_keeps in H as Hk end.
    destruct (_ : Status Z); simplify_outcome; (split_and!; [right; eexists; by split| |done]); [done|]. eapply keeps_trans; [done|].
    match goal with H : (if ?b then _ else _) = Ok _ |- _ => destruct b end; unfold inc in *; simplify_outcome; by repeat split.
  - simplify_outcome. split_and!; [by left|done|done].
Qed.

Lemma leave_request ret rest w : same_request (TWrite w) (TWrite (leave ret rest w)).
Proof. by destruct rest as [|[] rest]. Qed.

Lemma write_effect o i w (s s' : sys) :
  inv s -> tasks s !! i = Some (TWrite w) -> write_step fuel o i w s = Ok s' ->
  advances i (TWrite w) s s' /\ srvs s' = srvs s /\
  (forall v, 0 <= v -> v <> IODesc.start_sector (w_iod w) \/ frames w = [] -> entry_at s' v = entry_at s v).
Proof.
  intros Hinv Hi H. pose proof (wf_at s i _ Hinv Hi) as (Hs0 & _). simpl in Hs0. unfold write_step in H. unfold advances.
  destruct (frames w) as [|[|blks|blks|flag ths] rest].
  - simplify_outcome. split_and!; [by left|done|done].
  - apply bind_Ok in H as ([[r d'] c'] & Hget & [= <-]). apply GetBlocks_gives in Hget as (l & _ & _ & (Hr & _) & _); [|apply Hinv].
    split_and!; [|done|intros v0 _ _; unfold entry_at; cbn [disk set_task]; simpl; by rewrite Hr].
    right. eexists. split; [done|]. destruct r; [by split_and!|apply leave_request].
  - simplify_outcome. split_and!; [right; eexists; by split|done|]. intros v0 _ _. unfold entry_at. simpl.
    match goal with H : BlockResolver.begin_mapping _ _ = _ |- _ => apply BlockResolver.begin_mapping_Ok in H as (_ & _ & -> & _); [done|done|apply Hinv] end.
  - simplify_outcome. split_and!; [right; eexists; by split|done|]. intros v0 Hv [Hne|?]; [|done]. unfold entry_at. simpl. apply list_lookup_insert_ne. lia.
  - simplify_outcome. case_match; [|split_and!; [by left|done|done]]. split_and!; [right; eexists; split; [done|apply leave_request]|done|done].
Qed.

Lemma alloc_effect o i a (s s' : sys) :
  inv s -> tasks s !! i = Some (TAlloc a) -> alloc_step fuel o i a s = Ok s' ->
  advances i (TAlloc a) s s' /\ srvs s' = srvs s /\
  (forall v, 0 <= v -> (forall blks, v = a_sector a -> a_pc a <> AMap blks) -> entry_at s' v = entry_at s v).
Proof.
  intros Hinv Hi H. pose proof (wf_at s i _ Hinv Hi) as (Hs0 & _). simpl in Hs0. unfold alloc_step in H. unfold advances.
  destruct (a_pc a) as [|blks|blks|ret] eqn:Hpc.
  - destruct (_ <? _); [|simplify_outcome; split_and!; [right; eexists; by split|done|done]].
    apply bind_Ok in H as ([[r d'] c'] & Hget & [= <-]). apply GetBlocks_gives in Hget as (l & _ & _ & (Hr & _) & _); [|apply Hinv].
    split_and!; [right; eexists; by split|done|intros v0 _ _; unfold entry_at; simpl; by rewrite Hr].
  - simplify_outcome. split_and!; [right; eexists; by split|done|]. intros v0 _ _. unfold entry_at. simpl.
    match goal with H : BlockResolver.begin_mapping _ _ = _ |- _ => apply BlockResolver.begin_mapping_Ok in H as (_ & _ & -> & _); [done|done|apply Hinv] end.
  - simplify_outcome. split_and!; [right; eexists; by split|done|]. intros v0 Hv Hne. unfold entry_at. simpl. apply list_lookup_insert_ne.
    intros Heq. apply (Hne blks); [lia|done].
  - simplify_outcome. split_and!; [by left|done|done].
Qed.

Lemma reply_value ts r id (d d' : VirtualDiskRemote.t (P := P)) n cp :
  HandleStorageOpReply ts r id d = Ok (Value n, cp, d') ->
  exists rep pl, accepted r rep pl /\ n = StorageOpReplyMsg.res rep /\
    (IODesc.get_op (StorageOpReplyMsg.iod rep) = OpType.kRead -> read_payload (StorageOpReplyMsg.iod rep) pl = Ok cp).
Proof.
  unfold HandleStorageOpReply, accepted. intros H. destruct r as [[]|]; simplify_outcome. eexists _, _.
  destruct (IODesc.get_op _) eqn:Hop; try done; destruct (_ || _) eqn:Hok; simplify_outcome;
    try (destruct (StorageOpReplyMsg.code _); by simplify_outcome);
    (split_and!; [done| |done|by rewrite ?Hop]); intros Hc; by rewrite Hc in Hok.
Qed.

(** A thread of a write is at its end, waits for its retry, or it makes its
    call, or it handles the reply: it ends when the server accepted the block
    or the attempt is already being retried, and it starts a retry otherwise. *)
Inductive thread_moves (s s' : sys) (w : write_task) (k j : nat) (flag : bool) (ths : list thread) : list frame -> Prop :=
| moves_send b r :
    ths !! j = Some (TSend b) ->
    (one_sector_iod OpType.kWrite (w_iod w) -> Z.of_nat (length (w_data w)) = kDeviceAlignment -> valid_lba (addr_of b) ->
     (forall b', valid_lba (addr_of b') -> b' <> b -> content s' b' = content s b') /\
     (forall rep pl, accepted r rep pl -> content s' b = Some (w_data w))) ->
    thread_moves s s' w k j flag ths (<[k := FJoin flag (<[j := TReply b r]> ths)]> (frames w))
| moves_done b r :
    ths !! j = Some (TReply b r) -> srvs s' = srvs s -> (flag = false -> exists rep pl, accepted r rep pl) ->
    thread_moves s s' w k j flag ths (<[k := FJoin flag (<[j := TDone]> ths)]> (frames w))
| moves_retry b r :
    ths !! j = Some (TReply b r) -> srvs s' = srvs s -> flag = false ->
    thread_moves s s' w k j flag ths (FGet :: <[k := FJoin true (<[j := TRetry]> ths)]> (frames w)).

Lemma thread_cases o i k j w (s s' : sys) :
  thread_step o i k j w s = Ok s' ->
  s' = s \/ exists flag ths fr, frames w !! k = Some (FJoin flag ths) /\ keeps (disk s) (disk s') /\ ctrl s' = ctrl s /\
    tasks s' = <[i := TWrite (w <| frames := fr |>)]> (tasks s) /\ thread_moves s s' w k j flag ths fr.
Proof.
  intros H. unfold thread_step in H.
  destruct (frames w !! k) as [[| | |flag ths]|] eqn:Hk; try (simplify_outcome; by left).
  destruct (ths !! j) as [[b|b reply| |]|] eqn:Hj; try (simplify_outcome; by left); right.
  - simplify_outcome. destruct_pairs. match goal with H : send _ _ _ _ _ = Ok (_, ?x) |- _ => rename H into Hsend, x into s1 end.
    simplify_outcome. pose proof Hsend as (d' & sv & -> & Hkeep)%send_keeps. eexists flag, ths, _. split_and!; [done..|].
    eapply moves_send; [done|]. intros Hiod Hd Hval. by destruct (send_write _ _ _ _ _ _ _ Hiod Hd Hval Hsend).
  - simplify_outcome. destruct_pairs. match goal with H : HandleStorageOpReply _ _ _ _ = _ |- _ => rename H into Hr; pose proof Hr as Hkeep%HandleStorageOpReply_keeps end.
    eexists flag, ths. destruct (_ : Status Z); simplify_outcome.
    { eexists. split_and!; [done..|]. eapply moves_done; [done..|]. intros _. apply reply_value in Hr as (rep & pl & Hacc & _). eauto. }
    match goal with H : (if ?b then inc _ _ ?d1 else _) = Ok ?d2 |- _ => assert (keeps (disk s) d2) as Hkeep2 by
      (eapply keeps_trans; [done|]; destruct b; unfold inc in *; simplify_outcome; by repeat split) end.
    destruct flag; simplify_outcome; eexists; (split_and!; [done..|]); [by eapply moves_done|by eapply moves_retry].
Qed.

Lemma unsent_at w k j flag ths b :
  frames w !! k = Some (FJoin flag ths) -> ths !! j = Some (TSend b) -> b ∈ unsent (TWrite w).
Proof.
  intros Hk Hj. simpl. apply elem_of_concat_map. eexists. split; [by eapply list_elem_of_lookup_2|].
  apply list_elem_of_omap. eexists. split; [by eapply list_elem_of_lookup_2|done].
Qed.

Lemma gc_effect o j junk (s s' : sys) :
  gc_send o j junk s = Ok s' ->
  tasks s' = tasks s /\ bmap (disk s') = bmap (disk s) /\
  ((forall b, b ∈ trash s -> valid_lba (addr_of b)) ->
   forall b, valid_lba (addr_of b) -> b ∉ trash s -> content s' b = content s b).
Proof.
  intros H. unfold gc_send in H. destruct (gc_queue s !! j) as [[id blks]|] eqn:Hj; simplify_outcome; [|done].
  destruct_pairs. simpl. split_and!; [done..|]. intros Hval b Hb Hnot. rewrite !content_stored. cbn [srvs snd].
  match goal with H : GetRPCClientForServer _ _ = _ |- _ => unfold GetRPCClientForServer in H; simplify_outcome end.
  match goal with H : gc_queue s !! j = Some (?x, _) |- _ => assert (forall a, a ∈ blks -> ServerBlockInfo.mk x a ∈ trash s) as Hin end.
  { intros a Ha. unfold trash. rewrite elem_of_app. right. apply elem_of_concat_map. eexists. split; [by eapply list_elem_of_lookup_2|].
    unfold queued. simpl. by apply list_elem_of_fmap_2. }
  eapply call_keeps; [done| |done]. intros <-. simpl. unfold discarded. simpl.
  rewrite take_app_le, take_take by (rewrite length_take; lia). split.
  - apply Forall_forall. intros a Ha%subseteq_take. apply (Hval _ (Hin a Ha)).
  - intros Ha%subseteq_take. apply Hnot. specialize (Hin _ Ha). by destruct b.
Qed.

(** ** Requests that write a sector *)

Definition touches (v : Z) (tk : task) : Prop :=
  match tk with
  | TRead _ => False
  | TWrite w => IODesc.start_sector (w_iod w) = v
  | TAlloc a => IODesc.start_sector (a_iod a) <= v < alloc_last a
  end.

Definition over (tk : task) : Prop :=
  match tk with
  | TRead r => exists ret, r_pc r = RDone ret
  | TWrite w => frames w = []
  | TAlloc a => exists ret, a_pc a = ADone ret
  end.

(** What a request keeps from its submission. *)
Definition proper (tk : task) : Prop :=
  match tk with
  | TRead r => one_sector_iod OpType.kRead (r_iod r) /\ IODesc.addr (r_iod r) <> 0
  | TWrite w => one_sector_iod OpType.kWrite (w_iod w) /\ Z.of_nat (length (w_data w)) = kDeviceAlignment
  | TAlloc a => IODesc.start_sector (a_iod a) <= a_sector a
  end.

Definition stepping (e : event (C := C) (B := B)) : option nat :=
  match e with ETask i _ | EThread i _ _ _ => Some i | _ => None end.

(** Task [j] after a step: just submitted, as it was, or advanced. *)
Definition task_after (s : sys) (e : event (C := C) (B := B)) (j : nat) (tk' : task) : Prop :=
  (e = ESubmit tk' /\ j = length (tasks s)) \/
  exists tk, tasks s !! j = Some tk /\
    (tk' = tk \/ (stepping e = Some j /\ ~ over tk /\ same_request tk tk' /\ (proper tk -> proper tk'))).

Lemma task_after_insert (s s' : sys) e i j tk tk' :
  stepping e = Some i -> tasks s !! i = Some tk -> ~ over tk -> advances i tk s s' ->
  (forall tk', tasks s' = <[i := tk']> (tasks s) -> same_request tk tk' -> proper tk -> proper tk') ->
  tasks s' !! j = Some tk' -> task_after s e j tk'.
Proof.
  intros He Hi Hov [Heq|(tk1 & Heq & Hsame)] Hp Hj; right.
  - rewrite Heq in Hj. eauto.
  - rewrite Heq in Hj. apply list_lookup_insert_Some in Hj as [(-> & -> & _)|[_ Hj]]; [|by eauto]. exists tk. split; [done|]. right. eauto.
Qed.

Lemma over_idle (s s' : sys) e i tk : exec s e = Ok s' -> stepping e = Some i -> tasks s !! i = Some tk -> over tk -> s' = s.
Proof.
  intros H He Hi Hov. destruct e as [| |i' k j o| | | | | |]; simplify_eq/=; rewrite Hi in H; destruct tk as [r|w|a]; simpl in Hov.
  - destruct Hov as [ret Hpc]. unfold read_step in H. rewrite Hpc in H. by simplify_outcome.
  - unfold write_step in H. rewrite Hov in H. by simplify_outcome.
  - destruct Hov as [ret Hpc]. unfold alloc_step in H. rewrite Hpc in H. by simplify_outcome.
  - by simplify_outcome.
  - unfold thread_step in H. rewrite Hov, lookup_nil in H. by simplify_outcome.
  - by simplify_outcome.
Qed.

#[local] Instance over_dec tk : Decision (over tk).
Proof.
  destruct tk as [r|w|a]; simpl.
  - destruct (r_pc r); [right; by intros [? ?]..|left; eauto].
  - apply _.
  - destruct (a_pc a); [right; by intros [? ?]..|left; eauto].
Defined.

Lemma alloc_advance o i a (s s' : sys) a' :
  inv s -> tasks s !! i = Some (TAlloc a) -> alloc_step fuel o i a s = Ok s' -> tasks s' = <[i := TAlloc a']> (tasks s) ->
  IODesc.start_sector (a_iod a) <= a_sector a -> IODesc.start_sector (a_iod a') <= a_sector a'.
Proof.
  intros Hinv Hi H Heq Hle. pose proof (wf_at s i _ Hinv Hi) as (Hs0 & _ & Hlast). simpl in Hs0, Hlast.
  assert (tasks s' !! i = Some (TAlloc a')) as Hi' by (rewrite Heq; apply list_lookup_insert_eq; by eapply lookup_lt_Some). clear Heq.
  assert (forall tk, <[i := tk]> (tasks s) !! i = Some tk) as Hins by (intros; apply list_lookup_insert_eq; by eapply lookup_lt_Some).
  unfold alloc_step in H. destruct (a_pc a) as [|blks|blks|ret] eqn:Hpc.
  - destruct (_ <? _); [apply bind_Ok in H as ([[r d'] c'] & _ & H)|]; simplify_outcome; simpl in Hi'; rewrite Hins in Hi'; by injection Hi' as <-.
  - simplify_outcome. simpl in Hi'. rewrite Hins in Hi'. by injection Hi' as <-.
  - simplify_outcome. simpl in Hi'. rewrite Hins in Hi'. injection Hi' as <-. simpl.
    pose proof (wrap_range 64 (IODesc.start_sector (a_iod a) + IODesc.num_sectors (a_iod a)) ltac:(lia)) as Hr. unfold alloc_last in Hlast.
    rewrite wrap_small; lia.
  - by simplify_outcome.
Qed.

Lemma request_proper tk : request tk -> proper tk.
Proof. destruct tk as [r|w|a]; simpl; [naive_solver..|]. intros [-> _]. simpl. done. Qed.

Lemma exec_tasks (s s' : sys) e j tk' :
  inv s -> exec s e = Ok s' -> tasks s' !! j = Some tk' -> task_after s e j tk'.
Proof.
  intros Hinv H Hj. assert (tasks s' = tasks s -> task_after s e j tk') as Hsame.
  { intros Heq. rewrite Heq in Hj. right. eauto. }
  destruct (stepping e) as [i|] eqn:He.
  - destruct (tasks s !! i) as [tk|] eqn:Hi.
    2:{ apply Hsame. destruct e; simplify_eq/=; rewrite Hi in H; by simplify_outcome. }
    destruct (decide (over tk)) as [Hov|Hov]; [apply Hsame; by rewrite (over_idle _ _ _ _ _ H He Hi Hov)|].
    destruct e as [|i' o|i' k j' o| | | | | |]; simplify_eq/=; rewrite Hi in H.
    + destruct tk as [r|w|a].
      * apply read_effect in H as (Hadv & _). eapply task_after_insert; [done..| |done]. intros [] _; simpl; try done. by intros ->.
      * apply write_effect in H as (Hadv & _); [|done..]. eapply task_after_insert; [done..| |done]. intros [] _; simpl; try done. by intros [-> ->].
      * pose proof H as (Hadv & _)%alloc_effect; [|done..]. eapply task_after_insert; [done..| |done]. intros [] Heq; simpl; try done. intros Hiod Hle.
        by eapply alloc_advance.
    + destruct tk as [r|w|a]; [by simplify_outcome; apply Hsame| |by simplify_outcome; apply Hsame].
      apply thread_cases in H as [->|(flag & ths & fr & _ & _ & _ & Ht & _)]; [by apply Hsame|].
      eapply task_after_insert; [done..| | |done]; [right; eexists; by split|]. intros [] _; simpl; try done. by intros [-> ->].
  - destruct e as [tk|i o|i k j' o|reply|ticks| |j' junk o|id srv|c]; simpl in He, H; try done; try (simplify_outcome; apply Hsame; done).
    + simplify_eq/=. apply lookup_app_Some in Hj as [Hj|[Hlen Hj]]; [right; eauto|]. left.
      apply list_lookup_singleton_Some in Hj as [? <-]. split; [done|]. lia.
    + injection H as <-. apply Hsame. destruct (gc_queue s); [|done]. unfold gc_begin. by destruct (BlockResolver.GetAndResetDiscardedBlocks _) as [[] ?].
    + apply gc_effect in H as (Ht & _). by apply Hsame.
Qed.

(** ** Steps that do not write a sector *)

(** The step is of no request that still writes sector [v]. *)
Definition aside (v : Z) (s : sys) (e : event (C := C) (B := B)) : Prop :=
  forall i tk, stepping e = Some i -> tasks s !! i = Some tk -> touches v tk -> over tk.

Lemma mapped_at_once (s : sys) v v' b :
  inv s -> 0 <= v -> 0 <= v' -> b ∈ mapped_at s v -> b ∈ mapped_at s v' -> v = v'.
Proof.
  intros Hinv Hv Hv' Hb Hb'. pose proof (inv_nodup s Hinv) as Hn. unfold owned in Hn. rewrite !NoDup_app in Hn. destruct Hn as (_ & _ & _ & _ & Hn).
  unfold BlockResolver.mapped_at, BlockResolver.mapped in *.
  destruct (bmap (disk s) !! Z.to_nat v) as [x|] eqn:Hx; [|set_solver]. destruct (bmap (disk s) !! Z.to_nat v') as [y|] eqn:Hy; [|set_solver].
  apply Z2Nat.inj; [done..|]. by eapply (NoDup_concat_once BlockResolver.blocks_in).
Qed.

Lemma mapped_at_NoDup (s : sys) v : inv s -> NoDup (mapped_at s v).
Proof.
  intros Hinv. pose proof (inv_nodup s Hinv) as Hn. unfold owned in Hn. rewrite !NoDup_app in Hn. destruct Hn as (_ & _ & _ & _ & Hn).
  unfold BlockResolver.mapped_at, BlockResolver.mapped in *. destruct (bmap (disk s) !! Z.to_nat v) as [x|] eqn:Hx; [|constructor].
  apply list_elem_of_lookup_2, list_elem_of_split in Hx as (l1 & l2 & Heq). rewrite Heq, map_app, concat_app in Hn. simpl in Hn.
  rewrite !NoDup_app in Hn. by destruct Hn as (_ & _ & ? & _).
Qed.

Lemma entry_aside (s s' : sys) e v :
  inv s -> Forall proper (tasks s) -> 0 <= v -> exec s e = Ok s' -> aside v s e -> entry_at s' v = entry_at s v.
Proof.
  intros Hinv Hp Hv H Has. assert (forall d', bmap d' = bmap (disk s) -> disk s' = d' -> entry_at s' v = entry_at s v) as Hsame.
  { intros d' Hb Hd. unfold entry_at. by rewrite Hd, Hb. }
  destruct e as [tk|i o|i k j o|reply|ticks| |j junk o|id srv|c]; simpl in H; try (by simplify_outcome).
  - destruct (tasks s !! i) as [[r|w|a]|] eqn:Hi; [| | |by simplify_outcome]; specialize (Has _ _ eq_refl Hi); simpl in Has.
    + apply read_effect in H as (_ & Hk & _). by apply keeps_entry.
    + apply write_effect in H as (_ & _ & He); [|done..]. apply He; [done|]. destruct (decide (IODesc.start_sector (w_iod w) = v)); auto.
    + apply alloc_effect in H as (_ & _ & He); [|done..]. apply He; [done|]. intros blks -> Hpc.
      pose proof (wf_at s i _ Hinv Hi) as (_ & _ & Hlast). simpl in Hlast. rewrite Hpc in Hlast.
      pose proof (Forall_lookup_1 _ _ _ _ Hp Hi) as Hle. simpl in Hle. destruct Has as [ret Hret]; [lia|congruence].
  - destruct (tasks s !! i) as [[r|w|a]|] eqn:Hi; try (by simplify_outcome).
    apply thread_cases in H as [->|(flag & ths & fr & _ & Hk & _)]; [done|]. by apply keeps_entry.
  - unfold HandleGetServerStatsReply in H. destruct reply; by simplify_outcome.
  - injection H as <-. destruct (gc_queue s); [|done]. unfold gc_begin, BlockResolver.GetAndResetDiscardedBlocks.
    by destruct (BlockResolver.discard_list_ _).
  - apply gc_effect in H as (_ & Hb & _). by eapply Hsame.
Qed.

(** No request is between the two halves of a mapping of [v]. *)
Definition unmapping (v : Z) (s : sys) : Prop := forall tk, tk ∈ tasks s -> mapping tk -> sector tk <> v.

Lemma mapped_usable (s : sys) v b : inv s -> b ∈ mapped_at s v -> valid_lba (addr_of b).
Proof. intros Hinv Hb. apply (inv_usable s Hinv b). left. by eapply mapped_owned. Qed.

Lemma unsent_usable (s : sys) tk b : inv s -> tk ∈ tasks s -> b ∈ unsent tk -> valid_lba (addr_of b).
Proof. intros Hinv Htk Hb. apply (inv_usable s Hinv b). right. right. apply Exists_exists. eauto. Qed.

Lemma content_aside (s s' : sys) e v b :
  inv s -> Forall proper (tasks s) -> 0 <= v -> allowed s e -> exec s e = Ok s' -> aside v s e -> unmapping v s ->
  b ∈ mapped_at s v -> content s b <> None -> content s' b = content s b.
Proof.
  intros Hinv Hp Hv Hal H Has Hum Hb Hc. pose proof (mapped_usable _ _ _ Hinv Hb) as Hval.
  destruct e as [tk|i o|i k j o|reply|ticks| |j junk o|id srv|c]; simpl in H; try (by simplify_outcome).
  - destruct (tasks s !! i) as [[r|w|a]|] eqn:Hi; [| | |by simplify_outcome].
    + apply read_effect in H as (_ & _ & He). apply He; [|done]. by apply (Forall_lookup_1 _ _ _ _ Hp) in Hi as [? _].
    + apply write_effect in H as (_ & Hs & _); [|done..]. by rewrite !content_stored, Hs.
    + apply alloc_effect in H as (_ & Hs & _); [|done..]. by rewrite !content_stored, Hs.
  - destruct (tasks s !! i) as [[r|w|a]|] eqn:Hi; try (by simplify_outcome).
    apply thread_cases in H as [->|(flag & ths & fr & Hk & _ & _ & _ & Hmv)]; [done|].
    destruct Hmv as [b0 r Hj Hsend|b0 r Hj Hs|b0 r Hj Hs]; [|by rewrite !content_stored, Hs..].
    pose proof (unsent_at _ _ _ _ _ _ Hk Hj) as Hun. pose proof (list_elem_of_lookup_2 _ _ _ Hi) as Htk.
    destruct (Forall_lookup_1 _ _ _ _ Hp Hi) as [Hiod Hd]. destruct (Hsend Hiod Hd (unsent_usable _ _ _ Hinv Htk Hun)) as [Hoth _]. apply Hoth; [done|].
    intros ->. pose proof (inv_unsent s Hinv _ _ Htk Hun (mapped_owned _ _ _ Hb)) as Hb'.
    pose proof (wf_at s i _ Hinv Hi) as (Hs0 & _). pose proof (mapped_at_once s _ _ _ Hinv Hv Hs0 Hb Hb') as Heq.
    specialize (Has _ _ eq_refl Hi (eq_sym Heq)). simpl in Has. rewrite Has in Hk. by rewrite lookup_nil in Hk.
  - injection H as <-. destruct (gc_queue s); [|done]. unfold gc_begin. by destruct (BlockResolver.GetAndResetDiscardedBlocks _) as [[] ?].
  - apply gc_effect in H as (_ & _ & He). apply He; [|done|].
    + intros b' Hb'. apply (inv_usable s Hinv b'); auto.
    + intros Htr. destruct (inv_trash s Hinv b Htr (mapped_owned _ _ _ Hb)) as (tk & Htk & Hm & Hb').
      apply (Hum tk Htk Hm). pose proof (proj1 (Forall_forall _ _) (inv_tasks s Hinv) _ Htk) as (Hs0 & _). symmetry. by eapply mapped_at_once.
  - injection H as <-. simpl in Hal. destruct (decide (ServerBlockInfo.server_id b = id)) as [Hid|Hne].
    + rewrite (Hal b (mapped_owned _ _ _ Hb) Hid Hc). unfold content. cbn [srvs]. simpl. by rewrite Hid, lookup_insert_eq.
    + unfold content. simpl. by rewrite lookup_insert_ne.
Qed.

(** Only task [oi] still writes sector [v]. *)
Definition lone (v : Z) (oi : option nat) (s : sys) : Prop :=
  forall j tk, tasks s !! j = Some tk -> Some j <> oi -> touches v tk -> over tk.

(** An event that starts no other write of [v]. *)
Definition avoids (v : Z) (e : event (C := C) (B := B)) : Prop :=
  match e with ESubmit tk => ~ touches v tk | _ => True end.

Lemma same_request_touches v tk tk' : same_request tk tk' -> touches v tk' -> touches v tk.
Proof. destruct tk, tk'; simpl; try done; [by intros [-> _]|]. unfold alloc_last. by intros ->. Qed.

Lemma proper_step (s s' : sys) e :
  inv s -> Forall proper (tasks s) -> allowed s e -> exec s e = Ok s' -> Forall proper (tasks s').
Proof.
  intros Hinv Hp Hal H. apply Forall_lookup. intros j tk' Hj. destruct (exec_tasks _ _ _ _ _ Hinv H Hj) as [[-> _]|(tk & Htk & Hor)].
  - by apply request_proper.
  - pose proof (Forall_lookup_1 _ _ _ _ Hp Htk). naive_solver.
Qed.

Lemma lone_step v oi (s s' : sys) e :
  inv s -> lone v oi s -> avoids v e -> exec s e = Ok s' -> lone v oi s'.
Proof.
  intros Hinv Hl Hav H j tk' Hj Hne Ht. destruct (exec_tasks _ _ _ _ _ Hinv H Hj) as [[-> _]|(tk & Htk & [->|(_ & Hov & Hsame & _)])].
  - done.
  - by eapply Hl.
  - exfalso. apply Hov. eapply Hl; [done..|]. by eapply same_request_touches.
Qed.

Lemma lone_aside v oi (s : sys) e : lone v oi s -> (forall i, stepping e = Some i -> Some i <> oi) -> aside v s e.
Proof. intros Hl Hne i tk Hi Htk Ht. by eapply Hl; [done|apply Hne|]. Qed.

Lemma lone_unmapping v oi (s : sys) :
  inv s -> Forall proper (tasks s) -> lone v oi s -> (forall i tk, oi = Some i -> tasks s !! i = Some tk -> ~ mapping tk) -> unmapping v s.
Proof.
  intros Hinv Hp Hl Hoi tk Htk Hm Hs. apply list_elem_of_lookup_1 in Htk as [j Hj].
  destruct (decide (Some j = oi)) as [<-|Hne]; [by eapply Hoi|]. specialize (Hl j tk Hj Hne).
  pose proof (wf_at s j _ Hinv Hj) as (_ & _ & Hlast). pose proof (Forall_lookup_1 _ _ _ _ Hp Hj) as Hle.
  destruct tk as [r|w|a]; simpl in *; [done| |].
  - destruct Hm as [blks Hm]. rewrite (Hl Hs) in Hm. set_solver.
  - destruct Hm as [blks Hm]. rewrite Hm in Hlast. destruct Hl as [ret Hret]; [lia|congruence].
Qed.

(** ** What a sector holds *)

Definition settled (v : Z) (d : list Z) (s : sys) : Prop :=
  exists blks, entry_at s v = Some blks /\ BlockResolver.blocks_in blks = map fst blks /\
    Forall (fun b => content s b = Some d) (map fst blks).

Lemma entry_mapped (s : sys) v blks :
  entry_at s v = Some blks -> BlockResolver.blocks_in blks = map fst blks -> mapped_at s v = map fst blks.
Proof. unfold entry_at, BlockResolver.mapped_at. by intros ->. Qed.

Lemma settled_keep v d (s s' : sys) :
  settled v d s -> entry_at s' v = entry_at s v ->
  (forall b, b ∈ mapped_at s v -> content s b <> None -> content s' b = content s b) -> settled v d s'.
Proof.
  intros (blks & He & Hin & Hc) He' Hk. exists blks. split_and!; [by rewrite He'|done|]. rewrite Forall_forall in *. intros b Hb.
  rewrite Hk; [by apply Hc|by rewrite (entry_mapped _ _ _ He Hin)|by rewrite Hc].
Qed.

Lemma settled_aside v d (s s' : sys) e :
  inv s -> Forall proper (tasks s) -> 0 <= v -> allowed s e -> exec s e = Ok s' -> aside v s e -> unmapping v s ->
  settled v d s -> settled v d s'.
Proof. intros. eapply settled_keep; [done|by eapply entry_aside|]. intros. by eapply content_aside. Qed.

(** ** The write *)

Definition thread_ok (d : list Z) (s : sys) (b : block) (th : thread) : Prop :=
  match th with
  | TSend b' => b' = b
  | TReply b' r => b' = b /\ (forall rep pl, accepted r rep pl -> content s b = Some d)
  | TRetry => False
  | TDone => content s b = Some d
  end.

(** An activation that has started a retry. *)
Definition waiting (f : frame) : Prop := match f with FJoin true _ => True | _ => False end.

Definition joining (f : frame) : Prop := match f with FJoin _ _ => True | _ => False end.

(** The blocks these activations have not sent yet are not in use any more. *)
Definition retired (s : sys) (fs : list frame) : Prop := forall b, b ∈ concat (map unsent_frame fs) -> b ∉ owned s.

(** How far a write of [d] to sector [v] is. *)
Inductive progress (v : Z) (d : list Z) (s : sys) (ret : option (Status Z)) : list frame -> Prop :=
| at_end : ret = Some (Value kDeviceAlignment) -> settled v d s -> progress v d s ret []
| at_start f outer : ~ joining f -> Forall waiting outer -> progress v d s ret (f :: outer)
| at_join ths outer blks :
    Forall waiting outer -> retired s outer -> entry_at s v = Some blks -> BlockResolver.blocks_in blks = map fst blks ->
    Forall2 (thread_ok d s) (map fst blks) ths -> progress v d s ret (FJoin false ths :: outer)
| at_retried ths outer :
    Forall waiting outer -> retired s (FJoin true ths :: outer) -> settled v d s -> progress v d s ret (FJoin true ths :: outer).

Lemma thread_ok_keep d (s s' : sys) b th :
  thread_ok d s b th -> (content s b <> None -> content s' b = content s b) -> thread_ok d s' b th.
Proof.
  intros Hth Hb. destruct th as [|b' r| |]; simpl in *; try done; [|by rewrite Hb, Hth; [|rewrite Hth]]. destruct Hth as [-> Hth]. split; [done|].
  intros rep pl Ha. rewrite Hb; [by eapply Hth|]. by rewrite (Hth _ _ Ha).
Qed.

Lemma threads_keep d (s s' : sys) bs ths :
  Forall2 (thread_ok d s) bs ths -> (forall b, b ∈ bs -> content s b <> None -> content s' b = content s b) -> Forall2 (thread_ok d s') bs ths.
Proof.
  induction 1 as [|b th bs ths Hth _ IH]; intros Hc; constructor; [|apply IH; set_solver].
  eapply thread_ok_keep; [done|]. apply Hc. left.
Qed.

Lemma threads_done d (s : sys) bs ths :
  Forall2 (thread_ok d s) bs ths -> forallb finished ths = true -> Forall (fun b => content s b = Some d) bs.
Proof.
  induction 1 as [|b th bs ths Hth _ IH]; intros Hf; [constructor|]. simpl in Hf. apply andb_true_iff in Hf as [Hth' Hf].
  constructor; [by destruct th|auto].
Qed.

Lemma threads_insert d (s s' : sys) bs ths j b0 th :
  NoDup bs -> Forall2 (thread_ok d s) bs ths -> bs !! j = Some b0 ->
  thread_ok d s' b0 th ->
  (forall b, b ∈ bs -> b <> b0 -> content s' b = content s b) ->
  Forall2 (thread_ok d s') bs (<[j := th]> ths).
Proof.
  intros Hn Hall Hj Hth Hc. apply Forall2_same_length_lookup. rewrite length_insert. split; [by eapply Forall2_length|].
  intros k b th' Hb Hth'. destruct (decide (k = j)) as [->|Hne].
  - apply list_lookup_insert_Some in Hth' as [(_ & <- & _)|[? _]]; [|done]. by simplify_eq.
  - rewrite list_lookup_insert_ne in Hth' by done. eapply thread_ok_keep; [by eapply Forall2_lookup_lr|]. intros _. apply Hc; [by eapply list_elem_of_lookup_2|].
    intros ->. apply Hne. by eapply NoDup_lookup.
Qed.

Lemma retired_after (s s' : sys) tk fs fs' :
  inv s -> inv_after s s' -> within (ctrl s') -> tk ∈ tasks s -> retired s fs ->
  (forall b, b ∈ concat (map unsent_frame fs') -> b ∈ concat (map unsent_frame fs) /\ b ∈ unsent tk) -> retired s' fs'.
Proof.
  intros Hinv Hafter Hw Htk Hr Hsub b Hb Ho. destruct (Hafter Hw) as [_ Hown]. destruct (Hsub b Hb) as [Hb1 Hb2]. apply Hown in Ho as [Ho|Hf]; [by eapply Hr|].
  apply (inv_fresh s Hinv) in Hf as (_ & _ & Hf). rewrite Forall_forall in Hf. by apply (Hf tk).
Qed.

Lemma waiting_unmapped outer blks : Forall waiting outer -> FMap blks ∉ outer.
Proof. intros Hw Hin. rewrite Forall_forall in Hw. by apply Hw in Hin. Qed.

(** A step of another request. *)
Lemma progress_aside v d i w (s s' : sys) e :
  inv s -> Forall proper (tasks s) -> within (ctrl s') -> 0 <= v -> allowed s e -> exec s e = Ok s' -> aside v s e ->
  lone v (Some i) s -> tasks s !! i = Some (TWrite w) ->
  progress v d s (w_ret w) (frames w) -> progress v d s' (w_ret w) (frames w).
Proof.
  intros Hinv Hp Hw Hv Hal H Has Hl Hi Hpr. pose proof (inv_exec _ _ _ _ Hinv Hal H) as Hafter.
  pose proof (list_elem_of_lookup_2 _ _ _ Hi) as Htk.
  assert ((forall blks, FMap blks ∉ frames w) -> unmapping v s) as Hum.
  { intros Hno. apply (lone_unmapping v (Some i)); [done..|]. intros i' tk [= <-] Hi'. rewrite Hi in Hi'. injection Hi' as <-. intros [blks Hb]. by apply (Hno blks). }
  assert (unsent (TWrite w) = concat (map unsent_frame (frames w))) as Hun by done.
  revert Hpr Hum Hun. generalize (frames w). intros fs Hpr Hum Hun.
  destruct Hpr as [Hret Hs|f outer Hf Ho|ths outer blks Ho Hr He Hin Hth|ths outer Ho Hr Hs].
  - constructor; [done|]. eapply settled_aside; [done..| |done]. apply Hum. intros blks. apply not_elem_of_nil.
  - by constructor.
  - assert (unmapping v s) as Hum' by (apply Hum; intros bl [?|Hb]%elem_of_cons; [done|by eapply waiting_unmapped]).
    pose proof (entry_mapped _ _ _ He Hin) as Hat. econstructor; [done| |by rewrite (entry_aside _ _ _ _ Hinv Hp Hv H Has)|done|].
    + eapply retired_after; [done..|]. intros b Hb. rewrite Hun. simpl. rewrite elem_of_app. auto.
    + eapply threads_keep; [done|]. intros b Hb Hc. eapply content_aside; try done. by rewrite Hat.
  - constructor; [done| |].
    + eapply retired_after; [done..|]. intros b Hb. by rewrite Hun.
    + eapply settled_aside; [done..| |done]. apply Hum. intros bl [?|Hb]%elem_of_cons; [done|by eapply waiting_unmapped].
Qed.

Lemma progress_leave v d (s : sys) n rest w :
  n = kDeviceAlignment ->
  Forall waiting rest -> retired s rest -> settled v d s ->
  progress v d s (w_ret (leave (Value n) rest w)) (frames (leave (Value n) rest w)).
Proof.
  intros -> Hw Hr Hs. destruct rest as [|f outer]; simpl; [by constructor|]. apply Forall_cons in Hw as [Hf Hw].
  destruct f as [| | |[] ths]; try done. simpl. constructor; [done| |done].
  unfold retired in *. simpl in *. by rewrite unsent_resume.
Qed.

Lemma GetBlocks_value cpus iod dirty (dk dk' : VirtualDiskRemote.t (P := P)) c r c' :
  GetBlocks fuel cpus iod dirty dk c = Ok (r, dk', c') -> exists blks, r = Value blks.
Proof.
  unfold GetBlocks, GetBlocksWithAffinity, DPScheduler.Scheduler_SelectWriteReplicas. intros H. destruct (negb _).
  { apply bind_Ok in H as ([[blks d1] c1] & _ & [= <- _ _]). eauto. }
  apply bind_Ok in H as ([r1 sc] & Hsel & H). apply bind_Ok in Hsel as (ws & Hws & Hsel). unfold DPServerStatsManager.GetWriteWeights in Hws.
  apply bind_Ok in Hws as (all & _ & Hws). apply bind_Ok in Hws as ([n filtered] & _ & [= <-]).
  apply bind_Ok in Hsel as ([r2 p2] & Hsel & [= <- <-]). apply write_sound in Hsel as (a & b & -> & _).
  apply bind_Ok in H as ([[blks d1] c1] & _ & [= <- _ _]). eauto.
Qed.

Lemma written_size w : proper (TWrite w) -> i32 (Z.shiftl (i32 (IODesc.num_sectors (w_iod w))) kSectorShift) = kDeviceAlignment.
Proof. intros [(_ & -> & _) _]. reflexivity. Qed.

(** The threads of an attempt start when its blocks are mapped. *)
Lemma progress_store v d i w blks outer o (s s' : sys) ret :
  inv s -> tasks s !! i = Some (TWrite w) -> IODesc.start_sector (w_iod w) = v -> frames w = FMap blks :: outer ->
  write_step fuel o i w s = Ok s' -> Forall waiting outer ->
  progress v d s' ret (FJoin false (map (fun srv => TSend (fst srv)) blks) :: outer).
Proof.
  intros Hinv Hi Hv Hf H Hw. unfold write_step in H. rewrite Hf in H. injection H as <-.
  pose proof (list_elem_of_lookup_2 _ _ _ Hi) as Htk. assert (mapping (TWrite w)) as Hm by (exists blks; rewrite Hf; left).
  pose proof (wf_at s i _ Hinv Hi) as (Hs0 & Hlt & _). specialize (Hlt Hm). simpl in Hs0, Hlt. rewrite (inv_map s Hinv) in Hlt.
  set (tk' := TWrite _). destruct (store_owned s i (TWrite w) tk' blks (srvs s) Hinv Hi Hm) as (Hown & Hat & _ & Hin); [by simpl; rewrite Hf|].
  apply (at_join _ _ _ _ _ _ blks); [done| | | |].
  - intros b Hb Ho. pose proof (inv_nodup s Hinv) as Hnd. rewrite <- Hown in Hnd. apply NoDup_app in Hnd as (_ & Hd & _). apply (Hd b Ho).
    apply (inv_unsent s Hinv (TWrite w)); [done|simpl; rewrite Hf; done|]. rewrite <- Hown, elem_of_app. by left.
  - unfold entry_at. simpl. rewrite <- Hv. apply list_lookup_insert_eq. lia.
  - apply blocks_in_valid, Forall_forall. intros b Hb%Hin. revert b Hb. apply Forall_forall, Hinv.
  - clear. induction blks as [|[b x] blks IH]; simpl; constructor; [done|apply IH].
Qed.

Lemma progress_write v d i w o (s s' : sys) w' :
  inv s -> within (ctrl s') -> tasks s !! i = Some (TWrite w) -> IODesc.start_sector (w_iod w) = v -> write_step fuel o i w s = Ok s' ->
  tasks s' !! i = Some (TWrite w') -> proper (TWrite w) ->
  progress v d s (w_ret w) (frames w) -> progress v d s' (w_ret w') (frames w').
Proof.
  intros Hinv Hw Hi Hv H Hi' Hp Hpr. pose proof (inv_write _ _ _ _ _ _ Hinv Hi H) as Hafter. pose proof (list_elem_of_lookup_2 _ _ _ Hi) as Htk.
  assert (forall w0, <[i := TWrite w0]> (tasks s) !! i = Some (TWrite w') -> w' = w0) as Hins.
  { intros w0. rewrite list_lookup_insert_eq by (by eapply lookup_lt_Some). by intros [= <-]. }
  assert (forall f outer b, f :: outer = frames w -> b ∈ concat (map unsent_frame outer) -> b ∈ unsent (TWrite w)) as Hun.
  { intros f outer b Hf Hb. simpl. rewrite <- Hf. simpl. rewrite elem_of_app. by right. }
  inversion Hpr as [Hret Hs Hf|f outer Hnj Ho Hf|ths outer blks Ho Hr He Hin Hth Hf|ths outer Ho Hr Hs Hf].
  - unfold write_step in H. rewrite <- Hf in H. injection H as <-. rewrite Hi in Hi'. injection Hi' as <-. exact Hpr.
  - destruct f as [|blks|blks|]; [| | |by destruct Hnj].
    + unfold write_step in H. rewrite <- Hf in H. apply bind_Ok in H as ([[r d'] c'] & Hget & [= <-]). apply Hins in Hi' as ->.
      apply GetBlocks_value in Hget as [blks ->]. by constructor.
    + unfold write_step in H. rewrite <- Hf in H. apply bind_Ok in H as (b & _ & [= <-]). apply Hins in Hi' as ->. by constructor.
    + pose proof (progress_store v d i w blks outer o s s' (w_ret w) Hinv Hi Hv (eq_sym Hf) H Ho) as Hst.
      unfold write_step in H. rewrite <- Hf in H. injection H as <-. by apply Hins in Hi' as ->.
  - unfold write_step in H. rewrite <- Hf in H. injection H as <-. destruct (forallb finished ths) eqn:Hd.
    + apply Hins in Hi' as ->. apply progress_leave; [by apply written_size|done|eapply (retired_after s _ _ outer); [done..|intros b Hb; split; [done|by eapply Hun]]|]. exists blks. split_and!; [done..|]. by eapply threads_done.
    + rewrite Hi in Hi'. injection Hi' as <-. exact Hpr.
  - unfold write_step in H. rewrite <- Hf in H. injection H as <-. destruct (forallb finished ths).
    + apply Hins in Hi' as ->. apply progress_leave; [by apply written_size|done|eapply (retired_after s _ _ _ outer); [done..|]|done]. intros b Hb.
      split; [simpl; rewrite elem_of_app; by right|by eapply Hun].
    + rewrite Hi in Hi'. injection Hi' as <-. exact Hpr.
Qed.

Lemma moves_waiting (s s' : sys) w k j ths fr :
  thread_moves s s' w k j true ths fr ->
  exists th, unsent_thread th = None /\ fr = <[k := FJoin true (<[j := th]> ths)]> (frames w).
Proof. intros [b r _ _|b r _ _ _|b r _ _ ?]; [by eexists (TReply b r)|by exists TDone|done]. Qed.

(** Only the block a thread sends changes. *)
Lemma moves_content (s s' : sys) w k j flag ths fr v b :
  inv s -> proper (TWrite w) -> TWrite w ∈ tasks s -> frames w !! k = Some (FJoin flag ths) ->
  thread_moves s s' w k j flag ths fr -> b ∈ mapped_at s v -> (forall b0, ths !! j = Some (TSend b0) -> b <> b0) -> content s' b = content s b.
Proof.
  intros Hinv [Hiod Hd] Htk Hk Hmv Hb Hne. destruct Hmv as [b0 r Hj Hsend|b0 r Hj Hs|b0 r Hj Hs]; [|by rewrite !content_stored, Hs..].
  destruct (Hsend Hiod Hd) as [Hoth _]; [eapply unsent_usable; [done..|]; by eapply unsent_at|]. apply Hoth; [by eapply mapped_usable|by apply Hne].
Qed.

Lemma waiting_flag outer k flag ths : Forall waiting outer -> outer !! k = Some (FJoin flag ths) -> flag = true.
Proof. intros Hw Hk. apply (Forall_lookup_1 _ _ _ _ Hw) in Hk. by destruct flag. Qed.

(** A thread of an activation that has started a retry. *)
Lemma progress_waiting v i w k j (s s' : sys) ths fr :
  inv s -> within (ctrl s') -> proper (TWrite w) -> tasks s !! i = Some (TWrite w) -> inv_after s s' -> entry_at s' v = entry_at s v ->
  frames w !! k = Some (FJoin true ths) -> thread_moves s s' w k j true ths fr ->
  progress v (w_data w) s (w_ret w) (frames w) -> progress v (w_data w) s' (w_ret w) fr.
Proof.
  intros Hinv Hw Hp Hi Hafter He' Hk Hmv Hpr. pose proof (list_elem_of_lookup_2 _ _ _ Hi) as Htk.
  destruct (moves_waiting _ _ _ _ _ _ _ Hmv) as (th & Hth & ->).
  assert (forall fs, retired s fs -> FJoin true ths ∈ fs -> forall b, b ∈ mapped_at s v -> content s' b = content s b) as Hkeep.
  { intros fs Hr Hin b Hb. eapply moves_content; [done..|]. intros b0 Hj ->. apply (Hr b0); [|by eapply mapped_owned].
    apply elem_of_concat_map. eexists. split; [done|]. apply list_elem_of_omap. eexists. split; [by eapply list_elem_of_lookup_2|done]. }
  assert (forall fs k', fs !! k' = Some (FJoin true ths) -> fs ⊆ frames w -> retired s fs -> retired s' (<[k' := FJoin true (<[j := th]> ths)]> fs)) as Hret.
  { intros fs k' Hk' Hsub Hr. eapply (retired_after s s' (TWrite w) fs); [done..|]. intros b Hb.
    destruct (frames_insert fs k' true ths true (<[j := th]> ths) Hk' (unsent_insert ths j th Hth)) as (_ & Hu & _). apply Hu in Hb. split; [done|].
    apply elem_of_concat_map in Hb as (f & Hf & Hb). simpl. apply elem_of_concat_map. exists f. split; [by apply Hsub|done]. }
  inversion Hpr as [Hr Hs Hf|f outer Hnj Ho Hf|ths0 outer blks Ho Hr He Hin Hall Hf|ths0 outer Ho Hr Hs Hf]; rewrite <- Hf in Hk, Hret.
  - done.
  - destruct k as [|k]; simpl in Hk; [injection Hk as ->; by destruct Hnj|]. constructor; [done|]. by apply Forall_insert.
  - destruct k as [|k]; simpl in Hk; [done|]. econstructor; [by apply Forall_insert| |by rewrite He'|done|].
    + apply Hret; [done| |done]. intros x Hx. by right.
    + eapply threads_keep; [done|]. intros b Hb _. apply (Hkeep outer); [done|by eapply list_elem_of_lookup_2|by rewrite (entry_mapped _ _ _ He Hin)].
  - assert (settled v (w_data w) s') as Hs'.
    { eapply settled_keep; [done..|]. intros b Hb _. apply (Hkeep (FJoin true ths0 :: outer)); [done|by eapply list_elem_of_lookup_2|done]. }
    specialize (Hret _ _ Hk (fun _ H => H) Hr). destruct k as [|k]; simpl in *; apply at_retried; try done. by apply Forall_insert.
Qed.

Lemma progress_thread v i w o k j (s s' : sys) w' :
  inv s -> within (ctrl s') -> proper (TWrite w) -> tasks s !! i = Some (TWrite w) -> thread_step o i k j w s = Ok s' ->
  tasks s' !! i = Some (TWrite w') ->
  progress v (w_data w) s (w_ret w) (frames w) -> progress v (w_data w) s' (w_ret w') (frames w').
Proof.
  intros Hinv Hw Hp Hi H Hi' Hpr. pose proof (inv_thread _ _ _ _ _ _ _ Hinv Hi H) as Hafter. pose proof (list_elem_of_lookup_2 _ _ _ Hi) as Htk.
  apply thread_cases in H as [->|(flag & ths & fr & Hk & Hkeep & _ & Ht & Hmv)]; [rewrite Hi in Hi'; injection Hi' as <-; exact Hpr|].
  rewrite Ht, list_lookup_insert_eq in Hi' by (by eapply lookup_lt_Some). injection Hi' as <-. cbn [w_ret frames].
  pose proof (keeps_entry s s' v Hkeep) as He'. destruct flag; [by eapply progress_waiting|]. change (progress v (w_data w) s' (w_ret w) fr).
  inversion Hpr as [Hr Hs Hf|f outer Hnj Ho Hf|ths0 outer blks Ho Hr He Hin Hall Hf|ths0 outer Ho Hr Hs Hf]; rewrite <- Hf in Hk.
  - done.
  - destruct k as [|k]; simpl in Hk; [injection Hk as ->; by destruct Hnj|]. by eapply waiting_flag in Hk.
  - destruct k as [|k]; simpl in Hk; [injection Hk as ->|by eapply waiting_flag in Hk].
    pose proof (entry_mapped _ _ _ He Hin) as Hat. assert (frames w !! 0%nat = Some (FJoin false ths)) as Hk by by rewrite <- Hf.
    assert (NoDup (map fst blks)) as Hnd by (rewrite <- Hat; by apply mapped_at_NoDup).
    assert (retired s' outer) as Hr'.
    { eapply retired_after; [done..|]. intros b Hb. split; [done|]. simpl. rewrite <- Hf. simpl. rewrite elem_of_app. by right. }
    destruct Hmv as [b0 r Hj Hsend|b0 r Hj Hs Hacc|b0 r Hj Hs _]; rewrite <- Hf; simpl.
    + destruct (Forall2_lookup_r _ _ _ _ _ Hall Hj) as (b & Hb & <-). econstructor; [done..|by rewrite He'|done|]. eapply threads_insert; [done..| |].
      * split; [done|]. destruct Hp as [Hiod Hd]. destruct (Hsend Hiod Hd) as [_ Hacc]; [|done]. eapply unsent_usable; [done..|]. by eapply unsent_at.
      * intros b' Hb' Hne. eapply (moves_content s s' w 0 j); [done..|by eapply moves_send|by rewrite Hat|]. intros b1 Hj1. congruence.
    + destruct (Forall2_lookup_r _ _ _ _ _ Hall Hj) as (b & Hb & <- & Hok). econstructor; [done..|by rewrite He'|done|]. eapply threads_insert; [done..| |].
      * simpl. rewrite content_stored, Hs, <- content_stored. destruct (Hacc eq_refl) as (rep & pl & Ha). by eapply Hok.
      * intros b' _ _. by rewrite !content_stored, Hs.
    + apply at_start; [by intros ?|by constructor].
  - destruct k as [|k]; simpl in Hk; [done|by eapply waiting_flag in Hk].
Qed.

(** *** A run of the write *)

Lemma advances_length i tk (s s' : sys) : advances i tk s s' -> length (tasks s') = length (tasks s).
Proof. intros [->|(tk' & -> & _)]; [done|]. apply length_insert. Qed.

Lemma tasks_grow (s s' : sys) e j tk : inv s -> exec s e = Ok s' -> tasks s !! j = Some tk -> exists tk', tasks s' !! j = Some tk'.
Proof.
  intros Hinv H Hj. apply lookup_lt_is_Some. apply lookup_lt_Some in Hj. enough (length (tasks s) <= length (tasks s'))%nat by lia.
  destruct e as [tk'|i o|i k j' o|reply|ticks| |j' junk o|id srv|c]; simpl in H; try (simplify_outcome; simpl; lia).
  - injection H as <-. simpl. rewrite length_app. lia.
  - destruct (tasks s !! i) as [[r|w|a]|] eqn:Hi; [| | |simplify_outcome; lia].
    + apply read_effect in H as (Ha%advances_length & _). lia.
    + apply write_effect in H as (Ha%advances_length & _); [lia|done..].
    + apply alloc_effect in H as (Ha%advances_length & _); [lia|done..].
  - destruct (tasks s !! i) as [[r|w|a]|] eqn:Hi; try (simplify_outcome; lia).
    apply thread_cases in H as [->|(flag & ths & fr & _ & _ & _ & -> & _)]; [done|]. by rewrite length_insert.
  - injection H as <-. destruct (gc_queue s); [|done]. unfold gc_begin. by destruct (BlockResolver.GetAndResetDiscardedBlocks _) as [[] ?].
  - apply gc_effect in H as (-> & _). done.
Qed.

Definition writing (v : Z) (d : list Z) (i : nat) (s : sys) : Prop :=
  inv s /\ Forall proper (tasks s) /\ lone v (Some i) s /\
  exists w, tasks s !! i = Some (TWrite w) /\ IODesc.start_sector (w_iod w) = v /\ w_data w = d /\
    progress v d s (w_ret w) (frames w).

Lemma writing_step v d i (s s' : sys) e :
  0 <= v -> writing v d i s -> allowed s e -> avoids v e -> exec s e = Ok s' -> within (ctrl s') -> writing v d i s'.
Proof.
  intros Hv (Hinv & Hp & Hl & w & Hi & Hsec & Hd & Hpr) Hal Hav H Hw'.
  destruct (inv_exec _ _ _ _ Hinv Hal H Hw') as [Hinv' _].
  split_and!; [done|by apply (proper_step s s' e)|by apply (lone_step v _ s s' e)|].
  destruct (tasks_grow _ _ _ _ _ Hinv H Hi) as [tk' Hi'].
  destruct (exec_tasks _ _ _ _ _ Hinv H Hi') as [[_ ->]|(tk & Htk & Hor)].
  { apply lookup_lt_Some in Hi. lia. }
  rewrite Hi in Htk. injection Htk as <-. destruct (decide (stepping e = Some i)) as [He|He].
  2:{ destruct Hor as [->|[? _]]; [|done]. exists w. split_and!; [done..|]. apply (progress_aside v d i w s s' e); try done.
      eapply lone_aside; [done|]. intros j Hj [= ->]. done. }
  assert (exists w', tk' = TWrite w' /\ w_iod w' = w_iod w /\ w_data w' = w_data w ) as (w' & -> & Hiod & Hdata).
  { destruct Hor as [->|(_ & _ & Hsame & _)]; [by exists w|]. destruct tk' as [|w'|]; try done. exists w'. by destruct Hsame. }
  exists w'. split_and!; [done|congruence|congruence|].
  destruct e as [|i' o|i' k j o| | | | | |]; simplify_eq/=; rewrite Hi in H.
  - apply (progress_write _ _ i w o s s'); try done. by apply (Forall_lookup_1 _ _ _ _ Hp) in Hi.
  - apply (progress_thread _ i w o k j s s'); try done. by apply (Forall_lookup_1 _ _ _ _ Hp) in Hi.
Qed.

Lemma run_writing v d i (s s' : sys) es :
  0 <= v -> run fuel s es s' -> Forall (avoids v) es -> writing v d i s -> writing v d i s'.
Proof.
  intros Hv. induction 1 as [s|s e s1 es s2 Hal He Hw Hr IH]; intros Hav Hwr; [done|]. apply Forall_cons in Hav as [Hav Havs].
  apply IH; [done|]. eapply writing_step; eauto.
Qed.

(** ** The read *)

Definition read_ok (v : Z) (d : list Z) (s : sys) (r : read_task) : Prop :=
  match r_pc r with
  | RResolve => True
  | RSelect servers _ | RSend servers _ _ => entry_at s v = Some servers
  | RReply servers _ _ reply => entry_at s v = Some servers /\
      forall rep pl, reply = Some (MStorageOpReply rep pl) ->
        pl = d /\ StorageOpReplyMsg.res rep = kDeviceAlignment /\
        IODesc.get_op (StorageOpReplyMsg.iod rep) = OpType.kRead /\ IODesc.num_sectors (StorageOpReplyMsg.iod rep) = 1 /\
        IODesc.addr (StorageOpReplyMsg.iod rep) <> 0
  | RDone ret => ret = Value kDeviceAlignment /\ r_buf r = d
  end.

Lemma resolve_entry (s : sys) v blks r :
  entry_at s v = Some blks -> BlockResolver.blocks_in blks = map fst blks ->
  BlockResolver.ResolveBlock v (blk_res_ (disk s)) = Ok r -> r = Value blks.
Proof.
  unfold entry_at, BlockResolver.ResolveBlock, BlockResolver.entry. intros -> Hin H.
  apply bind_Ok in H as (? & _ & H). simpl in H. destruct blks as [|[b dirty] blks]; [done|]. simpl in *. destruct (_ =? _); [done|]. by injection H as <-.
Qed.

Lemma block_on_Ok id servers b : block_on id servers = Ok b -> ServerBlockInfo.mk id (addr_of b) ∈ map fst servers.
Proof.
  unfold block_on. intros H%deref_Ok. destruct (List.find _ _) as [[b' x]|] eqn:Hf; simplify_eq/=.
  apply find_some in Hf as [Hin Hid%Z.eqb_eq]. simpl in *. apply list_elem_of_In, in_map_iff. exists (b, x). split; [|done].
  destruct b. simpl in *. by subst.
Qed.

Lemma read_payload_all iod d cp :
  IODesc.num_sectors iod = 1 -> IODesc.addr iod <> 0 -> Z.of_nat (length d) = kDeviceAlignment -> read_payload iod d = Ok cp -> cp = Some d.
Proof.
  unfold read_payload. intros -> Ha Hd H. apply Z.eqb_neq in Ha. rewrite Ha in H. change (0 <? u32 (Z.shiftl 1 kSectorShift)) with true in H. simpl in H.
  simplify_outcome. by rewrite payload_all.
Qed.

Lemma read_own v d k r o (s s' : sys) r' :
  inv s -> settled v d s -> Z.of_nat (length d) = kDeviceAlignment ->
  proper (TRead r) -> IODesc.start_sector (r_iod r) = v -> tasks s !! k = Some (TRead r) -> read_step o k r s = Ok s' ->
  tasks s' !! k = Some (TRead r') -> read_ok v d s r -> read_ok v d s' r'.
Proof.
  intros Hinv (blks & He & Hin & Hc) Hd [Hiod Haddr] Hsec Hk H Hk' Hok.
  pose proof H as (_ & Hkeep & _)%read_effect. pose proof (keeps_entry s s' v Hkeep) as He'. unfold read_ok in *. rewrite He'. clear He' Hkeep.
  assert (forall r0, <[k := TRead r0]> (tasks s) !! k = Some (TRead r') -> r' = r0) as Hins.
  { intros r0. rewrite list_lookup_insert_eq by (by eapply lookup_lt_Some). by intros [= <-]. }
  unfold read_step in H. destruct (r_pc r) as [|servers ids|servers ids id|servers ids id reply|ret] eqn:Hpc.
  - apply bind_Ok in H as (res & Hres & [= <-]). apply Hins in Hk' as ->. rewrite Hsec in Hres.
    by rewrite (resolve_entry _ _ _ _ He Hin Hres).
  - destruct ids as [|id ids]; [injection H as <-; by apply Hins in Hk' as ->|]. apply bind_Ok in H as ([[id'|e] sc] & _ & [= <-]); by apply Hins in Hk' as ->.
  - apply bind_Ok in H as (b & Hb & H). apply bind_Ok in H as ([reply s1] & Hsend & [= <-]).
    pose proof (send_state _ _ _ _ _ _ _ Hsend) as [_ Ht]. unfold set_task in Hk'. simpl in Hk'. rewrite Ht in Hk'. apply Hins in Hk' as ->.
    split; [done|]. intros rep pl ->. rewrite He in Hok. injection Hok as <-. apply block_on_Ok in Hb. rewrite Forall_forall in Hc.
    destruct (send_read _ _ _ _ _ _ _ Hiod Hsend) as [_ Hrd]. destruct (Hrd rep pl) as (Hpl & Hres & Hi); [|done|].
    { apply (mapped_usable s v (ServerBlockInfo.mk id (addr_of b))); [done..|]. by rewrite (entry_mapped _ _ _ He Hin). }
    rewrite (Hc _ Hb) in Hpl. injection Hpl as <-. destruct Hiod as (Hop & Hn & _). rewrite Hi. by split_and!.
  - destruct Hok as [Hserv Hrep]. apply bind_Ok in H as ([[res cp] d1] & Hr & H). destruct res as [n|e].
    + injection H as <-. apply Hins in Hk' as ->. apply reply_value in Hr as (rep & pl & [-> _] & -> & Hrp). destruct (Hrep _ _ eq_refl) as (-> & Hres & Hop & Hn & Ha).
      apply (read_payload_all _ d cp Hn Ha Hd) in Hrp as ->; [|done]. simpl. by rewrite Hres.
    + apply bind_Ok in H as (d2 & _ & [= <-]). by apply Hins in Hk' as ->.
  - injection H as <-. rewrite Hk in Hk'. injection Hk' as <-. by rewrite Hpc.
Qed.

Definition reading (v : Z) (d : list Z) (k : nat) (s : sys) : Prop :=
  inv s /\ Forall proper (tasks s) /\ lone v None s /\ settled v d s /\
  exists r, tasks s !! k = Some (TRead r) /\ IODesc.start_sector (r_iod r) = v /\ read_ok v d s r.

Lemma reading_step v d k (s s' : sys) e :
  0 <= v -> Z.of_nat (length d) = kDeviceAlignment ->
  reading v d k s -> allowed s e -> avoids v e -> exec s e = Ok s' -> within (ctrl s') -> reading v d k s'.
Proof.
  intros Hv Hd (Hinv & Hp & Hl & Hs & r & Hk & Hsec & Hok) Hal Hav H Hw'.
  destruct (inv_exec _ _ _ _ Hinv Hal H Hw') as [Hinv' _].
  assert (aside v s e) as Has by (by eapply lone_aside). assert (unmapping v s) as Hum by (by eapply lone_unmapping).
  split_and!; [done|by apply (proper_step s s' e)|by apply (lone_step v _ s s' e)|by apply (settled_aside v d s s' e)|].
  destruct (tasks_grow _ _ _ _ _ Hinv H Hk) as [tk' Hk'].
  destruct (exec_tasks _ _ _ _ _ Hinv H Hk') as [[_ ->]|(tk & Htk & Hor)].
  { apply lookup_lt_Some in Hk. lia. }
  rewrite Hk in Htk. injection Htk as <-. pose proof (entry_aside _ _ _ _ Hinv Hp Hv H Has) as He. destruct Hor as [->|(Hst & _ & Hsame & _)].
  - exists r. split_and!; [done..|]. unfold read_ok in *. by rewrite He.
  - destruct tk' as [r'| |]; try done. exists r'. simpl in Hsame. split_and!; [done|congruence|].
    destruct e as [|i' o|i' k' j o| | | | | |]; simplify_eq/=; rewrite Hk in H.
    + apply (read_own _ d k r o s s'); try done. by apply (Forall_lookup_1 _ _ _ _ Hp) in Hk.
    + injection H as <-. rewrite Hk in Hk'. by injection Hk' as <-.
Qed.

Lemma run_reading v d k (s s' : sys) es :
  0 <= v -> Z.of_nat (length d) = kDeviceAlignment -> run fuel s es s' -> Forall (avoids v) es ->
  reading v d k s -> reading v d k s'.
Proof.
  intros Hv Hd. induction 1 as [s|s e s1 es s2 Hal He Hw Hr IH]; intros Hav Hrd; [done|]. apply Forall_cons in Hav as [Hav Havs].
  apply IH; [done|]. eapply reading_step; eauto.
Qed.

(** ** Both *)

Lemma run_proper (s s' : sys) es : run fuel s es s' -> inv s -> Forall proper (tasks s) -> Forall proper (tasks s').
Proof.
  induction 1 as [s|s e s1 es s2 Hal He Hw Hr IH]; intros Hinv Hp; [done|].
  apply IH; [by apply (inv_exec _ _ _ _ Hinv Hal He)|by apply (proper_step s s1 e)].
Qed.

(** A request that has just been submitted. *)
Lemma submitted (s s1 : sys) tk :
  inv s -> Forall proper (tasks s) -> allowed s (ESubmit tk) -> exec s (ESubmit tk) = Ok s1 -> within (ctrl s1) ->
  inv s1 /\ Forall proper (tasks s1) /\ tasks s1 !! length (tasks s) = Some tk /\
  (forall v oi, lone v oi s -> Some (length (tasks s)) = oi \/ ~ touches v tk -> lone v oi s1) /\
  (forall v, entry_at s1 v = entry_at s v) /\ (forall b, content s1 b = content s b).
Proof.
  intros Hinv Hp Hal H Hw. destruct (inv_exec _ _ _ _ Hinv Hal H Hw) as [Hinv1 _].
  pose proof (proper_step _ _ _ Hinv Hp Hal H) as Hp1. simpl in H. injection H as <-. split_and!; try done.
  - simpl. rewrite lookup_app_r by lia. by rewrite Nat.sub_diag.
  - intros v oi Hl Hor j tk' Hj Hne Ht. simpl in Hj. apply lookup_app_Some in Hj as [Hj|[Hlen Hj]]; [by eapply Hl|].
    apply list_lookup_singleton_Some in Hj as [Hj <-]. destruct Hor as [Hor|]; [|done]. exfalso. apply Hne. rewrite <- Hor. f_equal. lia.
Qed.

(** C1: A read that starts after a write of its sector has completed, and that
    completes itself, has returned the data written and the size of a block, and
    the write had succeeded - whatever else the disk does,
    in any interleaving of the threads: writes and allocations of other
    sectors, reads, garbage collection, statistics, retries, rejections and
    lost messages - as long as no other request writes that sector meanwhile. *)
Theorem read_your_writes policy junk cal kc mc n aff reply c d c0 sv es0 (s0 : sys) iod data es1 (s1 : sys) w iod' buf es2 (s2 : sys) r ret :
  0 <= n -> good c -> (forall m, reply = Some m -> Forall (fun i => registered c (ServerInfo.id i)) (RegisterVolumeReplyMsg.servers m)) ->
  create fuel policy junk cal kc mc n aff reply c = Ok (d, c0) -> within c0 ->
  run fuel (Sys d c0 sv [] []) es0 s0 ->
  (forall tk, tk ∈ tasks s0 -> touches (IODesc.start_sector iod) tk -> over tk) ->
  run fuel s0 (ESubmit (new_write iod data) :: es1) s1 -> Forall (avoids (IODesc.start_sector iod)) es1 ->
  tasks s1 !! length (tasks s0) = Some (TWrite w) -> frames w = [] ->
  IODesc.start_sector iod' = IODesc.start_sector iod ->
  run fuel s1 (ESubmit (new_read iod' buf) :: es2) s2 -> Forall (avoids (IODesc.start_sector iod)) es2 ->
  tasks s2 !! length (tasks s1) = Some (TRead r) -> r_pc r = RDone ret ->
  w_ret w = Some (Value kDeviceAlignment) /\ ret = Value kDeviceAlignment /\ r_buf r = data.
Proof.
  intros Hn Hgood Hids Hcr Hw0 Hrun0 Hbefore Hrun1 Hav1 Hi Hf Hsec Hrun2 Hav2 Hk Hpc.
  pose proof (create_inv _ _ _ _ _ _ _ _ _ _ _ _ sv Hn Hgood Hids Hcr Hw0) as Hinv. set (v := IODesc.start_sector iod) in *.
  pose proof (run_inv _ _ _ _ Hrun0 Hinv) as Hinv0. pose proof (run_proper _ _ _ Hrun0 Hinv (List.Forall_nil _)) as Hp0.
  inversion Hrun1 as [|? ? t1 ? ? Hal1 He1 Hw1 Hr1]; subst. pose proof Hal1 as (_ & (_ & _ & Hv) & Hlen). cbn [w_iod] in Hv. fold v in Hv. cbn [w_data] in Hlen.
  destruct (submitted _ _ _ Hinv0 Hp0 Hal1 He1 Hw1) as (Hi1 & Hp1 & Ht1 & Hl1 & _).
  assert (writing v data (length (tasks s0)) s1) as (Hinvw & Hpw & Hlw & w' & Hi' & _ & _ & Hpr).
  { apply (run_writing _ _ _ t1 _ es1); [done..|]. split_and!; [done..| |].
    - apply Hl1; [|by left]. intros j tk Hj _. apply Hbefore. by eapply list_elem_of_lookup_2.
    - eexists. split_and!; [done..|]. apply at_start; [by intros ?|constructor]. }
  rewrite Hi in Hi'. injection Hi' as <-. rewrite Hf in Hpr. inversion Hpr as [Hret Hset| | |].
  inversion Hrun2 as [|? ? t2 ? ? Hal2 He2 Hw2 Hr2]; subst.
  destruct (submitted _ _ _ Hinvw Hpw Hal2 He2 Hw2) as (Hi2 & Hp2 & Ht2 & Hl2 & Hen2 & Hc2).
  assert (reading v data (length (tasks s1)) s2) as (_ & _ & _ & _ & r' & Hk' & _ & Hok).
  { apply (run_reading _ _ _ t2 _ es2); [done..|]. split_and!; [done..| | |].
    - apply Hl2; [|right; by intros ?]. intros j tk Hj _ Ht. destruct (decide (j = length (tasks s0))) as [->|Hne]; [|eapply Hlw; [done|congruence|done]].
      rewrite Hi in Hj. by injection Hj as <-.
    - eapply settled_keep; [done..|]. intros b _ _. by apply Hc2.
    - eexists. by split_and!. }
  rewrite Hk in Hk'. injection Hk' as <-. unfold read_ok in Hok. rewrite Hpc in Hok. destruct Hok. by split_and!.
Qed.
End ReadYourWrites.

(** ** An instance

    A controller that counts: every request gets the next [kAllocationBatch]
    addresses. *)
Import Selection.

Record counting := Counting { next_free : Z }.

#[local] Instance counting_rpc : ControllerRPC counting := {|
  allocate_rpc vol id c :=
    (Some (map (ServerBlockInfo.mk id) (zrange (next_free c) (Z.to_nat kAllocationBatch))), Counting (next_free c + kAllocationBatch));
|}.

Lemma batch_elem a b : b ∈ zrange a (Z.to_nat kAllocationBatch) <-> a <= b < a + kAllocationBatch.
Proof. unfold zrange. rewrite elem_of_seqZ. unfold kAllocationBatch. lia. Qed.

Lemma batch_pos : 0 < kAllocationBatch.
Proof. done. Qed.

#[local] Opaque kAllocationBatch.
#[local] Instance counting_laws : ControllerLaws counting.
Proof.
  pose proof batch_pos as Hk.
  refine {| good c := 0 <= next_free c; within c := next_free c <= 2 ^ 51; registered _ id := id <> kInvalidServerID;
            fresh c b := next_free c <= ServerBlockInfo.block_addr b |}.
  - auto.
  - intros _ id c reply c' [= _ <-]. cbn [next_free]. lia.
  - auto.
  - intros _ id c reply c' [= <- <-] Hc Hid Hw. cbn [next_free default] in *. split_and!.
    + lia.
    + apply NoDup_fmap_2; [by intros ? ? [=]|]. apply NoDup_seqZ.
    + intros b (a & -> & Ha%batch_elem)%list_elem_of_fmap. cbn [ServerBlockInfo.server_id ServerBlockInfo.block_addr]. unfold valid_lba. split_and!; [lia|done|lia|lia].
    + intros b Hb. split; [lia|]. intros (a & -> & Ha%batch_elem)%list_elem_of_fmap. cbn [ServerBlockInfo.block_addr] in Hb. lia.
Defined.
#[local] Transparent kAllocationBatch.

Abbreviation sample_policy := (DPScheduler.policy (G := Z)).
Abbreviation sample_sys := (VirtualDiskRemote.sys (P := sample_policy) (C := counting) (B := ram_flash)).

Definition sample_reply_volume : RegisterVolumeReplyMsg.t :=
  RegisterVolumeReplyMsg.mk [ServerInfo.mk [] 0 [] 1; ServerInfo.mk [] 0 [] 2] 7 Config.kRandomReadHashWrite.
Definition sample_stats : GetServerStatsReplyMsg.t :=
  GetServerStatsReplyMsg.mk 7 [report 1 ServerMode.kMix 1 1; report 2 ServerMode.kMix 1 1].

Abbreviation sample_create :=
  (create 1 (fun type => DPScheduler.make_policy type 42 43) junk_modes (fun _ => 0) 1 0 8 kInvalidServerID (Some sample_reply_volume) (Counting 0)).
Definition sample_servers : gmap ServerID (StorageServer.t ram_flash) := <[1 := sample_server]> (<[2 := sample_server]> ∅).

Definition ambient_with (dl : delivery) : ambient := Ambient 0 (fun _ => [0; 0; 0]%nat) (SignalTimes 0 0 0) 0 sample_clock dl.
Abbreviation on := (ambient_with Delivered).

Abbreviation sample_event := (event (C := counting) (B := ram_flash)).
Definition sample_iod_w : IODesc.t := IODesc.mk 1 1 5 64 0 0.
Definition sample_iod_r : IODesc.t := IODesc.mk 0 1 5 64 0 0.

(** The call to the second replica is lost, so that the write is tried again,
    and the blocks of the first attempt are collected. *)
Definition sample_writing : list sample_event :=
  [ETask 0 on; ETask 0 on; ETask 0 on; EThread 0 0 0 on; EThread 0 0 1 (ambient_with RequestLost);
   EThread 0 0 1 on; EThread 0 0 0 on;
   ETask 0 on; ETask 0 on; ETask 0 on; EThread 0 0 0 on; EThread 0 0 1 on; EThread 0 0 0 on; EThread 0 0 1 on;
   EThread 0 1 0 on; ETask 0 on; ETask 0 on; EGcBegin; EGcSend 0 0 on; EGcSend 0 0 on].
Definition sample_reading : list sample_event := [ETask 1 on; ETask 1 on; ETask 1 on; ETask 1 on].




(** Runs by evaluation: events other than those of servers and controller, with
    requests as the sharding makes them. *)
Definition of_disk (e : sample_event) : Prop :=
  match e with ESubmit tk => request tk | EServer _ _ | EController _ => False | _ => True end.

Fixpoint run_to (s : sample_sys) (es : list sample_event) : option sample_sys :=
  match es with
  | [] => Some s
  | e :: es =>
      match VirtualDiskRemote.exec 1 s e with
      | Ok s1 => if next_free (ctrl s1) <=? 2 ^ 51 then run_to s1 es else None
      | Fault _ => None
      end
  end.

Lemma run_to_run s es s' : Forall of_disk es -> run_to s es = Some s' -> run 1 s es s'.
Proof.
  revert s. induction es as [|e es IH]; intros s Hes H; simpl in H; [injection H as <-; constructor|].
  apply Forall_cons in Hes as [He Hes]. destruct (VirtualDiskRemote.exec 1 s e) as [s1|] eqn:Hx; [|done].
  destruct (next_free (ctrl s1) <=? 2 ^ 51) eqn:Hw; [|done]. apply Z.leb_le in Hw. apply (run_cons _ _ _ s1); [by destruct e|done|exact Hw|by apply IH].
Qed.

Lemma sample_write_request : request (new_write sample_iod_w (sample_data 3)).
Proof. split; [reflexivity|]. split; [|reflexivity]. split; [reflexivity|]. split; [reflexivity|cbn; lia]. Qed.

Lemma sample_read_request : request (new_read sample_iod_r (sample_data 0)).
Proof. split; [reflexivity|]. split; [|discriminate]. split; [reflexivity|]. split; [reflexivity|cbn; lia]. Qed.

(** The states and tasks of a write and a read after it, each run to its end. *)
Definition result_of (created : outcome (VirtualDiskRemote.t (P := sample_policy) * counting)) (es0 es1 es2 : list sample_event)
    : option (sample_sys * sample_sys * write_task * read_task * Status Z) :=
  match created with
  | Ok (d, c) =>
      if next_free c <=? 2 ^ 51 then
        s0 ← run_to (Sys d c sample_servers [] []) es0;
        s1 ← run_to s0 es1;
        s2 ← run_to s1 es2;
        match tasks s0, tasks s1, tasks s2 with
        | [], [TWrite w], [_; TRead r] => match frames w, r_pc r with [], RDone ret => Some (s1, s2, w, r, ret) | _, _ => None end
        | _, _, _ => None
        end
      else None
  | Fault _ => None
  end.

Lemma result_of_some created es0 es1 es2 s1 s2 w r ret :
  result_of created es0 es1 es2 = Some (s1, s2, w, r, ret) ->
  exists d c s0, created = Ok (d, c) /\ next_free c <= 2 ^ 51 /\ run_to (Sys d c sample_servers [] []) es0 = Some s0 /\ tasks s0 = [] /\
    run_to s0 es1 = Some s1 /\ tasks s1 !! 0%nat = Some (TWrite w) /\ length (tasks s1) = 1%nat /\ frames w = [] /\
    run_to s1 es2 = Some s2 /\ tasks s2 !! 1%nat = Some (TRead r) /\ r_pc r = RDone ret.
Proof.
  unfold result_of. intros H. destruct created as [[d c]|]; [|done]. destruct (next_free c <=? 2 ^ 51) eqn:Hw; [apply Z.leb_le in Hw|done].
  destruct (run_to _ es0) as [s0|] eqn:H0; [|done]. cbn [mbind option_bind] in H.
  destruct (run_to s0 es1) as [t1|] eqn:H1; [|done]. cbn [mbind option_bind] in H.
  destruct (run_to t1 es2) as [t2|] eqn:H2; [|done]. cbn [mbind option_bind] in H.
  destruct (tasks s0) eqn:Ht0; [|done]. destruct (tasks t1) as [|[|w'|] [|]] eqn:Ht1; try done.
  destruct (tasks t2) as [|? [|[r'| |] [|]]] eqn:Ht2; try done. destruct (frames w') eqn:Hf; [|done].
  destruct (r_pc r') eqn:Hpc; try done. injection H as <- <- <- <- <-. exists d, c, s0. rewrite Ht1, Ht2. done.
Qed.

Abbreviation sample_result :=
  (result_of sample_create [EStats (Some sample_stats)] (ESubmit (new_write sample_iod_w (sample_data 3)) :: sample_writing)
    (ESubmit (new_read sample_iod_r (sample_data 0)) :: sample_reading)).

Lemma sample_result_some : is_Some sample_result.
Proof. apply is_Some_alt. vm_compute. exact I. Qed.

Lemma read_your_writes_witness :
  exists s1 s2 w r ret, sample_result = Some (s1, s2, w, r, ret) /\
    w_ret w = Some (Value kDeviceAlignment) /\ ret = Value kDeviceAlignment /\ r_buf r = sample_data 3.
Proof.
  destruct sample_result_some as [[[[[s1 s2] w] r] ret] H]. exists s1, s2, w, r, ret. split; [exact H|].
  destruct (result_of_some _ _ _ _ _ _ _ _ _ H) as (d & c & s0 & Hcr & Hw & H0 & Ht0 & H1 & Hi & Hlen & Hf & H2 & Hk & Hpc).
  apply (read_your_writes 1 (fun type => DPScheduler.make_policy type 42 43) junk_modes (fun _ => 0) 1 0 8 kInvalidServerID (Some sample_reply_volume)
    (Counting 0) d c sample_servers [EStats (Some sample_stats)] s0 sample_iod_w (sample_data 3) sample_writing s1 w sample_iod_r (sample_data 0) sample_reading s2 r ret).
  - lia.
  - cbn. lia.
  - intros m [= <-]. repeat constructor; discriminate.
  - exact Hcr.
  - exact Hw.
  - eapply run_to_run; [|exact H0]. repeat constructor.
  - rewrite Ht0. intros tk Htk. exfalso. by apply not_elem_of_nil in Htk.
  - eapply run_to_run; [|exact H1]. constructor; [exact sample_write_request|repeat constructor].
  - repeat constructor.
  - rewrite Ht0. exact Hi.
  - exact Hf.
  - reflexivity.
  - eapply run_to_run; [|exact H2]. constructor; [exact sample_read_request|repeat constructor].
  - repeat constructor.
  - rewrite Hlen. exact Hk.
  - exact Hpc.
Defined.

(** ** Reads during a write *)

(** Sector 5 is written, then written again: the second write has stored its
    mapping and sent nothing yet when a read of the sector runs to its end. *)
Definition torn_events : list sample_event :=
  EStats (Some sample_stats) :: ESubmit (new_write sample_iod_w (sample_data 3)) ::
  [ETask 0 on; ETask 0 on; ETask 0 on; EThread 0 0 0 on; EThread 0 0 1 on; EThread 0 0 0 on; EThread 0 0 1 on; ETask 0 on] ++
  ESubmit (new_write sample_iod_w (sample_data 9)) :: [ETask 1 on; ETask 1 on; ETask 1 on] ++
  ESubmit (new_read sample_iod_r (sample_data 1)) :: [ETask 2 on; ETask 2 on; ETask 2 on; ETask 2 on].

Definition torn_result (created : outcome (VirtualDiskRemote.t (P := sample_policy) * counting))
    : option (option (Status Z) * option (Status Z) * read_pc * list Z) :=
  match created with
  | Ok (d, c) =>
      s ← run_to (Sys d c sample_servers [] []) torn_events;
      match tasks s with
      | [TWrite w1; TWrite w2; TRead r] => Some (w_ret w1, w_ret w2, r_pc r, r_buf r)
      | _ => None
      end
  | Fault _ => None
  end.

(** The mapping of a sector is replaced before the data is sent: a read
    while the sector is being written again succeeds and returns what the new
    block held before, neither the data of the write that completed nor those
    of the write under way. *)
Theorem read_sees_unwritten_block :
  torn_result (create 1 (fun type => DPScheduler.make_policy type 42 43) junk_modes (fun _ => 0) 1 0 8 1 (Some sample_reply_volume) (Counting 0))
  = Some (Some (Value kDeviceAlignment), None, RDone (Value kDeviceAlignment), sample_data 0).
Proof. vm_compute. reflexivity. Qed.
