(* ===== verification/Deployment.v ===== *)
(** * The remote disk on the controller

    The controller of [Controller.v] behind the handler of
    [ControllerConnHandler.v] keeps what [VirtualDiskRemoteLaws.v] asks of a
    controller, so that the theorems about the remote disk hold of a system
    whose blocks come from it. *)

From Stdlib Require Import String.
From S2P Require Import Prelude BaseTypes Configuration Messages StorageServer ControlScheduler Controller ControllerConnHandler VirtualDiskRemote VirtualDiskRemoteLaws.

Local Open Scope Z_scope.

Section Deployment.
Context {S : Type} `{!BaseScheduler S} (to_string : list Z -> string) (cfg : Config.t).
Context (iterate : gmap Z ServerDesc.t -> list ServerDesc.t) (env : Env).
Abbreviation sys := (Allocation.sys (S := S)).
Abbreviation handle_msg := (ControllerConnHandler.HandleMsg to_string cfg iterate env).
Abbreviation next_id s := (ControllerAgent.next_server_id_ (Allocation.agent s)).

(** A request for blocks, answered by the controller's handler; a controller
    that stops gives no reply. *)
Definition allocate_on (vol_id : VolumeID) (server_id : ServerID) (c : sys) : option (list ServerBlockInfo.t) * sys :=
  match handle_msg 0 (MAllocateBlocks (AllocateBlocksMsg.mk vol_id server_id)) (Allocation.agent c) with
  | Ok (Some (MAllocateBlocksReply m), a) =>
      let blks := AllocateBlocksReplyMsg.server_blks m in
      (Some blks, Allocation.Sys a (Allocation.given c ++ blks))
  | Ok (_, a) => (None, Allocation.Sys a (Allocation.given c))
  | Fault _ => (None, c)
  end.

#[export] Instance controller_rpc : ControllerRPC sys := {| allocate_rpc := allocate_on |}.

#[local] Opaque kAllocationBatch.

Lemma allocate_on_cases vol id (c c' : sys) reply :
  allocate_on vol id c = (reply, c') ->
  (reply = None /\ c' = c) \/
  exists blks a, reply = Some blks /\ c' = Allocation.Sys a (Allocation.given c ++ blks) /\
    ControllerAgent.AllocateBlocks id (Allocation.agent c) = Ok (Value blks, a).
Proof.
  unfold allocate_on. cbn [ControllerConnHandler.HandleMsg]. unfold ControllerConnHandler.HandleAllocateBlocks. cbn [AllocateBlocksMsg.server_id].
  destruct (ControllerAgent.AllocateBlocks id _) as [[[blks|e] a]|f] eqn:E; cbn; intros [= <- <-]; [right|by left..]. by eexists _, _.
Qed.

(** What the controller has given out is given once, with addresses below the
    number of blocks given. *)
Lemma given_spec (c : sys) :
  Allocation.inv c -> NoDup (Allocation.given c) /\
  forall b, b ∈ Allocation.given c -> 0 <= ServerBlockInfo.block_addr b < Z.of_nat (length (Allocation.given c)).
Proof.
  intros (_ & _ & Hinv). split.
  - apply Allocation.NoDup_by_server. intros id. destruct (Hinv id) as (n & -> & _). apply NoDup_fmap_2; [intros ? ?; congruence|apply zrange_NoDup].
  - intros b Hb. destruct (Hinv (ServerBlockInfo.server_id b)) as (n & Hn & _).
    assert (b ∈ Allocation.consecutive (ServerBlockInfo.server_id b) 0 n) as Hc.
    { rewrite <- Hn. apply list_elem_of_In, filter_In. rewrite Z.eqb_refl. split; [by apply list_elem_of_In|done]. }
    assert (length (Allocation.consecutive (ServerBlockInfo.server_id b) 0 n) <= length (Allocation.given c))%nat as Hle.
    { rewrite <- Hn. apply filter_length_le. }
    unfold Allocation.consecutive in *. rewrite length_map, zrange_length in Hle.
    apply list_elem_of_fmap in Hc as (x & Heq & Hx%elem_of_zrange). rewrite Heq. cbn [ServerBlockInfo.block_addr]. lia.
Qed.

Definition known (c : sys) (id : ServerID) : Prop := 1 <= id < next_id c.

Lemma allocated_fresh vol id (c c' : sys) reply :
  allocate_on vol id c = (reply, c') -> Allocation.inv c -> known c id -> Z.of_nat (length (Allocation.given c')) <= 2 ^ 51 ->
  let blks := default [] reply in
  Allocation.inv c' /\ NoDup blks /\
  (forall b, b ∈ blks -> b ∉ Allocation.given c /\ ServerBlockInfo.server_id b = id /\ valid_lba (ServerBlockInfo.block_addr b)) /\
  (forall b, b ∉ Allocation.given c' -> b ∉ Allocation.given c /\ b ∉ blks).
Proof.
  intros [[-> ->]|(blks & a & -> & -> & H)]%allocate_on_cases Hinv [_ Hid] Hw; cbn [default Allocation.given] in *.
  { split_and!; [done|constructor|set_solver|set_solver]. }
  assert (Allocation.inv (Allocation.Sys a (Allocation.given c ++ blks))) as Hinv'.
  { apply (Allocation.alloc_step_inv to_string c); [by eapply Allocation.step_allocate|cbn [Allocation.given]; lia|done]. }
  destruct (given_spec _ Hinv') as [Hnd Haddr]. cbn [Allocation.given] in *. apply NoDup_app in Hnd as (_ & Hdis & Hnd). split_and!; [done|done| |].
  - intros b Hb. split_and!; [intros Hb'; by apply (Hdis b)| |].
    + apply Allocation.AllocateBlocks_agent in H as (-> & _). by apply list_elem_of_fmap in Hb as (i & -> & _).
    + unfold valid_lba. specialize (Haddr b). rewrite elem_of_app in Haddr. specialize (Haddr (or_intror Hb)). lia.
  - intros b. rewrite elem_of_app. naive_solver.
Qed.

#[export] Instance controller_laws : ControllerLaws sys.
Proof.
  refine {| good := Allocation.inv; within c := Z.of_nat (length (Allocation.given c)) <= 2 ^ 51; registered := known;
            fresh c b := b ∉ Allocation.given c |}.
  - intros c id [Hid _]. unfold kInvalidServerID. lia.
  - intros vol id c reply c' [[_ ->]|(blks & a & _ & -> & _)]%allocate_on_cases; [done|]. cbn [Allocation.given]. rewrite length_app. lia.
  - intros vol id c reply c' id' [[_ ->]|(blks & a & _ & -> & H)]%allocate_on_cases; [done|].
    apply Allocation.AllocateBlocks_agent in H as (_ & Hn & _). unfold known. cbn [Allocation.agent]. by rewrite Hn.
  - intros vol id c reply c'. exact (allocated_fresh vol id c c' reply).
Defined.

(** ** The requests of servers and volumes *)

Definition blocks_of_reply (r : option message) : list ServerBlockInfo.t :=
  match r with Some (MAllocateBlocksReply m) => AllocateBlocksReplyMsg.server_blks m | _ => [] end.

Definition serve (c : sys) (q : ControllerConnHandler.request) : outcome (option message * sys) :=
  r ← ControllerConnHandler.HandleMsg to_string cfg iterate (ControllerConnHandler.on_env q) (ControllerConnHandler.at_time q)
        (ControllerConnHandler.asks q) (Allocation.agent c);
  Ok (fst r, Allocation.Sys (snd r) (Allocation.given c ++ blocks_of_reply (fst r))).

(** Volumes ask for blocks of servers they were told about. *)
Definition polite (c : sys) (q : ControllerConnHandler.request) : Prop :=
  match ControllerConnHandler.asks q with MAllocateBlocks m => known c (AllocateBlocksMsg.server_id m) | _ => True end.

Inductive served (c0 : sys) : list (option message) -> sys -> Prop :=
| served_nil : served c0 [] c0
| served_snoc l c q r c' : served c0 l c -> polite c q -> serve c q = Ok (r, c') -> served c0 (l ++ [r]) c'.

(** Every request is a step of the allocation, or leaves the controller as it
    is. *)
Lemma serve_step c q r c' : polite c q -> serve c q = Ok (r, c') -> Allocation.step to_string c c' \/ c' = c.
Proof.
  intros Hp H. unfold serve in H. apply bind_Ok in H as ([r0 a] & H & [= <- <-]). destruct q as [e t m], c as [ag gv].
  cbn [ControllerConnHandler.on_env ControllerConnHandler.at_time ControllerConnHandler.asks Allocation.agent Allocation.given fst snd] in *.
  destruct m; cbn [ControllerConnHandler.HandleMsg] in H; try (injection H as <- <-; right; cbn; by rewrite app_nil_r);
    try (apply bind_Ok in H as ([r1 s1] & H & [= <- <-])).
  - unfold ControllerConnHandler.HandleAllocateBlocks in H. apply bind_Ok in H as ([[blks|] s2] & H & Hr); [|done]. injection Hr as <- <-.
    left. eapply Allocation.step_allocate; [apply Hp|done].
  - left. unfold ControllerConnHandler.HandleRegisterServer in H. apply bind_Ok in H as (n0 & _ & H). apply bind_Ok in H as (n & _ & H).
    apply bind_Ok in H as (ip & _ & H). apply bind_Ok in H as ([[id|] s2] & H & Hr); injection Hr as <- <-; cbn; rewrite app_nil_r;
      (eapply (Allocation.step_register _ (Allocation.Sys ag gv)); exact H).
  - left. unfold ControllerConnHandler.HandleRegisterVolume in H. apply bind_Ok in H as (ip & _ & H).
    destruct (ControllerAgent.RegisterVolume _ _ _ _) as [[id|] s2] eqn:Hv;
      [apply bind_Ok in H as (l & _ & H)|]; injection H as <- <-; cbn; rewrite app_nil_r; (eapply (Allocation.step_volume _ (Allocation.Sys ag gv)); exact Hv).
  - left. unfold ControllerConnHandler.HandleUpdateServerStats in H. apply bind_Ok in H as ([[u|] s2] & H & Hr);
      [apply bind_Ok in Hr as ([[[[mode cs] rw] ww]|] & _ & Hr); [|done]|]; injection Hr as <- <-; cbn; rewrite app_nil_r;
      (eapply (Allocation.step_stats _ (Allocation.Sys ag gv)); exact H).
  - left. cbn. rewrite app_nil_r. eapply (Allocation.step_mode _ (Allocation.Sys ag gv)). exact H.
  - right. unfold ControllerConnHandler.HandleGetServerStats in H. apply bind_Ok in H as ([l|] & _ & H);
      [apply bind_Ok in H as (l' & _ & H)|]; injection H as <- <-; cbn; by rewrite app_nil_r.
Qed.

Lemma serve_inv (c c' : sys) : Allocation.step to_string c c' \/ c' = c -> within c' -> good c -> good c'.
Proof.
  intros [Hs| ->] Hw Hc; [|done]. apply (Allocation.alloc_step_inv to_string c); [done| |done]. cbn in Hw. lia.
Qed.

Lemma step_within (c c' : sys) : Allocation.step to_string c c' \/ c' = c -> within c' -> within c.
Proof. intros [Hs%Allocation.given_grows| ->] Hw; [|done]. cbn in *. lia. Qed.

Lemma served_good c0 l c : served c0 l c -> within c -> good c0 -> good c.
Proof.
  induction 1 as [|l c q r c' Hs IH Hp H]; intros Hw Hg; [done|]. pose proof (serve_step _ _ _ _ Hp H) as Hst.
  eapply serve_inv; [done..|]. apply IH; [by eapply step_within|done].
Qed.

Lemma served_directory sched l c :
  served (Allocation.Sys (ControllerAgent.init sched) []) l c -> ControllerConnHandler.directory l (Allocation.agent c).
Proof.
  induction 1 as [|l c q r c' Hs IH Hp H]; [apply ControllerConnHandler.directory_init|].
  unfold serve in H. apply bind_Ok in H as ([r0 a] & H & [= <- <-]). by eapply ControllerConnHandler.handle_directory.
Qed.

Lemma step_grants (c c' : sys) : Allocation.step to_string c c' \/ c' = c -> good c -> grants c [] c'.
Proof.
  intros Hs Hg. split_and!; [by eapply step_within| |].
  - destruct Hs as [Hs| ->]; [|done]. intros id [H1 H2]. split; [done|].
    destruct (Allocation.step_cases _ _ _ Hs) as [(-> & _)|[(e & ip & port & name & n & r & _ & H)|(id' & blks & _ & _ & H)]]; [done| |].
    + apply Allocation.RegisterServer_alloc in H as (Hlt & _ & -> & _). destruct Hg as (_ & Hslots & _). rewrite Hslots in Hlt.
      unfold kNumMaxServers in Hlt. rewrite wrap_small; lia.
    + by apply Allocation.AllocateBlocks_agent in H as (_ & -> & _).
  - intros _ Hw. split_and!; [by eapply serve_inv|constructor|set_solver|]. intros b Hb. split; [|set_solver]. intros Hb'. apply Hb.
    destruct Hs as [Hs| ->]; [|done].
    destruct (Allocation.step_cases _ _ _ Hs) as [(_ & _ & ->)|[(e & ip & port & name & n & r & -> & _)|(id' & blks & -> & _)]]; [done..|].
    rewrite elem_of_app. by left.
Qed.

Context (iterate_all : forall m, iterate m ≡ₚ map snd (map_to_list m)).

(** C11: The controller is what the remote disk asks of it: after any requests it
    is in a state from which it gives out fresh blocks; the servers it tells a
    volume about are registered; and whatever it does for others gives out
    nothing of what it still has to give, and takes nothing back. *)
Theorem controller_ready sched l (c : sys) :
  served (Allocation.Sys (ControllerAgent.init sched) []) l c -> within c ->
  good c /\
  (forall e t msg m c', serve c (ControllerConnHandler.Request e t (MRegisterVolume msg)) = Ok (Some (MRegisterVolumeReply m), c') ->
     good c' /\ Forall (fun i => registered c' (ServerInfo.id i)) (RegisterVolumeReplyMsg.servers m)) /\
  (forall q r c', polite c q -> serve c q = Ok (r, c') -> grants c [] c').
Proof.
  intros Hs Hw. assert (good c) as Hg by (eapply served_good; [done|done|apply Allocation.alloc_inv_init]).
  split_and!; [done| |intros q r c' Hp H; apply step_grants; [by eapply serve_step|done]].
  intros e t msg m c' H. set (q := ControllerConnHandler.Request e t (MRegisterVolume msg)) in *.
  assert (served (Allocation.Sys (ControllerAgent.init sched) []) (l ++ [Some (MRegisterVolumeReply m)]) c') as Hs'
    by (eapply (served_snoc _ l c q); [done|exact I|done]).
  pose proof (served_directory _ _ _ Hs') as Hd. pose proof (serve_step _ _ _ _ (I : polite c q) H) as Hst.
  unfold serve in H. apply bind_Ok in H as ([r0 a] & H & [= -> <-]). split.
  - eapply serve_inv; [done| |done]. cbn in *. by rewrite app_nil_r.
  - destruct (ControllerConnHandler.RegisterVolume_ids _ _ _ _ _ _ _ _ _ H) as (Hids & Hsame & _). rewrite <- Hsame in Hids.
    apply Forall_forall. intros i Hi. cbn [Allocation.agent snd] in Hd. apply (ControllerConnHandler.dir_range _ _ Hd).
    rewrite <- (ControllerConnHandler.directory_ids iterate iterate_all _ _ Hd), <- Hids. by apply list_elem_of_fmap_2.
Qed.
End Deployment.

(** The two registrations of [ControllerConnHandler.v], and what follows. *)
Definition sample_serve :=
  serve (S := policy) (fun _ => EmptyString) ControllerConnHandler.sample_cfg ControllerConnHandler.by_key.

Definition serve_two (qs : list ControllerConnHandler.request) : option (list (option message) * Allocation.sys (S := policy)) :=
  match qs with
  | [q1; q2] =>
      match sample_serve (Allocation.Sys (ControllerAgent.init NoOp) []) q1 with
      | Ok (r1, c1) => match sample_serve c1 q2 with Ok (r2, c2) => Some ([r1; r2], c2) | Fault _ => None end
      | Fault _ => None
      end
  | _ => None
  end.

Lemma serve_two_served qs l c :
  Forall (fun q => match ControllerConnHandler.asks q with MAllocateBlocks _ => False | _ => True end) qs -> serve_two qs = Some (l, c) ->
  served (fun _ => EmptyString) ControllerConnHandler.sample_cfg ControllerConnHandler.by_key (Allocation.Sys (ControllerAgent.init NoOp) []) l c.
Proof.
  intros Hq H. destruct qs as [|q1 [|q2 [|? ?]]]; try done. simpl in H. apply Forall_cons in Hq as [Hq1 Hq]. apply Forall_cons in Hq as [Hq2 _].
  assert (forall (c : Allocation.sys (S := policy)) q, match ControllerConnHandler.asks q with MAllocateBlocks _ => False | _ => True end -> polite c q) as Hpol
    by (intros c0 q; unfold polite; by destruct (ControllerConnHandler.asks q)).
  destruct (sample_serve _ q1) as [[r1 c1]|] eqn:H1; [|done]. destruct (sample_serve c1 q2) as [[r2 c2]|] eqn:H2; [|done]. injection H as <- <-.
  apply (served_snoc _ _ _ _ [r1] c1 q2); [|by apply Hpol|done]. eapply (served_snoc _ _ _ _ [] _ q1); [constructor|by apply Hpol|done].
Qed.

Definition told_ids (r : option (list (option message) * Allocation.sys (S := policy))) : list ServerID * nat :=
  match r with Some (l, c) => (omap ControllerConnHandler.told l, length (Allocation.given c)) | None => ([], 1%nat) end.

Lemma controller_ready_witness :
  exists l c, serve_two ControllerConnHandler.sample_requests = Some (l, c) /\ omap ControllerConnHandler.told l = [1; 2] /\
    Allocation.inv c /\
    (forall e t msg m c', sample_serve c (ControllerConnHandler.Request e t (MRegisterVolume msg)) = Ok (Some (MRegisterVolumeReply m), c') ->
       Allocation.inv c' /\ Forall (fun i => known c' (ServerInfo.id i)) (RegisterVolumeReplyMsg.servers m)).
Proof.
  assert (told_ids (serve_two ControllerConnHandler.sample_requests) = ([1; 2], 0%nat)) as Hids by (vm_compute; reflexivity).
  destruct (serve_two ControllerConnHandler.sample_requests) as [[l c]|] eqn:H; [|discriminate Hids].
  exists l, c. injection Hids as Hl Hg. split; [reflexivity|]. split; [exact Hl|].
  destruct (controller_ready (fun _ => EmptyString) ControllerConnHandler.sample_cfg ControllerConnHandler.by_key Allocation.sample_env (fun _ => reflexivity _) NoOp l c)
    as (Hgood & Hvol & _); [|cbn; rewrite Hg; lia|by split].
  apply (serve_two_served ControllerConnHandler.sample_requests); [repeat constructor|exact H].
Defined.
