(* ===== verification/BlkDev.v ===== *)
(** * The block device

    [src/sandook/virtual_disk/virtual_disk_local.cc], the virtual disk on the local
    flash device; [src/sandook/blk_dev/request_dispatcher.cc] and the loop of
    [BlkDevAgent::ProcessBlockDevRequests] in [blk_dev_agent.cc], which hand the
    requests the kernel puts in a hardware queue to threads and complete them from
    one queue per core; and the mapping from queues to cores of the command line.
    The ublk library is not modelled: it calls [HandleIOAsync] for every request
    and is told of completions. *)

From S2P Require Import Prelude BaseTypes Memory Counter Configuration Messages StorageServer Sharding.

Local Open Scope Z_scope.

(** ** The local disk *)

Module VirtualDiskLocal.
Section Local.
Context {D : Type} `{!FlashDevice D}.

(** The memory the addresses of requests point to, and the device. *)
Definition ProcessRequest (iod : IODesc.t) (s : memory * D) : outcome (Status Z * (memory * D)) :=
  let '(m, d) := s in
  let lba := IODesc.start_sector iod in
  match IODesc.get_op iod with
  | OpType.kRead =>
      match Storage.Read kDeviceAlignment lba d with
      | (MakeError e, d) => Ok (MakeError e, (m, d))
      | (Value data, d) => Ok (Value kDeviceAlignment, (store_at (IODesc.addr iod) data m, d))
      end
  | OpType.kWrite =>
      match Storage.Write (bytes_at (IODesc.addr iod) (Z.to_nat kDeviceAlignment) m) lba d with
      | (MakeError e, d) => Ok (MakeError e, (m, d))
      | (Value _, d) => Ok (Value kDeviceAlignment, (m, d))
      end
  | OpType.kAllocate => Ok (Value kDeviceAlignment, s)
  | _ => Ok (Value kDeviceAlignment, s)
  end.
End Local.
End VirtualDiskLocal.

(** ** Completion queues *)

Module CompletionReq.
Record t := mk { tag : Z; res : Z }.
End CompletionReq.

Module CompletionQueue.
Record t := mk { active_q_ : list CompletionReq.t; inactive_q_ : list CompletionReq.t }.
#[global] Instance settable : Settable t := settable! mk <active_q_; inactive_q_>.
Definition init : t := mk [] [].

Definition producer_push (req : CompletionReq.t) (q : t) : t := q <| active_q_ := active_q_ q ++ [req] |>.
(** What is left of the last round is cleared, then the queues are swapped. *)
Definition consumer_acquire (q : t) : t :=
  let q := q <| inactive_q_ := [] |> in mk (inactive_q_ q) (active_q_ q).
Definition is_empty (q : t) : bool := match active_q_ q with [] => true | _ => false end.
End CompletionQueue.

(** ** Requests of a hardware queue *)

Inductive ublk_op := UBLK_IO_OP_READ | UBLK_IO_OP_WRITE | UBLK_IO_OP_OTHER (code : Z).

Module ublk_io.
Record t := mk { op : ublk_op; nr_sectors : Z; start_sector : Z; addr : Z; tag : Z }.
End ublk_io.

Module RequestDispatcher.
Import VirtualDiskBase.

Section Dispatch.
Context {S : Type} (ProcessRequest : IODesc.t -> S -> outcome (Status Z * S)).

(** What the thread of a request does up to its completion; the threads of the
    disk run by [schedule] and [args], [cb] are what the disk is given to call
    back. *)
Definition process (schedule : list nat) (args cb : Z) (io : ublk_io.t) (d : S) : outcome (CompletionReq.t * S) :=
  let nsectors := ublk_io.nr_sectors io / kNumLinuxSectorsPerSandookSector in
  let sector := ublk_io.start_sector io / kNumLinuxSectorsPerSandookSector in
  let nbytes := u32 (Z.shiftl nsectors kSectorShift) in
  r ← (match ublk_io.op io with
       | UBLK_IO_OP_READ => Read ProcessRequest schedule sector nbytes (ublk_io.addr io) args cb d
       | UBLK_IO_OP_WRITE => Write ProcessRequest schedule sector nbytes (ublk_io.addr io) args cb d
       | UBLK_IO_OP_OTHER _ => Ok (Value 0, d)
       end);
  let '(io_ret, d) := r in
  let res := match io_ret with
             | MakeError _ => - EINVAL
             | Value _ => swrap 32 (Z.shiftl (swrap 32 (ublk_io.nr_sectors io)) kLinuxSectorShift)
             end in
  Ok (CompletionReq.mk (ublk_io.tag io) res, d).

(** Where the thread of the hardware queue is: looking at the queue of a core,
    completing what it took from it, or waiting for the kernel. *)
Inductive position := Scan (core : nat) | Drain (core : nat) | Poll.

Record sys := Sys {
  disk : S;
  threads : list ublk_io.t;
  completion_queues : list CompletionQueue.t;
  at_pos : position;
  completed : list CompletionReq.t;
  submitted : list ublk_io.t;
}.
#[local] Instance settable : Settable sys := settable! Sys <disk; threads; completion_queues; at_pos; completed; submitted>.

Definition start (cores : nat) (d : S) : sys := Sys d [] (replicate cores CompletionQueue.init) Poll [] [].

Inductive event :=
| ESubmit (io : ublk_io.t)
| EThread (i : nat) (cpu : nat) (schedule : list nat) (args cb : Z)
| EQueue.

(** [HandleIOAsync], called by the library while the queue polls. *)
Definition SubmitRequest (io : ublk_io.t) (s : sys) : outcome sys :=
  match at_pos s with
  | Poll => Ok (s <| threads := threads s ++ [io] |> <| submitted := submitted s ++ [io] |>)
  | _ => Fault NoProgress
  end.

(** A thread runs and pushes its completion on the core it is on then. *)
Definition run_thread (i cpu : nat) (schedule : list nat) (args cb : Z) (s : sys) : outcome sys :=
  match threads s !! i, completion_queues s !! cpu with
  | Some io, Some q =>
      r ← process schedule args cb io (disk s);
      let '(req, d) := r in
      Ok (s <| disk := d |> <| threads := delete i (threads s) |>
            <| completion_queues := <[cpu := CompletionQueue.producer_push req q]> (completion_queues s) |>)
  | _, _ => Fault NoProgress
  end.

(** One step of the loop of [ProcessBlockDevRequests]. A round that comes too soon
    after the last skips the library's call: nothing is submitted at [Poll]. The
    loop's exit, when the library fails, is not modelled. *)
Definition queue_step (s : sys) : outcome sys :=
  match at_pos s with
  | Scan core =>
      match completion_queues s !! core with
      | None => Ok (s <| at_pos := Poll |>)
      | Some q =>
          if CompletionQueue.is_empty q then Ok (s <| at_pos := Scan (Datatypes.S core) |>)
          else Ok (s <| completion_queues := <[core := CompletionQueue.consumer_acquire q]> (completion_queues s) |>
                     <| at_pos := Drain core |>)
      end
  | Drain core =>
      q ← deref (completion_queues s !! core);
      match CompletionQueue.inactive_q_ q with
      | [] => Ok (s <| at_pos := Scan (Datatypes.S core) |>)
      | req :: rest =>
          Ok (s <| completed := completed s ++ [req] |>
                <| completion_queues := <[core := q <| CompletionQueue.inactive_q_ := rest |>]> (completion_queues s) |>)
      end
  | Poll => Ok (s <| at_pos := Scan 0 |>)
  end.

Definition exec (s : sys) (e : event) : outcome sys :=
  match e with
  | ESubmit io => SubmitRequest io s
  | EThread i cpu schedule args cb => run_thread i cpu schedule args cb s
  | EQueue => queue_step s
  end.

(** ** Every request is completed once *)

Definition tags_of (q : CompletionQueue.t) : list Z :=
  map CompletionReq.tag (CompletionQueue.active_q_ q ++ CompletionQueue.inactive_q_ q).

(** The queues' second halves are empty but for the one being drained. *)
Record inv (s : sys) : Prop := {
  i_tags : map ublk_io.tag (submitted s) ≡ₚ
    map ublk_io.tag (threads s) ++ concat (map tags_of (completion_queues s)) ++ map CompletionReq.tag (completed s);
  i_inactive core q : completion_queues s !! core = Some q -> at_pos s <> Drain core -> CompletionQueue.inactive_q_ q = [];
}.

Lemma inv_start cores d : inv (start cores d).
Proof.
  split; simpl.
  - enough (concat (map tags_of (replicate cores CompletionQueue.init)) = []) as -> by done. by induction cores.
  - intros core q [-> _]%lookup_replicate _. done.
Qed.

(** A queue that has some tags more than before, or less. *)
Lemma queues_more qs core q q' l :
  qs !! core = Some q -> tags_of q' ≡ₚ tags_of q ++ l -> concat (map tags_of (<[core := q']> qs)) ≡ₚ concat (map tags_of qs) ++ l.
Proof.
  intros Hq Hl. apply (Permutation_app_inv_r (tags_of q)). rewrite (concat_insert_perm tags_of qs core q q' Hq), Hl. solve_Permutation.
Qed.

Lemma queues_less qs core q q' l :
  qs !! core = Some q -> tags_of q ≡ₚ tags_of q' ++ l -> concat (map tags_of qs) ≡ₚ concat (map tags_of (<[core := q']> qs)) ++ l.
Proof.
  intros Hq Hl. apply (Permutation_app_inv_r (tags_of q')). rewrite <-(concat_insert_perm tags_of qs core q q' Hq), Hl. solve_Permutation.
Qed.

Lemma inactive_insert (qs : list CompletionQueue.t) core q' (P : nat -> Prop) :
  (forall c q, qs !! c = Some q -> P c -> CompletionQueue.inactive_q_ q = []) ->
  (P core -> CompletionQueue.inactive_q_ q' = []) ->
  forall c q, <[core := q']> qs !! c = Some q -> P c -> CompletionQueue.inactive_q_ q = [].
Proof.
  intros H H' c q Hc Hp. destruct (decide (core = c)) as [<-|Hne]; [|rewrite list_lookup_insert_ne in Hc by done; by eapply H].
  apply list_lookup_insert_Some in Hc as [(_ & <- & _)|[? _]]; [auto|done].
Qed.

Lemma process_tag schedule args cb io d req d' : process schedule args cb io d = Ok (req, d') -> CompletionReq.tag req = ublk_io.tag io.
Proof. unfold process. intros H. apply bind_Ok in H as ([io_ret d1] & _ & [= <- _]). done. Qed.

Lemma inv_run_thread s i cpu schedule args cb s' : inv s -> run_thread i cpu schedule args cb s = Ok s' -> inv s'.
Proof.
  intros [Ht Hin]. unfold run_thread. destruct (threads s !! i) as [io|] eqn:Hi; [|done].
  destruct (completion_queues s !! cpu) as [q|] eqn:Hq; [|done]. intros He. apply bind_Ok in He as ([req d] & Hp & [= <-]).
  apply process_tag in Hp. pose proof (delete_Permutation _ _ _ Hi) as Hperm.
  set (rest := delete i (threads s)) in *. clearbody rest. split; simpl.
  - rewrite Ht, Hperm. simpl. rewrite (queues_more _ _ q (CompletionQueue.producer_push req q) [ublk_io.tag io] Hq); [solve_Permutation|].
    unfold tags_of. simpl. rewrite !map_app. simpl. rewrite Hp. solve_Permutation.
  - apply (inactive_insert _ _ _ (fun c => at_pos s <> Drain c)); [done|]. intros Hne. exact (Hin cpu q Hq Hne).
Qed.

Lemma inv_queue s s' : inv s -> queue_step s = Ok s' -> inv s'.
Proof.
  intros [Ht Hin]. unfold queue_step. destruct (at_pos s) as [core|core|] eqn:Hp.
  - destruct (completion_queues s !! core) as [q|] eqn:Hq; [destruct (CompletionQueue.is_empty q)|]; intros [= <-]; split; simpl; try done;
      try (intros c q' Hq' _; by eapply Hin).
    + rewrite (queues_more _ _ q (CompletionQueue.consumer_acquire q) [] Hq), app_nil_r; [done|].
      unfold tags_of. simpl. by rewrite (Hin core q Hq), !app_nil_r.
    + apply (inactive_insert _ _ _ (fun c => Drain core <> Drain c)); [|done]. intros c q' Hq' _. by eapply Hin.
  - intros He. apply bind_Ok in He as (q & Hq%deref_Ok & He). destruct (CompletionQueue.inactive_q_ q) as [|req rest] eqn:Hr; injection He as <-; split; simpl.
    + done.
    + intros c q' Hq' _. destruct (decide (c = core)) as [->|]; [congruence|]. eapply Hin; [done|congruence].
    + rewrite Ht, map_app, (queues_less _ _ q (q <| CompletionQueue.inactive_q_ := rest |>) [CompletionReq.tag req] Hq); [solve_Permutation|].
      unfold tags_of. simpl. rewrite Hr, !map_app. simpl. solve_Permutation.
    + apply (inactive_insert _ _ _ (fun c => at_pos s <> Drain c)); [by rewrite Hp|]. by rewrite Hp.
  - intros [= <-]. split; simpl; [done|]. intros c q' Hq' _. by eapply Hin.
Qed.

Lemma inv_run s es s' : inv s -> ofold exec s es = Ok s' -> inv s'.
Proof.
  intros Hi. revert s Hi. induction es as [|e es IH]; intros s Hi Hrun; simpl in Hrun; [by injection Hrun as <-|].
  apply bind_Ok in Hrun as (s1 & H1 & Hrun). apply (IH s1); [|done]. clear IH Hrun.
  destruct e as [io|i cpu schedule args cb|]; simpl in H1; [|by eapply inv_run_thread|by eapply inv_queue].
  unfold SubmitRequest in H1. destruct Hi as [Ht Hin]. destruct (at_pos s) eqn:Hp; [done..|]. injection H1 as <-. split; simpl; [|by rewrite Hp].
  rewrite !map_app, Ht. simpl. solve_Permutation.
Qed.


(** C37: The kernel is told that every read and every write has succeeded in full,
    whatever the disk made of it: [Read] and [Write] of a virtual disk return an
    error's code as a value, so the dispatcher never sees a failure. Requests that
    are neither succeed too. *)
Theorem block_device_hides_errors schedule args cb io d req d' :
  process schedule args cb io d = Ok (req, d') ->
  CompletionReq.res req = swrap 32 (Z.shiftl (swrap 32 (ublk_io.nr_sectors io)) kLinuxSectorShift).
Proof.
  unfold process. intros H. apply bind_Ok in H as ([io_ret d1] & Hio & [= <- <-]). simpl.
  enough (exists n, io_ret = Value n) as [n ->] by done.
  destruct (ublk_io.op io); [unfold Read, submit_and_wait in Hio|unfold Write, submit_and_wait in Hio|by injection Hio as <- _; eauto];
    apply bind_Ok in Hio as (r & _ & [= <- _]); eauto.
Qed.
End Dispatch.

(** A disk that fails everything; the thread ends on the second of two cores. *)
Definition broken_disk (_ : IODesc.t) (d : unit) : outcome (Status Z * unit) := Ok (MakeError EIO, d).
Definition sample_io : ublk_io.t := ublk_io.mk UBLK_IO_OP_WRITE 8 16 4096 7.
Definition sample_events : list event := [ESubmit sample_io; EThread 0 1 [0%nat] 0 0; EQueue; EQueue; EQueue; EQueue].


Lemma block_device_hides_errors_witness :
  exists req d', process broken_disk [0%nat] 0 0 sample_io tt = Ok (req, d') /\ CompletionReq.res req = 4096.
Proof.
  eexists _, _. split; [vm_compute; reflexivity|].
  apply (block_device_hides_errors broken_disk [0%nat] 0 0 sample_io tt _ tt). vm_compute. reflexivity.
Defined.

(** ** Allocation of the whole disk *)

Section Allocation.
Context {S : Type} (ProcessRequest : IODesc.t -> S -> outcome (Status Z * S)).
(** How the threads of the request for a sector run, and what the disk is given
    to call back. *)
Context (schedule : Z -> list nat) (args cb : Z).

Definition kPayloadSizeSectors : Z := Z.shiftr (Z.shiftl 1 kSectorShift) kSectorShift.
Definition kBatchSize : Z := 4096.

Definition allocate_batch (d : S) (batch : Z * Z) : outcome S :=
  r ← Allocate ProcessRequest (schedule (fst batch)) (fst batch) (u32 (snd batch)) args cb d;
  match r with (Value _, d) => Ok d | (MakeError _, _) => Fault RuntimeError end.

(** The loop; every round takes one batch. *)
Fixpoint allocate_loop (fuel : nat) (lba rem_sectors_to_allocate : Z) (d : S) : outcome S :=
  if rem_sectors_to_allocate <=? 0 then Ok d
  else
    match fuel with
    | O => Fault NoProgress
    | Datatypes.S fuel =>
        let batch := Z.min kBatchSize rem_sectors_to_allocate in
        d ← allocate_batch d (lba, batch);
        allocate_loop fuel (u64 (lba + batch)) (u64 (rem_sectors_to_allocate - batch)) d
    end.

Definition AllocateBlocks (num_sectors : Z) (d : S) : outcome S :=
  let sectors_to_allocate := num_sectors / kPayloadSizeSectors in
  allocate_loop (Z.to_nat sectors_to_allocate) 0 sectors_to_allocate d.

Lemma allocate_loop_spec fuel lba rem d :
  0 <= rem <= Z.of_nat fuel -> 0 <= lba -> lba + rem < 2 ^ 64 ->
  exists batches, allocate_loop fuel lba rem d = ofold allocate_batch d batches /\
    concat (map (fun b => zrange (fst b) (Z.to_nat (snd b))) batches) = zrange lba (Z.to_nat rem) /\
    Forall (fun b => 0 < snd b <= kBatchSize) batches.
Proof.
  revert lba rem d. induction fuel as [|fuel IH]; intros lba rem d Hr Hl Hb; cbn [allocate_loop].
  - rewrite (proj2 (Z.leb_le _ _)) by lia. exists []. replace rem with 0 by lia. by repeat split.
  - destruct (Z.leb_spec rem 0); [exists []; replace rem with 0 by lia; by repeat split|].
    set (b := Z.min kBatchSize rem). assert (0 < b <= kBatchSize /\ b <= rem) as [Hb1 Hb2] by (unfold b, kBatchSize; lia).
    rewrite (wrap_small 64 (lba + b)), (wrap_small 64 (rem - b)) by lia. destruct (allocate_batch d (lba, b)) as [d'|f] eqn:E.
    + destruct (IH (lba + b) (rem - b) d') as (bs & Heq & Hc & Hall); [lia..|]. exists ((lba, b) :: bs). split; [|split].
      * cbn [ofold mbind outcome_bind]. rewrite E. exact Heq.
      * simpl. rewrite Hc. replace (Z.to_nat rem) with (Z.to_nat b + Z.to_nat (rem - b))%nat by lia. rewrite zrange_app.
        by replace (lba + Z.of_nat (Z.to_nat b)) with (lba + b) by lia.
      * by constructor.
    + destruct (IH (lba + b) (rem - b) d) as (bs & _ & Hc & Hall); [lia..|]. exists ((lba, b) :: bs). split; [|split].
      * cbn [ofold mbind outcome_bind]. by rewrite E.
      * simpl. rewrite Hc. replace (Z.to_nat rem) with (Z.to_nat b + Z.to_nat (rem - b))%nat by lia. rewrite zrange_app.
        by replace (lba + Z.of_nat (Z.to_nat b)) with (lba + b) by lia.
      * by constructor.
Qed.

(** The whole disk is allocated, every sector once and in order, in batches of
    bounded size, unless a batch fails. *)
Lemma AllocateBlocks_covers num_sectors d :
  0 <= num_sectors < 2 ^ 64 ->
  exists batches, AllocateBlocks num_sectors d = ofold allocate_batch d batches /\
    concat (map (fun b => zrange (fst b) (Z.to_nat (snd b))) batches) = zrange 0 (Z.to_nat num_sectors) /\
    Forall (fun b => 0 < snd b <= kBatchSize) batches.
Proof.
  intros Hn. unfold AllocateBlocks. change kPayloadSizeSectors with 1. rewrite Z.div_1_r. apply allocate_loop_spec; lia.
Qed.

(** No failure stops it: [Allocate] does not return what its request did. *)
Lemma allocate_batch_never_throws d b : allocate_batch d b <> Fault RuntimeError \/
  ProcessShardedRequests ProcessRequest (schedule (fst b)) (IODesc.mk (OpType.code OpType.kAllocate) (u32 (snd b)) (fst b) 0 args cb) d
    = Fault RuntimeError.
Proof.
  unfold allocate_batch, Allocate. destruct (ProcessShardedRequests _ _ _ _) as [r|[]]; simpl; auto.
Qed.
End Allocation.
End RequestDispatcher.

(** ** Queues and cores *)

Module BlkDevAgent.

(** A string is a list of characters. *)
Definition comma : Z := 44.
Definition zero_char : Z := 48.

(** [s.find(delimiter, pos)] and [substr], for the delimiters that are used: one
    character. *)
Fixpoint split_at (delimiter : Z) (s : list Z) : list Z * option (list Z) :=
  match s with
  | [] => ([], None)
  | c :: s => if c =? delimiter then ([], Some s) else let '(token, rest) := split_at delimiter s in (c :: token, rest)
  end.
Fixpoint split_loop (fuel : nat) (delimiter : Z) (s : list Z) : list (list Z) :=
  match fuel, split_at delimiter s with
  | Datatypes.S fuel, (token, Some rest) => token :: split_loop fuel delimiter rest
  | _, (token, _) => [token]
  end.
Definition split (s : list Z) (delimiter : Z) : list (list Z) := split_loop (length s) delimiter s.

Definition is_space (c : Z) : bool := (c =? 32) || ((9 <=? c) && (c <=? 13)).
Definition is_digit (c : Z) : bool := (zero_char <=? c) && (c <=? zero_char + 9).
Fixpoint skip_space (s : list Z) : list Z :=
  match s with c :: s' => if is_space c then skip_space s' else s | [] => [] end.
Fixpoint digits (acc : Z) (s : list Z) : Z * list Z :=
  match s with
  | c :: s' => if is_digit c then digits (acc * 10 + (c - zero_char)) s' else (acc, s)
  | [] => (acc, [])
  end.

(** [ss >> value] for an [unsigned int]: the value and what is left, the largest
    value when the number is larger, or a failure. A sign is accepted, and a minus
    negates at the width of the type, as the GNU library does. *)
Inductive extracted := Extracted (value : Z) (rest : list Z) | TooLarge | NotANumber.
Definition minus_char : Z := 45.
Definition plus_char : Z := 43.
Definition extract_digits (negative : bool) (s : list Z) : extracted :=
  match s with
  | c :: _ =>
      if is_digit c then
        let '(v, rest) := digits 0 s in
        if v <? 2 ^ 32 then Extracted (if negative then u32 (- v) else v) rest else TooLarge
      else NotANumber
  | [] => NotANumber
  end.
Definition extract (s : list Z) : extracted :=
  match skip_space s with
  | (c :: s') as s0 =>
      if c =? minus_char then extract_digits true s'
      else if c =? plus_char then extract_digits false s'
      else extract_digits false s0
  | [] => NotANumber
  end.

(** One [queue:core]. When the first number cannot be read, or when nothing
    follows the character after it, the core is never assigned. *)
Definition parse_mapping (mapping : list Z) : outcome (Z * Z) :=
  match extract mapping with
  | Extracted q (_ :: rest) =>
      match skip_space rest with
      | [] => Fault Undefined
      | _ => Ok (q, match extract rest with Extracted c _ => c | TooLarge => 2 ^ 32 - 1 | NotANumber => 0 end)
      end
  | _ => Fault Undefined
  end.

Definition SetQueueToCoreMapping (queue_to_core_mapping : list Z) (queue_to_core_ : gmap Z Z) : outcome (Status unit * gmap Z Z) :=
  match split queue_to_core_mapping comma with
  | [] => Ok (MakeError ENOENT, queue_to_core_)
  | mappings =>
      m ← ofold (fun m mapping => qc ← parse_mapping mapping; Ok (<[fst qc := snd qc]> m)) queue_to_core_ mappings;
      Ok (Value tt, m)
  end.

Definition GetCoreForQueue (q : Z) (queue_to_core_ : gmap Z Z) : Status Z :=
  match queue_to_core_ !! q with Some c => Value c | None => MakeError ENOENT end.

(** The core [Run] pins the thread of a queue to. *)
Definition qcore (q : Z) (queue_to_core_ : gmap Z Z) : Z :=
  match GetCoreForQueue q queue_to_core_ with Value c => swrap 32 c | MakeError _ => -1 end.

(** Joining with the delimiter undoes splitting. *)
Fixpoint join (delimiter : Z) (tokens : list (list Z)) : list Z :=
  match tokens with
  | [] => []
  | [token] => token
  | token :: tokens => token ++ delimiter :: join delimiter tokens
  end.

Lemma split_at_spec d s :
  match split_at d s with
  | (token, None) => token = s /\ d ∉ token
  | (token, Some rest) => s = token ++ d :: rest /\ d ∉ token
  end.
Proof.
  induction s as [|c s IH]; simpl; [set_solver|]. destruct (Z.eqb_spec c d) as [->|Hne]; [set_solver|].
  destruct (split_at d s) as [token [rest|]]; destruct IH as [-> Hd]; set_solver.
Qed.

Lemma split_join d s : join d (split s d) = s /\ Forall (fun token => d ∉ token) (split s d) /\ split s d <> [].
Proof.
  unfold split. generalize (Nat.le_refl (length s)). generalize (length s) at 2 3 4 5 as fuel. intros fuel. revert s.
  induction fuel as [|fuel IH]; intros s Hle; cbn [split_loop]; pose proof (split_at_spec d s) as Hs;
    destruct (split_at d s) as [token [rest|]]; destruct Hs as [Hs Hd].
  - destruct s; [by destruct token|simpl in Hle; lia].
  - subst. split; [done|]. split; [by constructor|done].
  - destruct (IH rest) as (Hj & Hf & Hn); [subst s; rewrite length_app in Hle; simpl in Hle; lia|]. split; [|split; [by constructor|done]].
    subst s. destruct (split_loop fuel d rest) eqn:E; [done|]. by rewrite <-Hj.
  - subst. split; [done|]. split; [by constructor|done].
Qed.

(** The guard for an empty list of mappings is never taken: an empty string splits
    into one empty mapping. *)
Lemma SetQueueToCoreMapping_never_fails s m e m' : SetQueueToCoreMapping s m <> Ok (MakeError e, m').
Proof.
  unfold SetQueueToCoreMapping. destruct (split_join comma s) as (_ & _ & Hn). destruct (split s comma) as [|t ts]; [done|].
  intros H. by apply bind_Ok in H as (m1 & _ & ?).
Qed.

(** "0:3,1:-1" pins queue 0 to core 3; the core -1 becomes the largest unsigned
    number and, converted back to [int], no core. *)
Example mapping_sample :
  (r ← SetQueueToCoreMapping [48; 58; 51; 44; 49; 58; 45; 49] ∅; Ok (qcore 0 (snd r), qcore 1 (snd r), qcore 2 (snd r)))
  = Ok (3, -1, -1).
Proof. vm_compute. reflexivity. Qed.

(** "5" names no core. *)
Example mapping_unassigned : parse_mapping [53] = Fault Undefined.
Proof. reflexivity. Qed.
End BlkDevAgent.
